(** * BitMagic: a shallow embedding of [bm.h] and [bmxor.h]

    The development follows the two source files of the repository:

    - [bmxor.h]: the XOR-filter scanner ([bit_block_xor_change32],
      [compute_xor_complexity_descr]);
    - [bm.h]: the [bvector<>] container, its enumerator, the set-algebra
      entry points, rank/select, shift/insert and the range operations.

    Machine integers are modelled as [Z] with the wrap-around written out
    ([u16], [u32], [u64]); arrays are lists indexed with stdpp's lookup and
    insert; a block pointer is the four-valued slot
    NULL / FULL_BLOCK_FAKE_ADDR / bit-block / GAP-block.

    The headers [bmconst.h], [bmdef.h], [bmutil.h], [bmfunc.h], [bmblocks.h]
    and [bmrs.h] are not part of the sources at hand: every definition that
    stands for something declared there carries a comment starting with
    "Modelled from the spec:". *)

From stdpp Require Import base list.
From Stdlib Require Import ZArith Lia Bool.

Open Scope Z_scope.

(** ** Machine integers *)

Definition u16 (x : Z) : Z := x mod 2 ^ 16.
Definition u32 (x : Z) : Z := x mod 2 ^ 32.
Definition u64 (x : Z) : Z := x mod 2 ^ 64.

(** C's [!x] on an unsigned value. *)
Definition lognot (x : Z) : Z := if x =? 0 then 1 else 0.

(** Reading [p[i]] from an array of words; the embedding reads 0 outside
    the array, where the C code would be out of bounds. *)
Definition rd (a : list Z) (i : nat) : Z := default 0 (a !! i).

(** ** Constants of [bmconst.h] *)

(** Modelled from the spec: a block holds B = 65,536 bits, that is 2,048
    32-bit words ([bm::set_block_size]). *)
Definition set_block_size : Z := 2048.
(** Modelled from the spec: a wave is 1/64th of a block, 32 words of 32 bits
    ([bm::block_waves], [bm::set_block_digest_wave_size]). *)
Definition block_waves : nat := 64.
Definition set_block_digest_wave_size : nat := 32.

(** ** Primitives of [bmutil.h] and [bmfunc.h] used by [bmxor.h] *)

Fixpoint pos_bitcount (p : positive) : Z :=
  match p with
  | xH => 1
  | xO q => pos_bitcount q
  | xI q => 1 + pos_bitcount q
  end.

(** Modelled from the spec: [bm::word_bitcount] is the population count of a
    word. *)
Definition word_bitcount (w : Z) : Z :=
  match w with
  | Zpos p => pos_bitcount p
  | _ => 0
  end.

(** The words of wave [i] of a block: [block + i * wave_size], [wave_size]
    words long. *)
Definition wave_words (block : list Z) (i : nat) : list Z :=
  take set_block_digest_wave_size (drop (i * set_block_digest_wave_size) block).

(** Modelled from the spec: [bm::calc_block_digest0] returns the 64-bit word
    whose bit [i] is 1 iff the [i]-th wave of the block contains any set
    bit. *)
Definition wave_any (block : list Z) (i : nat) : bool :=
  existsb (fun w => negb (w =? 0)) (wave_words block i).

Definition calc_block_digest0 (block : list Z) : Z :=
  fold_left
    (fun d i => if wave_any block i then Z.lor d (Z.shiftl 1 (Z.of_nat i)) else d)
    (seq 0 block_waves) 0.

(** ** [bmxor.h] *)

Module bmxor.

(** [enum xor_complement_match] *)
Inductive xor_complement_match : Type :=
| e_no_xor_match
| e_xor_match_GC
| e_xor_match_BC
| e_xor_match_iBC
| e_xor_match_EQ.

(** The loop state of [bit_block_xor_change32]. *)
Record change_state : Type := mk_change_state {
  gap_count : Z;
  bit_count : Z;
  w_prev : Z
}.

Definition w_shift : Z := 31.

(** Before the loop: the first word. *)
Definition xor_change_first (b x : Z) : change_state :=
  let w0 := Z.lxor b x in
  let bit_count := u32 (0 + word_bitcount w0) in
  let w := Z.lxor w0 (Z.shiftr w0 1) in
  let gap_count := u32 (1 + word_bitcount w) in
  let w_prev := Z.shiftr w0 w_shift in
  mk_change_state (u32 (gap_count - w_prev)) bit_count w_prev.

(** One iteration of the [for] loop. *)
Definition xor_change_step (s : change_state) (b x : Z) : change_state :=
  let w0 := Z.lxor b x in
  let bit_count := u32 (bit_count s + word_bitcount w0) in
  let gap_count := u32 (gap_count s + 1) in
  if w0 =? 0 then
    mk_change_state (u32 (gap_count - lognot (w_prev s))) bit_count 0
  else
    let w := Z.lxor w0 (Z.shiftr w0 1) in
    let gap_count := u32 (gap_count + word_bitcount w) in
    let w_l := Z.land w0 1 in
    let gap_count := u32 (gap_count - Z.shiftr w0 w_shift) in
    let gap_count := u32 (gap_count - lognot (Z.lxor (w_prev s) w_l)) in
    mk_change_state gap_count bit_count (Z.shiftr w0 w_shift).

(** [bit_block_xor_change32(block, xor_block, size, &gc, &bc)]; the two
    pointers are given as an array and an offset into it. *)
Definition bit_block_xor_change32
    (block : list Z) (xor_block : list Z) (off : nat) (size : nat) : Z * Z :=
  let s0 := xor_change_first (rd block off) (rd xor_block off) in
  let s := fold_left
             (fun s k => xor_change_step s (rd block (off + k)) (rd xor_block (off + k)))
             (seq 1 (size - 1)) s0 in
  (gap_count s, bit_count s).

(** Without [VECT_BLOCK_XOR_CHANGE] the dispatcher is the scalar routine. *)
Definition bit_block_xor_change := bit_block_xor_change32.

(** [struct block_waves_xor_descr]: four arrays of [block_waves] unsigned
    shorts. *)
Record block_waves_xor_descr : Type := mk_descr {
  sb_gc : list Z;
  sb_bc : list Z;
  sb_xor_gc : list Z;
  sb_xor_bc : list Z
}.

(** Pass 1 of [compute_xor_complexity_descr]: every entry of the two XOR
    arrays is assigned, in index order. *)
Definition xor_descr_pass1
    (block xor_block : list Z) (x_descr : block_waves_xor_descr)
  : block_waves_xor_descr :=
  let m := fun i =>
    bit_block_xor_change block xor_block
      (i * set_block_digest_wave_size) set_block_digest_wave_size in
  mk_descr (sb_gc x_descr) (sb_bc x_descr)
           (map (fun i => u16 (fst (m i))) (seq 0 block_waves))
           (map (fun i => u16 (snd (m i))) (seq 0 block_waves)).

(** The accumulators of pass 2. *)
Record gains : Type := mk_gains {
  block_gc_gain : Z;
  block_bc_gain : Z;
  block_ibc_gain : Z;
  gc_digest : Z;
  bc_digest : Z;
  ibc_digest : Z
}.

Definition wave_max_bits : Z := Z.of_nat set_block_digest_wave_size * 32.

(** One iteration of the pass 2 loop, for wave [i]. *)
Definition xor_descr_pass2_step
    (d0 : Z) (x_descr : block_waves_xor_descr) (g : gains) (i : nat) : gains :=
  let dmask := Z.shiftl 1 (Z.of_nat i) in
  if negb (Z.land d0 dmask =? 0) then g
  else
    let xor_gc := rd (sb_xor_gc x_descr) i in
    let g :=
      if xor_gc <=? 1 then
        mk_gains (u32 (block_gc_gain g + rd (sb_gc x_descr) i))
                 (block_bc_gain g) (block_ibc_gain g)
                 (Z.lor (gc_digest g) dmask) (bc_digest g) (ibc_digest g)
      else if xor_gc <? rd (sb_gc x_descr) i then
        mk_gains (u32 (block_gc_gain g + u32 (rd (sb_gc x_descr) i - xor_gc)))
                 (block_bc_gain g) (block_ibc_gain g)
                 (Z.lor (gc_digest g) dmask) (bc_digest g) (ibc_digest g)
      else g in
    let xor_bc := rd (sb_xor_bc x_descr) i in
    let g :=
      if xor_bc <? rd (sb_bc x_descr) i then
        mk_gains (block_gc_gain g)
                 (u32 (block_bc_gain g + u32 (rd (sb_bc x_descr) i - xor_bc)))
                 (block_ibc_gain g)
                 (gc_digest g) (Z.lor (bc_digest g) dmask) (ibc_digest g)
      else g in
    let xor_ibc := u32 (wave_max_bits - xor_bc) in
    let wave_ibc := u32 (wave_max_bits - rd (sb_bc x_descr) i) in
    if xor_ibc <? wave_ibc then
      mk_gains (block_gc_gain g) (block_bc_gain g)
               (u32 (block_ibc_gain g + u32 (wave_ibc - xor_ibc)))
               (gc_digest g) (bc_digest g) (Z.lor (ibc_digest g) dmask)
    else g.

(** The digest of all-zero waves of a block, [~calc_block_digest0(block)]. *)
Definition zero_wave_mask (block : list Z) : Z :=
  u64 (Z.lnot (calc_block_digest0 block)).

(** Pass 2 as a whole: the three gain totals and their digests. *)
Definition xor_descr_pass2
    (block xor_block : list Z) (x_descr : block_waves_xor_descr) : gains :=
  let d0 := zero_wave_mask block in
  let x_descr := xor_descr_pass1 block xor_block x_descr in
  fold_left (xor_descr_pass2_step d0 x_descr) (seq 0 block_waves)
            (mk_gains 0 0 0 0 0 0).

(** What [compute_xor_complexity_descr] leaves in its four output
    parameters. *)
Record xor_result : Type := mk_xor_result {
  x_descr_out : block_waves_xor_descr;
  match_type : xor_complement_match;
  digest : Z;
  block_gain : Z
}.

Definition compute_xor_complexity_descr
    (block xor_block : list Z) (x_descr : block_waves_xor_descr) : xor_result :=
  let d0 := zero_wave_mask block in
  let x_descr' := xor_descr_pass1 block xor_block x_descr in
  let g := xor_descr_pass2 block xor_block x_descr in
  if Z.lor (Z.lor (block_gc_gain g) (block_bc_gain g)) (block_ibc_gain g) =? 0 then
    let d0_x := zero_wave_mask xor_block in
    if d0 =? d0_x then
      mk_xor_result x_descr' e_xor_match_GC d0 (Z.of_nat block_waves)
    else
      mk_xor_result x_descr' e_no_xor_match 0 0
  else if block_gc_gain g >? block_bc_gain g then
    if block_gc_gain g >? block_ibc_gain g then
      mk_xor_result x_descr' e_xor_match_GC (gc_digest g) (block_gc_gain g)
    else
      mk_xor_result x_descr' e_xor_match_iBC (ibc_digest g) (block_ibc_gain g)
  else
    if block_bc_gain g >? block_ibc_gain g then
      mk_xor_result x_descr' e_xor_match_BC (bc_digest g) (block_bc_gain g)
    else
      mk_xor_result x_descr' e_xor_match_iBC (ibc_digest g) (block_ibc_gain g).

(** The base descriptor of a target block, as the first phase of the filter
    leaves it.  [compute_complexity_descr] measures each wave with
    [bm::bit_block_change32] and [bm::bit_count_min_unroll], which are not
    among the sources.  Modelled from the spec: the per-wave (GC_T, BC_T) of
    the target; they are the GAP count and bit count that
    [bit_block_xor_change32] reports for the wave XOR-ed with nothing. *)
Definition compute_complexity_descr (block : list Z) : block_waves_xor_descr :=
  let zero := replicate (Z.to_nat set_block_size) 0 in
  let m := fun i =>
    bit_block_xor_change32 block zero
      (i * set_block_digest_wave_size) set_block_digest_wave_size in
  mk_descr (map (fun i => u16 (fst (m i))) (seq 0 block_waves))
           (map (fun i => u16 (snd (m i))) (seq 0 block_waves))
           (replicate block_waves 0) (replicate block_waves 0).

End bmxor.


(** ** Addressing constants of [bmconst.h] (32-bit address mode) *)

(** Modelled from the spec: positions are 0..2^32-1, a block holds 65,536
    bits, a sub-array 256 blocks, the top array up to 256 sub-arrays; a
    position decomposes by successive shifts.  [bm::id_max] is the largest
    32-bit value and is not a valid position. *)
Definition id_max : Z := 2 ^ 32 - 1.
Definition set_block_shift : Z := 16.
Definition set_block_mask : Z := 65535.
Definition set_word_shift : Z := 5.
Definition set_word_mask : Z := 31.
Definition set_array_shift : Z := 8.
Definition set_array_mask : Z := 255.
Definition set_sub_array_size : Z := 256.
Definition set_top_array_size : Z := 256.
Definition set_total_blocks : Z := 65536.
Definition bits_in_block : Z := 65536.
Definition bits_in_array : Z := 65536 * 256.
Definition gap_max_bits : Z := 65536.

(** Modelled from the spec: the four GAP capacity levels
    ([bm::gap_len_table<true>::_len]). *)
Definition gap_levels : Z := 4.
Definition gap_len_table : list Z := [128; 256; 512; 1024].

(** Modelled from the spec: the two sub-block borders of the rank-select
    index, at one and two thirds of a block ([bm::rs3_border0],
    [bm::rs3_border1], [bm::rs3_half_span]). *)
Definition rs3_border0 : Z := 21824.
Definition rs3_border1 : Z := rs3_border0 * 2.
Definition rs3_half_span : Z := rs3_border0 / 2.

(** [enum strategy], [enum operation], [enum sort_order] of [bmconst.h]. *)
Inductive strategy : Type := BM_BIT | BM_GAP.
Inductive operation : Type := BM_AND | BM_OR | BM_SUB | BM_XOR.

(** ** Bit-blocks ([bmfunc.h]) *)

(** The observable content of a block is the list of its 65,536 bit values,
    position 0 first.  The block primitives that are not among the sources
    are described by what they do to that list. *)

(** Iterating a loop body over the indices [0 .. n-1]. *)
Definition for_range {S : Type} (n : nat) (body : S -> nat -> S) (s0 : S) : S :=
  fold_left body (seq 0 n) s0.

(** The 32 bits of a word, least significant first. *)
Definition word_bits (w : Z) : list bool :=
  map (fun b => Z.testbit w (Z.of_nat b)) (seq 0 32).

(** A word assembled from its bits, least significant first. *)
Fixpoint word_of_bits (l : list bool) : Z :=
  match l with
  | [] => 0
  | b :: l' => Z.b2z b + 2 * word_of_bits l'
  end.

(** The bits of an array of words. *)
Definition bits_of_words (blk : list Z) : list bool :=
  concat (map word_bits blk).

(** [n] words assembled from a list of bits. *)
Fixpoint words_of_bits (n : nat) (l : list bool) : list Z :=
  match n with
  | O => []
  | S n' => word_of_bits (take 32 l) :: words_of_bits n' (drop 32 l)
  end.

(** The bit-block whose bits are [l]. *)
Definition bit_block_of (l : list bool) : list Z :=
  words_of_bits (Z.to_nat set_block_size) l.

(** Reading bit [nbit] of a bit-block, as [get_bit] does:
    [block[nbit >> set_word_shift] & (1u << (nbit & set_word_mask))]. *)
Definition bit_test (block : list Z) (nbit : Z) : bool :=
  let nword := Z.shiftr nbit set_word_shift in
  let w := rd block (Z.to_nat nword) in
  negb (Z.land w (Z.shiftl 1 (Z.land nbit set_word_mask)) =? 0).

Definition all_bits_mask : Z := 2 ^ 32 - 1.

(** Modelled from the spec: [bm::bit_block_set(dst, value)] fills a block
    with one word value. *)
Definition bit_block_set (value : Z) : list Z :=
  replicate (Z.to_nat set_block_size) value.

(** The process-static block of all ones behind [FULL_BLOCK_REAL_ADDR]. *)
Definition full_block_real : list Z := bit_block_set all_bits_mask.

(** Modelled from the spec: the in-place word-wise algebra of two
    bit-blocks, [bm::bit_block_or / _and / _xor / _sub] (SUB is AND NOT). *)
Definition bit_block_or (dst src : list Z) : list Z := zip_with Z.lor dst src.
Definition bit_block_and (dst src : list Z) : list Z := zip_with Z.land dst src.
Definition bit_block_xor (dst src : list Z) : list Z := zip_with Z.lxor dst src.
Definition bit_block_sub (dst src : list Z) : list Z :=
  zip_with (fun d s => Z.land d (Z.lxor all_bits_mask s)) dst src.

(** Modelled from the spec: [bm::bit_invert] flips every bit. *)
Definition bit_invert (blk : list Z) : list Z := map (Z.lxor all_bits_mask) blk.

(** Modelled from the spec: [bm::bit_is_all_zero], [bm::is_bits_one]. *)
Definition bit_is_all_zero (blk : list Z) : bool := forallb (fun w => w =? 0) blk.
Definition is_bits_one (blk : list Z) : bool := forallb (fun w => w =? all_bits_mask) blk.

(** Number of set bits in a list of bits. *)
Fixpoint count_bits (l : list bool) : Z :=
  match l with
  | [] => 0
  | b :: l' => Z.b2z b + count_bits l'
  end.

(** Number of set bits at the positions [left .. right] of a list. *)
Definition count_range_of (l : list bool) (left right : Z) : Z :=
  count_bits (take (Z.to_nat (right + 1 - left)) (drop (Z.to_nat left) l)).

(** Least position [>= pos] at which the list, which starts at position
    [pos], has a set bit. *)
Fixpoint find_first_of (l : list bool) (pos : Z) : option Z :=
  match l with
  | [] => None
  | b :: l' => if b then Some pos else find_first_of l' (pos + 1)
  end.

(** Greatest such position. *)
Fixpoint find_last_of (l : list bool) (pos : Z) : option Z :=
  match l with
  | [] => None
  | b :: l' =>
      match find_last_of l' (pos + 1) with
      | Some p => Some p
      | None => if b then Some pos else None
      end
  end.

(** Modelled from the spec: rank-in-block(target, from, &pos) scans from
    [from], decrements [target] for each set bit; on reaching zero it returns
    0 and the hitting position, otherwise the residual rank.  The list
    starts at position [pos]. *)
Fixpoint find_rank_of (l : list bool) (rank : Z) (pos : Z) : Z * Z :=
  match l with
  | [] => (rank, 0)
  | b :: l' =>
      if b then
        if rank - 1 =? 0 then (0, pos)
        else find_rank_of l' (rank - 1) (pos + 1)
      else find_rank_of l' rank (pos + 1)
  end.

(** Modelled from the spec: the population count of a block and of a closed
    range [left, right] of it ([bm::bit_block_count],
    [bm::bit_block_calc_count_range], [bm::bit_block_calc_count_to]). *)
Definition bit_block_count (blk : list Z) : Z :=
  fold_left (fun c w => c + word_bitcount w) blk 0.
Definition bit_block_calc_count_range (blk : list Z) (left right : Z) : Z :=
  count_range_of (bits_of_words blk) left right.
Definition bit_block_calc_count_to (blk : list Z) (right : Z) : Z :=
  count_range_of (bits_of_words blk) 0 right.

(** Modelled from the spec: find-first / find-last / find-from(n) return
    found + position ([bm::bit_find_first], [bm::bit_find_last],
    [bm::bit_block_find]); [bm::bit_find_rank] is rank-in-block. *)
Definition bit_find_first (blk : list Z) : option Z :=
  find_first_of (bits_of_words blk) 0.
Definition bit_find_last (blk : list Z) : option Z :=
  find_last_of (bits_of_words blk) 0.
Definition bit_block_find (blk : list Z) (nbit : Z) : option Z :=
  find_first_of (drop (Z.to_nat nbit) (bits_of_words blk)) nbit.
Definition bit_find_rank (blk : list Z) (rank : Z) (nbit_from : Z) : Z * Z :=
  find_rank_of (drop (Z.to_nat nbit_from) (bits_of_words blk)) rank nbit_from.

(** Modelled from the spec: shift-right-by-1 of a bit-block: each word is
    shifted, the carry-in enters at position 0, the carry-out leaves from
    position B-1, and the accumulator is the OR of all resulting words
    ([bm::bit_block_shift_r1_unr]). *)
Fixpoint bit_block_shift_r1_unr (block : list Z) (co_flag : Z)
  : list Z * Z * Z :=
  match block with
  | [] => ([], 0, co_flag)
  | w :: rest =>
      let co1 := Z.shiftr w 31 in
      let w' := Z.lor (u32 (Z.shiftl w 1)) co_flag in
      let '(rest', acc, co) := bit_block_shift_r1_unr rest co1 in
      (w' :: rest', Z.lor acc w', co)
  end.

(** Modelled from the spec: insert(n, v) puts a bit at position [n] of the
    block, moves the bits above it up by one and returns the bit shifted
    across the block boundary ([bm::bit_block_insert]). *)
Definition bit_block_insert (block : list Z) (bitpos : Z) (value : bool)
  : list Z * Z :=
  let l := bits_of_words block in
  let l' := take (Z.to_nat bitpos) l ++ value :: drop (Z.to_nat bitpos) l in
  (bit_block_of (take (Z.to_nat bits_in_block) l'),
   Z.b2z (default false (last l))).

(** ** GAP-blocks ([bmfunc.h]) *)

(** Modelled from the spec: a GAP-block is a header word followed by the
    strictly increasing end positions of its runs, the last one being B-1.
    The header's low bit is the value of the first run, the next two bits
    the capacity level, the remaining bits the number of runs; the runs
    alternate in value.  The embedding keeps exactly the used part of the
    buffer: [header :: ends]. *)
Definition gap_header (len level : Z) (first : bool) : Z :=
  Z.lor (Z.lor (Z.shiftl len 3) (Z.shiftl level 1)) (Z.b2z first).

Definition gap_first_bit (buf : list Z) : bool := Z.odd (rd buf 0).
Definition gap_level (buf : list Z) : Z := Z.land (Z.shiftr (rd buf 0) 1) 3.
Definition gap_length (buf : list Z) : Z := Z.shiftr (rd buf 0) 3.

(** Walking the runs: the value of the run that contains [pos]. *)
Fixpoint gap_scan (ends : list Z) (pos : Z) (v : bool) : bool :=
  match ends with
  | [] => v
  | e :: rest => if pos <=? e then v else gap_scan rest pos (negb v)
  end.

(** Modelled from the spec: [gap_bfind(n)] locates the run containing bit
    [n] and gives that run's bit value; [bm::gap_test_unr] is that value. *)
Definition gap_test_unr (buf : list Z) (pos : Z) : bool :=
  gap_scan (tail buf) pos (gap_first_bit buf).

Fixpoint gap_bfind_from (ends : list Z) (pos : Z) (idx : Z) : Z :=
  match ends with
  | [] => idx
  | e :: rest => if pos <=? e then idx else gap_bfind_from rest pos (idx + 1)
  end.

Definition gap_bfind (buf : list Z) (pos : Z) : Z * bool :=
  (gap_bfind_from (tail buf) pos 1, gap_test_unr buf pos).

(** The bits of the runs that end at [ends], the first of which starts at
    [start] and has value [v]. *)
Fixpoint gap_expand (ends : list Z) (start : Z) (v : bool) : list bool :=
  match ends with
  | [] => []
  | e :: rest =>
      replicate (Z.to_nat (e + 1 - start)) v ++ gap_expand rest (e + 1) (negb v)
  end.

(** The bits of a GAP-block. *)
Definition bits_of_gap (buf : list Z) : list bool :=
  gap_expand (tail buf) 0 (gap_first_bit buf).

(** The run ends of a list of bits that starts at position [pos], the run
    being extended having value [prev]. *)
Fixpoint gap_runs (l : list bool) (prev : bool) (pos : Z) : list Z :=
  match l with
  | [] => [pos - 1]
  | b :: l' =>
      if Bool.eqb b prev then gap_runs l' prev (pos + 1)
      else (pos - 1) :: gap_runs l' b (pos + 1)
  end.

(** The GAP-block of capacity level [level] whose bits are [l]. *)
Definition gap_block_of (level : Z) (l : list bool) : list Z :=
  match l with
  | [] => [gap_header 0 level false]
  | b :: l' =>
      let ends := gap_runs l' b 1 in
      gap_header (Z.of_nat (length ends)) level b :: ends
  end.

(** Modelled from the spec: every GAP-block never exceeds its level
    capacity ([bm::gap_limit]). *)
Definition gap_limit (buf : list Z) (glevel_len : list Z) : Z :=
  rd glevel_len (Z.to_nat (gap_level buf)).

(** Modelled from the spec: the least level whose capacity holds [len]
    runs, or [gap_levels] when none does ([bm::gap_calc_level]). *)
Definition gap_calc_level (len : Z) (glevel_len : list Z) : Z :=
  if len <=? rd glevel_len 0 then 0
  else if len <=? rd glevel_len 1 then 1
  else if len <=? rd glevel_len 2 then 2
  else if len <=? rd glevel_len 3 then 3
  else gap_levels.

(** The same buffer tagged with another capacity level. *)
Definition gap_set_level (buf : list Z) (level : Z) : list Z :=
  gap_header (gap_length buf) level (gap_first_bit buf) :: tail buf.

(** Modelled from the spec: [gap_op_{and,or,xor,sub}(a, b, dst, &len)]
    compute the operation into a scratch buffer and report the produced
    length. *)
Definition gap_operation (op : bool -> bool -> bool) (a b : list Z)
  : list Z * Z :=
  let res := gap_block_of 0 (zip_with op (bits_of_gap a) (bits_of_gap b)) in
  (res, gap_length res).

Definition gap_operation_or := gap_operation orb.
Definition gap_operation_and := gap_operation andb.
Definition gap_operation_xor := gap_operation xorb.
Definition gap_operation_sub := gap_operation (fun x y => x && negb y).

(** Modelled from the spec: [gap_set_value(v, n)] sets or clears bit [n] and
    returns the new block length; [is_set] tells whether the bit changed. *)
Definition gap_set_value (val : bool) (buf : list Z) (pos : Z)
  : list Z * Z * bool :=
  if Bool.eqb (gap_test_unr buf pos) val then (buf, gap_length buf, false)
  else
    let res := gap_block_of (gap_level buf)
                 (<[Z.to_nat pos := val]> (bits_of_gap buf)) in
    (res, gap_length res, true).

(** Modelled from the spec: [gap_shift_r1] shifts by one bit and returns the
    carry and the new length. *)
Definition gap_shift_r1 (buf : list Z) (co_flag : Z) : list Z * Z * Z :=
  let l := bits_of_gap buf in
  let res := gap_block_of (gap_level buf)
               (take (Z.to_nat gap_max_bits) (negb (co_flag =? 0) :: l)) in
  (res, Z.b2z (default false (last l)), gap_length res).

(** Modelled from the spec: [gap_invert] flips the header's value bit. *)
Definition gap_invert (buf : list Z) : list Z :=
  match buf with
  | [] => []
  | h :: ends => Z.lxor h 1 :: ends
  end.

(** Modelled from the spec: population queries of a GAP-block. *)
Definition gap_bit_count_range (buf : list Z) (left right : Z) : Z :=
  count_range_of (bits_of_gap buf) left right.
Definition gap_bit_count_to (buf : list Z) (right : Z) : Z :=
  count_range_of (bits_of_gap buf) 0 right.
Definition gap_bit_count (buf : list Z) : Z := count_bits (bits_of_gap buf).

Definition gap_find_first (buf : list Z) : option Z :=
  find_first_of (bits_of_gap buf) 0.
Definition gap_find_last (buf : list Z) : option Z :=
  find_last_of (bits_of_gap buf) 0.
Definition gap_block_find (buf : list Z) (nbit : Z) : option Z :=
  find_first_of (drop (Z.to_nat nbit) (bits_of_gap buf)) nbit.
Definition gap_find_rank (buf : list Z) (rank : Z) (nbit_from : Z) : Z * Z :=
  find_rank_of (drop (Z.to_nat nbit_from) (bits_of_gap buf)) rank nbit_from.

(** A block of one run. *)
Definition gap_is_all_zero (buf : list Z) : bool :=
  negb (gap_first_bit buf) && (rd buf 1 =? gap_max_bits - 1).
Definition gap_is_all_one (buf : list Z) : bool :=
  gap_first_bit buf && (rd buf 1 =? gap_max_bits - 1).

(** Modelled from the spec: materialisation of a GAP-block as a bit-block
    ([bm::gap_convert_to_bitset]) and the combination of a GAP-block into an
    existing bit-block ([bm::gap_add_to_bitset], [gap_and_to_bitset],
    [gap_sub_to_bitset], [gap_xor_to_bitset]). *)
Definition gap_convert_to_bitset (buf : list Z) : list Z :=
  bit_block_of (bits_of_gap buf).
Definition gap_add_to_bitset (dest buf : list Z) : list Z :=
  bit_block_or dest (gap_convert_to_bitset buf).
Definition gap_and_to_bitset (dest buf : list Z) : list Z :=
  bit_block_and dest (gap_convert_to_bitset buf).
Definition gap_sub_to_bitset (dest buf : list Z) : list Z :=
  bit_block_sub dest (gap_convert_to_bitset buf).
Definition gap_xor_to_bitset (dest buf : list Z) : list Z :=
  bit_block_xor dest (gap_convert_to_bitset buf).

(** Modelled from the spec: the scratch GAP of the range operations,
    [[0,l-1] = not v, [l,r] = v, [r+1,B-1] = not v]
    ([bm::gap_init_range_block]). *)
Definition gap_init_range_block (from to : Z) (value : bool) : list Z :=
  gap_block_of 0
    (replicate (Z.to_nat from) (negb value)
     ++ replicate (Z.to_nat (to + 1 - from)) value
     ++ replicate (Z.to_nat (gap_max_bits - 1 - to)) (negb value)).

(** Modelled from the spec: [bm::gap_set_all] makes a block of one run. *)
Definition gap_set_all (level : Z) (value : bool) : list Z :=
  [gap_header 1 level value; gap_max_bits - 1].

(** Modelled from the spec: the GAP encoding of a bit-block
    ([bm::bit_convert_to_gap]). *)
Definition bit_convert_to_gap (blk : list Z) : list Z :=
  gap_block_of 0 (bits_of_words blk).

(** ** Block slots ([bmdef.h]) *)

(** Modelled from the spec: a block slot is one machine pointer with the
    distinguishable values NULL, FULL (the shared sentinel
    [FULL_BLOCK_FAKE_ADDR]), or a heap allocation tagged as a bit-block or a
    GAP-block. *)
Inductive block : Type :=
| BNull
| BFull
| BBit (w : list Z)
| BGap (g : list Z).

(** Modelled from the spec: a sub-array is an array of 256 block slots, or
    FULL ("all blocks are full"), or NULL ("all blocks are zero"). *)
Inductive subarray : Type :=
| SNull
| SFull
| SArr (blocks : list block).

(** The pointer tests of [bmdef.h]. *)
Definition BM_IS_GAP (b : block) : bool :=
  match b with BGap _ => true | _ => false end.
Definition IS_VALID_ADDR (b : block) : bool :=
  match b with BBit _ | BGap _ => true | _ => false end.
Definition IS_FULL_BLOCK (b : block) : bool :=
  match b with BFull => true | _ => false end.
Definition is_null (b : block) : bool :=
  match b with BNull => true | _ => false end.
Definition sub_is_null (s : subarray) : bool :=
  match s with SNull => true | _ => false end.
Definition sub_is_full (s : subarray) : bool :=
  match s with SFull => true | _ => false end.

(** Modelled from the spec: readers resolve FULL to the process-static
    all-ones block ([BLOCK_ADDR_SAN], [FULL_BLOCK_REAL_ADDR]). *)
Definition BLOCK_ADDR_SAN (b : block) : block :=
  match b with BFull => BBit full_block_real | _ => b end.

(** [BMGAP_PTR] and the word array behind a pointer. *)
Definition BMGAP_PTR (b : block) : list Z :=
  match b with BGap g => g | _ => [] end.
Definition bit_words (b : block) : list Z :=
  match b with BBit w => w | BFull => full_block_real | _ => [] end.

(** Equality of two block pointers taken from the same slot of two vectors:
    NULL and FULL are shared values, a heap block belongs to one vector. *)
Definition block_ptr_eq (same_vector : bool) (a b : block) : bool :=
  match a, b with
  | BNull, BNull => true
  | BFull, BFull => true
  | BBit _, BBit _ => same_vector
  | BGap _, BGap _ => same_vector
  | _, _ => false
  end.

Definition sub_ptr_eq (same_vector : bool) (a b : subarray) : bool :=
  match a, b with
  | SNull, SNull => true
  | SFull, SFull => true
  | SArr _, SArr _ => same_vector
  | _, _ => false
  end.

(** The 65,536 bits a slot stands for. *)
Definition block_bits (b : block) : list bool :=
  match b with
  | BNull => replicate (Z.to_nat bits_in_block) false
  | BFull => replicate (Z.to_nat bits_in_block) true
  | BBit w => bits_of_words w
  | BGap g => bits_of_gap g
  end.

(** [FULL_SUB_BLOCK_REAL_ADDR]: the sub-array whose slots are all FULL. *)
Definition full_sub_block_real : list block :=
  replicate (Z.to_nat set_sub_array_size) BFull.
Definition null_sub_block : list block :=
  replicate (Z.to_nat set_sub_array_size) BNull.

(** Slot [j] of a sub-array pointer, FULL resolved to its real address. *)
Definition sub_block (s : subarray) (j : nat) : block :=
  match s with
  | SNull => BNull
  | SFull => BFull
  | SArr l => default BNull (l !! j)
  end.

(** Modelled from the spec: coordinate decoding is shift and mask only
    ([get_block_coord]). *)
Definition get_block_coord (nb : Z) : nat * nat :=
  (Z.to_nat (Z.shiftr nb set_array_shift), Z.to_nat (Z.land nb set_array_mask)).

(** ** The blocks manager ([bmblocks.h]) *)

Module blocks_manager.

(** Modelled from the spec: the manager owns the top array, a growable array
    of sub-array slots, and the GAP capacity table.  [top_blocks_ = None] is
    the uninitialised manager.  Allocation never fails in the embedding, and
    the allocator pool and the cached temp block, which hold no bits, are
    left out. *)
Record t : Type := mk {
  top_blocks_ : option (list subarray);
  glevel_len_ : list Z
}.

Definition is_init (bm : t) : bool :=
  match top_blocks_ bm with Some _ => true | None => false end.

Definition top_blocks_root (bm : t) : list subarray :=
  default [] (top_blocks_ bm).

Definition top_block_size (bm : t) : nat := length (top_blocks_root bm).

Definition glen (bm : t) : list Z := glevel_len_ bm.

Definition set_root (bm : t) (root : list subarray) : t :=
  mk (Some root) (glevel_len_ bm).

(** [get_topblock(i)]: NULL outside the top array. *)
Definition get_topblock (bm : t) (i : nat) : subarray :=
  default SNull (top_blocks_root bm !! i).

(** Modelled from the spec: [get_block(i,j)] returns the raw tagged slot
    (NULL, FULL, or a concrete pointer); so does [get_block_ptr(i,j)]. *)
Definition get_block_ptr (bm : t) (i j : nat) : block :=
  sub_block (get_topblock bm i) j.
Definition get_block (bm : t) (i j : nat) : block := get_block_ptr bm i j.

(** [init_tree]: the top array is created with one NULL slot and grows on
    reserve. *)
Definition init_tree (bm : t) : t :=
  match top_blocks_ bm with
  | Some _ => bm
  | None => set_root bm [SNull]
  end.

(** [deinit_tree]: every block, sub-array and the top array are freed. *)
Definition deinit_tree (bm : t) : t := mk None (glevel_len_ bm).

(** [reserve_top_blocks(top_blocks)]: grows the top array to at least
    [top_blocks] slots, the new ones NULL; returns the resulting size. *)
Definition reserve_top_blocks (bm : t) (top_blocks : nat) : t * nat :=
  match top_blocks_ bm with
  | Some root =>
      if (top_blocks <=? length root)%nat then (bm, length root)
      else (set_root bm (root ++ replicate (top_blocks - length root) SNull),
            top_blocks)
  | None =>
      if (top_blocks =? 0)%nat then (bm, 0%nat)
      else (set_root bm (replicate top_blocks SNull), top_blocks)
  end.

(** [reserve(max_bits)]: the top array covers [max_bits] positions. *)
Definition compute_top_block_size (bits_to_store : Z) : nat :=
  if bits_to_store =? id_max then Z.to_nat set_top_array_size
  else
    let top_block_sz := bits_to_store / bits_in_array in
    Z.to_nat (if top_block_sz <? set_sub_array_size then top_block_sz + 1
              else top_block_sz).

Definition reserve (bm : t) (max_bits : Z) : t :=
  if max_bits =? 0 then bm
  else fst (reserve_top_blocks bm (compute_top_block_size max_bits)).

(** Storing a sub-array pointer, [top_blocks_[i] = ...]. *)
Definition set_topblock (bm : t) (i : nat) (s : subarray) : t :=
  match top_blocks_ bm with
  | Some root => set_root bm (<[i := s]> root)
  | None => bm
  end.

(** [alloc_top_subblock(i)]: a fresh sub-array of NULL slots. *)
Definition alloc_top_subblock (bm : t) (i : nat) : t :=
  set_topblock bm i (SArr null_sub_block).

(** [free_top_subblock(i)]: releases the (empty) sub-array. *)
Definition free_top_subblock (bm : t) (i : nat) : t :=
  set_topblock bm i SNull.

(** [deallocate_top_subblock(i)]: frees the blocks of the sub-array and the
    sub-array. *)
Definition deallocate_top_subblock (bm : t) (i : nat) : t :=
  set_topblock bm i SNull.

(** [check_alloc_top_subblock(i)]: a real sub-array in slot [i]; a NULL slot
    becomes 256 NULL blocks and a FULL slot 256 FULL blocks. *)
Definition check_alloc_top_subblock (bm : t) (i : nat) : t :=
  match get_topblock bm i with
  | SNull => set_topblock bm i (SArr null_sub_block)
  | SFull => set_topblock bm i (SArr full_sub_block_real)
  | SArr _ => bm
  end.

(** [set_block_ptr(i, j, block)]: the raw store [top_blocks_[i][j] = block]
    into an allocated sub-array. *)
Definition set_block_ptr (bm : t) (i j : nat) (blk : block) : t :=
  match get_topblock bm i with
  | SArr l => set_topblock bm i (SArr (<[j := blk]> l))
  | _ => bm
  end.

(** [set_block(i, j, block, gap)] and [set_block(nb, block)]: the store that
    first makes sure the top array reaches [i] and the sub-array exists. *)
Definition set_block (bm : t) (i j : nat) (blk : block) : t :=
  let bm := fst (reserve_top_blocks bm (i + 1)) in
  let bm := check_alloc_top_subblock bm i in
  set_block_ptr bm i j blk.

Definition set_block_nb (bm : t) (nb : Z) (blk : block) : t :=
  let '(i, j) := get_block_coord nb in set_block bm i j blk.

(** [zero_block(i, j)] and [zero_block(nb)]: frees the block and leaves NULL
    in its slot; nothing to do in a NULL sub-array. *)
Definition zero_block (bm : t) (i j : nat) : t :=
  match get_topblock bm i with
  | SNull => bm
  | _ => set_block_ptr (check_alloc_top_subblock bm i) i j BNull
  end.

Definition zero_block_nb (bm : t) (nb : Z) : t :=
  let '(i, j) := get_block_coord nb in zero_block bm i j.

(** Modelled from the spec: a GAP buffer is stored at the least level that
    holds it, and converted to a bit-block beyond the largest level
    ([clone_gap_block(gap_block, &gap_res)]). *)
Definition clone_gap_block (bm : t) (gap_block : list Z) : block :=
  let level := gap_calc_level (gap_length gap_block) (glen bm) in
  if level =? gap_levels then BBit (gap_convert_to_bitset gap_block)
  else BGap (gap_set_level gap_block level).

(** [clone_gap_block(i, j, gap_block, len)]: the same, into slot (i,j). *)
Definition clone_gap_block_at (bm : t) (i j : nat) (gap_block : list Z) : t :=
  set_block_ptr bm i j (clone_gap_block bm gap_block).

(** Modelled from the spec: [clone_assign_block(i, j, src, invert = false)]
    is a deep copy; the invert flag produces the complement. *)
Definition clone_block (src : block) (invert : bool) : block :=
  match src with
  | BNull => if invert then BFull else BNull
  | BFull => if invert then BNull else BFull
  | BBit w => BBit (if invert then bit_invert w else w)
  | BGap g => BGap (if invert then gap_invert g else g)
  end.

Definition clone_assign_block (bm : t) (i j : nat) (src : block) (invert : bool) : t :=
  set_block_ptr bm i j (clone_block src invert).

(** Modelled from the spec: [assign_gap] stores the result of a GAP
    operation in the slot, promoting the level or converting to a bit-block
    as its length requires; [assign_gap_check] first replaces an all-zero
    result by NULL. *)
Definition assign_gap (bm : t) (i j : nat) (res : list Z) : t :=
  set_block bm i j (clone_gap_block bm res).

Definition assign_gap_nb (bm : t) (nb : Z) (res : list Z) : t :=
  let '(i, j) := get_block_coord nb in assign_gap bm i j res.

Definition assign_gap_check (bm : t) (i j : nat) (res : list Z) : t :=
  if gap_is_all_zero res then zero_block bm i j
  else assign_gap bm i j res.

(** Modelled from the spec: [convert_gap2bitset] and [deoptimize_block]
    replace a GAP or FULL block with an equivalent bit-block. *)
Definition convert_gap2bitset (bm : t) (i j : nat) (gap_blk : list Z) : t :=
  set_block_ptr bm i j (BBit (gap_convert_to_bitset gap_blk)).

Definition deoptimize_block (bm : t) (nb : Z) : t :=
  let '(i, j) := get_block_coord nb in
  match get_block_ptr bm i j with
  | BGap g => set_block bm i j (BBit (gap_convert_to_bitset g))
  | BFull => set_block bm i j (BBit full_block_real)
  | _ => bm
  end.

(** Modelled from the spec: [optimize_bit_block] frees an all-zero
    bit-block, collapses an all-one bit-block to FULL, and compresses a
    bit-block to a GAP-block when the length fits into some level. *)
Definition optimize_bit_block (bm : t) (i j : nat) : t :=
  match get_block_ptr bm i j with
  | BBit w =>
      if bit_is_all_zero w then set_block_ptr bm i j BNull
      else if is_bits_one w then set_block_ptr bm i j BFull
      else
        let g := bit_convert_to_gap w in
        let level := gap_calc_level (gap_length g) (glen bm) in
        if level =? gap_levels then bm
        else set_block_ptr bm i j (BGap (gap_set_level g level))
  | _ => bm
  end.

(** Modelled from the spec: [check_allocate_block(nb, val, strat,
    &out_type)] ensures a concrete block exists, respecting the allocation
    strategy; it returns NULL iff [val == false] and the block would
    otherwise be created just to hold zeros.  The result is the manager, the
    block found or made, and its type (0 bit, 1 GAP). *)
Definition check_allocate_block
    (bm : t) (nb : Z) (content_flag : bool) (initial_block_type : strategy)
    (allow_null_ret : bool) : t * block * Z :=
  let '(i, j) := get_block_coord nb in
  let block := get_block_ptr bm i j in
  if IS_VALID_ADDR block then (bm, block, Z.b2z (BM_IS_GAP block))
  else
    let block_flag := IS_FULL_BLOCK block in
    let actual := match initial_block_type with BM_BIT => 0 | BM_GAP => 1 end in
    if negb block_flag && negb content_flag && allow_null_ret then (bm, BNull, actual)
    else
      let new_blk :=
        match initial_block_type with
        | BM_BIT => BBit (bit_block_set (if block_flag then all_bits_mask else 0))
        | BM_GAP => BGap (gap_set_all 0 block_flag)
        end in
      (set_block bm i j new_blk, new_blk, actual).

(** [check_allocate_block(nb, strat)]: the overload that always returns a
    concrete block. *)
Definition check_allocate_block2 (bm : t) (nb : Z) (initial_block_type : strategy)
  : t * block :=
  let '(bm', blk, _) := check_allocate_block bm nb true initial_block_type false in
  (bm', blk).

(** Modelled from the spec: overflow of a GAP-block promotes it to the next
    level, and beyond the largest level the block is converted to a
    bit-block ([extend_gap_block]). *)
Definition extend_gap_block (bm : t) (nb : Z) (blk : list Z) : t :=
  let '(i, j) := get_block_coord nb in
  let level := gap_level blk in
  if level =? gap_levels - 1 then set_block_ptr bm i j (BBit (gap_convert_to_bitset blk))
  else set_block_ptr bm i j (BGap (gap_set_level blk (level + 1))).

(** Modelled from the spec: [block_bitcount] is the population count of a
    concrete or FULL block. *)
Definition block_bitcount (b : block) : Z :=
  match b with
  | BNull => 0
  | BFull => bits_in_block
  | BBit w => bit_block_count w
  | BGap g => gap_bit_count g
  end.

(** Modelled from the spec: [set_all_zero(free_mem)] clears every bit; with
    [free_mem] the tree itself is released. *)
Definition set_all_zero (bm : t) (free_mem : bool) : t :=
  match top_blocks_ bm with
  | None => bm
  | Some root =>
      if free_mem then deinit_tree bm
      else set_root bm (replicate (length root) SNull)
  end.

(** Storing one block value in every slot [nb .. nb_to]. *)
Definition fill_blocks (bm : t) (nb nb_to : Z) (blk : block) : t :=
  for_range (Z.to_nat (nb_to + 1 - nb))
    (fun bm k =>
       let '(i, j) := get_block_coord (nb + Z.of_nat k) in
       match blk with
       | BNull => zero_block bm i j
       | _ => set_block bm i j blk
       end) bm.

(** Modelled from the spec: [set_all_zero(range)] and [set_all_set(range)]
    fill whole blocks [nb .. nb_to] with NULL and FULL. *)
Definition set_all_zero_range (bm : t) (nb nb_to : Z) : t :=
  fill_blocks bm nb nb_to BNull.
Definition set_all_set (bm : t) (nb nb_to : Z) : t :=
  fill_blocks bm nb nb_to BFull.

(** Modelled from the spec: [copy(blockman)] is the deep copy behind the
    assignment operator; [copy(blockman, nb_left, nb_right)] copies the
    blocks of a range only. *)
Definition copy (bm : t) (src : t) : t :=
  mk (top_blocks_ src) (glevel_len_ bm).

Definition copy_range (bm : t) (src : t) (nb_left nb_right : Z) : t :=
  let bm := fst (reserve_top_blocks bm (top_block_size src)) in
  for_range (Z.to_nat (nb_right + 1 - nb_left))
    (fun bm k =>
       let '(i, j) := get_block_coord (nb_left + Z.of_nat k) in
       match get_block_ptr src i j with
       | BNull => bm
       | blk => set_block bm i j blk
       end) bm.

(** Modelled from the spec: the number of top slots up to the last one that
    is not NULL ([find_max_top_blocks]), and the number of top slots that
    hold a real sub-array ([find_real_top_blocks]). *)
Fixpoint find_max_top (root : list subarray) (n : nat) : nat :=
  match n with
  | O => O
  | S n' => if sub_is_null (default SNull (root !! n')) then find_max_top root n'
            else n
  end.

Definition find_max_top_blocks (bm : t) : nat :=
  find_max_top (top_blocks_root bm) (top_block_size bm).

Definition find_real_top_blocks (bm : t) : nat :=
  length (List.filter (fun s => match s with SArr _ => true | _ => false end)
                      (top_blocks_root bm)).

End blocks_manager.

(** ** The rank-select index ([bmrs.h]) *)

Module rs_index.

(** Modelled from the spec: for each block the index stores the block
    bit-count and the two sub-range counts, the bits in [0, border0] in the
    low half-word and the bits in (border0, border1] in the high half-word
    of [sub_count]; [rcount(nb)] is the running total up to and including
    block [nb].  [total_] is the number of blocks covered. *)
Record t : Type := mk {
  total_ : Z;
  bcount_ : list Z;
  sub_count_ : list Z
}.

Definition init : t := mk 0 [] [].

Definition get_total (rs : t) : Z := total_ rs.

(** [resize(new_size)] and [set_total(n)]. *)
Definition resize (rs : t) (new_size : Z) : t :=
  let n := Z.to_nat (((new_size + set_sub_array_size - 1) / set_sub_array_size)
                      * set_sub_array_size) in
  mk (total_ rs) (replicate n 0) (replicate n 0).

Definition set_total (rs : t) (n : Z) : t :=
  mk n (bcount_ rs) (sub_count_ rs).

(** Writing the 256 entries of super-block [i]; the arrays grow when the
    super-block lies beyond them. *)
Definition splice (l : list Z) (i : nat) (new : list Z) : list Z :=
  let off := (i * Z.to_nat set_sub_array_size)%nat in
  take off (l ++ replicate (off - length l) 0) ++ new
  ++ drop (off + Z.to_nat set_sub_array_size) l.

Definition register_super_block (rs : t) (i : nat) (bcount sub_count : list Z) : t :=
  mk (total_ rs) (splice (bcount_ rs) i bcount) (splice (sub_count_ rs) i sub_count).

(** Modelled from the spec: for NULL blocks the build stores zeros, for FULL
    blocks (B, border0+1, border1-border0). *)
Definition full_sub_count : Z :=
  Z.lor (rs3_border0 + 1) (Z.shiftl (rs3_border1 - rs3_border0) 16).

Definition set_null_super_block (rs : t) (i : nat) : t :=
  register_super_block rs i
    (replicate (Z.to_nat set_sub_array_size) 0)
    (replicate (Z.to_nat set_sub_array_size) 0).

Definition set_full_super_block (rs : t) (i : nat) : t :=
  register_super_block rs i
    (replicate (Z.to_nat set_sub_array_size) bits_in_block)
    (replicate (Z.to_nat set_sub_array_size) full_sub_count).

(** [count(nb)], [sub_count(nb)], [rcount(nb)] and the total [count()]. *)
Definition count_nb (rs : t) (nb : Z) : Z := rd (bcount_ rs) (Z.to_nat nb).
Definition sub_count (rs : t) (nb : Z) : Z := rd (sub_count_ rs) (Z.to_nat nb).

Fixpoint sum_list (l : list Z) : Z :=
  match l with
  | [] => 0
  | x :: l' => x + sum_list l'
  end.

Definition rcount (rs : t) (nb : Z) : Z :=
  sum_list (take (Z.to_nat (nb + 1)) (bcount_ rs)).

Definition count (rs : t) : Z :=
  if total_ rs =? 0 then 0 else rcount rs (total_ rs - 1).

(** Modelled from the spec: [find_sub_range(nbit)] maps a bit position to
    {0,1,2} using border0 and border1. *)
Definition find_sub_range (nbit : Z) : Z :=
  if nbit <=? rs3_border0 then 0
  else if nbit <=? rs3_border1 then 1
  else 2.

(** The first block at or after [nb] whose running total, [acc] so far,
    reaches [rank]. *)
Fixpoint find_block (counts : list Z) (rank : Z) (nb : Z) (acc : Z)
  : option (Z * Z) :=
  match counts with
  | [] => None
  | c :: rest =>
      if rank <=? acc + c then Some (nb, acc)
      else find_block rest rank (nb + 1) (acc + c)
  end.

(** Modelled from the spec: [find(rank, &nb, &sub_from)] searches the first
    block whose [rcount] is at least [rank], then chooses the sub-range from
    the two sub-counts; it returns the residual rank within the chosen
    sub-range and the sub-range's starting bit. *)
Definition find (rs : t) (rank : Z) : option (Z * Z * Z) :=
  match find_block (take (Z.to_nat (total_ rs)) (bcount_ rs)) rank 0 0 with
  | None => None
  | Some (nb, before) =>
      let rank := rank - before in
      let sub_cnt := sub_count rs nb in
      let first := Z.land sub_cnt 65535 in
      let second := Z.shiftr sub_cnt 16 in
      if rank <=? first then Some (rank, nb, 0)
      else if rank <=? first + second then Some (rank - first, nb, rs3_border0 + 1)
      else Some (rank - first - second, nb, rs3_border1 + 1)
  end.

End rs_index.

(** ** Results of operations that can signal an error *)

(** [BM_ERR_RANGE] of [bmdef.h]. *)
Inductive error_code : Type := BM_ERR_RANGE.

(** An operation returns, throws, or, for the two mutually recursive
    entry points that are unfolded to a fixed depth, is cut off. *)
Inductive outcome (A : Type) : Type :=
| Done (a : A)
| Throw (e : error_code)
| Cut.
Arguments Done {A} a.
Arguments Throw {A} e.
Arguments Cut {A}.

Definition obind {A B : Type} (o : outcome A) (k : A -> outcome B) : outcome B :=
  match o with
  | Done a => k a
  | Throw e => Throw e
  | Cut => Cut
  end.

Notation "'do' x <- e ; k" := (obind e (fun x => k))
  (at level 10, x name, e at level 100, k at level 200).

Definition omap {A B : Type} (f : A -> B) (o : outcome A) : outcome B :=
  do a <- o; Done (f a).

(** Modelled from the spec: [bm::bit_operation_{or,and,xor,sub}(dst, src)]
    combine a destination slot with an argument block of bit type, in place
    when the destination is a heap bit-block.  The pointer they return is
    the destination (with its new content), the argument, NULL or FULL. *)
Inductive op_ptr : Type :=
| ret_dst (w : list Z)
| ret_arg
| ret_null
| ret_full.

Definition nonzero_or_null (w : list Z) : op_ptr :=
  if bit_is_all_zero w then ret_null else ret_dst w.

Definition bit_operation_or (dst src : block) : op_ptr :=
  match dst, src with
  | BBit w, BBit a => ret_dst (bit_block_or w a)
  | BBit w, BFull => ret_full
  | BBit w, _ => ret_dst w
  | BFull, _ => ret_full
  | _, BNull => ret_null
  | _, _ => ret_arg
  end.

Definition bit_operation_and (dst src : block) : op_ptr :=
  match dst, src with
  | BBit w, BBit a => nonzero_or_null (bit_block_and w a)
  | BBit w, BFull => ret_dst w
  | BBit w, _ => ret_null
  | BFull, BFull => ret_full
  | BFull, BBit _ => ret_arg
  | _, _ => ret_null
  end.

Definition bit_operation_xor (dst src : block) : op_ptr :=
  match dst, src with
  | BBit w, BBit a => nonzero_or_null (bit_block_xor w a)
  | BBit w, BFull => ret_dst (bit_invert w)
  | BBit w, _ => ret_dst w
  | BFull, BFull => ret_null
  | BFull, BBit _ => ret_arg
  | BFull, _ => ret_full
  | _, BNull => ret_null
  | _, _ => ret_arg
  end.

Definition bit_operation_sub (dst src : block) : op_ptr :=
  match dst, src with
  | BBit w, BBit a => nonzero_or_null (bit_block_sub w a)
  | BBit w, BFull => ret_null
  | BBit w, _ => ret_dst w
  | BFull, BFull => ret_null
  | BFull, BBit _ => ret_arg
  | BFull, _ => ret_full
  | _, _ => ret_null
  end.

(** Modelled from the spec: [bm::gap_convert_to_bitset_smart] materialises
    a GAP-block in the temp block, but gives NULL for the all-zero and FULL
    for the all-one block. *)
Definition gap_convert_to_bitset_smart (buf : list Z) : block :=
  if rd buf 1 =? gap_max_bits - 1 then
    if gap_first_bit buf then BFull else BNull
  else BBit (gap_convert_to_bitset buf).

(** [operation_functions<true>::gap_operation(opcode)] and
    [gap_op_to_bit(opcode)]: the dispatch tables. *)
Definition gap_operation_func (opcode : operation) : list Z -> list Z -> list Z * Z :=
  match opcode with
  | BM_AND => gap_operation_and
  | BM_OR => gap_operation_or
  | BM_SUB => gap_operation_sub
  | BM_XOR => gap_operation_xor
  end.

Definition gap_op_to_bit (opcode : operation) : list Z -> list Z -> list Z :=
  match opcode with
  | BM_AND => gap_and_to_bitset
  | BM_OR => gap_add_to_bitset
  | BM_SUB => gap_sub_to_bitset
  | BM_XOR => gap_xor_to_bitset
  end.

(** [bm::xor_swap]. *)
Definition xor_swap (x y : Z) : Z * Z :=
  let x := Z.lxor x y in
  let y := Z.lxor y x in
  let x := Z.lxor x y in
  (x, y).

(** ** The bit-vector ([bm.h]) *)

Module bvector.

(** [enum optmode] *)
Inductive optmode : Type := opt_none | opt_free_0 | opt_free_01 | opt_compress.

(** The three data members of [bvector<Alloc>]. *)
Record t : Type := mk {
  blockman_ : blocks_manager.t;
  new_blocks_strat_ : strategy;
  size_ : Z
}.

Definition with_blockman (bv : t) (bm : blocks_manager.t) : t :=
  mk bm (new_blocks_strat_ bv) (size_ bv).
Definition with_size (bv : t) (sz : Z) : t :=
  mk (blockman_ bv) (new_blocks_strat_ bv) sz.

(** The constructor [bvector(strat, glevel_len, bv_size)]. *)
Definition create (strat : strategy) (glevel_len : list Z) (bv_size : Z) : t :=
  mk (blocks_manager.mk None glevel_len) strat bv_size.

Definition size (bv : t) : Z := size_ bv.
Definition get_new_blocks_strat (bv : t) : strategy := new_blocks_strat_ bv.
Definition is_init (bv : t) : bool := blocks_manager.is_init (blockman_ bv).

(** [init()] *)
Definition init (bv : t) : t :=
  if negb (is_init bv) then with_blockman bv (blocks_manager.init_tree (blockman_ bv))
  else bv.

(** The read of [get_bit(n)]: what the member returns once its range check
    [BM_ASSERT_THROW((n < size_), BM_ERR_RANGE)] has passed.  The member
    with the check is [bvector_checked.get_bit]. *)
Definition get_bit (bv : t) (n : Z) : bool :=
  let nb := Z.shiftr n set_block_shift in
  let '(i, j) := get_block_coord nb in
  let block := blocks_manager.get_block_ptr (blockman_ bv) i j in
  if negb (is_null block) then
    let nbit := Z.land n set_block_mask in
    if BM_IS_GAP block then gap_test_unr (BMGAP_PTR block) nbit
    else if IS_FULL_BLOCK block then true
    else bit_test (bit_words block) nbit
  else false.


(** [clear(free_mem)] *)
Definition clear (bv : t) (free_mem : bool) : t :=
  with_blockman bv (blocks_manager.set_all_zero (blockman_ bv) free_mem).

(** The tail of [combine_operation_with_block]: two plain bit-blocks are
    combined with the bit function of the operation code. *)
Definition combine_bit_blocks
    (bv : t) (nb : Z) (dst arg_blk : block) (opcode : operation) : t :=
  let bm := blockman_ bv in
  if is_null dst && is_null arg_blk then bv
  else
    let ret :=
      match opcode with
      | BM_AND => bit_operation_and dst arg_blk
      | BM_XOR => bit_operation_xor dst arg_blk
      | BM_OR => bit_operation_or dst arg_blk
      | BM_SUB => bit_operation_sub dst arg_blk
      end in
    match ret with
    | ret_dst w => with_blockman bv (blocks_manager.set_block_nb bm nb (BBit w))
    | ret_arg =>
        match opcode, dst with
        | BM_XOR, BFull =>
            with_blockman bv
              (blocks_manager.set_block_nb bm nb
                 (BBit (map (Z.lxor all_bits_mask) (bit_words arg_blk))))
        | BM_SUB, _ =>
            with_blockman bv
              (blocks_manager.set_block_nb bm nb
                 (BBit (bit_invert (bit_words arg_blk))))
        | _, _ =>
            if IS_FULL_BLOCK arg_blk
            then with_blockman bv (blocks_manager.set_block_nb bm nb BFull)
            else with_blockman bv
                   (blocks_manager.set_block_nb bm nb (BBit (bit_words arg_blk)))
        end
    | ret_null =>
        if is_null dst then bv
        else with_blockman bv (blocks_manager.set_block_nb bm nb BNull)
    | ret_full =>
        if IS_FULL_BLOCK dst then bv
        else with_blockman bv (blocks_manager.set_block_nb bm nb BFull)
    end.

(** [combine_operation_with_block(nb, gap, blk, arg_blk, arg_gap, opcode)] *)
Definition combine_operation_with_block
    (bv : t) (nb : Z) (gap : bool) (blk : block)
    (arg_blk : block) (arg_gap : bool) (opcode : operation) : t :=
  let bm := blockman_ bv in
  let or_xor := match opcode with BM_OR | BM_XOR => true | _ => false end in
  if or_xor && is_null blk && arg_gap then
    with_blockman bv
      (blocks_manager.set_block_nb bm nb
         (blocks_manager.clone_gap_block bm (BMGAP_PTR arg_blk)))
  else if gap then
    if arg_gap then
      let '(res, res_len) :=
        gap_operation_func opcode (BMGAP_PTR blk) (BMGAP_PTR arg_blk) in
      if gap_is_all_zero res
      then with_blockman bv (blocks_manager.zero_block_nb bm nb)
      else with_blockman bv (blocks_manager.assign_gap_nb bm nb res)
    else if is_null arg_blk then
      match opcode with
      | BM_AND => with_blockman bv (blocks_manager.zero_block_nb bm nb)
      | _ => bv
      end
    else
      let '(i, j) := get_block_coord nb in
      let bv := with_blockman bv
                  (blocks_manager.convert_gap2bitset bm i j (BMGAP_PTR blk)) in
      combine_bit_blocks bv nb (BBit (gap_convert_to_bitset (BMGAP_PTR blk)))
                         arg_blk opcode
  else if arg_gap then
    if IS_VALID_ADDR blk then
      let w := gap_op_to_bit opcode (bit_words blk) (BMGAP_PTR arg_blk) in
      let bv := with_blockman bv (blocks_manager.set_block_nb bm nb (BBit w)) in
      match opcode with
      | BM_OR => bv
      | _ => if bit_is_all_zero w
             then with_blockman bv
                    (blocks_manager.zero_block_nb (blockman_ bv) nb)
             else bv
      end
    else
      combine_bit_blocks bv nb blk
        (gap_convert_to_bitset_smart (BMGAP_PTR arg_blk)) opcode
  else combine_bit_blocks bv nb blk arg_blk opcode.

(** The common body of [set_range_no_check] and [clear_range_no_check],
    which differ in the value of the scratch GAP, the operation and the
    whole-block filler. *)
Definition range_no_check
    (bv : t) (left right : Z) (value : bool) : t :=
  let opcode := if value then BM_OR else BM_AND in
  let nblock_left := Z.shiftr left set_block_shift in
  let nblock_right := Z.shiftr right set_block_shift in
  let nbit_right := Z.land right set_block_mask in
  let r := if nblock_left =? nblock_right then nbit_right else bits_in_block - 1 in
  let nbit_left := Z.land left set_block_mask in
  let first :=
    if (nbit_left =? 0) && (r =? bits_in_block - 1) then (bv, nblock_left, false)
    else
      let tmp_gap_blk := gap_init_range_block nbit_left r value in
      let '(i, j) := get_block_coord nblock_left in
      let block := blocks_manager.get_block_ptr (blockman_ bv) i j in
      let bv := combine_operation_with_block bv nblock_left (BM_IS_GAP block)
                  block (BGap tmp_gap_blk) true opcode in
      (bv, nblock_left + 1, nblock_left =? nblock_right) in
  let '(bv, nb, done) := first in
  if done then bv
  else
    let nb_to := nblock_right + Z.b2z (nbit_right =? bits_in_block - 1) in
    let bv :=
      if nb <? nb_to then
        with_blockman bv
          (if value then blocks_manager.set_all_set (blockman_ bv) nb (nb_to - 1)
           else blocks_manager.set_all_zero_range (blockman_ bv) nb (nb_to - 1))
      else bv in
    if nb_to >? nblock_right then bv
    else
      let '(i, j) := get_block_coord nblock_right in
      let block := blocks_manager.get_block_ptr (blockman_ bv) i j in
      let tmp_gap_blk := gap_init_range_block 0 nbit_right value in
      combine_operation_with_block bv nblock_right (BM_IS_GAP block)
        block (BGap tmp_gap_blk) true opcode.

(** [set_range_no_check(left, right)] *)
Definition set_range_no_check (bv : t) (left right : Z) : t :=
  range_no_check bv left right true.

(** [clear_range_no_check(left, right)] *)
Definition clear_range_no_check (bv : t) (left right : Z) : t :=
  range_no_check bv left right false.

Section Asserts.

(** [BM_ASSERT_THROW(x, code)] is a macro of [bmdef.h]: it expands to
    nothing unless a build defines it to throw.  [assert_throw] tells which
    build is modelled.  Plain [BM_ASSERT] is the debug-only [assert]. *)
Variable assert_throw : bool.

Definition BM_ASSERT_THROW {A : Type} (x : bool) (k : outcome A) : outcome A :=
  if assert_throw && negb x then Throw BM_ERR_RANGE else k.

(** [set_range(left, right, value)] and [resize(new_size)] call each other;
    [depth] bounds the nesting of the calls. *)
Fixpoint set_range_rec (depth : nat) (bv : t) (left right : Z) (value : bool)
  : outcome t :=
  match depth with
  | O => Cut
  | S depth' =>
      if negb (is_init bv) && negb value then Done bv
      else if right <? left then set_range_rec depth' bv right left value
      else
        BM_ASSERT_THROW (right <? id_max)
          (do bv <- (if right >=? size_ bv then
                       let new_size := if right =? id_max then id_max else right + 1 in
                       resize_rec depth' bv new_size
                     else Done bv);
           if value then Done (set_range_no_check bv left right)
           else Done (clear_range_no_check bv left right))
  end
with resize_rec (depth : nat) (bv : t) (new_size : Z) : outcome t :=
  match depth with
  | O => Cut
  | S depth' =>
      if size_ bv =? new_size then Done bv
      else if size_ bv <? new_size then
        let bv := init bv in
        let bv := with_blockman bv (blocks_manager.reserve (blockman_ bv) new_size) in
        Done (with_size bv new_size)
      else
        do bv <- set_range_rec depth' bv new_size (size_ bv - 1) false;
        Done (with_size bv new_size)
  end.

(** The nesting is at most: a swapping [set_range], the swapped
    [set_range], its [resize]. *)
Definition call_depth : nat := 4.

Definition set_range (bv : t) (left right : Z) (value : bool) : outcome t :=
  set_range_rec call_depth bv left right value.

Definition resize (bv : t) (new_size : Z) : outcome t :=
  resize_rec call_depth bv new_size.

(** [gap_block_set(gap_blk, val, nblock, nbit)] *)
Definition gap_block_set (bv : t) (gap_blk : list Z) (val : bool) (nblock nbit : Z)
  : t * bool :=
  let '(new_blk, new_block_len, is_set) := gap_set_value val gap_blk nbit in
  let '(i, j) := get_block_coord nblock in
  let bv := with_blockman bv
              (blocks_manager.set_block_ptr (blockman_ bv) i j (BGap new_blk)) in
  if is_set then
    let threshold := gap_limit new_blk (blocks_manager.glen (blockman_ bv)) in
    if new_block_len >? threshold
    then (with_blockman bv
            (blocks_manager.extend_gap_block (blockman_ bv) nblock new_blk), is_set)
    else (bv, is_set)
  else (bv, is_set).

(** [set_bit_no_check(n, val)] *)
Definition set_bit_no_check (bv : t) (n : Z) (val : bool) : t * bool :=
  let nblock := Z.shiftr n set_block_shift in
  let '(bm, blk, block_type) :=
    blocks_manager.check_allocate_block (blockman_ bv) nblock val
      (get_new_blocks_strat bv) true in
  let bv := with_blockman bv bm in
  if negb (IS_VALID_ADDR blk) then (bv, false)
  else
    let nbit := Z.land n set_block_mask in
    if negb (block_type =? 0) then
      gap_block_set bv (BMGAP_PTR blk) val nblock nbit
    else
      let nword := Z.to_nat (Z.shiftr nbit set_word_shift) in
      let nbit := Z.land nbit set_word_mask in
      let word := rd (bit_words blk) nword in
      let mask := Z.shiftl 1 nbit in
      let '(i, j) := get_block_coord nblock in
      let store := fun w =>
        with_blockman bv
          (blocks_manager.set_block_ptr (blockman_ bv) i j
             (BBit (<[nword := w]> (bit_words blk)))) in
      if val then
        if Z.land word mask =? 0 then (store (Z.lor word mask), true)
        else (bv, false)
      else
        if negb (Z.land word mask =? 0)
        then (store (Z.land word (Z.lxor all_bits_mask mask)), true)
        else (bv, false).

(** [set_bit_no_check(n)]: the one-argument overload, which sets. *)
Definition set_bit_no_check1 (bv : t) (n : Z) : outcome t :=
  BM_ASSERT_THROW (n <? id_max)
    (let nblock := Z.shiftr n set_block_shift in
     let nbit := Z.land n set_block_mask in
     let '(bm, blk, block_type) :=
       blocks_manager.check_allocate_block (blockman_ bv) nblock true
         (get_new_blocks_strat bv) true in
     let bv := with_blockman bv bm in
     if negb (IS_VALID_ADDR blk) then Done bv
     else if negb (block_type =? 0) then
       Done (fst (gap_block_set bv (BMGAP_PTR blk) true nblock nbit))
     else
       let nword := Z.to_nat (Z.shiftr nbit set_word_shift) in
       let nbit := Z.land nbit set_word_mask in
       let '(i, j) := get_block_coord nblock in
       Done (with_blockman bv
               (blocks_manager.set_block_ptr (blockman_ bv) i j
                  (BBit (<[nword := Z.lor (rd (bit_words blk) nword) (Z.shiftl 1 nbit)]>
                           (bit_words blk)))))).

(** [set_bit(n, val)] *)
Definition set_bit (bv : t) (n : Z) (val : bool) : outcome (t * bool) :=
  BM_ASSERT_THROW (n <? id_max)
    (let bv := init bv in
     do bv <- (if n >=? size_ bv then
                 let new_size := if n =? id_max then id_max else n + 1 in
                 resize bv new_size
               else Done bv);
     Done (set_bit_no_check bv n val)).

(** [set(n, val)] *)
Definition set (bv : t) (n : Z) (val : bool) : outcome t :=
  omap fst (set_bit bv n val).

End Asserts.

(** *** Set algebra: the block handlers *)

Definition bm_do (bv : t) (f : blocks_manager.t -> blocks_manager.t) : t :=
  with_blockman bv (f (blockman_ bv)).

(** [combine_operation_block_or(i, j, blk, arg_blk)], the in-place form. *)
Definition combine_operation_block_or
    (bv : t) (i j : nat) (blk arg_blk : block) : t :=
  if IS_FULL_BLOCK blk || is_null arg_blk then bv
  else if IS_FULL_BLOCK arg_blk then
    let bv := if negb (is_null blk)
              then bm_do bv (fun bm => blocks_manager.zero_block bm i j) else bv in
    bm_do bv (fun bm => blocks_manager.set_block_ptr bm i j BFull)
  else if BM_IS_GAP blk then
    let gap_blk := BMGAP_PTR blk in
    if BM_IS_GAP arg_blk then
      let '(res, res_len) := gap_operation_or gap_blk (BMGAP_PTR arg_blk) in
      bm_do bv (fun bm => blocks_manager.assign_gap_check bm i j res)
    else
      let new_blk := gap_add_to_bitset (bit_words arg_blk) gap_blk in
      bm_do bv (fun bm => blocks_manager.set_block_ptr bm i j (BBit new_blk))
  else if BM_IS_GAP arg_blk then
    let arg_gap := BMGAP_PTR arg_blk in
    if is_null blk then
      bm_do bv (fun bm =>
        blocks_manager.set_block bm i j (blocks_manager.clone_gap_block bm arg_gap))
    else
      bm_do bv (fun bm =>
        blocks_manager.set_block_ptr bm i j
          (BBit (gap_add_to_bitset (bit_words blk) arg_gap)))
  else if is_null blk then
    bm_do bv (fun bm => blocks_manager.set_block_ptr bm i j (BBit (bit_words arg_blk)))
  else
    let w := bit_block_or (bit_words blk) (bit_words arg_blk) in
    if is_bits_one w
    then bm_do bv (fun bm => blocks_manager.set_block_ptr bm i j BFull)
    else bm_do bv (fun bm => blocks_manager.set_block_ptr bm i j (BBit w)).

(** [combine_operation_block_xor(i, j, blk, arg_blk)], the in-place form. *)
Definition combine_operation_block_xor
    (bv : t) (i j : nat) (blk arg_blk : block) : t :=
  if is_null arg_blk then bv
  else if IS_FULL_BLOCK arg_blk then
    match blk with
    | BNull => bm_do bv (fun bm => blocks_manager.set_block_ptr bm i j BFull)
    | BGap g => bm_do bv (fun bm => blocks_manager.set_block_ptr bm i j (BGap (gap_invert g)))
    | BFull => bm_do bv (fun bm => blocks_manager.set_block_ptr bm i j BNull)
    | BBit w => bm_do bv (fun bm => blocks_manager.set_block_ptr bm i j (BBit (bit_invert w)))
    end
  else
    let '(bv, blk) :=
      if IS_FULL_BLOCK blk then
        let blk := BBit (bit_block_set all_bits_mask) in
        (bm_do bv (fun bm => blocks_manager.set_block_ptr bm i j blk), blk)
      else (bv, blk) in
    if BM_IS_GAP blk then
      let gap_blk := BMGAP_PTR blk in
      if BM_IS_GAP arg_blk then
        let '(res, res_len) := gap_operation_xor gap_blk (BMGAP_PTR arg_blk) in
        bm_do bv (fun bm => blocks_manager.assign_gap_check bm i j res)
      else
        let new_blk := gap_xor_to_bitset (bit_words arg_blk) gap_blk in
        bm_do bv (fun bm => blocks_manager.set_block_ptr bm i j (BBit new_blk))
    else if BM_IS_GAP arg_blk then
      let arg_gap := BMGAP_PTR arg_blk in
      if is_null blk then
        bm_do bv (fun bm =>
          blocks_manager.set_block bm i j (blocks_manager.clone_gap_block bm arg_gap))
      else
        bm_do bv (fun bm =>
          blocks_manager.set_block_ptr bm i j
            (BBit (gap_xor_to_bitset (bit_words blk) arg_gap)))
    else if is_null blk then
      bm_do bv (fun bm => blocks_manager.set_block_ptr bm i j (BBit (bit_words arg_blk)))
    else
      let w := bit_block_xor (bit_words blk) (bit_words arg_blk) in
      if bit_is_all_zero w
      then bm_do bv (fun bm => blocks_manager.set_block_ptr bm i j BNull)
      else bm_do bv (fun bm => blocks_manager.set_block_ptr bm i j (BBit w)).

(** [combine_operation_block_and(i, j, blk, arg_blk)], the in-place form. *)
Definition combine_operation_block_and
    (bv : t) (i j : nat) (blk arg_blk : block) : t :=
  if IS_FULL_BLOCK arg_blk then bv
  else if BM_IS_GAP blk then
    let gap_blk := BMGAP_PTR blk in
    if BM_IS_GAP arg_blk then
      let '(res, res_len) := gap_operation_and gap_blk (BMGAP_PTR arg_blk) in
      bm_do bv (fun bm => blocks_manager.assign_gap_check bm i j res)
    else
      let new_blk := gap_and_to_bitset (bit_words arg_blk) gap_blk in
      let digest := calc_block_digest0 new_blk in
      if digest =? 0
      then bm_do bv (fun bm => blocks_manager.set_block_ptr bm i j BNull)
      else bm_do bv (fun bm => blocks_manager.set_block_ptr bm i j (BBit new_blk))
  else if BM_IS_GAP arg_blk then
    let arg_gap := BMGAP_PTR arg_blk in
    if gap_is_all_zero arg_gap then
      bm_do bv (fun bm => blocks_manager.zero_block bm i j)
    else if IS_FULL_BLOCK blk then
      bm_do bv (fun bm =>
        blocks_manager.set_block_ptr bm i j (blocks_manager.clone_gap_block bm arg_gap))
    else
      let w := gap_and_to_bitset (bit_words blk) arg_gap in
      let bv := bm_do bv (fun bm => blocks_manager.set_block_ptr bm i j (BBit w)) in
      if bit_is_all_zero w
      then bm_do bv (fun bm => blocks_manager.zero_block bm i j)
      else bv
  else if IS_FULL_BLOCK blk then
    bm_do bv (fun bm => blocks_manager.set_block_ptr bm i j (BBit (bit_words arg_blk)))
  else
    let w := bit_block_and (bit_words blk) (bit_words arg_blk) in
    if bit_is_all_zero w
    then bm_do bv (fun bm => blocks_manager.set_block_ptr bm i j BNull)
    else bm_do bv (fun bm => blocks_manager.set_block_ptr bm i j (BBit w)).

(** [combine_operation_block_sub(i, j, blk, arg_blk)], the in-place form. *)
Definition combine_operation_block_sub
    (bv : t) (i j : nat) (blk arg_blk : block) : t :=
  if IS_FULL_BLOCK arg_blk then
    bm_do bv (fun bm => blocks_manager.zero_block bm i j)
  else
    let bit_part := fun (bv : t) (dst arg_blk : block) =>
      if is_null dst || is_null arg_blk then bv
      else
        match bit_operation_sub dst arg_blk with
        | ret_dst w => bm_do bv (fun bm => blocks_manager.set_block_ptr bm i j (BBit w))
        | ret_arg =>
            bm_do bv (fun bm =>
              blocks_manager.set_block_ptr bm i j (BBit (bit_invert (bit_words arg_blk))))
        | ret_null => bm_do bv (fun bm => blocks_manager.set_block_ptr bm i j BNull)
        | ret_full =>
            if IS_FULL_BLOCK dst then bv
            else bm_do bv (fun bm => blocks_manager.set_block_ptr bm i j BFull)
        end in
    if BM_IS_GAP blk then
      let gap_blk := BMGAP_PTR blk in
      if BM_IS_GAP arg_blk then
        let '(res, res_len) := gap_operation_sub gap_blk (BMGAP_PTR arg_blk) in
        bm_do bv (fun bm => blocks_manager.assign_gap_check bm i j res)
      else
        let bv := bm_do bv (fun bm => blocks_manager.convert_gap2bitset bm i j gap_blk) in
        bit_part bv (BBit (gap_convert_to_bitset gap_blk)) arg_blk
    else if BM_IS_GAP arg_blk then
      if negb (IS_FULL_BLOCK blk) then
        let w := gap_sub_to_bitset (bit_words blk) (BMGAP_PTR arg_blk) in
        let bv := bm_do bv (fun bm => blocks_manager.set_block_ptr bm i j (BBit w)) in
        if bit_is_all_zero w
        then bm_do bv (fun bm => blocks_manager.zero_block bm i j)
        else bv
      else
        bit_part bv blk (gap_convert_to_bitset_smart (BMGAP_PTR arg_blk))
    else bit_part bv blk arg_blk.

(** The choice of the bit argument and the GAP argument when exactly one of
    the two blocks is a GAP-block. *)
Definition pick_bit_gap (arg_blk1 arg_blk2 : block) : block * list Z :=
  if BM_IS_GAP arg_blk1 then (arg_blk2, BMGAP_PTR arg_blk1)
  else (arg_blk1, BMGAP_PTR arg_blk2).

(** [combine_operation_block_or(i, j, arg_blk1, arg_blk2)], the form that
    writes [arg_blk1 OR arg_blk2] into the slot; the flag tells whether
    optimization may help. *)
Definition combine_operation_block_or3
    (bv : t) (i j : nat) (arg_blk1 arg_blk2 : block) : t * bool :=
  if is_null arg_blk1 then
    (bm_do bv (fun bm => blocks_manager.clone_assign_block bm i j arg_blk2 false), false)
  else if is_null arg_blk2 then
    (bm_do bv (fun bm => blocks_manager.clone_assign_block bm i j arg_blk1 false), false)
  else if IS_FULL_BLOCK arg_blk1 || IS_FULL_BLOCK arg_blk2 then
    (bm_do bv (fun bm => blocks_manager.set_block_ptr bm i j BFull), false)
  else
    let is_gap1 := BM_IS_GAP arg_blk1 in
    let is_gap2 := BM_IS_GAP arg_blk2 in
    if is_gap1 || is_gap2 then
      if is_gap1 && is_gap2 then
        let '(tmp_buf, res_len) :=
          gap_operation_or (BMGAP_PTR arg_blk1) (BMGAP_PTR arg_blk2) in
        (bm_do bv (fun bm => blocks_manager.clone_gap_block_at bm i j tmp_buf), false)
      else
        let '(arg_block, arg_gap) := pick_bit_gap arg_blk1 arg_blk2 in
        (bm_do bv (fun bm =>
           blocks_manager.set_block_ptr bm i j
             (BBit (gap_add_to_bitset (bit_words arg_block) arg_gap))), true)
    else
      let w := bit_block_or (bit_words arg_blk1) (bit_words arg_blk2) in
      if is_bits_one w
      then (bm_do bv (fun bm => blocks_manager.set_block_ptr bm i j BFull), false)
      else (bm_do bv (fun bm => blocks_manager.set_block_ptr bm i j (BBit w)), true).

(** [combine_operation_block_xor(i, j, arg_blk1, arg_blk2)] *)
Definition combine_operation_block_xor3
    (bv : t) (i j : nat) (arg_blk1 arg_blk2 : block) : t * bool :=
  if is_null arg_blk1 then
    (bm_do bv (fun bm => blocks_manager.clone_assign_block bm i j arg_blk2 false), false)
  else if is_null arg_blk2 then
    (bm_do bv (fun bm => blocks_manager.clone_assign_block bm i j arg_blk1 false), false)
  else if IS_FULL_BLOCK arg_blk1 then
    (bm_do bv (fun bm => blocks_manager.clone_assign_block bm i j arg_blk2 true), false)
  else if IS_FULL_BLOCK arg_blk2 then
    (bm_do bv (fun bm => blocks_manager.clone_assign_block bm i j arg_blk1 true), false)
  else
    let is_gap1 := BM_IS_GAP arg_blk1 in
    let is_gap2 := BM_IS_GAP arg_blk2 in
    if is_gap1 || is_gap2 then
      if is_gap1 && is_gap2 then
        let '(tmp_buf, res_len) :=
          gap_operation_xor (BMGAP_PTR arg_blk1) (BMGAP_PTR arg_blk2) in
        (bm_do bv (fun bm => blocks_manager.clone_gap_block_at bm i j tmp_buf), false)
      else
        let '(arg_block, arg_gap) := pick_bit_gap arg_blk1 arg_blk2 in
        (bm_do bv (fun bm =>
           blocks_manager.set_block_ptr bm i j
             (BBit (gap_xor_to_bitset (bit_words arg_block) arg_gap))), true)
    else
      let w := bit_block_xor (bit_words arg_blk1) (bit_words arg_blk2) in
      if bit_is_all_zero w
      then (bm_do bv (fun bm => blocks_manager.set_block_ptr bm i j BNull), false)
      else (bm_do bv (fun bm => blocks_manager.set_block_ptr bm i j (BBit w)), true).

(** [combine_operation_block_and(i, j, arg_blk1, arg_blk2)] *)
Definition combine_operation_block_and3
    (bv : t) (i j : nat) (arg_blk1 arg_blk2 : block) : t * bool :=
  if is_null arg_blk1 || is_null arg_blk2 then (bv, false)
  else if IS_FULL_BLOCK arg_blk1 && IS_FULL_BLOCK arg_blk2 then
    (bm_do bv (fun bm => blocks_manager.set_block_ptr bm i j BFull), false)
  else if IS_FULL_BLOCK arg_blk1 then
    (bm_do bv (fun bm => blocks_manager.clone_assign_block bm i j arg_blk2 false), false)
  else if IS_FULL_BLOCK arg_blk2 then
    (bm_do bv (fun bm => blocks_manager.clone_assign_block bm i j arg_blk1 false), false)
  else
    let is_gap1 := BM_IS_GAP arg_blk1 in
    let is_gap2 := BM_IS_GAP arg_blk2 in
    if is_gap1 || is_gap2 then
      if is_gap1 && is_gap2 then
        let '(tmp_buf, res_len) :=
          gap_operation_and (BMGAP_PTR arg_blk1) (BMGAP_PTR arg_blk2) in
        (bm_do bv (fun bm => blocks_manager.clone_gap_block_at bm i j tmp_buf), false)
      else
        let '(arg_block, arg_gap) := pick_bit_gap arg_blk1 arg_blk2 in
        (bm_do bv (fun bm =>
           blocks_manager.set_block_ptr bm i j
             (BBit (gap_and_to_bitset (bit_words arg_block) arg_gap))), true)
    else
      let w := bit_block_and (bit_words arg_blk1) (bit_words arg_blk2) in
      if calc_block_digest0 w =? 0
      then (bm_do bv (fun bm => blocks_manager.set_block_ptr bm i j BNull), false)
      else (bm_do bv (fun bm => blocks_manager.set_block_ptr bm i j (BBit w)), true).

(** [combine_operation_block_sub(i, j, arg_blk1, arg_blk2)] *)
Definition combine_operation_block_sub3
    (bv : t) (i j : nat) (arg_blk1 arg_blk2 : block) : t * bool :=
  if is_null arg_blk1 then (bv, false)
  else if is_null arg_blk2 then
    (bm_do bv (fun bm => blocks_manager.clone_assign_block bm i j arg_blk1 false), false)
  else if IS_FULL_BLOCK arg_blk2 then (bv, false)
  else
    let arg_blk1 := BLOCK_ADDR_SAN arg_blk1 in
    let is_gap1 := BM_IS_GAP arg_blk1 in
    let is_gap2 := BM_IS_GAP arg_blk2 in
    if is_gap1 || is_gap2 then
      if is_gap1 && is_gap2 then
        let '(tmp_buf, res_len) :=
          gap_operation_sub (BMGAP_PTR arg_blk1) (BMGAP_PTR arg_blk2) in
        (bm_do bv (fun bm => blocks_manager.clone_gap_block_at bm i j tmp_buf), false)
      else if is_gap1 then
        let w := bit_block_sub (gap_convert_to_bitset (BMGAP_PTR arg_blk1))
                               (bit_words arg_blk2) in
        if bit_is_all_zero w
        then (bm_do bv (fun bm => blocks_manager.set_block_ptr bm i j BNull), false)
        else (bm_do bv (fun bm => blocks_manager.set_block_ptr bm i j (BBit w)), true)
      else
        (bm_do bv (fun bm =>
           blocks_manager.set_block_ptr bm i j
             (BBit (gap_sub_to_bitset (bit_words arg_blk1) (BMGAP_PTR arg_blk2)))), true)
    else
      let w := bit_block_sub (bit_words arg_blk1) (bit_words arg_blk2) in
      if calc_block_digest0 w =? 0
      then (bm_do bv (fun bm => blocks_manager.set_block_ptr bm i j BNull), false)
      else (bm_do bv (fun bm => blocks_manager.set_block_ptr bm i j (BBit w)), true).


(** *** Set algebra: the vector level *)

(** The operands of the set algebra are references; two of them may be the
    same object.  A store maps the address of a vector to its state, and the
    operations below read an operand through its address at the moment the C
    code dereferences it. *)
Definition addr : Type := nat.
Definition store : Type := addr -> t.

Definition upd (h : store) (a : addr) (bv : t) : store :=
  fun a' => if Nat.eqb a' a then bv else h a'.

Definition upd_bm (h : store) (a : addr)
    (f : blocks_manager.t -> blocks_manager.t) : store :=
  upd h a (bm_do (h a) f).

(** [(i < top_blocks) ? blk_root[i] : 0] *)
Definition root_at (bv : t) (i : nat) : subarray :=
  if (i <? blocks_manager.top_block_size (blockman_ bv))%nat
  then blocks_manager.get_topblock (blockman_ bv) i
  else SNull.

(** [if (size_ < bv.size_) size_ = bv.size_;] *)
Definition stretch_size (h : store) (this bv : addr) : store :=
  if size_ (h this) <? size_ (h bv)
  then upd h this (with_size (h this) (size_ (h bv)))
  else h.

(** [top_blocks = blockman_.reserve_top_blocks(n)] *)
Definition reserve_top (h : store) (this : addr) (n : nat) : store * nat :=
  let '(bm, top_blocks) := blocks_manager.reserve_top_blocks (blockman_ (h this)) n in
  (upd h this (with_blockman (h this) bm), top_blocks).

Definition sub_size : nat := Z.to_nat set_sub_array_size.

(** [combine_operation_or(bv)] *)
Definition combine_operation_or (h : store) (this bv : addr) : store :=
  if negb (is_init (h bv)) then h
  else
    let same := Nat.eqb this bv in
    let h := stretch_size h this bv in
    let arg_top_blocks := blocks_manager.top_block_size (blockman_ (h bv)) in
    let '(h, top_blocks) := reserve_top h this arg_top_blocks in
    for_range top_blocks
      (fun h i =>
         let blk_blk := blocks_manager.get_topblock (blockman_ (h this)) i in
         let blk_blk_arg := if (i <? arg_top_blocks)%nat then root_at (h bv) i else SNull in
         if sub_ptr_eq same blk_blk blk_blk_arg || sub_is_null blk_blk_arg then h
         else if sub_is_full blk_blk then h
         else if sub_is_full blk_blk_arg then
           let h := upd_bm h this (fun bm => blocks_manager.deallocate_top_subblock bm i) in
           upd_bm h this (fun bm => blocks_manager.set_topblock bm i SFull)
         else
           let h := if sub_is_null blk_blk
                    then upd_bm h this (fun bm => blocks_manager.alloc_top_subblock bm i)
                    else h in
           for_range sub_size
             (fun h j =>
                let blk := blocks_manager.get_block_ptr (blockman_ (h this)) i j in
                let arg_blk := blocks_manager.get_block_ptr (blockman_ (h bv)) i j in
                if negb (block_ptr_eq same blk arg_blk)
                then upd h this (combine_operation_block_or (h this) i j blk arg_blk)
                else h) h) h.

(** [combine_operation_and(bv)] *)
Definition combine_operation_and (h : store) (this bv : addr) : store :=
  if negb (is_init (h this)) then h
  else if negb (is_init (h bv)) then upd h this (clear (h this) true)
  else
    let h := stretch_size h this bv in
    let arg_top_blocks := blocks_manager.top_block_size (blockman_ (h bv)) in
    let '(h, top_blocks) := reserve_top h this arg_top_blocks in
    for_range top_blocks
      (fun h i =>
         let blk_blk := blocks_manager.get_topblock (blockman_ (h this)) i in
         if sub_is_null blk_blk then h
         else
           let blk_blk_arg := if (i <? arg_top_blocks)%nat then root_at (h bv) i else SNull in
           if sub_is_null blk_blk_arg then
             let h := for_range sub_size
                        (fun h j => upd_bm h this (fun bm => blocks_manager.zero_block bm i j)) h in
             upd_bm h this (fun bm => blocks_manager.deallocate_top_subblock bm i)
           else if sub_is_full blk_blk_arg then h
           else
             let h := if sub_is_full blk_blk
                      then upd_bm h this (fun bm => blocks_manager.check_alloc_top_subblock bm i)
                      else h in
             for_range sub_size
               (fun h j =>
                  let blk := blocks_manager.get_block_ptr (blockman_ (h this)) i j in
                  if negb (is_null blk) then
                    let arg_blk := blocks_manager.get_block_ptr (blockman_ (h bv)) i j in
                    if negb (is_null arg_blk)
                    then upd h this (combine_operation_block_and (h this) i j blk arg_blk)
                    else upd_bm h this (fun bm => blocks_manager.zero_block bm i j)
                  else h) h) h.

(** [combine_operation_sub(bv)] *)
Definition combine_operation_sub (h : store) (this bv : addr) : store :=
  if negb (is_init (h this)) || negb (is_init (h bv)) then h
  else
    let h := stretch_size h this bv in
    let arg_top_blocks := blocks_manager.top_block_size (blockman_ (h bv)) in
    let '(h, top_blocks) := reserve_top h this arg_top_blocks in
    for_range top_blocks
      (fun h i =>
         let blk_blk := blocks_manager.get_topblock (blockman_ (h this)) i in
         let blk_blk_arg := if (i <? arg_top_blocks)%nat then root_at (h bv) i else SNull in
         if sub_is_null blk_blk || sub_is_null blk_blk_arg then h
         else if sub_is_full blk_blk_arg then
           upd_bm h this (fun bm => blocks_manager.deallocate_top_subblock bm i)
         else
           let h := if sub_is_full blk_blk
                    then upd_bm h this (fun bm => blocks_manager.check_alloc_top_subblock bm i)
                    else h in
           for_range sub_size
             (fun h j =>
                let blk := blocks_manager.get_block_ptr (blockman_ (h this)) i j in
                let arg_blk := blocks_manager.get_block_ptr (blockman_ (h bv)) i j in
                if negb (is_null blk) && negb (is_null arg_blk)
                then upd h this (combine_operation_block_sub (h this) i j blk arg_blk)
                else h) h) h.

(** The two-operand forms [bit_or(bv)], [bit_and(bv)], [bit_sub(bv)]. *)
Definition bit_or (h : store) (this bv : addr) : store := combine_operation_or h this bv.
Definition bit_and (h : store) (this bv : addr) : store := combine_operation_and h this bv.
Definition bit_sub (h : store) (this bv : addr) : store := combine_operation_sub h this bv.

Section Algebra.

Variable assert_throw : bool.

(** The copy assignment [operator=(bvect)]. *)
Definition assign (h : store) (this bvect : addr) : outcome store :=
  if negb (Nat.eqb this bvect) then
    let h := upd_bm h this blocks_manager.deinit_tree in
    let h := upd_bm h this (fun bm => blocks_manager.copy bm (blockman_ (h bvect))) in
    do bv <- resize assert_throw (h this) (size (h bvect));
    Done (upd h this bv)
  else Done h.

(** [combine_operation_xor(bv)] *)
Definition combine_operation_xor (h : store) (this bv : addr) : outcome store :=
  if negb (is_init (h bv)) then Done h
  else if negb (is_init (h this)) then assign h this bv
  else
    let same := Nat.eqb this bv in
    let h := stretch_size h this bv in
    let arg_top_blocks := blocks_manager.top_block_size (blockman_ (h bv)) in
    let '(h, top_blocks) := reserve_top h this arg_top_blocks in
    Done (for_range top_blocks
      (fun h i =>
         let blk_blk_arg := if (i <? arg_top_blocks)%nat then root_at (h bv) i else SNull in
         if sub_is_null blk_blk_arg then h
         else
           let blk_blk := blocks_manager.get_topblock (blockman_ (h this)) i in
           if sub_ptr_eq same blk_blk blk_blk_arg then
             if sub_is_full blk_blk
             then upd_bm h this (fun bm => blocks_manager.set_topblock bm i SNull)
             else h
           else
             let h := if sub_is_full blk_blk
                      then upd_bm h this (fun bm => blocks_manager.check_alloc_top_subblock bm i)
                      else h in
             if sub_is_full blk_blk_arg && sub_is_null blk_blk then
               upd_bm h this (fun bm => blocks_manager.set_topblock bm i SFull)
             else
               let h := if sub_is_null blk_blk
                        then upd_bm h this (fun bm => blocks_manager.alloc_top_subblock bm i)
                        else h in
               for_range sub_size
                 (fun h j =>
                    let blk := blocks_manager.get_block_ptr (blockman_ (h this)) i j in
                    let arg_blk := sub_block blk_blk_arg j in
                    upd h this (combine_operation_block_xor (h this) i j blk arg_blk)) h) h).

(** The two-operand form [bit_xor(bv)]. *)
Definition bit_xor (h : store) (this bv : addr) : outcome store :=
  combine_operation_xor h this bv.

(** [if (blockman_.is_init()) blockman_.deinit_tree();] *)
Definition reinit (h : store) (this : addr) : store :=
  if is_init (h this) then upd_bm h this blocks_manager.deinit_tree else h.

(** The prologue shared by the main loops of the three-operand forms: the
    top array is reserved for the larger operand and the size becomes the
    larger size. *)
Definition prepare3 (bv b1 b2 : t) : t * nat :=
  let top_blocks1 := blocks_manager.top_block_size (blockman_ b1) in
  let top_blocks2 := blocks_manager.top_block_size (blockman_ b2) in
  let top_blocks := if (top_blocks1 <? top_blocks2)%nat then top_blocks2 else top_blocks1 in
  let '(bm, top_blocks) := blocks_manager.reserve_top_blocks (blockman_ bv) top_blocks in
  let bv := with_blockman bv bm in
  let bv := with_size bv (size_ b1) in
  let bv := if size_ bv <? size_ b2 then with_size bv (size_ b2) else bv in
  (bv, top_blocks).

(** The [do ... while (++j < set_sub_array_size)] loop of the three-operand
    forms: [skip] is the test that continues, [handler] the block handler.
    The state carries [any_blocks]. *)
Definition sub_loop3
    (skip : block -> block -> bool)
    (handler : t -> nat -> nat -> block -> block -> t * bool)
    (opt_mode : optmode) (i : nat) (blk_blk_arg1 blk_blk_arg2 : subarray) (bv : t)
  : t :=
  let '(bv, any_blocks) :=
    for_range sub_size
      (fun (st : t * bool) j =>
         let '(bv, any_blocks) := st in
         let arg_blk1 := sub_block blk_blk_arg1 j in
         let arg_blk2 := sub_block blk_blk_arg2 j in
         if skip arg_blk1 arg_blk2 then (bv, any_blocks)
         else
           let '(bv, need_opt) := handler bv i j arg_blk1 arg_blk2 in
           let bv := if need_opt && match opt_mode with opt_compress => true | _ => false end
                     then bm_do bv (fun bm => blocks_manager.optimize_bit_block bm i j)
                     else bv in
           (bv, any_blocks
                || negb (is_null (blocks_manager.get_block_ptr (blockman_ bv) i j))))
      (bv, false) in
  if negb any_blocks then bm_do bv (fun bm => blocks_manager.free_top_subblock bm i)
  else bv.

(** [bit_or(bv1, bv2, opt_mode)]: this := bv1 OR bv2. *)
Definition bit_or3 (h : store) (this bv1 bv2 : addr) (opt_mode : optmode) : store :=
  let h := reinit h this in
  if Nat.eqb bv1 bv2 then bit_or h this bv2
  else if Nat.eqb this bv1 then bit_or h this bv2
  else if Nat.eqb this bv2 then bit_or h this bv1
  else
    let b1 := h bv1 in
    let b2 := h bv2 in
    let '(bv, top_blocks) := prepare3 (h this) b1 b2 in
    upd h this
      (for_range top_blocks
         (fun bv i =>
            let blk_blk_arg1 := root_at b1 i in
            let blk_blk_arg2 := root_at b2 i in
            if sub_ptr_eq false blk_blk_arg1 blk_blk_arg2 then
              bm_do bv (fun bm => blocks_manager.set_topblock bm i blk_blk_arg1)
            else if sub_is_full blk_blk_arg1 || sub_is_full blk_blk_arg2 then
              bm_do bv (fun bm => blocks_manager.set_topblock bm i SFull)
            else
              let bv := bm_do bv (fun bm => blocks_manager.alloc_top_subblock bm i) in
              sub_loop3 (fun a1 a2 => block_ptr_eq false a1 a2 && is_null a1)
                        combine_operation_block_or3 opt_mode i
                        blk_blk_arg1 blk_blk_arg2 bv) bv).

(** [bit_xor(bv1, bv2, opt_mode)]: this := bv1 XOR bv2. *)
Definition bit_xor3 (h : store) (this bv1 bv2 : addr) (opt_mode : optmode)
  : outcome store :=
  let h := reinit h this in
  if Nat.eqb bv1 bv2 then Done h
  else if Nat.eqb this bv1 then bit_xor h this bv2
  else if Nat.eqb this bv2 then bit_xor h this bv1
  else if negb (is_init (h bv1)) then assign h this bv2
  else if negb (is_init (h bv2)) then assign h this bv1
  else
    let b1 := h bv1 in
    let b2 := h bv2 in
    let '(bv, top_blocks) := prepare3 (h this) b1 b2 in
    Done (upd h this
      (for_range top_blocks
         (fun bv i =>
            let blk_blk_arg1 := root_at b1 i in
            let blk_blk_arg2 := root_at b2 i in
            if sub_ptr_eq false blk_blk_arg1 blk_blk_arg2 then
              if sub_is_null blk_blk_arg1 then bv
              else bm_do bv (fun bm => blocks_manager.deallocate_top_subblock bm i)
            else
              let bv := bm_do bv (fun bm => blocks_manager.alloc_top_subblock bm i) in
              sub_loop3 (fun a1 a2 => block_ptr_eq false a1 a2
                                      && (is_null a1 || IS_FULL_BLOCK a1))
                        combine_operation_block_xor3 opt_mode i
                        blk_blk_arg1 blk_blk_arg2 bv) bv)).

(** [bit_and(bv1, bv2, opt_mode)]: this := bv1 AND bv2. *)
Definition bit_and3 (h : store) (this bv1 bv2 : addr) (opt_mode : optmode) : store :=
  if Nat.eqb bv1 bv2 then bit_or h this bv1
  else if Nat.eqb this bv1 then bit_and h this bv2
  else if Nat.eqb this bv2 then bit_and h this bv1
  else
    let h := reinit h this in
    if negb (is_init (h bv1)) || negb (is_init (h bv2)) then h
    else
      let b1 := h bv1 in
      let b2 := h bv2 in
      let '(bv, top_blocks) := prepare3 (h this) b1 b2 in
      upd h this
        (for_range top_blocks
           (fun bv i =>
              let blk_blk_arg1 := root_at b1 i in
              let blk_blk_arg2 := root_at b2 i in
              if sub_ptr_eq false blk_blk_arg1 blk_blk_arg2 && sub_is_null blk_blk_arg1
              then bv
              else if sub_ptr_eq false blk_blk_arg1 blk_blk_arg2 && sub_is_full blk_blk_arg1
              then bm_do bv (fun bm => blocks_manager.set_topblock bm i SFull)
              else
                let bv := bm_do bv (fun bm => blocks_manager.alloc_top_subblock bm i) in
                sub_loop3 (fun a1 a2 => block_ptr_eq false a1 a2 && is_null a1)
                          combine_operation_block_and3 opt_mode i
                          blk_blk_arg1 blk_blk_arg2 bv) bv).

(** [bit_sub(bv1, bv2, opt_mode)]: this := bv1 MINUS bv2. *)
Definition bit_sub3 (h : store) (this bv1 bv2 : addr) (opt_mode : optmode) : store :=
  let h := reinit h this in
  if Nat.eqb bv1 bv2 then h
  else if Nat.eqb this bv1 then bit_sub h this bv2
  else if Nat.eqb this bv2 then bit_sub h this bv1
  else if negb (is_init (h bv1)) then h
  else if negb (is_init (h bv2)) then bit_or h this bv1
  else
    let b1 := h bv1 in
    let b2 := h bv2 in
    let '(bv, top_blocks) := prepare3 (h this) b1 b2 in
    upd h this
      (for_range top_blocks
         (fun bv i =>
            let blk_blk_arg1 := root_at b1 i in
            let blk_blk_arg2 := root_at b2 i in
            if sub_ptr_eq false blk_blk_arg1 blk_blk_arg2 then bv
            else if sub_is_full blk_blk_arg2 then bv
            else
              let bv := bm_do bv (fun bm => blocks_manager.alloc_top_subblock bm i) in
              sub_loop3 (fun a1 a2 => block_ptr_eq false a1 a2 && is_null a1)
                        combine_operation_block_sub3 opt_mode i
                        blk_blk_arg1 blk_blk_arg2 bv) bv).

End Algebra.


(** *** Shift and insert *)

Section Insert.

Variable assert_throw : bool.

(** The tight scan [for (++j; j < set_sub_array_size; ++j)] for the next
    slot of sub-array [i] that is not NULL. *)
Fixpoint scan_next_block (fuel : nat) (bv : t) (i j : nat) : option nat :=
  match fuel with
  | O => None
  | S fuel' =>
      if (sub_size <=? j)%nat then None
      else if negb (is_null (blocks_manager.get_block_ptr (blockman_ bv) i j))
      then Some j
      else scan_next_block fuel' bv i (S j)
  end.

(** What the body of the [do ... while] loop of [insert] does with a block
    that is not NULL.  The result tells whether the loop was left by
    [break]. *)
Definition insert_shift_block (bv : t) (i j : nat) (carry_over : Z)
  : t * Z * bool :=
  let nblock := Z.of_nat i * set_sub_array_size + Z.of_nat j in
  let block := blocks_manager.get_block_ptr (blockman_ bv) i j in
  let bit_block := fun (bv : t) (w : list Z) =>
    let '(w', acc, carry_over) := bit_block_shift_r1_unr w carry_over in
    let last := Z.to_nat (set_block_size - 1) in
    if nblock =? set_total_blocks - 1 then
      let carry_over := Z.land (rd w' last) (Z.shiftl 1 31) in
      let w'' := <[last := Z.land (rd w' last) (Z.lxor all_bits_mask (Z.shiftl 1 31))]> w' in
      let bv := bm_do bv (fun bm => blocks_manager.set_block_ptr bm i j (BBit w'')) in
      let bv := if acc =? 0
                then bm_do bv (fun bm => blocks_manager.zero_block_nb bm nblock)
                else bv in
      (bv, carry_over, true)
    else
      let bv := bm_do bv (fun bm => blocks_manager.set_block_ptr bm i j (BBit w')) in
      let bv := if acc =? 0
                then bm_do bv (fun bm => blocks_manager.zero_block_nb bm nblock)
                else bv in
      (bv, carry_over, false) in
  if IS_FULL_BLOCK block then
    if carry_over =? 0 then
      let bv := bm_do bv (fun bm => blocks_manager.deoptimize_block bm nblock) in
      let w := bit_words (blocks_manager.get_block_ptr (blockman_ bv) i j) in
      let w := <[0%nat := u32 (Z.shiftl (rd w 0) 1)]> w in
      (bm_do bv (fun bm => blocks_manager.set_block_ptr bm i j (BBit w)), 1, false)
    else (bv, carry_over, false)
  else if BM_IS_GAP block then
    if nblock =? set_total_blocks - 1 then
      let bv := bm_do bv (fun bm => blocks_manager.deoptimize_block bm nblock) in
      bit_block bv (bit_words (blocks_manager.get_block_ptr (blockman_ bv) i j))
    else
      let gap_blk := BMGAP_PTR block in
      let '(new_blk, carry_over, new_block_len) := gap_shift_r1 gap_blk carry_over in
      let bv := bm_do bv (fun bm => blocks_manager.set_block_ptr bm i j (BGap new_blk)) in
      let threshold := gap_limit new_blk (blocks_manager.glen (blockman_ bv)) in
      if new_block_len >? threshold
      then (bm_do bv (fun bm => blocks_manager.extend_gap_block bm nblock new_blk),
            carry_over, false)
      else (bv, carry_over, false)
  else bit_block bv (bit_words block).

(** The [do ... while (++j < set_sub_array_size)] loop of [insert] over the
    slots of sub-array [i], from slot [j]. *)
Fixpoint insert_sub_loop (fuel : nat) (bv : t) (i j : nat) (carry_over : Z)
  : outcome (t * Z) :=
  match fuel with
  | O => Done (bv, carry_over)
  | S fuel' =>
      let nblock := Z.of_nat i * set_sub_array_size + Z.of_nat j in
      let next := fun (r : t * Z * bool) =>
        let '(bv, carry_over, brk) := r in
        if brk || (sub_size <=? S j)%nat then Done (bv, carry_over)
        else insert_sub_loop fuel' bv i (S j) carry_over in
      if is_null (blocks_manager.get_block_ptr (blockman_ bv) i j) then
        do st <- (if negb (carry_over =? 0) then
                    do bv <- set_bit_no_check1 assert_throw bv (u32 (nblock * gap_max_bits));
                    Done (bv, 0)
                  else Done (bv, carry_over));
        let '(bv, carry_over) := st in
        match scan_next_block sub_size bv i (S j) with
        | None => Done (bv, carry_over)
        | Some j' =>
            let '(bv, carry_over, brk) := insert_shift_block bv i j' carry_over in
            if brk || (sub_size <=? S j')%nat then Done (bv, carry_over)
            else insert_sub_loop fuel' bv i (S j') carry_over
        end
      else next (insert_shift_block bv i j carry_over)
  end.

(** The [for (i = i0; i < set_top_array_size; ++i)] loop of [insert].
    [continue] skips the final [j0 = 0]. *)
Fixpoint insert_top_loop (fuel : nat) (bv : t) (i j0 : nat) (carry_over : Z)
    (top_blocks : nat) (nb : Z) : outcome (t * Z) :=
  match fuel with
  | O => Done (bv, carry_over)
  | S fuel' =>
      if (Z.to_nat set_top_array_size <=? i)%nat then Done (bv, carry_over)
      else if (top_blocks <=? i)%nat && (carry_over =? 0) then Done (bv, carry_over)
      else
        let blk_blk := if (top_blocks <=? i)%nat then SNull
                       else blocks_manager.get_topblock (blockman_ bv) i in
        if sub_is_null blk_blk then
          if negb (carry_over =? 0) then
            let nblock := Z.of_nat i * set_sub_array_size + 0 in
            if nblock >? nb then
              let '(bm, block, block_type) :=
                blocks_manager.check_allocate_block (blockman_ bv) nblock false BM_BIT false in
              let bv := with_blockman bv bm in
              let w := bit_words block in
              let '(i', j') := get_block_coord nblock in
              let bv := bm_do bv (fun bm =>
                          blocks_manager.set_block_ptr bm i' j'
                            (BBit (<[0%nat := Z.lor (rd w 0) carry_over]> w))) in
              let top_blocks := blocks_manager.top_block_size (blockman_ bv) in
              insert_top_loop fuel' bv (S i) j0 0 top_blocks nb
            else insert_top_loop fuel' bv (S i) j0 carry_over top_blocks nb
          else insert_top_loop fuel' bv (S i) j0 carry_over top_blocks nb
        else if sub_is_full blk_blk && negb (carry_over =? 0) then
          insert_top_loop fuel' bv (S i) j0 carry_over top_blocks nb
        else
          let bv := if sub_is_full blk_blk
                    then bm_do bv (fun bm => blocks_manager.check_alloc_top_subblock bm i)
                    else bv in
          do st <- insert_sub_loop sub_size bv i j0 carry_over;
          let '(bv, carry_over) := st in
          insert_top_loop fuel' bv (S i) 0 carry_over top_blocks nb
  end.

(** [insert(n, value)] *)
Definition insert (bv : t) (n : Z) (value : bool) : outcome (t * bool) :=
  BM_ASSERT_THROW assert_throw (n <? id_max)
    (let bv := if size_ bv <? id_max then with_size bv (size_ bv + 1) else bv in
     if negb (is_init bv) then
       if value then do bv <- set assert_throw bv n true; Done (bv, false)
       else Done (bv, false)
     else
       let nb := Z.shiftr n set_block_shift in
       let '(bv, carry_over, nb) :=
         if (n =? 0) && negb value then (bv, 0, nb)
         else
           let '(i, j) := get_block_coord nb in
           let block := blocks_manager.get_block_ptr (blockman_ bv) i j in
           if is_null block && negb value then (bv, 0, nb + 1)
           else
             let '(bv, block) :=
               if is_null block then
                 let '(bm, blk) :=
                   blocks_manager.check_allocate_block2 (blockman_ bv) nb BM_BIT in
                 (with_blockman bv bm, blk)
               else (bv, block) in
             let '(bv, block) :=
               if BM_IS_GAP block || IS_FULL_BLOCK block then
                 let bv := bm_do bv (fun bm => blocks_manager.deoptimize_block bm nb) in
                 (bv, blocks_manager.get_block_ptr (blockman_ bv) i j)
               else (bv, block) in
             let nbit := Z.land n set_block_mask in
             let '(w, carry_over) := bit_block_insert (bit_words block) nbit value in
             (bm_do bv (fun bm => blocks_manager.set_block_ptr bm i j (BBit w)),
              carry_over, nb + 1) in
       let '(i0, j0) := get_block_coord nb in
       let top_blocks := blocks_manager.top_block_size (blockman_ bv) in
       do st <- insert_top_loop (Z.to_nat set_top_array_size) bv i0 j0 carry_over
                  top_blocks nb;
       let '(bv, carry_over) := st in
       Done (bv, negb (carry_over =? 0))).

(** [shift_right()] *)
Definition shift_right (bv : t) : outcome (t * bool) := insert bv 0 false.

(** *** Range copy *)

(** [copy_range_no_check(bvect, left, right)] *)
Definition copy_range_no_check (bv : t) (bvect : t) (left right : Z) : outcome t :=
  BM_ASSERT_THROW assert_throw (right <? id_max)
    (let nblock_left := Z.shiftr left set_block_shift in
     let nblock_right := Z.shiftr right set_block_shift in
     let bv := bm_do bv (fun bm =>
                 blocks_manager.copy_range bm (blockman_ bvect) nblock_left nblock_right) in
     let bv :=
       if negb (left =? 0) then
         let from := if u32 (left + gap_max_bits) >=? left then 0
                     else left - gap_max_bits in
         clear_range_no_check bv from (left - 1)
       else bv in
     let bv :=
       if right <? id_max - 1 then clear_range_no_check bv (right + 1) (id_max - 1)
       else bv in
     Done bv).

(** [copy_range(bvect, left, right)] *)
Definition copy_range (h : store) (this bvect : addr) (left right : Z)
  : outcome store :=
  if negb (is_init (h bvect)) then Done (upd h this (clear (h this) false))
  else
    let h := if is_init (h this)
             then upd_bm h this blocks_manager.deinit_tree else h in
    let lr := if left >? right then xor_swap left right else (left, right) in
    do bv <- copy_range_no_check (h this) (h bvect) (fst lr) (snd lr);
    Done (upd h this bv).

End Insert.

(** *** Counting, rank and select *)

(** [count()].  [bm::find_not_null_ptr] only skips NULL slots of the top
    array, which add nothing. *)
Definition count (bv : t) : Z :=
  if negb (is_init bv) then 0
  else
    for_range (blocks_manager.top_block_size (blockman_ bv))
      (fun cnt i =>
         match blocks_manager.get_topblock (blockman_ bv) i with
         | SNull => cnt
         | SFull => u32 (cnt + gap_max_bits * set_sub_array_size)
         | SArr _ =>
             for_range sub_size
               (fun cnt j =>
                  let blk := blocks_manager.get_block_ptr (blockman_ bv) i j in
                  if negb (is_null blk)
                  then u32 (cnt + blocks_manager.block_bitcount blk)
                  else cnt) cnt
         end) 0.

(** The inner loop of [find_reverse]: slots [n-1 .. 0] of sub-array [i]. *)
Fixpoint find_reverse_sub (bv : t) (i : nat) (n : nat) : option Z :=
  match n with
  | O => None
  | S j =>
      let blk := blocks_manager.get_block_ptr (blockman_ bv) i j in
      let found :=
        match blk with
        | BNull => None
        | BFull => Some (gap_max_bits - 1)
        | BGap g => gap_find_last g
        | BBit w => bit_find_last w
        end in
      match found with
      | Some block_pos =>
          let base_idx := u32 (Z.of_nat i * set_sub_array_size * gap_max_bits) in
          let base_idx := u32 (base_idx + Z.of_nat j * gap_max_bits) in
          Some (u32 (base_idx + block_pos))
      | None => find_reverse_sub bv i j
      end
  end.

(** The outer loop of [find_reverse]: top slots [n-1 .. 0]. *)
Fixpoint find_reverse_top (bv : t) (n : nat) : option Z :=
  match n with
  | O => None
  | S i =>
      match blocks_manager.get_topblock (blockman_ bv) i with
      | SNull => find_reverse_top bv i
      | _ =>
          match find_reverse_sub bv i sub_size with
          | Some pos => Some pos
          | None => find_reverse_top bv i
          end
      end
  end.

(** [find_reverse(pos)] *)
Definition find_reverse (bv : t) : option Z :=
  find_reverse_top bv (blocks_manager.top_block_size (blockman_ bv)).

(** [build_rs_index(rs_idx)] *)
Definition build_rs_index (bv : t) : rs_index.t :=
  let rs_idx := rs_index.init in
  if negb (is_init bv) then rs_idx
  else
    match find_reverse bv with
    | None => rs_idx
    | Some last_bit =>
        let nb := Z.shiftr last_bit set_block_shift in
        let max_top_blocks := blocks_manager.find_max_top_blocks (blockman_ bv) in
        let rs_idx := rs_index.resize rs_idx (nb + 1) in
        let rs_idx := rs_index.set_total rs_idx (nb + 1) in
        for_range max_top_blocks
          (fun rs_idx i =>
             match blocks_manager.get_topblock (blockman_ bv) i with
             | SNull => rs_index.set_null_super_block rs_idx i
             | SFull => rs_index.set_full_super_block rs_idx i
             | SArr _ =>
                 let entry := fun j =>
                   let block := blocks_manager.get_block_ptr (blockman_ bv) i j in
                   if is_null block then (0, 0)
                   else
                     let cnt := blocks_manager.block_bitcount block in
                     let '(first, second) :=
                       if BM_IS_GAP block then
                         (gap_bit_count_range (BMGAP_PTR block) 0 rs3_border0,
                          gap_bit_count_range (BMGAP_PTR block) (u16 (rs3_border0 + 1))
                                              rs3_border1)
                       else
                         let block := BLOCK_ADDR_SAN block in
                         (bit_block_calc_count_range (bit_words block) 0 rs3_border0,
                          bit_block_calc_count_range (bit_words block) (rs3_border0 + 1)
                                                     rs3_border1) in
                     (cnt, Z.lor first (Z.shiftl second 16)) in
                 rs_index.register_super_block rs_idx i
                   (map (fun j => fst (entry j)) (seq 0 sub_size))
                   (map (fun j => snd (entry j)) (seq 0 sub_size))
             end) rs_idx
    end.

(** [block_count_to(block, nb, nbit_right, rs_idx)] *)
Definition block_count_to (block : list Z) (nb : Z) (nbit_right : Z)
    (rs_idx : rs_index.t) : Z :=
  let sub_range := rs_index.find_sub_range nbit_right in
  let sub_cnt := rs_index.sub_count rs_idx nb in
  let first := Z.land sub_cnt 65535 in
  let second := Z.shiftr sub_cnt 16 in
  if sub_range =? 0 then
    if nbit_right <=? rs3_border0 / 2 then bit_block_calc_count_to block nbit_right
    else if nbit_right =? rs3_border0 then first
    else
      let c := bit_block_calc_count_range block (nbit_right + 1) rs3_border0 in
      u32 (first - c)
  else if sub_range =? 1 then
    if nbit_right <=? rs3_border0 + rs3_half_span then
      let c := bit_block_calc_count_range block (rs3_border0 + 1) nbit_right in
      u32 (c + first)
    else
      let bc_second_range := u32 (first + second) in
      if nbit_right =? rs3_border1 then bc_second_range
      else
        let c := bit_block_calc_count_range block (nbit_right + 1) rs3_border1 in
        u32 (bc_second_range - c)
  else if sub_range =? 2 then
    let bc_second_range := u32 (first + second) in
    if nbit_right <=? rs3_border1 + rs3_half_span then
      let c := bit_block_calc_count_range block (rs3_border1 + 1) nbit_right in
      u32 (c + bc_second_range)
    else if nbit_right =? gap_max_bits - 1 then rs_index.count_nb rs_idx nb
    else
      let c := bit_block_calc_count_range block (nbit_right + 1) (gap_max_bits - 1) in
      let cnt := rs_index.count_nb rs_idx nb in
      u32 (cnt - c)
  else 0.

(** [count_to(right, rs_idx)] *)
Definition count_to (bv : t) (right : Z) (rs_idx : rs_index.t) : Z :=
  if negb (is_init bv) then 0
  else
    let nblock_right := Z.shiftr right set_block_shift in
    let nbit_right := Z.land right set_block_mask in
    if nblock_right >=? rs_index.get_total rs_idx then rs_index.count rs_idx
    else
      let cnt := if negb (nblock_right =? 0)
                 then rs_index.rcount rs_idx (nblock_right - 1) else 0 in
      let '(i, j) := get_block_coord nblock_right in
      let block := blocks_manager.get_block_ptr (blockman_ bv) i j in
      if is_null block then cnt
      else if BM_IS_GAP block then
        let c := gap_bit_count_to (BMGAP_PTR block) (u16 nbit_right) in
        u32 (cnt + c)
      else if IS_FULL_BLOCK block then u32 (cnt + (nbit_right + 1))
      else
        let c := block_count_to (bit_words block) nblock_right nbit_right rs_idx in
        u32 (cnt + c).

(** [rank(n, rs_idx)] *)
Definition rank (bv : t) (n : Z) (rs_idx : rs_index.t) : Z := count_to bv n rs_idx.

(** Modelled from the spec: [bm::block_find_rank] is rank-in-block for
    either kind of block. *)
Definition block_find_rank (block : block) (rank : Z) (nbit_from : Z) : Z * Z :=
  match block with
  | BGap g => gap_find_rank g rank nbit_from
  | _ => bit_find_rank (bit_words block) rank nbit_from
  end.

(** [select(rank_in, pos, rs_idx)]: [None] is the result [false]. *)
Definition select (bv : t) (rank_in : Z) (rs_idx : rs_index.t) : option Z :=
  if (rank_in =? 0) || negb (is_init bv) || (rs_index.count rs_idx <? rank_in)
  then None
  else
    match rs_index.find rs_idx rank_in with
    | None => None
    | Some (rank_in, nb, sub_range_from) =>
        let '(i, j) := get_block_coord nb in
        let block := blocks_manager.get_block_ptr (blockman_ bv) i j in
        let block := BLOCK_ADDR_SAN block in
        let '(rank_in, bit_pos) := block_find_rank block rank_in sub_range_from in
        Some (u32 (bit_pos + nb * set_block_size * 32))
    end.

End bvector.

(** ** The enumerator ([bvector<>::enumerator], [iterator_base]) *)

Module enumerator.

(** Modelled from the spec: the bitscan wave is W = 8 adjacent 32-bit words,
    decoded into at most 256 bit offsets ([bm::set_bitscan_wave_size]). *)
Definition set_bitscan_wave_size : Z := 8.

(** Modelled from the spec: [bm::bitscan_wave(ptr, bits)] decodes the set
    bits of one wave into the list of their offsets and returns their
    number. *)
Fixpoint set_positions (l : list bool) (pos : Z) : list Z :=
  match l with
  | [] => []
  | b :: l' => if b then pos :: set_positions l' (pos + 1)
               else set_positions l' (pos + 1)
  end.

Definition bitscan_wave (block : list Z) (ptr : Z) : list Z * Z :=
  let wave := take (Z.to_nat set_bitscan_wave_size) (drop (Z.to_nat ptr) block) in
  let offs := set_positions (bits_of_words wave) 0 in
  (offs, Z.of_nat (length offs)).

(** [struct bitblock_descr]; [ptr] is the word offset into the block. *)
Record bitblock_descr : Type := mk_bit {
  ptr : Z;
  bits : list Z;
  idx : Z;
  cnt : Z;
  pos : Z
}.

(** [struct dgap_descr]; [gptr] is the index into the GAP buffer. *)
Record dgap_descr : Type := mk_gap {
  gptr : Z;
  gap_len : Z
}.

(** The members of [iterator_base].  [bv_] stands for the vector pointed
    to; the two members of the union [bdescr_] are kept side by side, each
    read only under its own [block_type_]. *)
Record t : Type := mk {
  bv_ : bvector.t;
  position_ : Z;
  block_ : block;
  block_type_ : Z;
  block_idx_ : Z;
  bit_ : bitblock_descr;
  gap_ : dgap_descr
}.

Definition set_position (e : t) (p : Z) : t :=
  mk (bv_ e) (u32 p) (block_ e) (block_type_ e) (block_idx_ e) (bit_ e) (gap_ e).
Definition set_block (e : t) (b : block) : t :=
  mk (bv_ e) (position_ e) b (block_type_ e) (block_idx_ e) (bit_ e) (gap_ e).
Definition set_block_type (e : t) (ty : Z) : t :=
  mk (bv_ e) (position_ e) (block_ e) ty (block_idx_ e) (bit_ e) (gap_ e).
Definition set_block_idx (e : t) (n : Z) : t :=
  mk (bv_ e) (position_ e) (block_ e) (block_type_ e) (u32 n) (bit_ e) (gap_ e).
Definition set_bit (e : t) (d : bitblock_descr) : t :=
  mk (bv_ e) (position_ e) (block_ e) (block_type_ e) (block_idx_ e) d (gap_ e).
Definition set_gap (e : t) (d : dgap_descr) : t :=
  mk (bv_ e) (position_ e) (block_ e) (block_type_ e) (block_idx_ e) (bit_ e) d.

(** [enumerator(const bvector<Alloc>* bv)]: unpositioned, not valid. *)
Definition create (bv : bvector.t) : t :=
  mk bv id_max BNull 0 0 (mk_bit 0 [] 0 0 0) (mk_gap 0 0).

(** [valid()] and [invalidate()] *)
Definition valid (e : t) : bool := negb (position_ e =? id_max).
Definition invalidate (e : t) : t := set_position e id_max.

(** [value()] *)
Definition value (e : t) : Z := position_ e.

(** [decode_wave(bdescr)] *)
Definition decode_wave (e : t) : t * bool :=
  let d := bit_ e in
  let '(offs, n) := bitscan_wave (bit_words (block_ e)) (ptr d) in
  let d := mk_bit (ptr d) offs (idx d) (u16 n) (pos d) in
  if negb (cnt d =? 0) then
    let d := mk_bit (ptr d) (bits d) 0 (cnt d) (position_ e) in
    let e := set_bit e d in
    (set_position e (position_ e + rd (bits d) 0), true)
  else (set_bit e d, false).

(** [decode_bit_group(bdescr)]: the waves from [bit_.ptr] to the end of the
    block. *)
Fixpoint decode_bit_group_loop (fuel : nat) (e : t) : t * bool :=
  match fuel with
  | O => (e, false)
  | S fuel' =>
      if ptr (bit_ e) <? set_block_size then
        let '(e, found) := decode_wave e in
        if found then (e, true)
        else
          let e := set_position e (position_ e + set_bitscan_wave_size * 32) in
          let d := bit_ e in
          let e := set_bit e (mk_bit (ptr d + set_bitscan_wave_size) (bits d)
                                     (idx d) (cnt d) (pos d)) in
          decode_bit_group_loop fuel' e
      else (e, false)
  end.

Definition decode_bit_group (e : t) : t * bool :=
  decode_bit_group_loop (Z.to_nat set_block_size) e.

(** [search_in_bitblock()] *)
Definition search_in_bitblock (e : t) : t * bool :=
  let d := bit_ e in
  decode_bit_group (set_bit e (mk_bit 0 (bits d) (idx d) (cnt d) (pos d))).

(** The [for (;true;)] loop of [search_in_gapblock]. *)
Fixpoint search_in_gapblock_loop (fuel : nat) (e : t) (bitval : Z) : t * bool :=
  match fuel with
  | O => (e, false)
  | S fuel' =>
      let buf := BMGAP_PTR (block_ e) in
      let p := gptr (gap_ e) in
      let val := rd buf (Z.to_nat p) in
      if negb (bitval =? 0) then
        let len := if p =? 1 then u16 (val + 1)
                   else u16 (val - rd buf (Z.to_nat (p - 1))) in
        (set_gap e (mk_gap p len), true)
      else
        let e := set_position e (position_ e + val + 1) in
        if val =? gap_max_bits - 1 then (e, false)
        else
          let e := set_gap e (mk_gap (p + 1) (gap_len (gap_ e))) in
          search_in_gapblock_loop fuel' e (Z.lxor bitval 1)
  end.

(** [search_in_gapblock()] *)
Definition search_in_gapblock (e : t) : t * bool :=
  let buf := BMGAP_PTR (block_ e) in
  let bitval := Z.land (rd buf 0) 1 in
  let e := set_gap e (mk_gap 1 (gap_len (gap_ e))) in
  search_in_gapblock_loop (S (length buf)) e bitval.

(** The inner [for] loop over the slots [j ..] of one sub-array, shared by
    [go_first] and [search_in_blocks]. *)
Fixpoint search_sub (fuel : nat) (e : t) (blk_blk : subarray) (j : nat) : t * bool :=
  match fuel with
  | O => (e, false)
  | S fuel' =>
      if (bvector.sub_size <=? j)%nat then (e, false)
      else
        let e := set_block e (sub_block blk_blk j) in
        if is_null (block_ e) then
          let e := set_position e (position_ e + bits_in_block) in
          search_sub fuel' (set_block_idx e (block_idx_ e + 1)) blk_blk (S j)
        else
          let e := set_block_type e (Z.b2z (BM_IS_GAP (block_ e))) in
          let '(e, found) :=
            if negb (block_type_ e =? 0) then search_in_gapblock e
            else search_in_bitblock (set_block e (BLOCK_ADDR_SAN (block_ e))) in
          if found then (e, true)
          else search_sub fuel' (set_block_idx e (block_idx_ e + 1)) blk_blk (S j)
  end.

(** The outer [for] loop over the top slots [i ..]; only the first
    sub-array visited starts at a slot other than 0. *)
Fixpoint search_top (fuel : nat) (e : t) (i : nat) (first : bool) : t * bool :=
  match fuel with
  | O => (e, false)
  | S fuel' =>
      let bman := bvector.blockman_ (bv_ e) in
      if (i <? blocks_manager.top_block_size bman)%nat then
        let blk_blk := blocks_manager.get_topblock bman i in
        if sub_is_null blk_blk then
          let e := set_block_idx e (block_idx_ e + set_sub_array_size) in
          let e := set_position e (position_ e + bits_in_array) in
          search_top fuel' e (S i) first
        else
          let j := if first then Z.to_nat (Z.land (block_idx_ e) set_array_mask)
                   else 0%nat in
          let '(e, found) := search_sub bvector.sub_size e blk_blk j in
          if found then (e, true)
          else search_top fuel' e (S i) first
      else (e, false)
  end.

(** [search_in_blocks()].  The slot index [j] is recomputed from
    [block_idx_] for every sub-array, as in the source. *)
Definition search_in_blocks (e : t) : t * bool :=
  let e := set_block_idx e (block_idx_ e + 1) in
  let i := Z.to_nat (Z.shiftr (block_idx_ e) set_array_shift) in
  search_top (Z.to_nat set_top_array_size) e i true.

(** [go_first()] *)
Definition go_first (e : t) : t :=
  if negb (bvector.is_init (bv_ e)) then invalidate e
  else
    let e := set_block_idx (set_position e 0) 0 in
    let '(e, found) := search_top (Z.to_nat set_top_array_size) e 0 false in
    if found then e else invalidate e.

Section Asserts.

Variable assert_throw : bool.

(** [go_up()] *)
Definition go_up (e : t) : outcome t :=
  bvector.BM_ASSERT_THROW assert_throw (valid e)
    (let '(e, returned) :=
       if block_type_ e =? 0 then
         let d := bit_ e in
         let idx' := u16 (idx d + 1) in
         let d := mk_bit (ptr d) (bits d) idx' (cnt d) (pos d) in
         let e := set_bit e d in
         if idx' <? cnt d then
           (set_position e (pos d + rd (bits d) (Z.to_nat idx')), true)
         else
           let e := set_position e
                      (position_ e + (set_bitscan_wave_size * 32
                                      - rd (bits d) (Z.to_nat (u16 (idx' - 1))))) in
           let e := set_bit e (mk_bit (ptr d + set_bitscan_wave_size) (bits d)
                                      idx' (cnt d) (pos d)) in
           decode_bit_group e
       else if block_type_ e =? 1 then
         let buf := BMGAP_PTR (block_ e) in
         let e := set_position e (position_ e + 1) in
         let len := u16 (gap_len (gap_ e) - 1) in
         let e := set_gap e (mk_gap (gptr (gap_ e)) len) in
         if negb (len =? 0) then (e, true)
         else if rd buf (Z.to_nat (gptr (gap_ e))) =? gap_max_bits - 1 then (e, false)
         else
           let prev := rd buf (Z.to_nat (gptr (gap_ e))) in
           let e := set_gap e (mk_gap (gptr (gap_ e) + 1) len) in
           let val := rd buf (Z.to_nat (gptr (gap_ e))) in
           let e := set_position e (position_ e + (val - prev)) in
           if val =? gap_max_bits - 1 then (e, false)
           else
             let prev := val in
             let e := set_gap e (mk_gap (gptr (gap_ e) + 1) len) in
             let val := rd buf (Z.to_nat (gptr (gap_ e))) in
             (set_gap e (mk_gap (gptr (gap_ e)) (u16 (val - prev))), true)
       else (e, false) in
     if returned then Done e
     else
       let '(e, found) := search_in_blocks e in
       if found then Done e else Done (invalidate e)).

(** [advance()] and the prefix [operator++()] *)
Definition advance (e : t) : outcome t := go_up e.
Definition incr (e : t) : outcome t := go_up e.

End Asserts.

End enumerator.

(** ** Further members of the bit-vector ([bm.h]) *)

(** A loop over the indices [l] that returns from inside its body: the
    result is that of the first index at which the body returns. *)
Fixpoint scan_until {A : Type} (body : nat -> option A) (l : list nat) : option A :=
  match l with
  | [] => None
  | k :: l' =>
      match body k with
      | Some a => Some a
      | None => scan_until body l'
      end
  end.

(** The reads of one position as the public members do them, with the range
    check that precedes the read. *)
Module bvector_checked.
Import bvector.

Section Asserts.
Variable assert_throw : bool.

(** [get_bit(n)]: [BM_ASSERT_THROW((n < size_), BM_ERR_RANGE)], then the
    read. *)
Definition get_bit (bv : t) (n : Z) : outcome bool :=
  BM_ASSERT_THROW assert_throw (n <? size_ bv) (Done (bvector.get_bit bv n)).

(** [test(n)] *)
Definition test (bv : t) (n : Z) : outcome bool := get_bit bv n.

End Asserts.

End bvector_checked.

Module bvector_ops.
Import bvector.

(** *** Searching for set bits *)

(** The search of one slot from its first position, as [find] and
    [check_or_next] do it: [if (blk) { ... found ... block_pos ... }]. *)
Definition find_first_in_block (blk : block) : option Z :=
  match blk with
  | BNull => None
  | BFull => Some 0
  | BGap g => gap_find_first g
  | BBit w => bit_find_first w
  end.

(** [find(pos)]: the first set position, [None] for the result [false]. *)
Definition find (bv : t) : option Z :=
  let top_blocks := blocks_manager.top_block_size (blockman_ bv) in
  scan_until
    (fun i =>
       match blocks_manager.get_topblock (blockman_ bv) i with
       | SNull => None
       | _ =>
           scan_until
             (fun j =>
                let blk := blocks_manager.get_block_ptr (blockman_ bv) i j in
                match find_first_in_block blk with
                | Some block_pos =>
                    let base_idx :=
                      u32 (Z.of_nat i * set_sub_array_size * gap_max_bits) in
                    let base_idx := u32 (base_idx + Z.of_nat j * gap_max_bits) in
                    Some (u32 (base_idx + block_pos))
                | None => None
                end)
             (seq 0 sub_size)
       end)
    (seq 0 top_blocks).

(** The loops of [check_or_next] after the block of [prev]: the sub-array
    [i] is scanned from slot [j], the following ones from slot 0. *)
Fixpoint check_or_next_top (bv : t) (l : list nat) (j : nat) : option Z :=
  match l with
  | [] => None
  | i :: l' =>
      let here :=
        match blocks_manager.get_topblock (blockman_ bv) i with
        | SNull => None
        | _ =>
            scan_until
              (fun j =>
                 let blk := blocks_manager.get_block_ptr (blockman_ bv) i j in
                 match find_first_in_block blk with
                 | Some block_pos =>
                     let base_idx := u32 (Z.of_nat i * bits_in_array) in
                     let base_idx := u32 (base_idx + Z.of_nat j * gap_max_bits) in
                     Some (u32 (base_idx + block_pos))
                 | None => None
                 end)
              (seq j (sub_size - j))
        end in
      match here with
      | Some p => Some p
      | None => check_or_next_top bv l' 0
      end
  end.

(** [check_or_next(prev)]: the first set position at or after [prev], or 0
    when there is none. *)
Definition check_or_next (bv : t) (prev : Z) : Z :=
  if negb (is_init bv) then 0
  else
    let nb := Z.shiftr prev set_block_shift in
    let '(i, j) := get_block_coord nb in
    let block := blocks_manager.get_block_ptr (blockman_ bv) i j in
    let nbit := Z.land prev set_block_mask in
    let in_block :=
      match block with
      | BNull => None
      | BGap g =>
          match gap_block_find g nbit with
          | Some block_pos => Some (u32 (nb * gap_max_bits + block_pos))
          | None => None
          end
      | BFull => Some prev
      | BBit w =>
          match bit_block_find w nbit with
          | Some block_pos => Some (u32 (nb * gap_max_bits + block_pos))
          | None => None
          end
      end in
    match in_block with
    | Some p => p
    | None =>
        let top_blocks := blocks_manager.top_block_size (blockman_ bv) in
        match check_or_next_top bv (seq i (top_blocks - i)) (S j) with
        | Some p => p
        | None => 0
        end
    end.

(** [get_first()] and [get_next(prev)] *)
Definition get_first (bv : t) : Z := check_or_next bv 0.

Definition get_next (bv : t) (prev : Z) : Z :=
  let prev := u32 (prev + 1) in
  if prev =? id_max then 0 else check_or_next bv prev.

(** [find_range(in_first, in_last)] *)
Definition find_range (bv : t) : option (Z * Z) :=
  match find bv with
  | Some in_first =>
      match find_reverse bv with
      | Some in_last => Some (in_first, in_last)
      | None => None
      end
  | None => None
  end.

(** *** Changing one bit *)

(** [inc(n)]: flips bit [n] and returns its previous value, the carry of
    the increment. *)
Definition inc (bv : t) (n : Z) : t * bool :=
  let nblock := Z.shiftr n set_block_shift in
  let '(bm, blk) :=
    blocks_manager.check_allocate_block2 (blockman_ bv) nblock
      (get_new_blocks_strat bv) in
  let bv := with_blockman bv bm in
  let nbit := Z.land n set_block_mask in
  if BM_IS_GAP blk then
    let gap_blk := BMGAP_PTR blk in
    let is_set := gap_test_unr gap_blk nbit in
    (fst (gap_block_set bv gap_blk (negb is_set) nblock nbit), is_set)
  else
    let nword := Z.to_nat (Z.shiftr nbit set_word_shift) in
    let nbit := Z.land nbit set_word_mask in
    let word := rd (bit_words blk) nword in
    let mask := Z.shiftl 1 nbit in
    let is_set := negb (Z.land word mask =? 0) in
    let '(i, j) := get_block_coord nblock in
    (with_blockman bv
       (blocks_manager.set_block_ptr (blockman_ bv) i j
          (BBit (<[nword := if is_set then Z.land word (Z.lxor all_bits_mask mask)
                            else Z.lor word mask]> (bit_words blk)))),
     is_set).

(** [flip(n)] *)
Definition flip (bv : t) (n : Z) : t := fst (inc bv n).

(** [set_bit_conditional_impl(n, val, condition)]: the bit is set to [val]
    only when its value is [condition]; the result tells whether it
    changed. *)
Definition set_bit_conditional_impl (bv : t) (n : Z) (val condition : bool)
  : t * bool :=
  let nblock := Z.shiftr n set_block_shift in
  let '(bm, blk, block_type) :=
    blocks_manager.check_allocate_block (blockman_ bv) nblock val
      (get_new_blocks_strat bv) true in
  let bv := with_blockman bv bm in
  if negb (IS_VALID_ADDR blk) then (bv, false)
  else
    let nbit := Z.land n set_block_mask in
    if block_type =? 1 then
      let gap_blk := BMGAP_PTR blk in
      let old_val := gap_test_unr gap_blk nbit in
      if negb (Bool.eqb old_val condition) then (bv, false)
      else if negb (Bool.eqb val old_val)
      then gap_block_set bv gap_blk val nblock nbit
      else (bv, false)
    else
      let nword := Z.to_nat (Z.shiftr nbit set_word_shift) in
      let nbit := Z.land nbit set_word_mask in
      let word := rd (bit_words blk) nword in
      let mask := Z.shiftl 1 nbit in
      let is_set := negb (Z.land word mask =? 0) in
      let '(i, j) := get_block_coord nblock in
      let store := fun w =>
        with_blockman bv
          (blocks_manager.set_block_ptr (blockman_ bv) i j
             (BBit (<[nword := w]> (bit_words blk)))) in
      if negb (Bool.eqb is_set condition) then (bv, false)
      else if negb (Bool.eqb is_set val) then
        if val then (store (Z.lor word mask), true)
        else (store (Z.land word (Z.lxor all_bits_mask mask)), true)
      else (bv, false).

(** [and_bit_no_check(n, val)] *)
Definition and_bit_no_check (bv : t) (n : Z) (val : bool) : t * bool :=
  let nblock := Z.shiftr n set_block_shift in
  let '(bm, blk, block_type) :=
    blocks_manager.check_allocate_block (blockman_ bv) nblock val
      (get_new_blocks_strat bv) true in
  let bv := with_blockman bv bm in
  if negb (IS_VALID_ADDR blk) then (bv, false)
  else
    let nbit := Z.land n set_block_mask in
    if block_type =? 1 then
      let gap_blk := BMGAP_PTR blk in
      let old_val := gap_test_unr gap_blk nbit in
      let new_val := val && old_val in
      if negb (Bool.eqb new_val old_val)
      then gap_block_set bv gap_blk val nblock nbit
      else (bv, false)
    else
      let nword := Z.to_nat (Z.shiftr nbit set_word_shift) in
      let nbit := Z.land nbit set_word_mask in
      let word := rd (bit_words blk) nword in
      let mask := Z.shiftl 1 nbit in
      let is_set := negb (Z.land word mask =? 0) in
      let '(i, j) := get_block_coord nblock in
      let store := fun w =>
        with_blockman bv
          (blocks_manager.set_block_ptr (blockman_ bv) i j
             (BBit (<[nword := w]> (bit_words blk)))) in
      let new_val := is_set && val in
      if negb (Bool.eqb new_val val) then
        if new_val then (store (Z.lor word mask), true)
        else (store (Z.land word (Z.lxor all_bits_mask mask)), true)
      else (bv, false).

Definition clear_bit_no_check (bv : t) (n : Z) : t :=
  fst (set_bit_no_check bv n false).

(** [reset()] *)
Definition reset (bv : t) : t := clear bv true.

(** *** Counting with the rank-select index *)

(** [count_to_test(right, blocks_cnt)]: the rank of [right] when its bit is
    set, otherwise 0. *)
Definition count_to_test (bv : t) (right : Z) (blocks_cnt : rs_index.t) : Z :=
  if negb (is_init bv) then 0
  else
    let nblock_right := Z.shiftr right set_block_shift in
    let nbit_right := Z.land right set_block_mask in
    let '(i, j) := get_block_coord nblock_right in
    let block := blocks_manager.get_block_ptr (blockman_ bv) i j in
    let before :=
      if negb (nblock_right =? 0)
      then rs_index.rcount blocks_cnt (nblock_right - 1) else 0 in
    if is_null block then 0
    else if BM_IS_GAP block then
      let gap_blk := BMGAP_PTR block in
      if gap_test_unr gap_blk (u16 nbit_right)
      then u32 (gap_bit_count_to gap_blk (u16 nbit_right) + before)
      else 0
    else if IS_FULL_BLOCK block then u32 (nbit_right + 1 + before)
    else
      let nword := Z.shiftr nbit_right set_word_shift in
      let w := rd (bit_words block) (Z.to_nat nword) in
      let w := Z.land w (Z.shiftl 1 (Z.land nbit_right set_word_mask)) in
      if negb (w =? 0)
      then u32 (block_count_to (bit_words block) nblock_right nbit_right blocks_cnt
                + before)
      else 0.

Section Asserts.
Variable assert_throw : bool.

(** [count_range(left, right, rs_idx)] *)
Definition count_range_rs (bv : t) (left right : Z) (rs_idx : rs_index.t)
  : outcome Z :=
  BM_ASSERT_THROW assert_throw (right <? id_max)
    (BM_ASSERT_THROW assert_throw (left <=? right)
       (if left =? right
        then omap Z.b2z (bvector_checked.test assert_throw bv left)
        else
          let cnt_l := if negb (left =? 0) then count_to bv (left - 1) rs_idx
                       else left in
          let cnt_r := count_to bv right rs_idx in
          Done (u32 (cnt_r - cnt_l)))).

(** [set_bit_conditional(n, val, condition)] *)
Definition set_bit_conditional (bv : t) (n : Z) (val condition : bool)
  : outcome (t * bool) :=
  if Bool.eqb val condition then Done (bv, false)
  else
    do bv <- (if n >=? size_ bv then
                let new_size := if n =? id_max then id_max else n + 1 in
                resize assert_throw bv new_size
              else Done bv);
    Done (set_bit_conditional_impl bv n val condition).

(** [set_bit_and(n, val)] *)
Definition set_bit_and (bv : t) (n : Z) (val : bool) : outcome (t * bool) :=
  BM_ASSERT_THROW assert_throw (n <? size_ bv)
    (let bv := init bv in Done (and_bit_no_check bv n val)).

(** [clear_bit(n)] and [clear_bit_no_check(n)] *)
Definition clear_bit (bv : t) (n : Z) : outcome (t * bool) :=
  set_bit assert_throw bv n false.

(** [find(from, pos)]: [None] for the result [false]. *)
Definition find_from (bv : t) (from : Z) : outcome (option Z) :=
  BM_ASSERT_THROW assert_throw (from <? id_max)
    (if from =? 0 then Done (find bv)
     else
       let pos := check_or_next bv from in
       Done (if negb (pos =? 0) then Some pos else None)).

(** [sync_size()] *)
Definition sync_size (bv : t) : outcome t :=
  if size_ bv >=? id_max then Done bv
  else
    match find_reverse bv with
    | Some last =>
        if last >=? size_ bv then resize assert_throw bv (u32 (last + 1))
        else Done bv
    | None => Done bv
    end.

End Asserts.

End bvector_ops.

(** ** Further parts of the XOR filter ([bmxor.h]) *)

Module xor_filter.

(** [bit_block_xor(target_block, block, xor_block, digest)]: the partial XOR
    product by digest mask; wave [i] of the target is the XOR of the two
    waves when bit [i] of the digest is set, and a copy of the wave of
    [block] otherwise.  The three arrays are distinct. *)
Definition bit_block_xor (target_block block xor_block : list Z) (digest : Z)
  : list Z :=
  for_range block_waves
    (fun t i =>
       let mask := Z.shiftl 1 (Z.of_nat i) in
       let off := (i * set_block_digest_wave_size)%nat in
       if negb (Z.land digest mask =? 0) then
         for_range set_block_digest_wave_size
           (fun t k =>
              <[(off + k)%nat := Z.lxor (rd block (off + k)) (rd xor_block (off + k))]> t)
           t
       else
         for_range set_block_digest_wave_size
           (fun t k => <[(off + k)%nat := rd block (off + k)]> t)
           t)
    target_block.

End xor_filter.

(** [class bv_ref_vector]: the list of reference vectors with their row
    indexes.  A vector is known by its address. *)
Module bv_ref_vector.

Record t : Type := mk {
  rows_acc_ : Z;
  ref_bvects_ : list bvector.addr;
  ref_bvects_rows_ : list Z
}.

(** The vector as it is constructed. *)
Definition empty : t := mk 0 [] [].

(** [reset()] *)
Definition reset (rv : t) : t := mk 0 [] [].

(** [add(bv, ref_idx)]: the parameter [ref_idx] is a [size_type], so the
    argument reaches the list as a 32-bit value. *)
Definition add (rv : t) (bv : bvector.addr) (ref_idx : Z) : t :=
  mk (rows_acc_ rv) (ref_bvects_ rv ++ [bv]) (ref_bvects_rows_ rv ++ [u32 ref_idx]).

(** [size()] *)
Definition size (rv : t) : Z := u32 (Z.of_nat (length (ref_bvects_ rv))).

(** [get_bv(idx)] and [get_row_idx(idx)] *)
Definition get_bv (rv : t) (idx : Z) : bvector.addr :=
  nth (Z.to_nat idx) (ref_bvects_ rv) 0%nat.
Definition get_row_idx (rv : t) (idx : Z) : Z :=
  u32 (rd (ref_bvects_rows_ rv) (Z.to_nat idx)).

(** [not_found()], that is [~(size_type(0))]. *)
Definition not_found : Z := u32 (Z.lnot 0).

(** [find(ref_idx)] *)
Definition find (rv : t) (ref_idx : Z) : Z :=
  let sz := size rv in
  match scan_until
          (fun i => if ref_idx =? rd (ref_bvects_rows_ rv) i
                    then Some (Z.of_nat i) else None)
          (seq 0 (Z.to_nat sz)) with
  | Some i => i
  | None => not_found
  end.

(** [find_bv(bv)] *)
Definition find_bv (rv : t) (bv : bvector.addr) : Z :=
  let sz := size rv in
  match scan_until
          (fun i => if (bv =? nth i (ref_bvects_ rv) 0)%nat
                    then Some (Z.of_nat i) else None)
          (seq 0 (Z.to_nat sz)) with
  | Some i => i
  | None => not_found
  end.

(** [add_vectors(bmatr)]: the matrix is given by its rows, a NULL row as
    [None]. *)
Definition add_vectors (rv : t) (bmatr : list (option bvector.addr)) : t :=
  let rows := u32 (Z.of_nat (length bmatr)) in
  let rv :=
    for_range (Z.to_nat rows)
      (fun rv r =>
         match bmatr !! r with
         | Some (Some bv) => add rv bv (u32 (rows_acc_ rv + Z.of_nat r))
         | _ => rv
         end)
      rv in
  mk (u32 (rows_acc_ rv + rows)) (ref_bvects_ rv) (ref_bvects_rows_ rv).

(** [build(bmatr)] *)
Definition build (rv : t) (bmatr : list (option bvector.addr)) : t :=
  add_vectors (reset rv) bmatr.

End bv_ref_vector.

(** [class xor_scanner] *)
Module xor_scanner.
Import bmxor.

(** [best_metric(bc, gc, &best_metric)]: the kind of the metric and its
    value. *)
Definition best_metric (bc gc : Z) : xor_complement_match * Z :=
  let ibc := u32 (gap_max_bits - bc) in
  if ibc =? 0 then (e_xor_match_GC, gc)
  else if gc <? bc then
    if gc <? ibc then (e_xor_match_GC, gc) else (e_xor_match_iBC, ibc)
  else
    if bc <? ibc then (e_xor_match_BC, bc) else (e_xor_match_iBC, ibc).

End xor_scanner.

(** * Definitions used by the statements *)

(** ** The selection rules of the XOR scanner *)

Module xor_ref.
Import bmxor.

(** The selection rule in the words of the specification: the largest gain
    wins and ties are broken in the order GC > BC > iBC. *)
Definition select_GC_BC_iBC (gc bc ibc : Z) : xor_complement_match :=
  if (bc <=? gc) && (ibc <=? gc) then e_xor_match_GC
  else if ibc <=? bc then e_xor_match_BC
  else e_xor_match_iBC.

(** The selection rule with the opposite tie-break, iBC > BC > GC. *)
Definition select_iBC_BC_GC (gc bc ibc : Z) : xor_complement_match :=
  if (bc <? gc) && (ibc <? gc) then e_xor_match_GC
  else if ibc <? bc then e_xor_match_BC
  else e_xor_match_iBC.

(** The digest that belongs to a metric. *)
Definition digest_of (g : gains) (m : xor_complement_match) : Z :=
  match m with
  | e_xor_match_GC => gc_digest g
  | e_xor_match_BC => bc_digest g
  | e_xor_match_iBC => ibc_digest g
  | _ => 0
  end.

(** "At least one gain accumulator is non-zero." *)
Definition some_gain (g : gains) : Prop :=
  block_gc_gain g <> 0 \/ block_bc_gain g <> 0 \/ block_ibc_gain g <> 0.

Definition no_gain (g : gains) : Prop :=
  block_gc_gain g = 0 /\ block_bc_gain g = 0 /\ block_ibc_gain g = 0.

(** T xor R is all zero: the two blocks are bit-for-bit equal. *)
Definition xor_all_zero (block xor_block : list Z) : bool :=
  forallb (fun p => Z.lxor (fst p) (snd p) =? 0) (zip block xor_block).

(** Sample blocks: all zero, and all zero but the first word. *)
Definition block0 : list Z := replicate (Z.to_nat set_block_size) 0.
Definition block_w0 (w : Z) : list Z := <[0%nat := w]> block0.

End xor_ref.

(** ** Sample vectors used by the concrete statements *)

Module samples.
Import bvector.

(** The default-constructed vector: BM_BIT strategy, unbounded size. *)
Definition fresh : t := create BM_BIT gap_len_table id_max.
(** A vector that allocates GAP-blocks. *)
Definition fresh_gap : t := create BM_GAP gap_len_table id_max.
(** A vector of size 10. *)
Definition fresh10 : t := create BM_BIT gap_len_table 10.

(** The vector after [set(n)] for each [n] of the list, in order. *)
Definition set_all (bv : t) (l : list Z) : t :=
  fold_left (fun bv n => match set false bv n true with Done bv' => bv' | _ => bv end)
            l bv.

(** Three vectors at the addresses 0, 1 and 2: {5}, {3} and an
    uninitialised one. *)
Definition store_5_3 : store :=
  fun a => match a with
           | O => set_all fresh [5]
           | S O => set_all fresh [3]
           | _ => fresh
           end.

(** An enumerator that has run off the end of the GAP-block vector {5}. *)
Definition exhausted_gap_enumerator : enumerator.t :=
  let e := enumerator.go_first (enumerator.create (set_all fresh_gap [5])) in
  match enumerator.go_up false e with Done e' => e' | _ => e end.

(** The vector of size 10 that holds {9}, and the vector of full size that
    holds the last addressable position. *)
Definition nine_of_ten : t := set_all fresh10 [9].
Definition last_position : t := set_all fresh [id_max - 1].
Definition scattered : t := set_all fresh [3; 21900; 70000].

End samples.

(** ** Well-formed vectors *)

(** Modelled from the spec: the run ends of a GAP-block are strictly
    increasing and the last one is B-1. *)
Fixpoint wf_ends (ends : list Z) (start : Z) : bool :=
  match ends with
  | [] => start =? gap_max_bits
  | e :: rest => (start <=? e) && (e <? gap_max_bits) && wf_ends rest (e + 1)
  end.

Definition wf_gap (g : list Z) : bool :=
  match g with
  | [] => false
  | _ :: ends => wf_ends ends 0
  end.

(** A bit-block is an array of 2,048 words of 32 bits. *)
Definition wf_word (w : Z) : bool := (0 <=? w) && (w <? 2 ^ 32).

Definition wf_bit (w : list Z) : bool :=
  (length w =? Z.to_nat set_block_size)%nat && forallb wf_word w.

Definition wf_block (b : block) : bool :=
  match b with
  | BBit w => wf_bit w
  | BGap g => wf_gap g
  | _ => true
  end.

(** Modelled from the spec: a sub-array has 256 slots and the top array at
    most 256. *)
Definition wf_sub (s : subarray) : bool :=
  match s with
  | SArr l => (length l =? Z.to_nat set_sub_array_size)%nat && forallb wf_block l
  | _ => true
  end.

Definition wf_bm (bm : blocks_manager.t) : bool :=
  (blocks_manager.top_block_size bm <=? Z.to_nat set_top_array_size)%nat
  && forallb wf_sub (blocks_manager.top_blocks_root bm).

Definition wf_bv (bv : bvector.t) : bool := wf_bm (bvector.blockman_ bv).

(** ** Views of a vector used by the statements *)

(** The read that [get_bit] performs on a slot. *)
Definition block_test (b : block) (nbit : Z) : bool :=
  if negb (is_null b) then
    if BM_IS_GAP b then gap_test_unr (BMGAP_PTR b) nbit
    else if IS_FULL_BLOCK b then true
    else bit_test (bit_words b) nbit
  else false.

(** The slot of linear block number [nb]. *)
Definition block_at (bv : bvector.t) (nb : nat) : block :=
  blocks_manager.get_block_ptr (bvector.blockman_ bv)
    (nb / Z.to_nat set_sub_array_size) (nb mod Z.to_nat set_sub_array_size).

(** Sub-array [i] of a vector replaced by the slots [l]. *)
Definition with_sub (bv : bvector.t) (i : nat) (l : list block) : bvector.t :=
  bvector.bm_do bv (fun bm => blocks_manager.set_topblock bm i (SArr l)).

(** ** The shift by one position, block by block *)



(** The number of the block in slot (i, j) and whether it is the last
    block of the address space. *)
Definition nblock_of (i j : nat) : Z := Z.of_nat i * set_sub_array_size + Z.of_nat j.




(** ** Counting, block by block *)

(** The number of set bits among the positions [0 .. q] of a list. *)
Definition rank_in (l : list bool) (q : nat) : Z := count_bits (take (S q) l).

(** The number of set bits of block [nb], and of all the blocks before
    block [nb]. *)
Definition block_count (bv : bvector.t) (nb : nat) : Z :=
  count_bits (block_bits (block_at bv nb)).

Definition count_before (bv : bvector.t) (nb : nat) : Z :=
  rs_index.sum_list (map (block_count bv) (seq 0 nb)).

(** The two sub-range counts that the index keeps for a block, the bits at
    [0 .. border0] and at [border0+1 .. border1], and their packing into
    one word. *)
Definition sub_first (bv : bvector.t) (nb : nat) : Z :=
  count_range_of (block_bits (block_at bv nb)) 0 rs3_border0.
Definition sub_second (bv : bvector.t) (nb : nat) : Z :=
  count_range_of (block_bits (block_at bv nb)) (rs3_border0 + 1) rs3_border1.
Definition pack_sub (first second : Z) : Z := Z.lor first (Z.shiftl second 16).

(** An index that describes the first [n] blocks of a vector. *)
Definition indexes (bv : bvector.t) (rs : rs_index.t) (n : nat) : Prop :=
  rs_index.total_ rs = Z.of_nat n
  /\ (n <= length (rs_index.bcount_ rs))%nat
  /\ (forall m, rd (rs_index.bcount_ rs) m = block_count bv m)
  /\ (forall m, rd (rs_index.sub_count_ rs) m
                = pack_sub (sub_first bv m) (sub_second bv m)).

(** The index while it is being built: the entries of the first [k]
    sub-arrays are written, the others are still zero. *)
Definition built (bv : bvector.t) (k : nat) (rs : rs_index.t) (m : nat) : Prop :=
  rd (rs_index.bcount_ rs) m
  = (if (m / Z.to_nat set_sub_array_size <? k)%nat then block_count bv m else 0)
  /\ rd (rs_index.sub_count_ rs) m
     = (if (m / Z.to_nat set_sub_array_size <? k)%nat
        then pack_sub (sub_first bv m) (sub_second bv m) else 0).

(** ** Populations *)

(** The number of set bits among the [n] positions from [start] on, read
    through [get_bit]. *)
Fixpoint set_bits_from (bv : bvector.t) (start : Z) (n : nat) : Z :=
  match n with
  | O => 0
  | S n' => Z.b2z (bvector.get_bit bv start) + set_bits_from bv (start + 1) n'
  end.

(** The same number for the positions [0 .. i], block by block. *)
Definition bits_upto (bv : bvector.t) (i : Z) : Z :=
  let nb := Z.to_nat (i / bits_in_block) in
  count_before bv nb
  + rank_in (block_bits (block_at bv nb)) (Z.to_nat (i mod bits_in_block)).

(** ** Searches *)

(** Position [q] holds the first set bit of a block, the last set bit of a
    block. *)
Definition first_set_in (l : list bool) (q : Z) : Prop :=
  0 <= q < bits_in_block /\ nth (Z.to_nat q) l false = true
  /\ forall k, (k < Z.to_nat q)%nat -> nth k l false = false.

Definition last_set_in (l : list bool) (q : Z) : Prop :=
  0 <= q < bits_in_block /\ nth (Z.to_nat q) l false = true
  /\ forall k, (Z.to_nat q < k)%nat -> nth k l false = false.

(** ** Stores *)

(** The manager [bm'] is [bm] with the block [X] in slot (i, j). *)
Definition slot_updated (bm bm' : blocks_manager.t) (i j : nat) (X : block) : Prop :=
  forall i' j', (j' < Z.to_nat set_sub_array_size)%nat ->
    blocks_manager.get_block_ptr bm' i' j'
    = if ((i' =? i) && (j' =? j))%nat then X
      else blocks_manager.get_block_ptr bm i' j'.

(** The coordinates of block [nb] in the tree. *)
Definition top_index (nb : nat) : nat := nb / Z.to_nat set_sub_array_size.
Definition sub_index (nb : nat) : nat := nb mod Z.to_nat set_sub_array_size.

(** The vector [bv'] is [bv] with the value [v] at position [n]: the other
    positions, the size and the allocation settings are those of [bv]. *)
Definition bit_written (bv bv' : bvector.t) (n : Z) (v : bool) : Prop :=
  wf_bv bv' = true
  /\ bvector.is_init bv' = true
  /\ bvector.size_ bv' = bvector.size_ bv
  /\ bvector.new_blocks_strat_ bv' = bvector.new_blocks_strat_ bv
  /\ blocks_manager.glen (bvector.blockman_ bv') = blocks_manager.glen (bvector.blockman_ bv)
  /\ forall pos, 0 <= pos < 2 ^ 32 ->
       bvector.get_bit bv' pos = if pos =? n then v else bvector.get_bit bv pos.

(** Whether block [nb] is kept, or would be created, as a GAP-block. *)
Definition gap_coded (bv : bvector.t) (nb : nat) : bool :=
  match block_at bv nb with
  | BGap _ => true
  | BBit _ => false
  | _ => match bvector.get_new_blocks_strat bv with BM_GAP => true | BM_BIT => false end
  end.

(** The number of places where a list of bits changes value from one
    element to the next. *)
Fixpoint changes (l : list bool) : Z :=
  match l with
  | a :: ((b :: _) as l') => Z.b2z (xorb a b) + changes l'
  | _ => 0
  end.

(** The bits in which the words [off .. off + size - 1] of two arrays
    differ. *)
Definition xor_bits (block xor_block : list Z) (off size : nat) : list bool :=
  concat (map (fun k => word_bits (Z.lxor (rd block (off + k)) (rd xor_block (off + k))))
              (seq 0 size)).

(** What the loop of [bit_block_xor_change32] holds after [k] words: the
    counters of the bits seen so far and the last of these bits. *)
Definition counted (block xor_block : list Z) (off k : nat)
    (s : bmxor.change_state) : Prop :=
  bmxor.gap_count s = 1 + changes (xor_bits block xor_block off k)
  /\ bmxor.bit_count s = count_bits (xor_bits block xor_block off k)
  /\ exists a, last (xor_bits block xor_block off k) = Some a
               /\ bmxor.w_prev s = Z.b2z a.

(** The non-NULL rows of a matrix with their row numbers, the first row
    being row [r0]. *)
Fixpoint live_rows (bmatr : list (option bvector.addr)) (r0 : nat)
  : list (bvector.addr * Z) :=
  match bmatr with
  | [] => []
  | Some bv :: m => (bv, Z.of_nat r0) :: live_rows m (S r0)
  | None :: m => live_rows m (S r0)
  end.

(** * Properties *)

(** ** Loops *)

Lemma for_range_S {St : Type} (n : nat) (body : St -> nat -> St) (s0 : St) :
  for_range (S n) body s0 = body (for_range n body s0) n.
Proof.
  unfold for_range. rewrite seq_S, fold_left_app. reflexivity.
Qed.

Lemma for_range_ind {St : Type} (P : nat -> St -> Prop)
    (n : nat) (body : St -> nat -> St) (s0 : St) :
  P 0%nat s0 ->
  (forall k s, (k < n)%nat -> P k s -> P (S k) (body s k)) ->
  P n (for_range n body s0).
Proof.
  intros H0 Hstep.
  assert (forall m, (m <= n)%nat -> P m (for_range m body s0)) as H.
  { induction m as [|m IH]; intros Hm.
    - exact H0.
    - rewrite for_range_S. apply Hstep; [lia|]. apply IH. lia. }
  apply H. lia.
Qed.

(** ** Words and bits *)

Lemma word_bits_length (w : Z) : length (word_bits w) = 32%nat.
Proof.
  unfold word_bits. rewrite length_map, length_seq. reflexivity.
Qed.

Lemma nth_word_bits (w : Z) (i : nat) :
  (i < 32)%nat -> nth i (word_bits w) false = Z.testbit w (Z.of_nat i).
Proof.
  intros Hi. unfold word_bits.
  rewrite (nth_indep _ false (Z.testbit w (Z.of_nat 0)))
    by (rewrite length_map, length_seq; exact Hi).
  rewrite (map_nth (fun b => Z.testbit w (Z.of_nat b))).
  rewrite seq_nth by exact Hi. reflexivity.
Qed.

Lemma bits_of_words_cons (w : Z) (ws : list Z) :
  bits_of_words (w :: ws) = word_bits w ++ bits_of_words ws.
Proof. reflexivity. Qed.

Lemma bits_of_words_length (ws : list Z) :
  length (bits_of_words ws) = (32 * length ws)%nat.
Proof.
  induction ws as [|w ws IH]; [reflexivity|].
  rewrite bits_of_words_cons, length_app, word_bits_length, IH.
  cbn [length]. lia.
Qed.

Lemma rd_cons_S (w : Z) (ws : list Z) (k : nat) : rd (w :: ws) (S k) = rd ws k.
Proof. reflexivity. Qed.

Lemma rd_nil (k : nat) : rd [] k = 0.
Proof. destruct k; reflexivity. Qed.

(** Bit [n] of an array of words is bit [n mod 32] of word [n / 32]. *)
Lemma nth_bits_of_words (ws : list Z) (k i : nat) :
  (i < 32)%nat ->
  nth (32 * k + i) (bits_of_words ws) false = Z.testbit (rd ws k) (Z.of_nat i).
Proof.
  intros Hi. revert k. induction ws as [|w ws IH]; intros k.
  - rewrite rd_nil, Z.testbit_0_l. destruct (32 * k + i)%nat; reflexivity.
  - rewrite bits_of_words_cons. destruct k as [|k].
    + rewrite app_nth1 by (rewrite word_bits_length; lia).
      replace (32 * 0 + i)%nat with i by lia. apply nth_word_bits, Hi.
    + rewrite app_nth2 by (rewrite word_bits_length; lia).
      rewrite word_bits_length, rd_cons_S.
      replace (32 * S k + i - 32)%nat with (32 * k + i)%nat by lia.
      apply IH.
Qed.

Lemma testbit_as_mask (w k : Z) :
  0 <= k ->
  negb (Z.land w (Z.shiftl 1 k) =? 0) = Z.testbit w k.
Proof.
  intros Hk. destruct (Z.testbit w k) eqn:Hb.
  - apply negb_true_iff, Z.eqb_neq. intros H0.
    assert (Z.testbit (Z.land w (Z.shiftl 1 k)) k = true) as Ht.
    { rewrite Z.land_spec, Hb, Z.shiftl_spec, Z.sub_diag by lia. reflexivity. }
    rewrite H0, Z.testbit_0_l in Ht. discriminate.
  - apply negb_false_iff, Z.eqb_eq. apply Z.bits_inj'. intros n Hn.
    rewrite Z.land_spec, Z.testbit_0_l, Z.shiftl_spec by lia.
    destruct (Z.eq_dec n k) as [->|Hne].
    + rewrite Hb. reflexivity.
    + replace (Z.testbit 1 (n - k)) with false; [apply andb_false_r|].
      destruct (Z.lt_ge_cases n k).
      * rewrite Z.testbit_neg_r by lia. reflexivity.
      * symmetry. apply (Z.bits_above_log2 1 (n - k)); simpl; lia.
Qed.

(** [bit_test] reads the bit of the list of bits. *)
Lemma bit_test_nth (ws : list Z) (n : Z) :
  0 <= n ->
  bit_test ws n = nth (Z.to_nat n) (bits_of_words ws) false.
Proof.
  intros Hn. unfold bit_test, set_word_shift, set_word_mask.
  change 31 with (Z.ones 5). rewrite Z.land_ones, Z.shiftr_div_pow2 by lia.
  change (2 ^ 5) with 32.
  rewrite testbit_as_mask by (apply Z.mod_pos_bound; lia).
  assert (Z.to_nat n = (32 * Z.to_nat (n / 32) + Z.to_nat (n mod 32))%nat) as ->.
  { pose proof (Z.div_mod n 32 ltac:(lia)).
    pose proof (Z.mod_pos_bound n 32 ltac:(lia)).
    pose proof (Z.div_pos n 32 Hn ltac:(lia)). lia. }
  rewrite nth_bits_of_words.
  - rewrite Z2Nat.id by (apply Z.mod_pos_bound; lia). reflexivity.
  - pose proof (Z.mod_pos_bound n 32 ltac:(lia)). lia.
Qed.

(** *** Words assembled from bits *)

Lemma testbit_word_of_bits (l : list bool) (i : nat) :
  Z.testbit (word_of_bits l) (Z.of_nat i) = nth i l false.
Proof.
  revert i. induction l as [|b l IH]; intros i.
  - cbn [word_of_bits]. rewrite Z.testbit_0_l. destruct i; reflexivity.
  - cbn [word_of_bits]. rewrite Z.add_comm. destruct i as [|i].
    + apply Z.testbit_0_r.
    + rewrite Nat2Z.inj_succ, Z.testbit_succ_r by lia. apply IH.
Qed.

Lemma word_of_bits_range (l : list bool) :
  0 <= word_of_bits l < 2 ^ Z.of_nat (length l).
Proof.
  induction l as [|b l IH].
  - cbn. lia.
  - cbn [word_of_bits length]. rewrite Nat2Z.inj_succ, Z.pow_succ_r by lia.
    destruct b; cbn [Z.b2z]; lia.
Qed.

Lemma map_nth_seq {A : Type} (l : list A) (d : A) :
  map (fun i => nth i l d) (seq 0 (length l)) = l.
Proof.
  induction l as [|a l IH]; [reflexivity|].
  cbn [length seq map nth]. f_equal.
  rewrite <- seq_shift, map_map. exact IH.
Qed.

Lemma word_bits_of_bits (l : list bool) :
  length l = 32%nat -> word_bits (word_of_bits l) = l.
Proof.
  intros Hl. unfold word_bits.
  transitivity (map (fun i => nth i l false) (seq 0 (length l)));
    [|apply map_nth_seq].
  rewrite Hl. apply map_ext. intros i. apply testbit_word_of_bits.
Qed.

Lemma bits_of_words_of_bits (k : nat) (l : list bool) :
  length l = (32 * k)%nat -> bits_of_words (words_of_bits k l) = l.
Proof.
  revert l. induction k as [|k IH]; intros l Hl.
  - destruct l; [reflexivity|discriminate].
  - cbn [words_of_bits]. rewrite bits_of_words_cons.
    rewrite word_bits_of_bits by (rewrite length_take; lia).
    rewrite IH by (rewrite length_drop; lia).
    apply take_drop.
Qed.

Lemma words_of_bits_length (k : nat) (l : list bool) :
  length (words_of_bits k l) = k.
Proof.
  revert l. induction k as [|k IH]; intros l; cbn [words_of_bits length]; auto.
Qed.

Lemma words_of_bits_wf (k : nat) (l : list bool) :
  forallb wf_word (words_of_bits k l) = true.
Proof.
  revert l. induction k as [|k IH]; intros l; [reflexivity|].
  cbn [words_of_bits forallb]. rewrite IH, andb_true_r.
  pose proof (word_of_bits_range (take 32 l)) as H.
  rewrite length_take in H.
  assert (2 ^ Z.of_nat (32 `min` length l) <= 2 ^ 32) by (apply Z.pow_le_mono_r; lia).
  unfold wf_word. apply andb_true_intro. split; [apply Z.leb_le|apply Z.ltb_lt]; lia.
Qed.

Lemma block_size_nat : (32 * Z.to_nat set_block_size)%nat = Z.to_nat bits_in_block.
Proof. reflexivity. Qed.

Lemma bits_of_bit_block_of (l : list bool) :
  length l = Z.to_nat bits_in_block -> bits_of_words (bit_block_of l) = l.
Proof.
  intros Hl. apply bits_of_words_of_bits. rewrite Hl. symmetry. apply block_size_nat.
Qed.

Lemma bit_block_of_wf (l : list bool) : wf_bit (bit_block_of l) = true.
Proof.
  unfold wf_bit, bit_block_of. rewrite words_of_bits_length, words_of_bits_wf.
  rewrite Nat.eqb_refl. reflexivity.
Qed.

(** ** GAP-blocks *)

Lemma nth_replicate {A : Type} (n i : nat) (x d : A) :
  (i < n)%nat -> nth i (replicate n x) d = x.
Proof.
  revert i. induction n as [|n IH]; intros i Hi; [lia|].
  destruct i as [|i]; [reflexivity|]. cbn [replicate nth]. apply IH. lia.
Qed.

Lemma replicate_snoc {A : Type} (n : nat) (x : A) :
  replicate (S n) x = replicate n x ++ [x].
Proof.
  induction n as [|n IH]; [reflexivity|].
  cbn [replicate app] in *. f_equal. exact IH.
Qed.

Lemma gap_first_bit_header (len level : Z) (b : bool) (ends : list Z) :
  gap_first_bit (gap_header len level b :: ends) = b.
Proof.
  unfold gap_first_bit.
  change (rd (gap_header len level b :: ends) 0) with (gap_header len level b).
  unfold gap_header.
  rewrite <- Z.bit0_odd, !Z.lor_spec, !Z.shiftl_spec by lia.
  rewrite !Z.testbit_neg_r by lia. cbn [orb]. apply Z.b2z_bit0.
Qed.

Lemma bits_of_gap_set_level (g : list Z) (level : Z) :
  bits_of_gap (gap_set_level g level) = bits_of_gap g.
Proof.
  unfold bits_of_gap, gap_set_level. rewrite gap_first_bit_header. reflexivity.
Qed.

Lemma gap_test_unr_set_level (g : list Z) (level : Z) (n : Z) :
  gap_test_unr (gap_set_level g level) n = gap_test_unr g n.
Proof.
  unfold gap_test_unr, gap_set_level. rewrite gap_first_bit_header. reflexivity.
Qed.

Lemma wf_gap_set_level (g : list Z) (level : Z) :
  wf_gap g = true -> wf_gap (gap_set_level g level) = true.
Proof.
  destruct g; [discriminate|]. intros H. exact H.
Qed.

Lemma wf_ends_bound (ends : list Z) (start : Z) :
  wf_ends ends start = true -> start <= gap_max_bits.
Proof.
  revert start. induction ends as [|e rest IH]; intros start H; cbn [wf_ends] in H.
  - apply Z.eqb_eq in H. lia.
  - apply andb_prop in H as [H H3]. apply andb_prop in H as [H1 H2].
    apply Z.leb_le in H1. apply Z.ltb_lt in H2. lia.
Qed.

Lemma gap_expand_length (ends : list Z) (start : Z) (v : bool) :
  wf_ends ends start = true ->
  length (gap_expand ends start v) = Z.to_nat (gap_max_bits - start).
Proof.
  revert start v. induction ends as [|e rest IH]; intros start v H;
    cbn [wf_ends gap_expand] in *.
  - apply Z.eqb_eq in H. rewrite H, Z.sub_diag. reflexivity.
  - apply andb_prop in H as [H H3]. apply andb_prop in H as [H1 H2].
    apply Z.leb_le in H1. apply Z.ltb_lt in H2.
    rewrite length_app, length_replicate, (IH _ _ H3). lia.
Qed.

Lemma nth_gap_expand (ends : list Z) (start : Z) (v : bool) (pos : Z) :
  wf_ends ends start = true ->
  start <= pos < gap_max_bits ->
  nth (Z.to_nat (pos - start)) (gap_expand ends start v) false = gap_scan ends pos v.
Proof.
  revert start v. induction ends as [|e rest IH]; intros start v H Hpos;
    cbn [wf_ends gap_expand gap_scan] in *.
  - apply Z.eqb_eq in H. lia.
  - apply andb_prop in H as [H H3]. apply andb_prop in H as [H1 H2].
    apply Z.leb_le in H1. apply Z.ltb_lt in H2.
    destruct (Z.leb_spec pos e) as [Hle|Hgt].
    + rewrite app_nth1 by (rewrite length_replicate; lia).
      apply nth_replicate. lia.
    + rewrite app_nth2 by (rewrite length_replicate; lia).
      rewrite length_replicate.
      replace (Z.to_nat (pos - start) - Z.to_nat (e + 1 - start))%nat
        with (Z.to_nat (pos - (e + 1))) by lia.
      apply IH; [exact H3|lia].
Qed.

Lemma bits_of_gap_length (g : list Z) :
  wf_gap g = true -> length (bits_of_gap g) = Z.to_nat gap_max_bits.
Proof.
  destruct g as [|h ends]; [discriminate|]. intros H.
  unfold bits_of_gap. cbn [tail]. rewrite gap_expand_length by exact H.
  rewrite Z.sub_0_r. reflexivity.
Qed.

(** [gap_test_unr] reads the bit of the list of bits. *)
Lemma gap_test_nth (g : list Z) (n : Z) :
  wf_gap g = true -> 0 <= n < gap_max_bits ->
  gap_test_unr g n = nth (Z.to_nat n) (bits_of_gap g) false.
Proof.
  destruct g as [|h ends]; [discriminate|]. intros H Hn.
  unfold gap_test_unr, bits_of_gap. cbn [tail].
  rewrite <- (nth_gap_expand ends 0) by (assumption || lia).
  rewrite Z.sub_0_r. reflexivity.
Qed.

(** *** The GAP encoding of a list of bits *)

Lemma gap_expand_runs (l : list bool) (prev : bool) (pos start : Z) :
  start <= pos ->
  gap_expand (gap_runs l prev pos) start prev
  = replicate (Z.to_nat (pos - start)) prev ++ l.
Proof.
  revert prev pos start. induction l as [|b l IH]; intros prev pos start Hle;
    cbn [gap_runs].
  - cbn [gap_expand]. f_equal. f_equal. lia.
  - destruct (Bool.eqb b prev) eqn:Hb.
    + apply Bool.eqb_prop in Hb. subst b.
      rewrite IH by lia.
      replace (Z.to_nat (pos + 1 - start)) with (S (Z.to_nat (pos - start))) by lia.
      rewrite replicate_snoc, <- app_assoc. reflexivity.
    + cbn [gap_expand].
      assert (negb prev = b) as -> by (destruct b, prev; try reflexivity; discriminate).
      rewrite IH by lia.
      replace (Z.to_nat (pos + 1 - (pos - 1 + 1))) with 1%nat by lia.
      replace (pos - 1 + 1 - start) with (pos - start) by lia.
      reflexivity.
Qed.

Lemma wf_ends_runs (l : list bool) (prev : bool) (pos start : Z) :
  start < pos ->
  pos + Z.of_nat (length l) = gap_max_bits ->
  wf_ends (gap_runs l prev pos) start = true.
Proof.
  revert prev pos start. induction l as [|b l IH]; intros prev pos start Hlt Hlen;
    cbn [gap_runs length] in *.
  - cbn [wf_ends]. rewrite !andb_true_iff, Z.leb_le, Z.ltb_lt, Z.eqb_eq. lia.
  - destruct (Bool.eqb b prev).
    + apply IH; lia.
    + cbn [wf_ends]. rewrite !andb_true_iff, Z.leb_le, Z.ltb_lt.
      split; [lia|]. replace (pos - 1 + 1) with pos by lia. apply IH; lia.
Qed.

Lemma bits_of_gap_block_of (level : Z) (l : list bool) :
  l <> [] -> bits_of_gap (gap_block_of level l) = l.
Proof.
  destruct l as [|b l]; [congruence|]. intros _.
  unfold bits_of_gap, gap_block_of. rewrite gap_first_bit_header. cbn [tail].
  rewrite gap_expand_runs by lia. reflexivity.
Qed.

Lemma gap_block_of_wf (level : Z) (l : list bool) :
  length l = Z.to_nat gap_max_bits -> wf_gap (gap_block_of level l) = true.
Proof.
  destruct l as [|b l]; [discriminate|]. intros Hl.
  unfold wf_gap, gap_block_of. apply wf_ends_runs; [lia|].
  cbn [length] in Hl. unfold gap_max_bits in *. lia.
Qed.

(** ** Slots *)

Lemma block_bits_length (b : block) :
  wf_block b = true -> length (block_bits b) = Z.to_nat bits_in_block.
Proof.
  destruct b as [| |w|g]; cbn [wf_block block_bits]; intros H.
  - apply length_replicate.
  - apply length_replicate.
  - unfold wf_bit in H. apply andb_prop in H as [H _]. apply Nat.eqb_eq in H.
    rewrite bits_of_words_length, H. apply block_size_nat.
  - apply bits_of_gap_length, H.
Qed.

(** The read of a slot is the bit of its list of bits. *)
Lemma block_test_nth (b : block) (n : Z) :
  wf_block b = true -> 0 <= n < bits_in_block ->
  block_test b n = nth (Z.to_nat n) (block_bits b) false.
Proof.
  destruct b as [| |w|g]; cbn [wf_block block_bits]; intros H Hn; unfold block_test;
    cbn [is_null negb BM_IS_GAP IS_FULL_BLOCK BMGAP_PTR bit_words].
  - symmetry. apply nth_replicate. unfold bits_in_block in *. lia.
  - symmetry. apply nth_replicate. unfold bits_in_block in *. lia.
  - apply bit_test_nth. lia.
  - apply gap_test_nth; [exact H|exact Hn].
Qed.

Lemma get_bit_block_test (bv : bvector.t) (n : Z) :
  bvector.get_bit bv n
  = block_test
      (blocks_manager.get_block_ptr (bvector.blockman_ bv)
         (fst (get_block_coord (Z.shiftr n set_block_shift)))
         (snd (get_block_coord (Z.shiftr n set_block_shift))))
      (Z.land n set_block_mask).
Proof. reflexivity. Qed.

(** ** The blocks manager *)

Section BlocksManager.
Import blocks_manager.

Lemma is_init_set_topblock (bm : t) (i : nat) (s : subarray) :
  is_init (set_topblock bm i s) = is_init bm.
Proof.
  unfold set_topblock, is_init. destruct (top_blocks_ bm) eqn:E; cbn; rewrite ?E; reflexivity.
Qed.


Lemma glevel_len_set_topblock (bm : t) (i : nat) (s : subarray) :
  glevel_len_ (set_topblock bm i s) = glevel_len_ bm.
Proof.
  unfold set_topblock. destruct (top_blocks_ bm); reflexivity.
Qed.

Lemma get_topblock_set_topblock_eq (bm : t) (i : nat) (s : subarray) :
  is_init bm = true -> (i < top_block_size bm)%nat ->
  get_topblock (set_topblock bm i s) i = s.
Proof.
  unfold set_topblock, get_topblock, top_block_size, top_blocks_root, is_init.
  destruct (top_blocks_ bm) as [root|]; [|discriminate]. cbn. intros _ Hi.
  rewrite list_lookup_insert_eq by exact Hi. reflexivity.
Qed.

Lemma get_topblock_set_topblock_ne (bm : t) (i i' : nat) (s : subarray) :
  i <> i' -> get_topblock (set_topblock bm i s) i' = get_topblock bm i'.
Proof.
  unfold set_topblock, get_topblock, top_blocks_root.
  destruct (top_blocks_ bm) as [root|] eqn:E; cbn; rewrite ?E; [|reflexivity].
  intros Hne. rewrite list_lookup_insert_ne by exact Hne. reflexivity.
Qed.


Lemma get_topblock_beyond (bm : t) (i : nat) :
  (top_block_size bm <= i)%nat -> get_topblock bm i = SNull.
Proof.
  unfold get_topblock, top_block_size. intros H.
  rewrite lookup_ge_None_2 by exact H. reflexivity.
Qed.

Lemma set_block_ptr_unfold (bm : t) (i j : nat) (b : block) (l : list block) :
  get_topblock bm i = SArr l ->
  set_block_ptr bm i j b = set_topblock bm i (SArr (<[j := b]> l)).
Proof.
  intros H. unfold set_block_ptr. rewrite H. reflexivity.
Qed.

Lemma get_topblock_SArr_init (bm : t) (i : nat) (l : list block) :
  get_topblock bm i = SArr l ->
  is_init bm = true /\ (i < top_block_size bm)%nat.
Proof.
  unfold get_topblock, top_block_size, top_blocks_root, is_init.
  destruct (top_blocks_ bm) as [root|]; cbn.
  - intros H. split; [reflexivity|].
    destruct (root !! i) eqn:E; [|discriminate].
    apply lookup_lt_Some in E. exact E.
  - rewrite lookup_nil. discriminate.
Qed.


Lemma sub_block_insert_eq (l : list block) (j : nat) (b : block) :
  (j < length l)%nat -> sub_block (SArr (<[j := b]> l)) j = b.
Proof.
  intros Hj. cbn [sub_block]. rewrite list_lookup_insert_eq by exact Hj. reflexivity.
Qed.

Lemma sub_block_insert_ne (l : list block) (j j' : nat) (b : block) :
  j <> j' -> sub_block (SArr (<[j := b]> l)) j' = sub_block (SArr l) j'.
Proof.
  intros Hj. cbn [sub_block]. rewrite list_lookup_insert_ne by exact Hj. reflexivity.
Qed.

Lemma sub_block_null_sub_block (j : nat) : sub_block (SArr null_sub_block) j = BNull.
Proof.
  cbn [sub_block]. unfold null_sub_block.
  destruct (replicate (Z.to_nat set_sub_array_size) BNull !! j) eqn:E; [|reflexivity].
  apply lookup_replicate in E as [-> _]. reflexivity.
Qed.

(** Well-formedness reaches every slot. *)
Lemma wf_get_topblock (bm : t) (i : nat) :
  wf_bm bm = true -> wf_sub (get_topblock bm i) = true.
Proof.
  unfold wf_bm, get_topblock. intros H. apply andb_prop in H as [_ H].
  destruct (top_blocks_root bm !! i) as [s|] eqn:E; [|reflexivity].
  cbn [default]. rewrite forallb_forall in H. apply H.
  apply list_elem_of_In. eapply list_elem_of_lookup_2, E.
Qed.

Lemma wf_sub_block (s : subarray) (j : nat) :
  wf_sub s = true -> wf_block (sub_block s j) = true.
Proof.
  destruct s as [| |l]; try reflexivity. cbn [wf_sub sub_block]. intros H.
  apply andb_prop in H as [_ H].
  destruct (l !! j) as [b|] eqn:E; [|reflexivity].
  cbn [default]. rewrite forallb_forall in H. apply H.
  apply list_elem_of_In. eapply list_elem_of_lookup_2, E.
Qed.

Lemma wf_get_block_ptr (bm : t) (i j : nat) :
  wf_bm bm = true -> wf_block (get_block_ptr bm i j) = true.
Proof.
  intros H. apply wf_sub_block, wf_get_topblock, H.
Qed.

Lemma wf_sub_length (l : list block) :
  wf_sub (SArr l) = true -> length l = Z.to_nat set_sub_array_size.
Proof.
  cbn [wf_sub]. intros H. apply andb_prop in H as [H _]. apply Nat.eqb_eq, H.
Qed.

(** A GAP buffer stored by [clone_gap_block] reads as before. *)
Lemma block_test_clone_gap_block (bm : t) (g : list Z) (n : Z) :
  wf_gap g = true -> 0 <= n < gap_max_bits ->
  block_test (clone_gap_block bm g) n = gap_test_unr g n.
Proof.
  intros Hg Hn. unfold clone_gap_block.
  destruct (gap_calc_level (gap_length g) (glen bm) =? gap_levels).
  - unfold block_test. cbn [is_null negb BM_IS_GAP IS_FULL_BLOCK bit_words].
    unfold gap_convert_to_bitset.
    rewrite bit_test_nth by lia.
    rewrite bits_of_bit_block_of by (apply bits_of_gap_length, Hg).
    symmetry. apply gap_test_nth; assumption.
  - unfold block_test. cbn [is_null negb BM_IS_GAP BMGAP_PTR].
    apply gap_test_unr_set_level.
Qed.

End BlocksManager.

(** ** Coordinates *)

Lemma get_block_coord_snd (nb : Z) :
  (snd (get_block_coord nb) < Z.to_nat set_sub_array_size)%nat.
Proof.
  unfold get_block_coord, set_array_mask, set_sub_array_size. cbn [snd].
  change 255 with (Z.ones 8). rewrite Z.land_ones by lia.
  pose proof (Z.mod_pos_bound nb (2 ^ 8) ltac:(lia)). lia.
Qed.

Lemma land_block_mask_range (n : Z) : 0 <= Z.land n set_block_mask < gap_max_bits.
Proof.
  unfold set_block_mask, gap_max_bits. change 65535 with (Z.ones 16).
  rewrite Z.land_ones by lia. apply Z.mod_pos_bound. lia.
Qed.

(** ** Updates within one sub-array *)

Lemma get_block_coord_of_nblock (i j : nat) :
  (j < Z.to_nat set_sub_array_size)%nat ->
  get_block_coord (Z.of_nat i * set_sub_array_size + Z.of_nat j) = (i, j).
Proof.
  intros Hj. unfold get_block_coord, set_array_shift, set_array_mask, set_sub_array_size in *.
  change 255 with (Z.ones 8). rewrite Z.land_ones, Z.shiftr_div_pow2 by lia.
  change (2 ^ 8) with 256.
  assert ((Z.of_nat i * 256 + Z.of_nat j) / 256 = Z.of_nat i) as ->
    by (symmetry; apply Z.div_unique with (r := Z.of_nat j); lia).
  assert ((Z.of_nat i * 256 + Z.of_nat j) mod 256 = Z.of_nat j) as ->
    by (symmetry; apply Z.mod_unique with (q := Z.of_nat i); lia).
  rewrite !Nat2Z.id. reflexivity.
Qed.

Section WithSub.
Import bvector.

Variable bv : t.
Variable i : nat.
Hypothesis Hinit : blocks_manager.is_init (blockman_ bv) = true.
Hypothesis Hi : (i < blocks_manager.top_block_size (blockman_ bv))%nat.



Lemma glen_with_sub (l : list block) :
  blocks_manager.glen (blockman_ (with_sub bv i l)) = blocks_manager.glen (blockman_ bv).
Proof. cbn. apply glevel_len_set_topblock. Qed.













End WithSub.


(** ** Shifting a block by one position *)

Lemma wf_word_range (w : Z) : wf_word w = true <-> 0 <= w < 2 ^ 32.
Proof.
  unfold wf_word. rewrite andb_true_iff, Z.leb_le, Z.ltb_lt. reflexivity.
Qed.

Lemma shiftr31_bit (w : Z) :
  wf_word w = true -> Z.shiftr w 31 = Z.b2z (Z.testbit w 31).
Proof.
  intros H. apply wf_word_range in H.
  replace (Z.testbit w 31) with (Z.testbit (Z.shiftr w 31) 0)
    by (rewrite Z.shiftr_spec by lia; reflexivity).
  assert (0 <= Z.shiftr w 31 < 2) as Hr.
  { rewrite Z.shiftr_div_pow2 by lia. split.
    - apply Z.div_pos; lia.
    - apply Z.div_lt_upper_bound; lia. }
  assert (Z.shiftr w 31 = 0 \/ Z.shiftr w 31 = 1) as [-> | ->] by lia; reflexivity.
Qed.






(** ** One block of [insert] *)


Lemma rd_insert_eq (w : list Z) (k : nat) (x : Z) :
  (k < length w)%nat -> rd (<[k := x]> w) k = x.
Proof.
  intros Hk. unfold rd. rewrite list_lookup_insert_eq by exact Hk. reflexivity.
Qed.

Lemma rd_insert_ne (w : list Z) (k k' : nat) (x : Z) :
  k <> k' -> rd (<[k := x]> w) k' = rd w k'.
Proof.
  intros Hk. unfold rd. rewrite list_lookup_insert_ne by exact Hk. reflexivity.
Qed.

Lemma rd_replicate (n k : nat) (x : Z) : (k < n)%nat -> rd (replicate n x) k = x.
Proof.
  intros Hk. unfold rd. rewrite lookup_replicate_2 by exact Hk. reflexivity.
Qed.



Lemma wf_bit_length (w : list Z) :
  wf_bit w = true -> length w = Z.to_nat set_block_size.
Proof.
  unfold wf_bit. intros H. apply andb_prop in H as [H _]. apply Nat.eqb_eq, H.
Qed.

Lemma wf_bit_words (w : list Z) : wf_bit w = true -> forallb wf_word w = true.
Proof.
  unfold wf_bit. intros H. apply andb_prop in H as [_ H]. exact H.
Qed.




Section ShiftBlock.
Import bvector.

Variable bv : t.
Variable i : nat.
Hypothesis Hinit : blocks_manager.is_init (blockman_ bv) = true.
Hypothesis Hi : (i < blocks_manager.top_block_size (blockman_ bv))%nat.













End ShiftBlock.

(** ** The loops of [insert] *)








Section SubLoop.
Import bvector.

Variable at_ : bool.
Variable bv : t.
Variable i : nat.
Hypothesis Hinit : blocks_manager.is_init (blockman_ bv) = true.
Hypothesis Hi : (i < blocks_manager.top_block_size (blockman_ bv))%nat.
Hypothesis Hi256 : (i < Z.to_nat set_top_array_size)%nat.



End SubLoop.

(** ** The loop of [insert] over the top array *)

Lemma reserve_top_blocks_init (bm : blocks_manager.t) (n : nat) :
  blocks_manager.is_init bm = true ->
  blocks_manager.is_init (fst (blocks_manager.reserve_top_blocks bm n)) = true
  /\ (n <= blocks_manager.top_block_size (fst (blocks_manager.reserve_top_blocks bm n)))%nat
  /\ (forall i, blocks_manager.get_topblock (fst (blocks_manager.reserve_top_blocks bm n)) i
                = blocks_manager.get_topblock bm i).
Proof.
  unfold blocks_manager.is_init, blocks_manager.reserve_top_blocks,
    blocks_manager.top_block_size, blocks_manager.get_topblock,
    blocks_manager.top_blocks_root.
  destruct (blocks_manager.top_blocks_ bm) as [root|] eqn:E; [|discriminate].
  intros _. destruct (Nat.leb_spec n (length root)) as [Hle|Hgt]; cbn [fst].
  - rewrite E. cbn. split; [reflexivity|]. split; [exact Hle|reflexivity].
  - cbn. split; [reflexivity|]. split.
    + rewrite length_app, length_replicate. lia.
    + intros i. destruct (Nat.lt_ge_cases i (length root)) as [Hi|Hi].
      * rewrite lookup_app_l by exact Hi. reflexivity.
      * rewrite lookup_app_r by exact Hi.
        rewrite (proj2 (lookup_ge_None root i) Hi). cbn.
        destruct (replicate (n - length root) SNull !! (i - length root)%nat) eqn:Er;
          [|reflexivity].
        apply lookup_replicate in Er as [-> _]. reflexivity.
Qed.








Lemma get_block_ptr_top_null (bm : blocks_manager.t) (i j : nat) :
  blocks_manager.get_topblock bm i = SNull -> blocks_manager.get_block_ptr bm i j = BNull.
Proof. intros H. unfold blocks_manager.get_block_ptr. rewrite H. reflexivity. Qed.

Lemma get_block_ptr_top_full (bm : blocks_manager.t) (i j : nat) :
  blocks_manager.get_topblock bm i = SFull -> blocks_manager.get_block_ptr bm i j = BFull.
Proof. intros H. unfold blocks_manager.get_block_ptr. rewrite H. reflexivity. Qed.


Section TopLoop.
Import bvector.

Variable at_ : bool.
Variable bv : t.
Hypothesis Hwf : wf_bv bv = true.


End TopLoop.

(** ** Positions and slots *)



Section Shifted.
Import bvector.



End Shifted.

(** ** Counting bits in lists *)

Lemma count_bits_nonneg (l : list bool) : 0 <= count_bits l.
Proof.
  induction l as [|b l IH]; cbn [count_bits]; [lia|]. destruct b; cbn [Z.b2z]; lia.
Qed.

Lemma count_bits_le_length (l : list bool) : count_bits l <= Z.of_nat (length l).
Proof.
  induction l as [|b l IH]; cbn [count_bits length]; [lia|].
  destruct b; cbn [Z.b2z]; lia.
Qed.

Lemma count_bits_app (l1 l2 : list bool) :
  count_bits (l1 ++ l2) = count_bits l1 + count_bits l2.
Proof.
  induction l1 as [|b l1 IH]; cbn [count_bits app]; [lia|]. rewrite IH. lia.
Qed.

Lemma count_bits_replicate (n : nat) (b : bool) :
  count_bits (replicate n b) = if b then Z.of_nat n else 0.
Proof.
  induction n as [|n IH]; cbn [replicate count_bits]; [destruct b; reflexivity|].
  rewrite IH. destruct b; cbn [Z.b2z]; lia.
Qed.

Lemma count_bits_take_le (l : list bool) (n : nat) :
  count_bits (take n l) <= count_bits l.
Proof.
  rewrite <- (take_drop n l) at 2. rewrite count_bits_app.
  pose proof (count_bits_nonneg (drop n l)). lia.
Qed.

Lemma count_bits_zero_nth (l : list bool) (k : nat) :
  count_bits l = 0 -> nth k l false = false.
Proof.
  revert k. induction l as [|b l IH]; intros k H; [destruct k; reflexivity|].
  cbn [count_bits] in H. pose proof (count_bits_nonneg l).
  destruct b; cbn [Z.b2z] in H; [lia|].
  destruct k as [|k]; [reflexivity|]. cbn [nth]. apply IH. lia.
Qed.

Lemma count_bits_pos_of_nth (l : list bool) (k : nat) :
  nth k l false = true -> 0 < count_bits l.
Proof.
  intros H. pose proof (count_bits_nonneg l).
  destruct (Z.eq_dec (count_bits l) 0) as [E|E]; [|lia].
  rewrite (count_bits_zero_nth l k E) in H. discriminate.
Qed.

(** *** Ranks *)

Lemma rank_in_mono (l : list bool) (q q' : nat) :
  (q <= q')%nat -> rank_in l q <= rank_in l q'.
Proof.
  intros H. unfold rank_in.
  replace (take (S q) l) with (take (S q) (take (S q') l))
    by (rewrite take_take; f_equal; lia).
  apply count_bits_take_le.
Qed.

Lemma rank_in_le (l : list bool) (q : nat) : rank_in l q <= count_bits l.
Proof. apply count_bits_take_le. Qed.

Lemma rank_in_pos (l : list bool) (q : nat) :
  nth q l false = true -> 1 <= rank_in l q.
Proof.
  intros H. unfold rank_in.
  assert (nth q (take (S q) l) false = true) as H'.
  { rewrite !nth_lookup in *. rewrite lookup_take_lt by lia. exact H. }
  pose proof (count_bits_pos_of_nth _ _ H'). lia.
Qed.

Lemma rank_in_bound (l : list bool) (q : nat) : rank_in l q <= Z.of_nat q + 1.
Proof.
  unfold rank_in. pose proof (count_bits_le_length (take (S q) l)) as H.
  rewrite length_take in H. lia.
Qed.

(** The bits counted in a closed range. *)
Lemma rank_in_split (l : list bool) (a q : nat) :
  (a <= S q)%nat ->
  rank_in l q = count_bits (take a l) + count_bits (take (S q - a) (drop a l)).
Proof.
  intros H. unfold rank_in. rewrite <- count_bits_app.
  f_equal. rewrite <- (take_drop a l) at 1.
  rewrite take_app_ge by (rewrite length_take; lia).
  destruct (Nat.le_gt_cases a (length l)) as [Hl|Hl].
  - rewrite length_take, Nat.min_l by exact Hl. reflexivity.
  - rewrite (take_ge l a) by lia. rewrite (drop_ge l a) by lia.
    rewrite !take_nil. reflexivity.
Qed.

Lemma count_range_of_rank (l : list bool) (a q : Z) :
  0 <= a -> a <= q + 1 -> 0 <= q ->
  count_range_of l a q
  = rank_in l (Z.to_nat q) - count_bits (take (Z.to_nat a) l).
Proof.
  intros Ha Hq Hq0. unfold count_range_of.
  rewrite (rank_in_split l (Z.to_nat a) (Z.to_nat q)) by lia.
  replace (S (Z.to_nat q) - Z.to_nat a)%nat with (Z.to_nat (q + 1 - a)) by lia. lia.
Qed.

Lemma count_range_of_0 (l : list bool) (q : Z) :
  0 <= q -> count_range_of l 0 q = rank_in l (Z.to_nat q).
Proof.
  intros Hq. rewrite count_range_of_rank by lia.
  change (Z.to_nat 0) with 0%nat. rewrite take_0. cbn [count_bits]. lia.
Qed.

Lemma take_S_rank (l : list bool) (q : Z) :
  0 <= q -> count_bits (take (Z.to_nat (q + 1)) l) = rank_in l (Z.to_nat q).
Proof.
  intros Hq. unfold rank_in. do 2 f_equal. lia.
Qed.

(** *** Rank-in-block search *)

Lemma find_rank_of_sound (l : list bool) (r pos : Z) (k : nat) :
  nth k l false = true ->
  rank_in l k = r ->
  find_rank_of l r pos = (0, pos + Z.of_nat k).
Proof.
  revert r pos k. induction l as [|b l IH]; intros r pos k Hk Hr.
  - destruct k; discriminate.
  - unfold rank_in in *. cbn [take count_bits] in Hr.
    cbn [find_rank_of]. destruct k as [|k].
    + cbn [nth] in Hk. subst b. rewrite take_0 in Hr. cbn [count_bits Z.b2z] in Hr.
      subst r. cbn. f_equal. lia.
    + cbn [nth] in Hk.
      assert (1 <= count_bits (take (S k) l)) as Hpos by (apply (rank_in_pos l k Hk)).
      destruct b; cbn [Z.b2z] in Hr.
      * replace (r - 1 =? 0) with false by (symmetry; apply Z.eqb_neq; lia).
        rewrite (IH (r - 1) (pos + 1) k Hk) by (unfold rank_in; lia).
        f_equal. lia.
      * rewrite (IH r (pos + 1) k Hk) by (unfold rank_in; lia).
        f_equal. lia.
Qed.

Lemma rank_exists (l : list bool) (r : Z) :
  1 <= r <= count_bits l ->
  exists k, (k < length l)%nat /\ nth k l false = true /\ rank_in l k = r.
Proof.
  revert r. induction l as [|b l IH]; intros r Hr; cbn [count_bits] in Hr; [lia|].
  destruct b; cbn [Z.b2z] in Hr.
  - destruct (Z.eq_dec r 1) as [->|Hne].
    + exists 0%nat. cbn [length nth]. split; [lia|]. split; [reflexivity|].
      unfold rank_in. cbn [take count_bits Z.b2z]. rewrite take_0. reflexivity.
    + destruct (IH (r - 1) ltac:(lia)) as (k & Hk & Hn & Hrk).
      exists (S k). cbn [length nth]. split; [lia|]. split; [exact Hn|].
      unfold rank_in in *. cbn [take count_bits Z.b2z]. lia.
  - destruct (IH r ltac:(lia)) as (k & Hk & Hn & Hrk).
    exists (S k). cbn [length nth]. split; [lia|]. split; [exact Hn|].
    unfold rank_in in *. cbn [take count_bits Z.b2z]. lia.
Qed.

(** *** The last set bit *)

Lemma find_last_of_none (l : list bool) (pos : Z) :
  find_last_of l pos = None -> count_bits l = 0.
Proof.
  revert pos. induction l as [|b l IH]; intros pos H; [reflexivity|].
  cbn [find_last_of] in H. cbn [count_bits].
  destruct (find_last_of l (pos + 1)) eqn:E; [discriminate|].
  destruct b; [discriminate|]. rewrite (IH _ E). reflexivity.
Qed.

Lemma find_last_of_some (l : list bool) (pos p : Z) :
  find_last_of l pos = Some p ->
  exists k, (k < length l)%nat /\ p = pos + Z.of_nat k /\ nth k l false = true.
Proof.
  revert pos. induction l as [|b l IH]; intros pos H; [discriminate|].
  cbn [find_last_of] in H.
  destruct (find_last_of l (pos + 1)) as [p'|] eqn:E.
  - injection H as <-. destruct (IH _ E) as (k & Hk & Hp & Hn).
    exists (S k). cbn [length nth]. split; [lia|]. split; [lia|exact Hn].
  - destruct b; [|discriminate]. injection H as <-.
    exists 0%nat. cbn [length nth]. split; [lia|]. split; [lia|reflexivity].
Qed.

(** *** Population count of words *)

Lemma word_bitcount_double (w : Z) (b : bool) :
  0 <= w -> word_bitcount (Z.b2z b + 2 * w) = Z.b2z b + word_bitcount w.
Proof.
  intros Hw. destruct w as [|p|p]; [destruct b; reflexivity| |lia].
  destruct b; reflexivity.
Qed.

Lemma word_bitcount_of_bits (l : list bool) :
  word_bitcount (word_of_bits l) = count_bits l.
Proof.
  induction l as [|b l IH]; [reflexivity|].
  cbn [word_of_bits count_bits].
  rewrite word_bitcount_double by apply word_of_bits_range. rewrite IH. reflexivity.
Qed.

Lemma word_of_word_bits (w : Z) : wf_word w = true -> word_of_bits (word_bits w) = w.
Proof.
  intros Hw. apply wf_word_range in Hw. apply Z.bits_inj'. intros n Hn.
  rewrite <- (Z2Nat.id n Hn), testbit_word_of_bits.
  destruct (Nat.lt_ge_cases (Z.to_nat n) 32) as [Hlt|Hge].
  - apply nth_word_bits, Hlt.
  - rewrite nth_overflow by (rewrite word_bits_length; exact Hge).
    symmetry. destruct (Z.eq_dec w 0) as [->|Hw0]; [apply Z.testbit_0_l|].
    apply Z.bits_above_log2; [lia|].
    assert (Z.log2 w < 32) by (apply Z.log2_lt_pow2; lia). lia.
Qed.

Lemma word_bitcount_bits (w : Z) :
  wf_word w = true -> word_bitcount w = count_bits (word_bits w).
Proof.
  intros Hw. rewrite <- (word_of_word_bits w Hw) at 1. apply word_bitcount_of_bits.
Qed.

Lemma bit_block_count_bits (w : list Z) :
  forallb wf_word w = true -> bit_block_count w = count_bits (bits_of_words w).
Proof.
  unfold bit_block_count. intros Hw.
  assert (forall acc, fold_left (fun c x => c + word_bitcount x) w acc
                      = acc + count_bits (bits_of_words w)) as H.
  { induction w as [|x w IH]; intros acc.
    - cbn. lia.
    - cbn [forallb] in Hw. apply andb_prop in Hw as [Hx Hw].
      cbn [fold_left]. rewrite (IH Hw), bits_of_words_cons, count_bits_app.
      rewrite (word_bitcount_bits x Hx). lia. }
  rewrite H. lia.
Qed.

(** The static block of all ones reads as 65,536 set bits. *)
Lemma word_bits_ones : word_bits all_bits_mask = replicate 32 true.
Proof. reflexivity. Qed.

Lemma bits_of_words_replicate (n : nat) (w : Z) (b : bool) :
  word_bits w = replicate 32 b ->
  bits_of_words (replicate n w) = replicate (32 * n) b.
Proof.
  intros Hw. induction n as [|n IH]; [reflexivity|].
  cbn [replicate]. rewrite bits_of_words_cons, IH, Hw.
  rewrite <- replicate_add. f_equal. lia.
Qed.

Lemma bits_of_full_block_real :
  bits_of_words full_block_real = replicate (Z.to_nat bits_in_block) true.
Proof.
  unfold full_block_real, bit_block_set.
  rewrite (bits_of_words_replicate _ _ true word_bits_ones).
  f_equal.
Qed.

(** ** The last set bit of a vector *)

Lemma block_at_slot (bv : bvector.t) (i j : nat) :
  (j < Z.to_nat set_sub_array_size)%nat ->
  block_at bv (i * Z.to_nat set_sub_array_size + j)
  = blocks_manager.get_block_ptr (bvector.blockman_ bv) i j.
Proof.
  intros Hj. unfold block_at.
  assert ((i * Z.to_nat set_sub_array_size + j) / Z.to_nat set_sub_array_size = i)%nat
    as ->.
  { symmetry. apply (Nat.div_unique _ _ i j); [exact Hj|lia]. }
  assert ((i * Z.to_nat set_sub_array_size + j) mod Z.to_nat set_sub_array_size = j)%nat
    as ->.
  { symmetry. apply (Nat.mod_unique _ _ i j); [exact Hj|lia]. }
  reflexivity.
Qed.

Lemma block_count_null (bv : bvector.t) (m : nat) :
  block_at bv m = BNull -> block_count bv m = 0.
Proof.
  intros H. unfold block_count. rewrite H. cbn [block_bits].
  apply count_bits_replicate.
Qed.

Lemma block_at_beyond (bv : bvector.t) (m : nat) :
  (blocks_manager.top_block_size (bvector.blockman_ bv)
   <= m / Z.to_nat set_sub_array_size)%nat ->
  block_at bv m = BNull.
Proof.
  intros H. unfold block_at. apply get_block_ptr_top_null, get_topblock_beyond, H.
Qed.

Lemma wf_block_at (bv : bvector.t) (m : nat) :
  wf_bv bv = true -> wf_block (block_at bv m) = true.
Proof. intros H. apply wf_get_block_ptr, H. Qed.

Lemma wf_top_block_size (bv : bvector.t) :
  wf_bv bv = true ->
  (blocks_manager.top_block_size (bvector.blockman_ bv) <= Z.to_nat set_top_array_size)%nat.
Proof.
  unfold wf_bv, wf_bm. intros H. apply andb_prop in H as [H _].
  apply Nat.leb_le, H.
Qed.

Section FindReverse.
Import bvector.

Variable bv : t.
Hypothesis Hwf : wf_bv bv = true.

(** The search of one slot. *)
Lemma slot_find_last (b : block) :
  wf_block b = true ->
  match match b with
        | BNull => None
        | BFull => Some (gap_max_bits - 1)
        | BGap g => gap_find_last g
        | BBit w => bit_find_last w
        end with
  | None => count_bits (block_bits b) = 0
  | Some q => 0 <= q < bits_in_block /\ nth (Z.to_nat q) (block_bits b) false = true
  end.
Proof.
  intros Hb. pose proof (block_bits_length b Hb) as Hlen.
  destruct b as [| |w|g]; cbn [block_bits] in *.
  - apply count_bits_replicate.
  - split; [unfold gap_max_bits, bits_in_block; lia|].
    apply nth_replicate. unfold gap_max_bits, bits_in_block. lia.
  - unfold bit_find_last.
    destruct (find_last_of (bits_of_words w) 0) as [q|] eqn:E.
    + apply find_last_of_some in E as (k & Hk & -> & Hn).
      rewrite Z.add_0_l, Nat2Z.id. split; [lia|exact Hn].
    + apply find_last_of_none in E. exact E.
  - unfold gap_find_last.
    destruct (find_last_of (bits_of_gap g) 0) as [q|] eqn:E.
    + apply find_last_of_some in E as (k & Hk & -> & Hn).
      rewrite Z.add_0_l, Nat2Z.id. split; [lia|exact Hn].
    + apply find_last_of_none in E. exact E.
Qed.

Lemma find_reverse_sub_spec (i n : nat) :
  (i < Z.to_nat set_top_array_size)%nat ->
  (n <= Z.to_nat set_sub_array_size)%nat ->
  match find_reverse_sub bv i n with
  | None =>
      forall j, (j < n)%nat ->
        count_bits (block_bits (blocks_manager.get_block_ptr (blockman_ bv) i j)) = 0
  | Some p =>
      exists j q,
        (j < n)%nat /\ 0 <= q < bits_in_block
        /\ p = nblock_of i j * bits_in_block + q
        /\ nth (Z.to_nat q)
               (block_bits (blocks_manager.get_block_ptr (blockman_ bv) i j)) false = true
        /\ forall j', (j < j' < n)%nat ->
             count_bits (block_bits (blocks_manager.get_block_ptr (blockman_ bv) i j')) = 0
  end.
Proof.
  intros Hi. induction n as [|n IH]; intros Hn; cbn [find_reverse_sub].
  - intros j Hj. lia.
  - pose proof (slot_find_last (blocks_manager.get_block_ptr (blockman_ bv) i n)
                  (wf_get_block_ptr _ _ _ Hwf)) as Hslot.
    destruct (match blocks_manager.get_block_ptr (blockman_ bv) i n with
              | BNull => None
              | BFull => Some (gap_max_bits - 1)
              | BBit w => bit_find_last w
              | BGap g => gap_find_last g
              end) as [q|].
    + destruct Hslot as [Hq Hnth]. exists n, q.
      split; [lia|]. split; [exact Hq|]. split; [|split; [exact Hnth|intros j' Hj'; lia]].
      unfold nblock_of, u32, set_sub_array_size, gap_max_bits, bits_in_block,
        set_top_array_size in *.
      rewrite (Z.mod_small (Z.of_nat i * 256 * 65536)) by lia.
      rewrite (Z.mod_small (Z.of_nat i * 256 * 65536 + Z.of_nat n * 65536)) by lia.
      rewrite Z.mod_small by lia. lia.
    + specialize (IH ltac:(lia)).
      destruct (find_reverse_sub bv i n) as [p|].
      * destruct IH as (j & q & Hj & Hq & Hp & Hnth & Hafter).
        exists j, q. split; [lia|]. split; [exact Hq|]. split; [exact Hp|].
        split; [exact Hnth|]. intros j' Hj'.
        destruct (Nat.eq_dec j' n) as [->|Hne]; [exact Hslot|]. apply Hafter. lia.
      * intros j Hj. destruct (Nat.eq_dec j n) as [->|Hne]; [exact Hslot|].
        apply IH. lia.
Qed.

Lemma find_reverse_top_spec (n : nat) :
  (n <= Z.to_nat set_top_array_size)%nat ->
  match find_reverse_top bv n with
  | None =>
      forall i j, (i < n)%nat -> (j < Z.to_nat set_sub_array_size)%nat ->
        count_bits (block_bits (blocks_manager.get_block_ptr (blockman_ bv) i j)) = 0
  | Some p =>
      exists i j q,
        (i < n)%nat /\ (j < Z.to_nat set_sub_array_size)%nat /\ 0 <= q < bits_in_block
        /\ p = nblock_of i j * bits_in_block + q
        /\ nth (Z.to_nat q)
               (block_bits (blocks_manager.get_block_ptr (blockman_ bv) i j)) false = true
        /\ forall i' j', (i' < n)%nat -> (j' < Z.to_nat set_sub_array_size)%nat ->
             (i < i' \/ (i' = i /\ j < j'))%nat ->
             count_bits (block_bits (blocks_manager.get_block_ptr (blockman_ bv) i' j')) = 0
  end.
Proof.
  induction n as [|n IH]; intros Hn; cbn [find_reverse_top].
  - intros i j Hi. lia.
  - specialize (IH ltac:(lia)).
    assert (match find_reverse_sub bv n sub_size with
            | Some pos => Some pos
            | None => find_reverse_top bv n
            end
            = match blocks_manager.get_topblock (blockman_ bv) n with
              | SNull => find_reverse_top bv n
              | _ => match find_reverse_sub bv n sub_size with
                     | Some pos => Some pos
                     | None => find_reverse_top bv n
                     end
              end \/
            (blocks_manager.get_topblock (blockman_ bv) n = SNull)) as Hcase.
    { destruct (blocks_manager.get_topblock (blockman_ bv) n); auto. }
    assert (forall j, blocks_manager.get_topblock (blockman_ bv) n = SNull ->
              count_bits (block_bits (blocks_manager.get_block_ptr (blockman_ bv) n j)) = 0)
      as Hnull.
    { intros j H. rewrite get_block_ptr_top_null by exact H. cbn [block_bits].
      apply count_bits_replicate. }
    pose proof (find_reverse_sub_spec n sub_size ltac:(lia) ltac:(unfold sub_size; lia))
      as Hsub.
    assert (match find_reverse_top bv n with
            | None =>
                (forall j, (j < Z.to_nat set_sub_array_size)%nat ->
                   count_bits (block_bits
                     (blocks_manager.get_block_ptr (blockman_ bv) n j)) = 0) ->
                forall i j, (i < S n)%nat -> (j < Z.to_nat set_sub_array_size)%nat ->
                  count_bits (block_bits
                    (blocks_manager.get_block_ptr (blockman_ bv) i j)) = 0
            | Some p =>
                (forall j, (j < Z.to_nat set_sub_array_size)%nat ->
                   count_bits (block_bits
                     (blocks_manager.get_block_ptr (blockman_ bv) n j)) = 0) ->
                exists i j q,
                  (i < S n)%nat /\ (j < Z.to_nat set_sub_array_size)%nat
                  /\ 0 <= q < bits_in_block
                  /\ p = nblock_of i j * bits_in_block + q
                  /\ nth (Z.to_nat q)
                         (block_bits (blocks_manager.get_block_ptr (blockman_ bv) i j))
                         false = true
                  /\ forall i' j', (i' < S n)%nat -> (j' < Z.to_nat set_sub_array_size)%nat ->
                       (i < i' \/ (i' = i /\ j < j'))%nat ->
                       count_bits (block_bits
                         (blocks_manager.get_block_ptr (blockman_ bv) i' j')) = 0
            end) as Hskip.
    { destruct (find_reverse_top bv n) as [p|].
      - intros Hz. destruct IH as (i & j & q & Hi & Hj & Hq & Hp & Hnth & Hafter).
        exists i, j, q. split; [lia|]. split; [exact Hj|]. split; [exact Hq|].
        split; [exact Hp|]. split; [exact Hnth|].
        intros i' j' Hi' Hj' Hord. destruct (Nat.eq_dec i' n) as [->|Hne].
        + apply Hz, Hj'.
        + apply Hafter; [lia|exact Hj'|exact Hord].
      - intros Hz i j Hi Hj. destruct (Nat.eq_dec i n) as [->|Hne].
        + apply Hz, Hj.
        + apply IH; [lia|exact Hj]. }
    destruct Hcase as [Hcase|Htopnull].
    + rewrite <- Hcase. clear Hcase.
      destruct (find_reverse_sub bv n sub_size) as [p|].
      * destruct Hsub as (j & q & Hj & Hq & Hp & Hnth & Hafter).
        exists n, j, q. split; [lia|]. split; [exact Hj|]. split; [exact Hq|].
        split; [exact Hp|]. split; [exact Hnth|].
        intros i' j' Hi' Hj' Hord. assert (i' = n) as -> by lia.
        apply Hafter. unfold sub_size. lia.
      * destruct (find_reverse_top bv n) as [p|]; apply Hskip; intros j Hj;
          apply Hsub; exact Hj.
    + rewrite Htopnull.
      destruct (find_reverse_top bv n) as [p|]; apply Hskip; intros j Hj;
        apply Hnull, Htopnull.
Qed.

(** [find_reverse]: nothing is set, or the last set position, block and
    bit. *)
Lemma find_reverse_spec :
  match find_reverse bv with
  | None => forall m, block_count bv m = 0
  | Some p =>
      exists nb q,
        (nb < Z.to_nat set_total_blocks)%nat /\ 0 <= q < bits_in_block
        /\ p = Z.of_nat nb * bits_in_block + q
        /\ nth (Z.to_nat q) (block_bits (block_at bv nb)) false = true
        /\ forall m, (nb < m)%nat -> block_count bv m = 0
  end.
Proof.
  unfold find_reverse.
  pose proof (wf_top_block_size bv Hwf) as Hsize.
  pose proof (find_reverse_top_spec
                (blocks_manager.top_block_size (blockman_ bv)) Hsize) as H.
  assert (forall m, block_at bv m
                    = blocks_manager.get_block_ptr (blockman_ bv)
                        (m / Z.to_nat set_sub_array_size)
                        (m mod Z.to_nat set_sub_array_size)) as Hat by reflexivity.
  assert (forall m, (m mod Z.to_nat set_sub_array_size < Z.to_nat set_sub_array_size)%nat)
    as Hmod by (intros m; apply Nat.mod_upper_bound; unfold set_sub_array_size; lia).
  destruct (find_reverse_top bv (blocks_manager.top_block_size (blockman_ bv))) as [p|].
  - destruct H as (i & j & q & Hi & Hj & Hq & Hp & Hnth & Hafter).
    exists (i * Z.to_nat set_sub_array_size + j)%nat, q.
    split; [unfold set_total_blocks, set_sub_array_size, set_top_array_size in *; lia|].
    split; [exact Hq|]. split; [|split].
    + rewrite Hp. unfold nblock_of, set_sub_array_size. lia.
    + rewrite block_at_slot by exact Hj. exact Hnth.
    + intros m Hm.
      destruct (Nat.lt_ge_cases (m / Z.to_nat set_sub_array_size)
                  (blocks_manager.top_block_size (blockman_ bv))) as [Hin|Hout].
      * unfold block_count. rewrite Hat. apply Hafter; [exact Hin|apply Hmod|].
        pose proof (Nat.div_mod_eq m (Z.to_nat set_sub_array_size)) as Hdm.
        specialize (Hmod m). unfold set_sub_array_size in *. lia.
      * apply block_count_null, block_at_beyond, Hout.
  - intros m.
    destruct (Nat.lt_ge_cases (m / Z.to_nat set_sub_array_size)
                (blocks_manager.top_block_size (blockman_ bv))) as [Hin|Hout].
    + unfold block_count. rewrite Hat. apply H; [exact Hin|apply Hmod].
    + apply block_count_null, block_at_beyond, Hout.
Qed.

End FindReverse.

(** ** The index that [build_rs_index] builds *)

Lemma div_cases (S i m : nat) :
  (0 < S)%nat ->
  ((m / S < i)%nat -> (m < i * S)%nat)
  /\ ((m / S)%nat = i -> (i * S <= m < i * S + S)%nat /\ (m mod S = m - i * S)%nat)
  /\ ((i < m / S)%nat -> (i * S + S <= m)%nat).
Proof.
  intros HS. pose proof (Nat.div_mod_eq m S) as Hdm.
  pose proof (Nat.mod_upper_bound m S ltac:(lia)) as Hmod.
  split; [intros H1; nia|]. split; [intros H1; split; nia|intros H1; nia].
Qed.

Lemma length_splice (l new : list Z) (i : nat) :
  length new = Z.to_nat set_sub_array_size ->
  (length l <= length (rs_index.splice l i new))%nat.
Proof.
  intros Hnew. unfold rs_index.splice.
  rewrite !length_app, length_take, length_app, length_replicate, length_drop. lia.
Qed.

Lemma rd_splice (l new : list Z) (i m : nat) :
  length new = Z.to_nat set_sub_array_size ->
  rd (rs_index.splice l i new) m
  = if (m / Z.to_nat set_sub_array_size =? i)%nat
    then rd new (m mod Z.to_nat set_sub_array_size) else rd l m.
Proof.
  intros Hnew. unfold rs_index.splice.
  assert (0 < Z.to_nat set_sub_array_size)%nat as HS by (unfold set_sub_array_size; lia).
  revert Hnew. generalize dependent (Z.to_nat set_sub_array_size). intros S HS Hnew.
  destruct (div_cases S i m HS) as (Hlt & Heq & Hgt).
  assert (length (take (i * S) (l ++ replicate (i * S - length l) 0)) = (i * S)%nat)
    as Hlen by (rewrite length_take, length_app, length_replicate; lia).
  unfold rd.
  destruct (Nat.lt_trichotomy (m / S) i) as [H|[H|H]].
  - specialize (Hlt H). rewrite (proj2 (Nat.eqb_neq _ _)) by lia.
    rewrite lookup_app_l by lia. rewrite lookup_take_lt by lia.
    destruct (Nat.lt_ge_cases m (length l)) as [Hm|Hm].
    + rewrite lookup_app_l by lia. reflexivity.
    + rewrite lookup_app_r by lia. rewrite lookup_replicate_2 by lia.
      rewrite (lookup_ge_None_2 l m) by lia. reflexivity.
  - destruct (Heq H) as [Hrange Hmod]. rewrite (proj2 (Nat.eqb_eq _ _)) by exact H.
    rewrite lookup_app_r by lia. rewrite Hlen, lookup_app_l by lia.
    rewrite Hmod. reflexivity.
  - specialize (Hgt H). rewrite (proj2 (Nat.eqb_neq _ _)) by lia.
    rewrite lookup_app_r by lia. rewrite Hlen, lookup_app_r by lia.
    rewrite lookup_drop. f_equal. f_equal. lia.
Qed.

Lemma rd_map_seq (f : nat -> Z) (n j : nat) :
  (j < n)%nat -> rd (map f (seq 0 n)) j = f j.
Proof.
  intros Hj. unfold rd. rewrite <- nth_lookup.
  rewrite (nth_indep _ 0 (f 0%nat)) by (rewrite length_map, length_seq; exact Hj).
  rewrite map_nth, seq_nth by exact Hj. reflexivity.
Qed.

(** *** What the build stores for one block *)

Lemma block_bitcount_bits (b : block) :
  wf_block b = true -> blocks_manager.block_bitcount b = count_bits (block_bits b).
Proof.
  destruct b as [| |w|g]; cbn [wf_block block_bits blocks_manager.block_bitcount];
    intros H.
  - rewrite count_bits_replicate. reflexivity.
  - rewrite count_bits_replicate. unfold bits_in_block. lia.
  - apply bit_block_count_bits. unfold wf_bit in H. apply andb_prop in H as [_ H].
    exact H.
  - reflexivity.
Qed.

Lemma count_bits_drop_le (l : list bool) (n : nat) :
  count_bits (drop n l) <= count_bits l.
Proof.
  rewrite <- (take_drop n l) at 2. rewrite count_bits_app.
  pose proof (count_bits_nonneg (take n l)). lia.
Qed.

Lemma count_range_of_bounds (l : list bool) (a b : Z) :
  0 <= count_range_of l a b <= count_bits l.
Proof.
  unfold count_range_of. split; [apply count_bits_nonneg|].
  etransitivity; [apply count_bits_take_le|apply count_bits_drop_le].
Qed.

Lemma count_range_of_length (l : list bool) (a b : Z) :
  a <= b + 1 -> count_range_of l a b <= b + 1 - a.
Proof.
  intros H. unfold count_range_of.
  pose proof (count_bits_le_length
                (take (Z.to_nat (b + 1 - a)) (drop (Z.to_nat a) l))) as Hl.
  rewrite length_take in Hl. lia.
Qed.

Lemma count_range_of_zeros (n : nat) (a b : Z) :
  count_range_of (replicate n false) a b = 0.
Proof.
  pose proof (count_range_of_bounds (replicate n false) a b) as H.
  rewrite count_bits_replicate in H. lia.
Qed.

Lemma count_range_of_ones (n : nat) (a b : Z) :
  0 <= a -> a <= b + 1 -> b < Z.of_nat n ->
  count_range_of (replicate n true) a b = b + 1 - a.
Proof.
  intros Ha Hab Hb. unfold count_range_of.
  rewrite drop_replicate, take_replicate, count_bits_replicate. lia.
Qed.

Lemma pack_sub_zero : pack_sub 0 0 = 0.
Proof. reflexivity. Qed.

(** The entry of a slot of a sub-array. *)
Lemma rs_entry_spec (b : block) :
  wf_block b = true ->
  (if is_null b then (0, 0)
   else
     let cnt := blocks_manager.block_bitcount b in
     let '(first, second) :=
       if BM_IS_GAP b then
         (gap_bit_count_range (BMGAP_PTR b) 0 rs3_border0,
          gap_bit_count_range (BMGAP_PTR b) (u16 (rs3_border0 + 1)) rs3_border1)
       else
         let block := BLOCK_ADDR_SAN b in
         (bit_block_calc_count_range (bit_words block) 0 rs3_border0,
          bit_block_calc_count_range (bit_words block) (rs3_border0 + 1) rs3_border1) in
     (cnt, Z.lor first (Z.shiftl second 16)))
  = (count_bits (block_bits b),
     pack_sub (count_range_of (block_bits b) 0 rs3_border0)
              (count_range_of (block_bits b) (rs3_border0 + 1) rs3_border1)).
Proof.
  intros Hb. pose proof (block_bitcount_bits b Hb) as Hcnt.
  destruct b as [| |w|g];
    cbn [is_null BM_IS_GAP BMGAP_PTR BLOCK_ADDR_SAN bit_words] in *.
  - cbn [block_bits]. rewrite count_bits_replicate, !count_range_of_zeros.
    reflexivity.
  - cbv zeta. rewrite Hcnt. unfold bit_block_calc_count_range.
    rewrite bits_of_full_block_real. reflexivity.
  - cbv zeta. rewrite Hcnt. reflexivity.
  - cbv zeta. rewrite Hcnt. reflexivity.
Qed.

Lemma full_entry_spec :
  (bits_in_block, rs_index.full_sub_count)
  = (count_bits (block_bits BFull),
     pack_sub (count_range_of (block_bits BFull) 0 rs3_border0)
              (count_range_of (block_bits BFull) (rs3_border0 + 1) rs3_border1)).
Proof.
  cbn [block_bits]. rewrite count_bits_replicate.
  rewrite !count_range_of_ones
    by (unfold rs3_border1, rs3_border0, bits_in_block; lia).
  unfold rs_index.full_sub_count, pack_sub, bits_in_block.
  rewrite Z2Nat.id by lia.
  replace (rs3_border0 + 1 - 0) with (rs3_border0 + 1) by lia.
  replace (rs3_border1 + 1 - (rs3_border0 + 1)) with (rs3_border1 - rs3_border0) by lia.
  reflexivity.
Qed.

Lemma null_entry_spec :
  (0, 0)
  = (count_bits (block_bits BNull),
     pack_sub (count_range_of (block_bits BNull) 0 rs3_border0)
              (count_range_of (block_bits BNull) (rs3_border0 + 1) rs3_border1)).
Proof.
  cbn [block_bits]. rewrite count_bits_replicate, !count_range_of_zeros. reflexivity.
Qed.

(** *** The top slots past the last one in use *)

Lemma find_max_top_null (root : list subarray) (n i : nat) :
  (blocks_manager.find_max_top root n <= i < n)%nat ->
  default SNull (root !! i) = SNull.
Proof.
  induction n as [|n IH]; intros H; [lia|].
  cbn [blocks_manager.find_max_top] in H.
  destruct (sub_is_null (default SNull (root !! n))) eqn:E.
  - destruct (Nat.eq_dec i n) as [->|Hne].
    + destruct (default SNull (root !! n)); [reflexivity|discriminate|discriminate].
    + apply IH. lia.
  - lia.
Qed.

Lemma find_max_top_le (root : list subarray) (n : nat) :
  (blocks_manager.find_max_top root n <= n)%nat.
Proof.
  induction n as [|n IH]; cbn [blocks_manager.find_max_top]; [lia|].
  destruct (sub_is_null (default SNull (root !! n))); lia.
Qed.

Lemma get_topblock_past_max (bm : blocks_manager.t) (i : nat) :
  (blocks_manager.find_max_top_blocks bm <= i)%nat ->
  blocks_manager.get_topblock bm i = SNull.
Proof.
  intros H.
  destruct (Nat.lt_ge_cases i (blocks_manager.top_block_size bm)) as [Hin|Hout].
  - unfold blocks_manager.get_topblock.
    apply (find_max_top_null _ (blocks_manager.top_block_size bm)).
    unfold blocks_manager.find_max_top_blocks in H. lia.
  - apply get_topblock_beyond, Hout.
Qed.

(** *** The build loop *)

Section Build.
Import bvector.

Variable bv : t.
Hypothesis Hwf : wf_bv bv = true.

Lemma register_step (rs : rs_index.t) (k : nat) (L1 L2 : list Z) :
  length L1 = Z.to_nat set_sub_array_size ->
  length L2 = Z.to_nat set_sub_array_size ->
  (forall j, (j < Z.to_nat set_sub_array_size)%nat ->
     (rd L1 j, rd L2 j)
     = (count_bits (block_bits (blocks_manager.get_block_ptr (blockman_ bv) k j)),
        pack_sub
          (count_range_of
             (block_bits (blocks_manager.get_block_ptr (blockman_ bv) k j))
             0 rs3_border0)
          (count_range_of
             (block_bits (blocks_manager.get_block_ptr (blockman_ bv) k j))
             (rs3_border0 + 1) rs3_border1))) ->
  (forall m, built bv k rs m) ->
  forall m, built bv (S k) (rs_index.register_super_block rs k L1 L2) m.
Proof.
  intros H1 H2 Hent Hrs m. specialize (Hrs m). destruct Hrs as [Hb Hs].
  unfold built in *. cbn [rs_index.register_super_block rs_index.bcount_ rs_index.sub_count_].
  rewrite !rd_splice by assumption.
  assert (0 < Z.to_nat set_sub_array_size)%nat as HS by (unfold set_sub_array_size; lia).
  destruct (m / Z.to_nat set_sub_array_size =? k)%nat eqn:E.
  - apply Nat.eqb_eq in E.
    assert (Z.to_nat set_sub_array_size <> 0)%nat as HS' by lia.
    specialize (Hent (m mod Z.to_nat set_sub_array_size)%nat
                  (Nat.mod_upper_bound m _ HS')).
    pose proof (f_equal fst Hent) as He1. pose proof (f_equal snd Hent) as He2.
    cbn [fst snd] in He1, He2. rewrite He1, He2.
    unfold block_count, sub_first, sub_second, block_at. rewrite E.
    rewrite (proj2 (Nat.ltb_lt k (S k))) by lia. split; reflexivity.
  - apply Nat.eqb_neq in E. rewrite Hb, Hs.
    generalize dependent (m / Z.to_nat set_sub_array_size)%nat. intros d Hb' Hs' E.
    destruct (Nat.lt_ge_cases d k) as [Hlt|Hge].
    + rewrite !(proj2 (Nat.ltb_lt _ _)) by lia. split; reflexivity.
    + rewrite !(proj2 (Nat.ltb_ge _ _)) by lia. split; reflexivity.
Qed.

Lemma build_loop (rs0 : rs_index.t) (n : nat) :
  (forall m, built bv 0 rs0 m) ->
  let rs :=
    for_range n
      (fun rs_idx i =>
         match blocks_manager.get_topblock (blockman_ bv) i with
         | SNull => rs_index.set_null_super_block rs_idx i
         | SFull => rs_index.set_full_super_block rs_idx i
         | SArr _ =>
             let entry := fun j =>
               let block := blocks_manager.get_block_ptr (blockman_ bv) i j in
               if is_null block then (0, 0)
               else
                 let cnt := blocks_manager.block_bitcount block in
                 let '(first, second) :=
                   if BM_IS_GAP block then
                     (gap_bit_count_range (BMGAP_PTR block) 0 rs3_border0,
                      gap_bit_count_range (BMGAP_PTR block) (u16 (rs3_border0 + 1))
                                          rs3_border1)
                   else
                     let block := BLOCK_ADDR_SAN block in
                     (bit_block_calc_count_range (bit_words block) 0 rs3_border0,
                      bit_block_calc_count_range (bit_words block) (rs3_border0 + 1)
                                                 rs3_border1) in
                 (cnt, Z.lor first (Z.shiftl second 16)) in
             rs_index.register_super_block rs_idx i
               (map (fun j => fst (entry j)) (seq 0 sub_size))
               (map (fun j => snd (entry j)) (seq 0 sub_size))
         end) rs0 in
  rs_index.total_ rs = rs_index.total_ rs0
  /\ (length (rs_index.bcount_ rs0) <= length (rs_index.bcount_ rs))%nat
  /\ forall m, built bv n rs m.
Proof.
  intros H0. cbv zeta.
  apply (for_range_ind
           (fun k rs =>
              rs_index.total_ rs = rs_index.total_ rs0
              /\ (length (rs_index.bcount_ rs0) <= length (rs_index.bcount_ rs))%nat
              /\ forall m, built bv k rs m)).
  - split; [reflexivity|]. split; [lia|exact H0].
  - intros k rs Hk (Ht & Hl & Hb).
    assert (forall L1 L2,
              length L1 = Z.to_nat set_sub_array_size ->
              rs_index.total_ (rs_index.register_super_block rs k L1 L2)
              = rs_index.total_ rs0
              /\ (length (rs_index.bcount_ rs0)
                  <= length (rs_index.bcount_
                               (rs_index.register_super_block rs k L1 L2)))%nat)
      as Hkeep.
    { intros L1 L2 HL1. split; [exact Ht|].
      cbn [rs_index.register_super_block rs_index.bcount_].
      pose proof (length_splice (rs_index.bcount_ rs) L1 k HL1) as Hs. lia. }
    destruct (blocks_manager.get_topblock (blockman_ bv) k) as [| |l] eqn:Etop.
    + unfold rs_index.set_null_super_block.
      split; [apply Hkeep, length_replicate|]. split; [apply Hkeep, length_replicate|].
      apply register_step; [apply length_replicate|apply length_replicate| |exact Hb].
      intros j Hj. rewrite !rd_replicate by exact Hj.
      rewrite get_block_ptr_top_null by exact Etop. apply null_entry_spec.
    + unfold rs_index.set_full_super_block.
      split; [apply Hkeep, length_replicate|]. split; [apply Hkeep, length_replicate|].
      apply register_step; [apply length_replicate|apply length_replicate| |exact Hb].
      intros j Hj. rewrite !rd_replicate by exact Hj.
      rewrite get_block_ptr_top_full by exact Etop. apply full_entry_spec.
    + assert (forall f : nat -> Z,
                length (map f (seq 0 sub_size)) = Z.to_nat set_sub_array_size) as Hlen
        by (intros f; rewrite length_map, length_seq; reflexivity).
      split; [apply Hkeep, Hlen|]. split; [apply Hkeep, Hlen|].
      apply register_step;
        [rewrite length_map, length_seq; reflexivity
        |rewrite length_map, length_seq; reflexivity| |exact Hb].
      intros j Hj. rewrite !rd_map_seq by exact Hj.
      rewrite rs_entry_spec by (apply wf_get_block_ptr, Hwf). reflexivity.
Qed.

End Build.

(** ** Reading the index *)

Lemma rd_zeros (n k : nat) : rd (replicate n 0) k = 0.
Proof.
  destruct (Nat.lt_ge_cases k n) as [H|H]; [apply rd_replicate, H|].
  unfold rd. rewrite lookup_ge_None_2 by (rewrite length_replicate; exact H).
  reflexivity.
Qed.

Lemma block_count_nonneg (bv : bvector.t) (m : nat) : 0 <= block_count bv m.
Proof. apply count_bits_nonneg. Qed.

Lemma block_count_le (bv : bvector.t) (m : nat) :
  wf_bv bv = true -> block_count bv m <= bits_in_block.
Proof.
  intros Hwf. unfold block_count.
  pose proof (count_bits_le_length (block_bits (block_at bv m))) as H.
  rewrite block_bits_length in H by (apply wf_block_at, Hwf).
  unfold bits_in_block in *. lia.
Qed.

Lemma sub_counts_null (bv : bvector.t) (m : nat) :
  block_at bv m = BNull ->
  block_count bv m = 0 /\ pack_sub (sub_first bv m) (sub_second bv m) = 0.
Proof.
  intros H. unfold block_count, sub_first, sub_second. rewrite H.
  cbn [block_bits]. rewrite count_bits_replicate, !count_range_of_zeros.
  split; reflexivity.
Qed.

Lemma shiftr_block (nb q : Z) :
  0 <= nb -> 0 <= q < bits_in_block ->
  Z.shiftr (nb * bits_in_block + q) set_block_shift = nb
  /\ Z.land (nb * bits_in_block + q) set_block_mask = q.
Proof.
  intros Hnb Hq. unfold set_block_shift, set_block_mask, bits_in_block in *. split.
  - rewrite Z.shiftr_div_pow2 by lia. change (2 ^ 16) with 65536.
    symmetry. apply Z.div_unique with (r := q); lia.
  - change 65535 with (Z.ones 16). rewrite Z.land_ones by lia.
    change (2 ^ 16) with 65536. symmetry. apply Z.mod_unique with (q := nb); lia.
Qed.

(** [build_rs_index] on a vector with no set bit leaves the index empty;
    otherwise the index describes the blocks up to the last one that has a
    set bit. *)
Lemma build_rs_index_spec (bv : bvector.t) :
  wf_bv bv = true ->
  (bvector.build_rs_index bv = rs_index.init /\ forall m, block_count bv m = 0)
  \/ (bvector.is_init bv = true
      /\ exists n,
           (0 < n <= Z.to_nat set_total_blocks)%nat
           /\ indexes bv (bvector.build_rs_index bv) n
           /\ 0 < block_count bv (n - 1)
           /\ forall m, (n <= m)%nat -> block_count bv m = 0).
Proof.
  intros Hwf. unfold bvector.build_rs_index.
  pose proof (find_reverse_spec bv Hwf) as Hrev.
  destruct (bvector.is_init bv) eqn:Einit; cbn [negb]; cbv iota.
  - destruct (bvector.find_reverse bv) as [p|].
    + right. split; [reflexivity|].
      destruct Hrev as (nb & q & Hnb & Hq & -> & Hnth & Hafter).
      destruct (shiftr_block (Z.of_nat nb) q ltac:(lia) Hq) as [-> _].
      exists (S nb). split; [lia|].
      pose proof (build_loop bv Hwf
                    (rs_index.set_total
                       (rs_index.resize rs_index.init (Z.of_nat nb + 1))
                       (Z.of_nat nb + 1))
                    (blocks_manager.find_max_top_blocks (bvector.blockman_ bv)))
        as Hloop.
      cbv zeta in Hloop. cbv zeta.
      match type of Hloop with
      | _ -> rs_index.total_ ?r = _ /\ _ => set (rs := r) in *
      end.
      destruct Hloop as (Htot & Hlen & Hbuilt).
      { intros m. unfold built.
        cbn [rs_index.set_total rs_index.resize rs_index.bcount_
             rs_index.sub_count_].
        rewrite !rd_zeros. split; reflexivity. }
      split; [|split].
      * unfold indexes. split; [rewrite Htot; cbn [rs_index.set_total rs_index.total_]; lia|].
        split.
        { cbn [rs_index.set_total rs_index.resize rs_index.bcount_] in Hlen.
          rewrite length_replicate in Hlen.
          assert (Z.of_nat nb + 1
                  <= (Z.of_nat nb + 1 + set_sub_array_size - 1) / set_sub_array_size
                     * set_sub_array_size) as Hceil.
          { unfold set_sub_array_size.
            pose proof (Z.div_mod (Z.of_nat nb + 1 + 256 - 1) 256 ltac:(lia)) as Hd.
            pose proof (Z.mod_pos_bound (Z.of_nat nb + 1 + 256 - 1) 256 ltac:(lia)).
            lia. }
          lia. }
        assert (forall m,
                  (blocks_manager.find_max_top_blocks (bvector.blockman_ bv)
                   <= m / Z.to_nat set_sub_array_size)%nat ->
                  block_count bv m = 0
                  /\ pack_sub (sub_first bv m) (sub_second bv m) = 0) as Hpast.
        { intros m Hm. apply sub_counts_null. unfold block_at.
          apply get_block_ptr_top_null, get_topblock_past_max, Hm. }
        split; intros m; destruct (Hbuilt m) as [Hb Hs].
        { rewrite Hb.
          destruct (Nat.ltb_spec (m / Z.to_nat set_sub_array_size)
                      (blocks_manager.find_max_top_blocks (bvector.blockman_ bv)))
            as [Hlt|Hge]; [reflexivity|].
          symmetry. apply Hpast, Hge. }
        { rewrite Hs.
          destruct (Nat.ltb_spec (m / Z.to_nat set_sub_array_size)
                      (blocks_manager.find_max_top_blocks (bvector.blockman_ bv)))
            as [Hlt|Hge]; [reflexivity|].
          symmetry. apply Hpast, Hge. }
      * replace (S nb - 1)%nat with nb by lia.
        unfold block_count. eapply count_bits_pos_of_nth, Hnth.
      * intros m Hm. apply Hafter. lia.
    + left. split; [reflexivity|exact Hrev].
  - left. split; [reflexivity|]. intros m. apply block_count_null, block_at_beyond.
    unfold bvector.is_init, blocks_manager.is_init in Einit.
    unfold blocks_manager.top_block_size, blocks_manager.top_blocks_root.
    destruct (blocks_manager.top_blocks_ (bvector.blockman_ bv)); [discriminate|].
    cbn. lia.
Qed.

(** *** Running totals *)

Lemma sum_list_app (l1 l2 : list Z) :
  rs_index.sum_list (l1 ++ l2) = rs_index.sum_list l1 + rs_index.sum_list l2.
Proof.
  induction l1 as [|x l1 IH]; cbn [rs_index.sum_list app]; [lia|]. rewrite IH. lia.
Qed.

Lemma count_before_0 (bv : bvector.t) : count_before bv 0 = 0.
Proof. reflexivity. Qed.

Lemma count_before_S (bv : bvector.t) (n : nat) :
  count_before bv (S n) = count_before bv n + block_count bv n.
Proof.
  unfold count_before. rewrite seq_S, map_app, sum_list_app.
  cbn [map rs_index.sum_list]. rewrite Nat.add_0_l. lia.
Qed.

Lemma count_before_nonneg (bv : bvector.t) (n : nat) : 0 <= count_before bv n.
Proof.
  induction n as [|n IH]; [rewrite count_before_0; lia|].
  rewrite count_before_S. pose proof (block_count_nonneg bv n). lia.
Qed.

Lemma count_before_mono (bv : bvector.t) (a b : nat) :
  (a <= b)%nat -> count_before bv a <= count_before bv b.
Proof.
  induction 1 as [|b Hab IH]; [lia|].
  rewrite count_before_S. pose proof (block_count_nonneg bv b). lia.
Qed.

Lemma count_before_le (bv : bvector.t) (n : nat) :
  wf_bv bv = true -> count_before bv n <= Z.of_nat n * bits_in_block.
Proof.
  intros Hwf. induction n as [|n IH]; [rewrite count_before_0; lia|].
  rewrite count_before_S. pose proof (block_count_le bv n Hwf). lia.
Qed.

Lemma count_before_stable (bv : bvector.t) (a b : nat) :
  (forall m, (a <= m)%nat -> block_count bv m = 0) ->
  (a <= b)%nat -> count_before bv b = count_before bv a.
Proof.
  intros Hz. induction 1 as [|b Hab IH]; [reflexivity|].
  rewrite count_before_S, IH, (Hz b) by lia. lia.
Qed.

Lemma take_as_map (l : list Z) (f : nat -> Z) (n : nat) :
  (n <= length l)%nat -> (forall m, rd l m = f m) ->
  take n l = map f (seq 0 n).
Proof.
  intros Hn Hf. induction n as [|n IH]; [rewrite take_0; reflexivity|].
  destruct (l !! n) as [x|] eqn:E.
  - rewrite (take_S_r l n x E), IH by lia. rewrite seq_S, map_app. cbn [map].
    rewrite Nat.add_0_l. rewrite <- Hf. unfold rd. rewrite E. reflexivity.
  - apply lookup_ge_None in E. lia.
Qed.

Lemma sum_take_rd (l : list Z) (f : nat -> Z) (n : nat) :
  (forall m, rd l m = f m) ->
  rs_index.sum_list (take n l) = rs_index.sum_list (map f (seq 0 n)).
Proof.
  intros Hf. induction n as [|n IH]; [rewrite take_0; reflexivity|].
  rewrite seq_S, map_app, sum_list_app, <- IH. cbn [map rs_index.sum_list].
  rewrite Nat.add_0_l, <- Hf.
  destruct (l !! n) as [x|] eqn:E.
  - rewrite (take_S_r l n x E), sum_list_app. cbn [rs_index.sum_list].
    unfold rd. rewrite E. reflexivity.
  - unfold rd. rewrite E. cbn [default]. pose proof E as E'.
    apply lookup_ge_None in E'.
    rewrite !take_ge by lia. cbn. lia.
Qed.

Section IndexReads.

Variables (bv : bvector.t) (rs : rs_index.t) (n : nat).
Hypothesis Hidx : indexes bv rs n.

Lemma rcount_indexed (nb : nat) :
  rs_index.rcount rs (Z.of_nat nb) = count_before bv (S nb).
Proof.
  destruct Hidx as (_ & _ & Hb & _). unfold rs_index.rcount, count_before.
  replace (Z.to_nat (Z.of_nat nb + 1)) with (S nb) by lia.
  apply sum_take_rd, Hb.
Qed.

Lemma count_indexed : (0 < n)%nat -> rs_index.count rs = count_before bv n.
Proof.
  intros Hn. unfold rs_index.count.
  destruct Hidx as (Ht & _). rewrite Ht.
  destruct (Z.eqb_spec (Z.of_nat n) 0) as [E|E]; [lia|].
  replace (Z.of_nat n - 1) with (Z.of_nat (n - 1)) by lia.
  rewrite rcount_indexed. f_equal. lia.
Qed.

Lemma count_nb_indexed (nb : nat) :
  rs_index.count_nb rs (Z.of_nat nb) = block_count bv nb.
Proof.
  destruct Hidx as (_ & _ & Hb & _). unfold rs_index.count_nb.
  rewrite Nat2Z.id. apply Hb.
Qed.

Lemma sub_count_indexed (nb : nat) :
  rs_index.sub_count rs (Z.of_nat nb)
  = pack_sub (sub_first bv nb) (sub_second bv nb).
Proof.
  destruct Hidx as (_ & _ & _ & Hs). unfold rs_index.sub_count.
  rewrite Nat2Z.id. apply Hs.
Qed.

Lemma bcount_indexed :
  take (Z.to_nat (rs_index.total_ rs)) (rs_index.bcount_ rs)
  = map (block_count bv) (seq 0 n).
Proof.
  destruct Hidx as (Ht & Hl & Hb & _). rewrite Ht, Nat2Z.id.
  apply take_as_map; assumption.
Qed.

End IndexReads.

(** *** The packed sub-range counts *)

Lemma pack_sub_unpack (first second : Z) :
  0 <= first < 65536 -> 0 <= second ->
  Z.land (pack_sub first second) 65535 = first
  /\ Z.shiftr (pack_sub first second) 16 = second.
Proof.
  intros Hf Hs. unfold pack_sub.
  assert (Z.land first 65535 = first) as Hlow.
  { change 65535 with (Z.ones 16). rewrite Z.land_ones by lia.
    apply Z.mod_small. change (2 ^ 16) with 65536. lia. }
  assert (Z.shiftr first 16 = 0) as Hhigh.
  { rewrite Z.shiftr_div_pow2 by lia. apply Z.div_small.
    change (2 ^ 16) with 65536. lia. }
  split.
  - rewrite Z.land_lor_distr_l, Hlow.
    assert (Z.land (Z.shiftl second 16) 65535 = 0) as ->.
    { change 65535 with (Z.ones 16). rewrite Z.land_ones by lia.
      rewrite Z.shiftl_mul_pow2 by lia. apply Z.mod_mul. lia. }
    apply Z.lor_0_r.
  - rewrite Z.shiftr_lor, Hhigh, Z.lor_0_l.
    rewrite Z.shiftr_shiftl_l by lia. apply Z.shiftl_0_r.
Qed.

(** *** The block of a rank *)

Lemma find_block_seq (f : nat -> Z) (R : Z) :
  (forall m, 0 <= f m) ->
  forall (len s k : nat) (acc : Z),
    (k < len)%nat ->
    acc + rs_index.sum_list (map f (seq s k)) < R ->
    R <= acc + rs_index.sum_list (map f (seq s (S k))) ->
    rs_index.find_block (map f (seq s len)) R (Z.of_nat s) acc
    = Some (Z.of_nat (s + k), acc + rs_index.sum_list (map f (seq s k))).
Proof.
  intros Hf. induction len as [|len IH]; intros s k acc Hk Hlo Hhi; [lia|].
  cbn [seq map rs_index.find_block].
  destruct k as [|k].
  - cbn [seq map rs_index.sum_list] in *.
    rewrite (proj2 (Z.leb_le _ _)) by lia.
    rewrite Nat.add_0_r, Z.add_0_r. reflexivity.
  - cbn [seq map rs_index.sum_list] in Hlo.
    assert (0 <= rs_index.sum_list (map f (seq (S s) k))) as Hnn.
    { clear -Hf. generalize (S s). induction k as [|k IH]; intros s';
        cbn [seq map rs_index.sum_list]; [lia|].
      specialize (IH (S s')). specialize (Hf s'). lia. }
    rewrite (proj2 (Z.leb_gt _ _)) by lia.
    replace (Z.of_nat s + 1) with (Z.of_nat (S s)) by lia.
    rewrite (IH (S s) k (acc + f s)).
    + cbn [seq map rs_index.sum_list]. f_equal. f_equal; lia.
    + lia.
    + lia.
    + remember (S k) as k'. cbn [seq map rs_index.sum_list] in Hhi. subst k'. lia.
Qed.

Lemma block_of_rank (bv : bvector.t) (n : nat) (r : Z) :
  1 <= r <= count_before bv n ->
  exists nb, (nb < n)%nat
             /\ count_before bv nb < r <= count_before bv nb + block_count bv nb.
Proof.
  induction n as [|n IH]; intros Hr; [rewrite count_before_0 in Hr; lia|].
  rewrite count_before_S in Hr.
  destruct (Z_le_gt_dec r (count_before bv n)) as [Hle|Hgt].
  - destruct (IH ltac:(lia)) as (nb & Hnb & H). exists nb. split; [lia|exact H].
  - exists n. split; [lia|]. lia.
Qed.

(** ** [count_to] is the rank of a position *)

Lemma block_at_coord (nb : nat) :
  get_block_coord (Z.of_nat nb)
  = ((nb / Z.to_nat set_sub_array_size)%nat, (nb mod Z.to_nat set_sub_array_size)%nat).
Proof.
  assert (0 < Z.to_nat set_sub_array_size)%nat as HS by (unfold set_sub_array_size; lia).
  pose proof (Nat.div_mod_eq nb (Z.to_nat set_sub_array_size)) as Hdm.
  pose proof (Nat.mod_upper_bound nb (Z.to_nat set_sub_array_size) ltac:(lia)) as Hmod.
  rewrite <- (get_block_coord_of_nblock (nb / Z.to_nat set_sub_array_size)
                (nb mod Z.to_nat set_sub_array_size)) by exact Hmod.
  f_equal. rewrite Hdm at 1. unfold set_sub_array_size. lia.
Qed.

Section RankIn.

Variable B : list bool.

Lemma range_from_0 (x : Z) :
  0 <= x -> count_range_of B 0 x = rank_in B (Z.to_nat x).
Proof. apply count_range_of_0. Qed.

Lemma range_above (a x : Z) :
  0 <= a <= x ->
  count_range_of B (a + 1) x = rank_in B (Z.to_nat x) - rank_in B (Z.to_nat a).
Proof.
  intros H. rewrite count_range_of_rank by lia. rewrite take_S_rank by lia.
  reflexivity.
Qed.

Lemma rank_in_range (x : Z) : 0 <= x -> 0 <= rank_in B (Z.to_nat x) <= x + 1.
Proof.
  intros Hx. pose proof (rank_in_bound B (Z.to_nat x)).
  pose proof (count_bits_nonneg (take (S (Z.to_nat x)) B)). unfold rank_in in *. lia.
Qed.

Lemma rank_in_mono_Z (x y : Z) :
  0 <= x <= y -> rank_in B (Z.to_nat x) <= rank_in B (Z.to_nat y).
Proof. intros H. apply rank_in_mono. lia. Qed.

Lemma rank_in_last :
  length B = Z.to_nat bits_in_block ->
  rank_in B (Z.to_nat (bits_in_block - 1)) = count_bits B.
Proof.
  intros HB. unfold rank_in. rewrite take_ge; [reflexivity|].
  rewrite HB. unfold bits_in_block. lia.
Qed.

End RankIn.

Lemma rank_in_zeros (n q : nat) : rank_in (replicate n false) q = 0.
Proof.
  pose proof (rank_in_le (replicate n false) q) as H.
  rewrite count_bits_replicate in H.
  pose proof (count_bits_nonneg (take (S q) (replicate n false))).
  unfold rank_in in *. lia.
Qed.

Lemma rank_in_ones (n q : nat) :
  (q < n)%nat -> rank_in (replicate n true) q = Z.of_nat q + 1.
Proof.
  intros H. unfold rank_in. rewrite take_replicate, count_bits_replicate. lia.
Qed.

Ltac rs_consts :=
  unfold rs3_border1, rs3_half_span, rs3_border0, gap_max_bits, bits_in_block in *.

Section CountTo.
Import bvector.

Variables (bv : t) (rs : rs_index.t) (n : nat).
Hypothesis Hwf : wf_bv bv = true.
Hypothesis Hinit : is_init bv = true.
Hypothesis Hidx : indexes bv rs n.

Lemma sub_counts_unpack (nb : nat) :
  let B := block_bits (block_at bv nb) in
  Z.land (rs_index.sub_count rs (Z.of_nat nb)) 65535 = rank_in B (Z.to_nat rs3_border0)
  /\ Z.shiftr (rs_index.sub_count rs (Z.of_nat nb)) 16
     = rank_in B (Z.to_nat rs3_border1) - rank_in B (Z.to_nat rs3_border0).
Proof.
  intros B. rewrite (sub_count_indexed bv rs n Hidx).
  unfold sub_first, sub_second. fold B.
  rewrite range_from_0 by (unfold rs3_border0; lia).
  rewrite range_above by (unfold rs3_border1, rs3_border0; lia).
  pose proof (rank_in_range B rs3_border0 ltac:(unfold rs3_border0; lia)) as H0.
  pose proof (rank_in_mono_Z B rs3_border0 rs3_border1
                ltac:(unfold rs3_border1, rs3_border0; lia)) as H1.
  apply pack_sub_unpack; unfold rs3_border0 in *; lia.
Qed.

Lemma block_count_to_spec (w : list Z) (nb : nat) (q : Z) :
  block_at bv nb = BBit w -> 0 <= q < bits_in_block ->
  block_count_to w (Z.of_nat nb) q rs = rank_in (bits_of_words w) (Z.to_nat q).
Proof.
  intros Hblk Hq.
  pose proof (wf_block_at bv nb Hwf) as Hwfb.
  pose proof (block_bits_length _ Hwfb) as Hlen.
  destruct (sub_counts_unpack nb) as [Hfirst Hsecond].
  pose proof (count_nb_indexed bv rs n Hidx nb) as Hcnt.
  unfold block_count in Hcnt.
  rewrite Hblk in Hlen, Hfirst, Hsecond, Hcnt. cbn [block_bits] in *.
  set (B := bits_of_words w) in *.
  rewrite <- (rank_in_last B Hlen) in Hcnt.
  unfold block_count_to, rs_index.find_sub_range.
  rewrite Hfirst, Hsecond, Hcnt. unfold bit_block_calc_count_range, bit_block_calc_count_to.
  fold B.
  pose proof (rank_in_range B q ltac:(rs_consts; lia)) as Hrq.
  pose proof (rank_in_range B rs3_border0 ltac:(rs_consts; lia)) as Hr0.
  pose proof (rank_in_range B rs3_border1 ltac:(rs_consts; lia))
    as Hr1.
  assert (forall x, 0 <= x < 2 ^ 32 -> u32 x = x) as Hu
    by (intros x Hx; apply Z.mod_small, Hx).
  assert (rank_in B (Z.to_nat rs3_border0)
          + (rank_in B (Z.to_nat rs3_border1) - rank_in B (Z.to_nat rs3_border0))
          = rank_in B (Z.to_nat rs3_border1)) as Hsum by (rs_consts; lia).
  rewrite Hsum.
  rewrite (Hu (rank_in B (Z.to_nat rs3_border1)))
    by (rs_consts; lia).
  destruct (Z.leb_spec q rs3_border0) as [H0|H0].
  - change (0 =? 0) with true. cbv iota.
    destruct (Z.leb_spec q (rs3_border0 / 2)) as [Hh|Hh].
    + apply range_from_0. lia.
    + destruct (Z.eqb_spec q rs3_border0) as [->|Hne]; [reflexivity|].
      rewrite range_above by (rs_consts; lia).
      pose proof (rank_in_mono_Z B q rs3_border0 ltac:(rs_consts; lia)).
      rewrite Hu by (rs_consts; lia). lia.
  - destruct (Z.leb_spec q rs3_border1) as [H1|H1].
    + change (1 =? 0) with false. change (1 =? 1) with true. cbv iota.
      pose proof (rank_in_mono_Z B rs3_border0 q ltac:(rs_consts; lia)).
      destruct (Z.leb_spec q (rs3_border0 + rs3_half_span)) as [Hh|Hh].
      * rewrite range_above by (rs_consts; lia).
        rewrite Hu by (rs_consts; lia). lia.
      * destruct (Z.eqb_spec q rs3_border1) as [->|Hne]; [reflexivity|].
        rewrite range_above by (rs_consts; lia).
        pose proof (rank_in_mono_Z B q rs3_border1 ltac:(rs_consts; lia)).
        rewrite Hu by (rs_consts; lia). lia.
    + change (2 =? 0) with false. change (2 =? 1) with false.
      change (2 =? 2) with true. cbv iota.
      pose proof (rank_in_mono_Z B rs3_border1 q
                    ltac:(rs_consts; lia)).
      destruct (Z.leb_spec q (rs3_border1 + rs3_half_span)) as [Hh|Hh].
      * rewrite range_above by (rs_consts; lia).
        rewrite Hu by (rs_consts; lia). lia.
      * destruct (Z.eqb_spec q (gap_max_bits - 1)) as [->|Hne]; [reflexivity|].
        rewrite range_above by (rs_consts; lia).
        pose proof (rank_in_mono_Z B q (gap_max_bits - 1)
                      ltac:(rs_consts; lia)).
        change (gap_max_bits - 1) with (bits_in_block - 1) in *.
        pose proof (rank_in_range B (bits_in_block - 1)
                      ltac:(rs_consts; lia)).
        rewrite Hu by (rs_consts; lia). lia.
Qed.

(** For a position in an indexed block, [count_to] is the number of set
    bits before the block plus the rank inside the block. *)
Lemma count_to_spec (nb : nat) (q : Z) :
  (nb < n)%nat -> 0 <= q < bits_in_block ->
  count_before bv nb + rank_in (block_bits (block_at bv nb)) (Z.to_nat q) < 2 ^ 32 ->
  count_to bv (Z.of_nat nb * bits_in_block + q) rs
  = count_before bv nb + rank_in (block_bits (block_at bv nb)) (Z.to_nat q).
Proof.
  intros Hnb Hq Hsmall. unfold count_to. rewrite Hinit. cbn [negb]. cbv iota zeta.
  destruct (shiftr_block (Z.of_nat nb) q ltac:(lia) Hq) as [-> ->].
  pose proof Hidx as (Ht & _). unfold rs_index.get_total. rewrite Ht.
  destruct (Z.geb_spec (Z.of_nat nb) (Z.of_nat n)) as [Hge|_]; [lia|].
  assert ((if negb (Z.of_nat nb =? 0)
           then rs_index.rcount rs (Z.of_nat nb - 1) else 0)
          = count_before bv nb) as ->.
  { destruct nb as [|nb']; [reflexivity|].
    destruct (Z.eqb_spec (Z.of_nat (S nb')) 0) as [E|E]; [lia|]. cbn [negb].
    replace (Z.of_nat (S nb') - 1) with (Z.of_nat nb') by lia.
    apply (rcount_indexed bv rs n Hidx). }
  rewrite block_at_coord. fold (block_at bv nb).
  pose proof (count_before_nonneg bv nb) as Hcb.
  assert (forall x, 0 <= x < 2 ^ 32 -> u32 x = x) as Hu
    by (intros x Hx; apply Z.mod_small, Hx).
  destruct (block_at bv nb) as [| |w|g] eqn:Hblk;
    cbn [is_null BM_IS_GAP IS_FULL_BLOCK BMGAP_PTR bit_words block_bits] in *.
  - rewrite rank_in_zeros. lia.
  - rewrite rank_in_ones in * by (unfold bits_in_block in *; lia).
    rewrite Z2Nat.id in * by lia. rewrite Hu by lia. lia.
  - rewrite (block_count_to_spec w nb q Hblk Hq).
    pose proof (rank_in_range (bits_of_words w) q ltac:(lia)).
    rewrite Hu by lia. reflexivity.
  - unfold gap_bit_count_to.
    assert (u16 q = q) as -> by (apply Z.mod_small; unfold bits_in_block in *; lia).
    rewrite count_range_of_0 by lia.
    pose proof (rank_in_range (bits_of_gap g) q ltac:(lia)).
    rewrite Hu by lia. reflexivity.
Qed.

End CountTo.

(** ** [select] finds the position of a rank *)

Lemma find_rank_from (l : list bool) (from q : Z) :
  0 <= from <= q ->
  nth (Z.to_nat q) l false = true ->
  find_rank_of (drop (Z.to_nat from) l)
    (rank_in l (Z.to_nat q) - count_bits (take (Z.to_nat from) l)) from
  = (0, q).
Proof.
  intros Hfq Hnth.
  rewrite (find_rank_of_sound (drop (Z.to_nat from) l) _ from
             (Z.to_nat q - Z.to_nat from)).
  - f_equal. lia.
  - rewrite !nth_lookup in *. rewrite lookup_drop.
    replace (Z.to_nat from + (Z.to_nat q - Z.to_nat from))%nat with (Z.to_nat q) by lia.
    exact Hnth.
  - rewrite (rank_in_split l (Z.to_nat from) (Z.to_nat q)) by lia.
    unfold rank_in.
    replace (S (Z.to_nat q - Z.to_nat from)) with (S (Z.to_nat q) - Z.to_nat from)%nat
      by lia.
    lia.
Qed.

Lemma block_find_rank_spec (b : block) (from q : Z) :
  0 <= from <= q ->
  nth (Z.to_nat q) (block_bits b) false = true ->
  bvector.block_find_rank (BLOCK_ADDR_SAN b)
    (rank_in (block_bits b) (Z.to_nat q)
     - count_bits (take (Z.to_nat from) (block_bits b))) from
  = (0, q).
Proof.
  intros Hfq Hnth.
  destruct b as [| |w|g];
    cbn [BLOCK_ADDR_SAN bvector.block_find_rank bit_words block_bits] in *.
  - exfalso.
    destruct (Nat.lt_ge_cases (Z.to_nat q) (Z.to_nat bits_in_block)) as [H|H].
    + rewrite nth_replicate in Hnth by exact H. discriminate.
    + rewrite nth_overflow in Hnth by (rewrite length_replicate; exact H).
      discriminate.
  - unfold bit_find_rank. rewrite bits_of_full_block_real.
    apply find_rank_from; assumption.
  - unfold bit_find_rank. apply find_rank_from; assumption.
  - unfold gap_find_rank. apply find_rank_from; assumption.
Qed.

Section Select.
Import bvector.

Variables (bv : t) (rs : rs_index.t) (n : nat).
Hypothesis Hinit : is_init bv = true.
Hypothesis Hidx : indexes bv rs n.

(** The index leads a rank to its block and to the sub-range of the block
    that holds it. *)
Lemma find_spec (nb : nat) (q : Z) :
  (nb < n)%nat -> 0 <= q < bits_in_block ->
  nth (Z.to_nat q) (block_bits (block_at bv nb)) false = true ->
  exists from,
    rs_index.find rs
      (count_before bv nb + rank_in (block_bits (block_at bv nb)) (Z.to_nat q))
    = Some (rank_in (block_bits (block_at bv nb)) (Z.to_nat q)
            - count_bits (take (Z.to_nat from) (block_bits (block_at bv nb))),
            Z.of_nat nb, from)
    /\ 0 <= from <= q.
Proof.
  intros Hnb Hq Hnth. set (B := block_bits (block_at bv nb)) in *.
  pose proof (rank_in_pos B _ Hnth) as Hr1.
  pose proof (rank_in_le B (Z.to_nat q)) as Hr2.
  unfold rs_index.find. rewrite (bcount_indexed bv rs n Hidx).
  change (rs_index.find_block (map (block_count bv) (seq 0 n))
            (count_before bv nb + rank_in B (Z.to_nat q)) 0 0)
    with (rs_index.find_block (map (block_count bv) (seq 0 n))
            (count_before bv nb + rank_in B (Z.to_nat q)) (Z.of_nat 0) 0).
  rewrite (find_block_seq (block_count bv) _ (block_count_nonneg bv) n 0 nb 0 Hnb).
  2: { fold (count_before bv nb). lia. }
  2: { fold (count_before bv (S nb)). rewrite count_before_S.
       unfold block_count. fold B. lia. }
  fold (count_before bv nb). rewrite Nat.add_0_l, Z.add_0_l.
  replace (count_before bv nb + rank_in B (Z.to_nat q) - count_before bv nb)
    with (rank_in B (Z.to_nat q)) by lia.
  destruct (sub_counts_unpack bv rs n Hidx nb) as [Hfirst Hsecond].
  cbv zeta in Hfirst, Hsecond. fold B in Hfirst, Hsecond.
  cbv zeta. rewrite Hfirst, Hsecond.
  replace (rank_in B (Z.to_nat rs3_border0)
           + (rank_in B (Z.to_nat rs3_border1) - rank_in B (Z.to_nat rs3_border0)))
    with (rank_in B (Z.to_nat rs3_border1)) by lia.
  destruct (Z.leb_spec (rank_in B (Z.to_nat q)) (rank_in B (Z.to_nat rs3_border0)))
    as [H0|H0].
  - exists 0. split; [|lia]. change (Z.to_nat 0) with 0%nat. rewrite take_0.
    cbn [count_bits]. rewrite Z.sub_0_r. reflexivity.
  - assert (rs3_border0 < q) as Hq0.
    { destruct (Z_lt_le_dec rs3_border0 q) as [H|H]; [exact H|].
      pose proof (rank_in_mono_Z B q rs3_border0 ltac:(lia)). lia. }
    destruct (Z.leb_spec (rank_in B (Z.to_nat q)) (rank_in B (Z.to_nat rs3_border1)))
      as [H1|H1].
    + exists (rs3_border0 + 1). split; [|unfold rs3_border0 in *; lia].
      rewrite take_S_rank by (unfold rs3_border0; lia). reflexivity.
    + assert (rs3_border1 < q) as Hq1.
      { destruct (Z_lt_le_dec rs3_border1 q) as [H|H]; [exact H|].
        pose proof (rank_in_mono_Z B q rs3_border1 ltac:(lia)). lia. }
      exists (rs3_border1 + 1). split; [|unfold rs3_border1, rs3_border0 in *; lia].
      rewrite take_S_rank by (unfold rs3_border1, rs3_border0; lia).
      f_equal. f_equal. f_equal. lia.
Qed.

(** [select] of the rank of a set bit is the position of the bit. *)
Lemma select_at (nb : nat) (q : Z) :
  (nb < n)%nat -> (nb < Z.to_nat set_total_blocks)%nat -> 0 <= q < bits_in_block ->
  nth (Z.to_nat q) (block_bits (block_at bv nb)) false = true ->
  select bv (count_before bv nb + rank_in (block_bits (block_at bv nb)) (Z.to_nat q)) rs
  = Some (Z.of_nat nb * bits_in_block + q).
Proof.
  intros Hnb Hnb' Hq Hnth.
  destruct (find_spec nb q Hnb Hq Hnth) as (from & Hfind & Hfrom).
  pose proof (rank_in_pos _ _ Hnth) as Hr1.
  pose proof (rank_in_le (block_bits (block_at bv nb)) (Z.to_nat q)) as Hr2.
  pose proof (count_before_nonneg bv nb) as Hcb.
  unfold select. rewrite Hinit. cbn [negb].
  destruct (Z.eqb_spec (count_before bv nb
                        + rank_in (block_bits (block_at bv nb)) (Z.to_nat q)) 0)
    as [E|_]; [lia|].
  rewrite (count_indexed bv rs n Hidx) by lia.
  assert (count_before bv (S nb) <= count_before bv n) as Hmono
    by (apply count_before_mono; lia).
  rewrite count_before_S in Hmono. unfold block_count in Hmono.
  rewrite (proj2 (Z.ltb_ge _ _)) by lia.
  cbn [orb]. cbv iota. rewrite Hfind. cbv iota beta.
  rewrite block_at_coord. cbv iota beta. fold (block_at bv nb).
  rewrite (block_find_rank_spec _ from q Hfrom Hnth). cbv iota beta.
  f_equal. unfold u32, set_block_size, bits_in_block, set_total_blocks in *.
  rewrite Z.mod_small by lia. lia.
Qed.

End Select.

(** ** [count] is the number of set bits *)

Lemma u32_add_l (a b : Z) : u32 (u32 a + b) = u32 (a + b).
Proof. unfold u32. apply Z.add_mod_idemp_l. lia. Qed.

Lemma count_before_add (bv : bvector.t) (c : Z) (a len : nat) :
  (forall m, (a <= m < a + len)%nat -> block_count bv m = c) ->
  count_before bv (a + len) = count_before bv a + Z.of_nat len * c.
Proof.
  induction len as [|len IH]; intros H.
  - rewrite Nat.add_0_r. lia.
  - replace (a + S len)%nat with (S (a + len)) by lia.
    rewrite count_before_S, IH by (intros m Hm; apply H; lia).
    rewrite (H (a + len)%nat) by lia. lia.
Qed.

Section Count.
Import bvector.

Variable bv : t.
Hypothesis Hwf : wf_bv bv = true.

Lemma count_sub_loop (i : nat) (cnt0 : Z) :
  cnt0 = u32 (count_before bv (i * Z.to_nat set_sub_array_size)) ->
  for_range sub_size
    (fun cnt j =>
       let blk := blocks_manager.get_block_ptr (blockman_ bv) i j in
       if negb (is_null blk)
       then u32 (cnt + blocks_manager.block_bitcount blk)
       else cnt) cnt0
  = u32 (count_before bv (i * Z.to_nat set_sub_array_size + sub_size)).
Proof.
  intros H0.
  apply (for_range_ind
           (fun j cnt =>
              cnt = u32 (count_before bv (i * Z.to_nat set_sub_array_size + j)))).
  - rewrite Nat.add_0_r. exact H0.
  - intros j cnt Hj ->. cbv zeta.
    replace (i * Z.to_nat set_sub_array_size + S j)%nat
      with (S (i * Z.to_nat set_sub_array_size + j)) by lia.
    rewrite count_before_S. unfold block_count.
    rewrite block_at_slot by exact Hj.
    pose proof (wf_get_block_ptr (blockman_ bv) i j Hwf) as Hb.
    rewrite <- (block_bitcount_bits _ Hb).
    destruct (blocks_manager.get_block_ptr (blockman_ bv) i j) as [| |w|g];
      cbn [is_null negb]; try apply u32_add_l.
    cbn [blocks_manager.block_bitcount]. rewrite Z.add_0_r. reflexivity.
Qed.

Lemma count_spec :
  count bv
  = u32 (count_before bv
           (blocks_manager.top_block_size (blockman_ bv)
            * Z.to_nat set_sub_array_size)).
Proof.
  unfold count. destruct (is_init bv) eqn:Einit; cbn [negb]; cbv iota.
  - apply (for_range_ind
             (fun k cnt =>
                cnt = u32 (count_before bv (k * Z.to_nat set_sub_array_size)))).
    + reflexivity.
    + intros k cnt Hk ->.
      replace (S k * Z.to_nat set_sub_array_size)%nat
        with (k * Z.to_nat set_sub_array_size + Z.to_nat set_sub_array_size)%nat by lia.
      destruct (blocks_manager.get_topblock (blockman_ bv) k) as [| |l] eqn:Etop.
      * rewrite (count_before_add bv 0).
        { apply (f_equal u32). lia. }
        intros m Hm. apply block_count_null. unfold block_at.
        apply get_block_ptr_top_null.
        replace (m / Z.to_nat set_sub_array_size)%nat with k; [exact Etop|].
        apply (Nat.div_unique m _ k (m - k * Z.to_nat set_sub_array_size)); lia.
      * rewrite (count_before_add bv bits_in_block).
        { rewrite u32_add_l. apply (f_equal u32).
          unfold gap_max_bits, bits_in_block, set_sub_array_size. lia. }
        intros m Hm. unfold block_count, block_at.
        replace (m / Z.to_nat set_sub_array_size)%nat with k.
        { rewrite get_block_ptr_top_full by exact Etop. cbn [block_bits].
          rewrite count_bits_replicate. unfold bits_in_block. lia. }
        apply (Nat.div_unique m _ k (m - k * Z.to_nat set_sub_array_size)); lia.
      * apply count_sub_loop. reflexivity.
  - unfold is_init, blocks_manager.is_init in Einit.
    unfold blocks_manager.top_block_size, blocks_manager.top_blocks_root.
    destruct (blocks_manager.top_blocks_ (blockman_ bv)); [discriminate|].
    reflexivity.
Qed.

(** The total, whatever the number of blocks it is taken over. *)
Lemma count_total (n : nat) :
  (forall m, (n <= m)%nat -> block_count bv m = 0) ->
  count bv = u32 (count_before bv n).
Proof.
  intros Hz. rewrite count_spec. f_equal.
  set (a := (blocks_manager.top_block_size (blockman_ bv)
             * Z.to_nat set_sub_array_size)%nat).
  assert (forall m, (a <= m)%nat -> block_count bv m = 0) as Ha.
  { intros m Hm. apply block_count_null, block_at_beyond.
    apply Nat.div_le_lower_bound; [unfold set_sub_array_size; lia|].
    unfold a in Hm. lia. }
  rewrite <- (count_before_stable bv a (Nat.max a n) Ha) by lia.
  rewrite <- (count_before_stable bv n (Nat.max a n) Hz) by lia.
  reflexivity.
Qed.

End Count.

(** ** Positions by linear block number *)

Lemma position_block (i : Z) :
  0 <= i < 2 ^ 32 ->
  exists (nb : nat) (q : Z),
    (nb < Z.to_nat set_total_blocks)%nat /\ 0 <= q < bits_in_block
    /\ i = Z.of_nat nb * bits_in_block + q.
Proof.
  intros Hi. unfold set_total_blocks, bits_in_block.
  pose proof (Z.div_mod i 65536 ltac:(lia)) as H1.
  pose proof (Z.mod_pos_bound i 65536 ltac:(lia)) as H2.
  assert (0 <= i / 65536 < 65536) as H3.
  { split; [apply Z.div_pos; lia|apply Z.div_lt_upper_bound; lia]. }
  exists (Z.to_nat (i / 65536)), (i mod 65536).
  split; [lia|]. split; [lia|]. rewrite Z2Nat.id by lia. lia.
Qed.

Lemma get_bit_linear (bv : bvector.t) (nb : nat) (q : Z) :
  wf_bv bv = true -> 0 <= q < bits_in_block ->
  bvector.get_bit bv (Z.of_nat nb * bits_in_block + q)
  = nth (Z.to_nat q) (block_bits (block_at bv nb)) false.
Proof.
  intros Hwf Hq. rewrite get_bit_block_test.
  destruct (shiftr_block (Z.of_nat nb) q ltac:(lia) Hq) as [-> ->].
  rewrite block_at_coord. cbn [fst snd]. fold (block_at bv nb).
  apply block_test_nth; [apply wf_block_at, Hwf|exact Hq].
Qed.

Lemma set_bit_in_counted_block (bv : bvector.t) (nb : nat) (q : Z) (n : nat) :
  (forall m, (n <= m)%nat -> block_count bv m = 0) ->
  nth (Z.to_nat q) (block_bits (block_at bv nb)) false = true ->
  (nb < n)%nat.
Proof.
  intros Hz Hnth. destruct (Nat.lt_ge_cases nb n) as [H|H]; [exact H|].
  specialize (Hz nb H). unfold block_count in Hz.
  rewrite (count_bits_zero_nth _ _ Hz) in Hnth. discriminate.
Qed.

(** ** Set bits counted position by position *)

Lemma set_bits_from_snoc (bv : bvector.t) (n : nat) (s : Z) :
  set_bits_from bv s (S n)
  = set_bits_from bv s n + Z.b2z (bvector.get_bit bv (s + Z.of_nat n)).
Proof.
  revert s. induction n as [|n IH]; intros s.
  - cbn [set_bits_from]. change (Z.of_nat 0) with 0. rewrite !Z.add_0_r. lia.
  - change (set_bits_from bv s (S (S n)))
      with (Z.b2z (bvector.get_bit bv s) + set_bits_from bv (s + 1) (S n)).
    rewrite IH. cbn [set_bits_from].
    replace (s + 1 + Z.of_nat n) with (s + Z.of_nat (S n)) by lia. lia.
Qed.

Lemma set_bits_from_add (bv : bvector.t) (a b : nat) (s : Z) :
  set_bits_from bv s (a + b)
  = set_bits_from bv s a + set_bits_from bv (s + Z.of_nat a) b.
Proof.
  revert s. induction a as [|a IH]; intros s.
  - cbn [set_bits_from Nat.add]. rewrite Z.add_0_r. reflexivity.
  - change (S a + b)%nat with (S (a + b)).
    change (set_bits_from bv s (S (a + b)))
      with (Z.b2z (bvector.get_bit bv s) + set_bits_from bv (s + 1) (a + b)).
    change (set_bits_from bv s (S a))
      with (Z.b2z (bvector.get_bit bv s) + set_bits_from bv (s + 1) a).
    rewrite IH.
    replace (s + Z.of_nat (S a)) with (s + 1 + Z.of_nat a) by lia. lia.
Qed.

Lemma set_bits_from_range (bv : bvector.t) (n : nat) (s : Z) :
  0 <= set_bits_from bv s n <= Z.of_nat n.
Proof.
  revert s. induction n as [|n IH]; intros s; cbn [set_bits_from]; [lia|].
  specialize (IH (s + 1)). destruct (bvector.get_bit bv s); cbn [Z.b2z]; lia.
Qed.

Lemma set_bits_from_zero (bv : bvector.t) (n : nat) (s : Z) :
  (forall k, (k < n)%nat -> bvector.get_bit bv (s + Z.of_nat k) = false) ->
  set_bits_from bv s n = 0.
Proof.
  revert s. induction n as [|n IH]; intros s H; cbn [set_bits_from]; [reflexivity|].
  rewrite IH.
  - pose proof (H 0%nat ltac:(lia)) as H0. rewrite Z.add_0_r in H0.
    rewrite H0. reflexivity.
  - intros k Hk. pose proof (H (S k) ltac:(lia)) as Hk'.
    replace (s + 1 + Z.of_nat k) with (s + Z.of_nat (S k)) by lia. exact Hk'.
Qed.

Lemma rank_in_0 (l : list bool) : rank_in l 0 = Z.b2z (nth 0 l false).
Proof. destruct l as [|[|] l]; reflexivity. Qed.

Lemma rank_in_S (l : list bool) (q : nat) :
  rank_in l (S q) = rank_in l q + Z.b2z (nth (S q) l false).
Proof.
  unfold rank_in. rewrite nth_lookup.
  destruct (l !! S q) as [b|] eqn:E.
  - rewrite (take_S_r l (S q) b E), count_bits_app. cbn [count_bits].
    change (default false (Some b)) with b. lia.
  - apply lookup_ge_None in E. rewrite !take_ge by lia.
    change (default false None) with false. cbn [Z.b2z]. lia.
Qed.

Lemma bits_upto_linear (bv : bvector.t) (nb : nat) (q : Z) :
  0 <= q < bits_in_block ->
  bits_upto bv (Z.of_nat nb * bits_in_block + q)
  = count_before bv nb + rank_in (block_bits (block_at bv nb)) (Z.to_nat q).
Proof.
  intros Hq. unfold bits_upto. cbv zeta.
  assert ((Z.of_nat nb * bits_in_block + q) / bits_in_block = Z.of_nat nb) as ->.
  { symmetry. apply Z.div_unique with (r := q); unfold bits_in_block in *; lia. }
  assert ((Z.of_nat nb * bits_in_block + q) mod bits_in_block = q) as ->.
  { symmetry. apply Z.mod_unique with (q := Z.of_nat nb);
      unfold bits_in_block in *; lia. }
  rewrite Nat2Z.id. reflexivity.
Qed.

Section Population.

Variable bv : bvector.t.
Hypothesis Hwf : wf_bv bv = true.

Lemma bits_upto_0 : bits_upto bv 0 = Z.b2z (bvector.get_bit bv 0).
Proof.
  change 0 with (Z.of_nat 0 * bits_in_block + 0) at 1 2.
  rewrite bits_upto_linear by (unfold bits_in_block; lia).
  rewrite get_bit_linear by (assumption || unfold bits_in_block; lia).
  rewrite count_before_0. change (Z.to_nat 0) with 0%nat. rewrite rank_in_0. lia.
Qed.

Lemma bits_upto_succ (i : Z) :
  0 <= i -> i + 1 < 2 ^ 32 ->
  bits_upto bv (i + 1) = bits_upto bv i + Z.b2z (bvector.get_bit bv (i + 1)).
Proof.
  intros Hi Hi1.
  destruct (position_block i ltac:(lia)) as (nb & q & Hnb & Hq & ->).
  rewrite (bits_upto_linear bv nb q Hq).
  destruct (Z_lt_le_dec (q + 1) bits_in_block) as [Hin|Hout].
  - replace (Z.of_nat nb * bits_in_block + q + 1)
      with (Z.of_nat nb * bits_in_block + (q + 1)) by lia.
    rewrite bits_upto_linear, get_bit_linear by (assumption || lia).
    replace (Z.to_nat (q + 1)) with (S (Z.to_nat q)) by lia.
    rewrite rank_in_S. lia.
  - assert (q = bits_in_block - 1) as -> by lia.
    replace (Z.of_nat nb * bits_in_block + (bits_in_block - 1) + 1)
      with (Z.of_nat (S nb) * bits_in_block + 0) by lia.
    rewrite bits_upto_linear, get_bit_linear
      by (assumption || unfold bits_in_block; lia).
    rewrite count_before_S. change (Z.to_nat 0) with 0%nat. rewrite rank_in_0.
    rewrite rank_in_last by (apply block_bits_length, wf_block_at, Hwf).
    unfold block_count. lia.
Qed.

Lemma bits_upto_set_bits (i : Z) :
  0 <= i < 2 ^ 32 -> bits_upto bv i = set_bits_from bv 0 (S (Z.to_nat i)).
Proof.
  intros Hi. rewrite <- (Z2Nat.id i) at 1 by lia.
  assert (Z.of_nat (Z.to_nat i) < 2 ^ 32) as Hlt by lia.
  revert Hlt. generalize (Z.to_nat i). clear i Hi. intros n.
  induction n as [|n IH]; intros Hn.
  - change (Z.of_nat 0) with 0. rewrite bits_upto_0. cbn [set_bits_from]. lia.
  - rewrite set_bits_from_snoc, <- IH by lia.
    replace (Z.of_nat (S n)) with (Z.of_nat n + 1) by lia.
    rewrite bits_upto_succ by lia. rewrite Z.add_0_l. reflexivity.
Qed.

Lemma count_before_all_zero (n : nat) :
  (forall m, block_count bv m = 0) -> count_before bv n = 0.
Proof.
  intros Hz. rewrite (count_before_stable bv 0 n) by (intros; apply Hz || lia).
  apply count_before_0.
Qed.

Lemma rank_in_empty_block (nb q : nat) :
  block_count bv nb = 0 -> rank_in (block_bits (block_at bv nb)) q = 0.
Proof.
  intros H. pose proof (rank_in_le (block_bits (block_at bv nb)) q) as Hle.
  unfold block_count in H. unfold rank_in in *.
  pose proof (count_bits_nonneg (take (S q) (block_bits (block_at bv nb)))). lia.
Qed.

(** The whole population, by blocks and by positions. *)
Lemma count_before_all :
  count_before bv (Z.to_nat set_total_blocks)
  = set_bits_from bv 0 (Z.to_nat (2 ^ 32)).
Proof.
  replace (Z.to_nat (2 ^ 32)) with (S (Z.to_nat (2 ^ 32 - 1))) by lia.
  rewrite <- bits_upto_set_bits by lia.
  replace (2 ^ 32 - 1)
    with (Z.of_nat (Z.to_nat (set_total_blocks - 1)) * bits_in_block
          + (bits_in_block - 1))
    by (unfold set_total_blocks, bits_in_block; lia).
  rewrite bits_upto_linear by (unfold bits_in_block; lia).
  rewrite rank_in_last by (apply block_bits_length, wf_block_at, Hwf).
  replace (Z.to_nat set_total_blocks) with (S (Z.to_nat (set_total_blocks - 1)))
    by (unfold set_total_blocks; lia).
  rewrite count_before_S. reflexivity.
Qed.

(** [count_to] with the index of the vector, at every position. *)
Lemma count_to_bits_upto (i : Z) :
  0 <= i < id_max ->
  bvector.count_to bv i (bvector.build_rs_index bv) = bits_upto bv i.
Proof.
  intros Hi. unfold id_max in Hi.
  destruct (position_block i ltac:(lia)) as (nb & q & Hnb & Hq & ->).
  rewrite bits_upto_linear by exact Hq.
  destruct (build_rs_index_spec bv Hwf)
    as [[Hrs Hzero]|(Hinit & n & Hn & Hidx & Hpos & Hafter)].
  - rewrite count_before_all_zero, rank_in_empty_block by (exact Hzero || apply Hzero).
    rewrite Hrs. unfold bvector.count_to.
    destruct (negb (bvector.is_init bv)); [reflexivity|]. cbv zeta.
    destruct (shiftr_block (Z.of_nat nb) q ltac:(lia) Hq) as [-> _].
    cbn [rs_index.get_total rs_index.init rs_index.total_].
    destruct (Z.geb_spec (Z.of_nat nb) 0) as [_|H]; [reflexivity|lia].
  - destruct (Nat.lt_ge_cases nb n) as [Hlt|Hge].
    + apply (count_to_spec bv _ n Hwf Hinit Hidx nb q Hlt Hq).
      pose proof (count_before_le bv nb Hwf).
      pose proof (rank_in_range (block_bits (block_at bv nb)) q ltac:(lia)). lia.
    + rewrite rank_in_empty_block by (apply Hafter, Hge).
      rewrite (count_before_stable bv n nb Hafter Hge).
      unfold bvector.count_to. rewrite Hinit. cbn [negb]. cbv iota zeta.
      destruct (shiftr_block (Z.of_nat nb) q ltac:(lia) Hq) as [-> _].
      pose proof Hidx as (Ht & _). unfold rs_index.get_total. rewrite Ht.
      destruct (Z.geb_spec (Z.of_nat nb) (Z.of_nat n)) as [_|H]; [|lia].
      rewrite (count_indexed bv _ n Hidx) by lia. lia.
Qed.

End Population.

(** ** Forward and backward searches *)

Lemma find_first_of_none (l : list bool) (pos : Z) :
  find_first_of l pos = None -> count_bits l = 0.
Proof.
  revert pos. induction l as [|b l IH]; intros pos H; [reflexivity|].
  cbn [find_first_of] in H. destruct b; [discriminate|].
  cbn [count_bits Z.b2z]. rewrite (IH _ H). reflexivity.
Qed.

Lemma find_first_of_some (l : list bool) (pos p : Z) :
  find_first_of l pos = Some p ->
  exists k, (k < length l)%nat /\ p = pos + Z.of_nat k /\ nth k l false = true
            /\ forall k', (k' < k)%nat -> nth k' l false = false.
Proof.
  revert pos. induction l as [|b l IH]; intros pos H; [discriminate|].
  cbn [find_first_of] in H. destruct b.
  - injection H as <-. exists 0%nat. cbn [length nth].
    split; [lia|]. split; [lia|]. split; [reflexivity|]. intros k' Hk'. lia.
  - destruct (IH _ H) as (k & Hk & -> & Hnth & Hbefore).
    exists (S k). cbn [length nth]. split; [lia|]. split; [lia|].
    split; [exact Hnth|]. intros k' Hk'. destruct k' as [|k']; [reflexivity|].
    apply Hbefore. lia.
Qed.

Lemma find_last_of_max (l : list bool) (pos p : Z) :
  find_last_of l pos = Some p ->
  forall k, p - pos < Z.of_nat k -> nth k l false = false.
Proof.
  revert pos. induction l as [|b l IH]; intros pos H k Hk; [destruct k; reflexivity|].
  cbn [find_last_of] in H.
  destruct (find_last_of l (pos + 1)) as [p'|] eqn:E.
  - injection H as <-. destruct k as [|k].
    + apply find_last_of_some in E as (k0 & _ & -> & _). lia.
    + cbn [nth]. apply (IH _ E). lia.
  - destruct b; [|discriminate]. injection H as <-.
    destruct k as [|k]; [lia|]. cbn [nth].
    apply count_bits_zero_nth. eapply find_last_of_none, E.
Qed.

Lemma count_bits_zero_of_nth (l : list bool) :
  (forall k, nth k l false = false) -> count_bits l = 0.
Proof.
  induction l as [|b l IH]; intros H; [reflexivity|].
  pose proof (H 0%nat) as H0. cbn [nth] in H0. subst b.
  cbn [count_bits Z.b2z]. rewrite IH; [reflexivity|].
  intros k. apply (H (S k)).
Qed.

(** The search from a position inside a list of bits. *)
Lemma find_first_from (l : list bool) (from : Z) :
  0 <= from ->
  match find_first_of (drop (Z.to_nat from) l) from with
  | None => forall k, (Z.to_nat from <= k)%nat -> nth k l false = false
  | Some p =>
      from <= p < Z.of_nat (length l) /\ nth (Z.to_nat p) l false = true
      /\ forall k, (Z.to_nat from <= k < Z.to_nat p)%nat -> nth k l false = false
  end.
Proof.
  intros Hfrom.
  assert (forall k, nth k (drop (Z.to_nat from) l) false
                    = nth (Z.to_nat from + k) l false) as Hdrop.
  { intros k. rewrite !nth_lookup, lookup_drop. reflexivity. }
  destruct (find_first_of (drop (Z.to_nat from) l) from) as [p|] eqn:E.
  - apply find_first_of_some in E as (k & Hk & -> & Hnth & Hbefore).
    rewrite length_drop in Hk. rewrite Hdrop in Hnth.
    replace (Z.to_nat (from + Z.of_nat k)) with (Z.to_nat from + k)%nat by lia.
    split; [lia|]. split; [exact Hnth|].
    intros k' Hk'. specialize (Hbefore (k' - Z.to_nat from)%nat ltac:(lia)).
    rewrite Hdrop in Hbefore.
    replace (Z.to_nat from + (k' - Z.to_nat from))%nat with k' in Hbefore by lia.
    exact Hbefore.
  - apply find_first_of_none in E. intros k Hk.
    pose proof (count_bits_zero_nth _ (k - Z.to_nat from) E) as H.
    rewrite Hdrop in H.
    replace (Z.to_nat from + (k - Z.to_nat from))%nat with k in H by lia.
    exact H.
Qed.

(** A loop with a return in its body, over a range of indices. *)
Lemma scan_until_seq {A : Type} (body : nat -> option A) (n a : nat) :
  match scan_until body (seq a n) with
  | None => forall k, (a <= k < a + n)%nat -> body k = None
  | Some x =>
      exists k, (a <= k < a + n)%nat /\ body k = Some x
                /\ forall k', (a <= k' < k)%nat -> body k' = None
  end.
Proof.
  revert a. induction n as [|n IH]; intros a; cbn [seq scan_until].
  - intros k Hk. lia.
  - destruct (body a) as [x|] eqn:Ea.
    + exists a. split; [lia|]. split; [exact Ea|]. intros k' Hk'. lia.
    + specialize (IH (S a)). destruct (scan_until body (seq (S a) n)) as [x|].
      * destruct IH as (k & Hk & Hbk & Hbefore). exists k.
        split; [lia|]. split; [exact Hbk|]. intros k' Hk'.
        destruct (Nat.eq_dec k' a) as [->|Hne]; [exact Ea|]. apply Hbefore. lia.
      * intros k Hk. destruct (Nat.eq_dec k a) as [->|Hne]; [exact Ea|].
        apply IH. lia.
Qed.

(** *** One slot *)

Lemma find_first_in_block_spec (b : block) :
  wf_block b = true ->
  match bvector_ops.find_first_in_block b with
  | None => count_bits (block_bits b) = 0
  | Some q => first_set_in (block_bits b) q
  end.
Proof.
  intros Hb. pose proof (block_bits_length b Hb) as Hlen.
  assert (forall l, length l = Z.to_nat bits_in_block ->
            match find_first_of l 0 with
            | None => count_bits l = 0
            | Some q => first_set_in l q
            end) as Hlist.
  { intros l Hl. destruct (find_first_of l 0) as [q|] eqn:E.
    - apply find_first_of_some in E as (k & Hk & -> & Hn & Hbefore).
      rewrite Z.add_0_l. unfold first_set_in. rewrite Nat2Z.id.
      split; [lia|]. split; [exact Hn|exact Hbefore].
    - eapply find_first_of_none, E. }
  destruct b as [| |w|g]; cbn [bvector_ops.find_first_in_block block_bits] in *.
  - apply count_bits_replicate.
  - unfold first_set_in. change (Z.to_nat 0) with 0%nat.
    split; [unfold bits_in_block; lia|]. split; [|intros k Hk; lia].
    apply nth_replicate. unfold bits_in_block. lia.
  - apply Hlist, Hlen.
  - apply Hlist, Hlen.
Qed.

Lemma find_last_in_block_spec (b : block) :
  wf_block b = true ->
  match match b with
        | BNull => None
        | BFull => Some (gap_max_bits - 1)
        | BGap g => gap_find_last g
        | BBit w => bit_find_last w
        end with
  | None => count_bits (block_bits b) = 0
  | Some q => last_set_in (block_bits b) q
  end.
Proof.
  intros Hb. pose proof (block_bits_length b Hb) as Hlen.
  assert (forall l, length l = Z.to_nat bits_in_block ->
            match find_last_of l 0 with
            | None => count_bits l = 0
            | Some q => last_set_in l q
            end) as Hlist.
  { intros l Hl. destruct (find_last_of l 0) as [q|] eqn:E.
    - pose proof (find_last_of_max l 0 q E) as Hmax.
      apply find_last_of_some in E as (k & Hk & -> & Hn).
      rewrite Z.add_0_l in *. unfold last_set_in. rewrite Nat2Z.id.
      split; [lia|]. split; [exact Hn|]. intros k' Hk'. apply Hmax. lia.
    - eapply find_last_of_none, E. }
  destruct b as [| |w|g]; cbn [block_bits] in *.
  - apply count_bits_replicate.
  - unfold last_set_in. split; [unfold gap_max_bits, bits_in_block; lia|].
    split; [apply nth_replicate; unfold gap_max_bits, bits_in_block; lia|].
    intros k Hk. apply nth_overflow. rewrite length_replicate.
    unfold gap_max_bits, bits_in_block in *. lia.
  - apply Hlist, Hlen.
  - apply Hlist, Hlen.
Qed.

(** *** [find] *)

Section Find.
Import bvector bvector_ops.

Variable bv : t.
Hypothesis Hwf : wf_bv bv = true.

Lemma find_first_spec :
  match find bv with
  | None => forall m, block_count bv m = 0
  | Some p =>
      exists nb q,
        (nb < Z.to_nat set_total_blocks)%nat
        /\ p = Z.of_nat nb * bits_in_block + q
        /\ first_set_in (block_bits (block_at bv nb)) q
        /\ forall m, (m < nb)%nat -> block_count bv m = 0
  end.
Proof.
  unfold find. cbv zeta.
  pose proof (wf_top_block_size bv Hwf) as Htop.
  assert (0 < Z.to_nat set_sub_array_size)%nat as HS
    by (unfold set_sub_array_size; lia).
  assert (forall m, block_at bv m
                    = blocks_manager.get_block_ptr (blockman_ bv)
                        (m / Z.to_nat set_sub_array_size)
                        (m mod Z.to_nat set_sub_array_size)) as Hat by reflexivity.
  match goal with
  | |- match scan_until ?b _ with _ => _ end => set (body := b)
  end.
  pose proof (scan_until_seq body (blocks_manager.top_block_size (blockman_ bv)) 0)
    as Hscan.
  (* what one iteration of the outer loop finds *)
  assert (forall i, (i < blocks_manager.top_block_size (blockman_ bv))%nat ->
            match body i with
            | None =>
                forall j, (j < Z.to_nat set_sub_array_size)%nat ->
                  block_count bv (i * Z.to_nat set_sub_array_size + j) = 0
            | Some p =>
                exists j q,
                  (j < Z.to_nat set_sub_array_size)%nat
                  /\ p = Z.of_nat (i * Z.to_nat set_sub_array_size + j) * bits_in_block + q
                  /\ first_set_in
                       (block_bits (block_at bv (i * Z.to_nat set_sub_array_size + j))) q
                  /\ forall j', (j' < j)%nat ->
                       block_count bv (i * Z.to_nat set_sub_array_size + j') = 0
            end) as Hbody.
  { intros i Hi. unfold body.
    match goal with
    | |- match match _ with SNull => _ | SFull => ?s | SArr _ => _ end with _ => _ end =>
        set (sub := s)
    end.
    assert (match sub with
            | None =>
                forall j, (j < Z.to_nat set_sub_array_size)%nat ->
                  block_count bv (i * Z.to_nat set_sub_array_size + j) = 0
            | Some p =>
                exists j q,
                  (j < Z.to_nat set_sub_array_size)%nat
                  /\ p = Z.of_nat (i * Z.to_nat set_sub_array_size + j) * bits_in_block + q
                  /\ first_set_in
                       (block_bits (block_at bv (i * Z.to_nat set_sub_array_size + j))) q
                  /\ forall j', (j' < j)%nat ->
                       block_count bv (i * Z.to_nat set_sub_array_size + j') = 0
            end) as Hsub.
    { unfold sub.
      match goal with
      | |- match scan_until ?b _ with _ => _ end => set (inner := b)
      end.
      pose proof (scan_until_seq inner sub_size 0) as Hin.
      assert (forall j, (j < Z.to_nat set_sub_array_size)%nat ->
                match inner j with
                | None => block_count bv (i * Z.to_nat set_sub_array_size + j) = 0
                | Some p =>
                    exists q,
                      p = Z.of_nat (i * Z.to_nat set_sub_array_size + j) * bits_in_block + q
                      /\ first_set_in
                           (block_bits
                              (block_at bv (i * Z.to_nat set_sub_array_size + j))) q
                end) as Hinner.
      { intros j Hj. unfold inner. cbv zeta. unfold block_count.
        rewrite block_at_slot by exact Hj.
        pose proof (find_first_in_block_spec
                      (blocks_manager.get_block_ptr (blockman_ bv) i j)
                      (wf_get_block_ptr _ _ _ Hwf)) as Hslot.
        destruct (find_first_in_block
                    (blocks_manager.get_block_ptr (blockman_ bv) i j)) as [q|];
          [|exact Hslot].
        exists q. split; [|exact Hslot]. destruct Hslot as (Hq & _).
        unfold u32, set_sub_array_size, gap_max_bits, bits_in_block,
          set_top_array_size in *.
        rewrite (Z.mod_small (Z.of_nat i * 256 * 65536)) by lia.
        rewrite (Z.mod_small (Z.of_nat i * 256 * 65536 + Z.of_nat j * 65536)) by lia.
        rewrite Z.mod_small by lia. lia. }
      destruct (scan_until inner (seq 0 sub_size)) as [p|].
      - destruct Hin as (j & Hj & Hfound & Hbefore).
        assert (j < Z.to_nat set_sub_array_size)%nat as Hj' by (unfold sub_size in Hj; lia).
        pose proof (Hinner j Hj') as Hij. rewrite Hfound in Hij.
        destruct Hij as (q & Hp & Hfirst). exists j, q.
        split; [exact Hj'|]. split; [exact Hp|]. split; [exact Hfirst|].
        intros j' Hj''. pose proof (Hinner j' ltac:(lia)) as Hij'.
        rewrite (Hbefore j' ltac:(lia)) in Hij'. exact Hij'.
      - intros j Hj. pose proof (Hinner j Hj) as Hij.
        rewrite (Hin j ltac:(unfold sub_size; lia)) in Hij. exact Hij. }
    destruct (blocks_manager.get_topblock (blockman_ bv) i) eqn:Etop;
      [|exact Hsub|exact Hsub].
    intros j Hj. apply block_count_null. rewrite block_at_slot by exact Hj.
    apply get_block_ptr_top_null, Etop. }
  assert (forall m, block_at bv m = block_at bv
                      (m / Z.to_nat set_sub_array_size * Z.to_nat set_sub_array_size
                       + m mod Z.to_nat set_sub_array_size)) as Hsplit.
  { intros m. f_equal. pose proof (Nat.div_mod_eq m (Z.to_nat set_sub_array_size)). lia. }
  assert (forall m, (m mod Z.to_nat set_sub_array_size < Z.to_nat set_sub_array_size)%nat)
    as Hmod by (intros m; apply Nat.mod_upper_bound; lia).
  destruct (scan_until body (seq 0 (blocks_manager.top_block_size (blockman_ bv))))
    as [p|].
  - destruct Hscan as (i & Hi & Hfound & Hbefore).
    pose proof (Hbody i ltac:(lia)) as Hbi. rewrite Hfound in Hbi.
    destruct Hbi as (j & q & Hj & Hp & Hfirst & Hjbefore).
    exists (i * Z.to_nat set_sub_array_size + j)%nat, q.
    split; [unfold set_total_blocks, set_sub_array_size, set_top_array_size in *; lia|].
    split; [exact Hp|]. split; [exact Hfirst|].
    intros m Hm. unfold block_count. rewrite Hsplit.
    pose proof (Nat.div_mod_eq m (Z.to_nat set_sub_array_size)) as Hdm.
    pose proof (Hmod m) as Hr.
    remember (m / Z.to_nat set_sub_array_size)%nat as d eqn:Ed.
    remember (m mod Z.to_nat set_sub_array_size)%nat as r eqn:Er.
    fold (block_count bv (d * Z.to_nat set_sub_array_size + r)).
    destruct (Nat.lt_ge_cases d i) as [Hlt|Hge].
    + pose proof (Hbody d ltac:(lia)) as Hb.
      rewrite (Hbefore d ltac:(lia)) in Hb. apply Hb, Hr.
    + assert (d = i) as -> by nia.
      apply Hjbefore. nia.
  - intros m.
    pose proof (Hmod m) as Hr. unfold block_count. rewrite Hsplit.
    remember (m / Z.to_nat set_sub_array_size)%nat as d eqn:Ed.
    remember (m mod Z.to_nat set_sub_array_size)%nat as r eqn:Er.
    fold (block_count bv (d * Z.to_nat set_sub_array_size + r)).
    destruct (Nat.lt_ge_cases d (blocks_manager.top_block_size (blockman_ bv)))
      as [Hin|Hout].
    + pose proof (Hbody d Hin) as Hb. rewrite (Hscan d ltac:(lia)) in Hb.
      apply Hb, Hr.
    + apply block_count_null. rewrite block_at_slot by exact Hr.
      apply get_block_ptr_top_null, get_topblock_beyond, Hout.
Qed.

End Find.

(** *** [find_reverse]: the position found is the last one of its block *)

Section FindReverseLast.
Import bvector.

Variable bv : t.
Hypothesis Hwf : wf_bv bv = true.

Lemma find_reverse_sub_found (i n : nat) (p : Z) :
  (i < Z.to_nat set_top_array_size)%nat ->
  (n <= Z.to_nat set_sub_array_size)%nat ->
  find_reverse_sub bv i n = Some p ->
  exists j q,
    (j < n)%nat
    /\ p = nblock_of i j * bits_in_block + q
    /\ last_set_in (block_bits (blocks_manager.get_block_ptr (blockman_ bv) i j)) q.
Proof.
  intros Hi. induction n as [|n IH]; intros Hn H; [discriminate|].
  cbn [find_reverse_sub] in H.
  pose proof (find_last_in_block_spec
                (blocks_manager.get_block_ptr (blockman_ bv) i n)
                (wf_get_block_ptr _ _ _ Hwf)) as Hslot.
  destruct (match blocks_manager.get_block_ptr (blockman_ bv) i n with
            | BNull => None
            | BFull => Some (gap_max_bits - 1)
            | BBit w => bit_find_last w
            | BGap g => gap_find_last g
            end) as [q|].
  - injection H as <-. exists n, q. split; [lia|]. split; [|exact Hslot].
    destruct Hslot as (Hq & _).
    unfold nblock_of, u32, set_sub_array_size, gap_max_bits, bits_in_block,
      set_top_array_size in *.
    rewrite (Z.mod_small (Z.of_nat i * 256 * 65536)) by lia.
    rewrite (Z.mod_small (Z.of_nat i * 256 * 65536 + Z.of_nat n * 65536)) by lia.
    rewrite Z.mod_small by lia. lia.
  - destruct (IH ltac:(lia) H) as (j & q & Hj & Hp & Hlast).
    exists j, q. split; [lia|]. split; assumption.
Qed.

Lemma find_reverse_top_found (n : nat) (p : Z) :
  (n <= Z.to_nat set_top_array_size)%nat ->
  find_reverse_top bv n = Some p ->
  exists i j q,
    (i < n)%nat /\ (j < Z.to_nat set_sub_array_size)%nat
    /\ p = nblock_of i j * bits_in_block + q
    /\ last_set_in (block_bits (blocks_manager.get_block_ptr (blockman_ bv) i j)) q.
Proof.
  induction n as [|n IH]; intros Hn H; [discriminate|].
  cbn [find_reverse_top] in H.
  assert (find_reverse_top bv n = Some p ->
          exists i j q,
            (i < S n)%nat /\ (j < Z.to_nat set_sub_array_size)%nat
            /\ p = nblock_of i j * bits_in_block + q
            /\ last_set_in
                 (block_bits (blocks_manager.get_block_ptr (blockman_ bv) i j)) q)
    as Hrec.
  { intros H'. destruct (IH ltac:(lia) H') as (i & j & q & Hi & Hrest).
    exists i, j, q. split; [lia|exact Hrest]. }
  assert (match find_reverse_sub bv n sub_size with
          | Some pos => Some pos
          | None => find_reverse_top bv n
          end = Some p ->
          exists i j q,
            (i < S n)%nat /\ (j < Z.to_nat set_sub_array_size)%nat
            /\ p = nblock_of i j * bits_in_block + q
            /\ last_set_in
                 (block_bits (blocks_manager.get_block_ptr (blockman_ bv) i j)) q)
    as Hsub.
  { destruct (find_reverse_sub bv n sub_size) as [p'|] eqn:E; [|exact Hrec].
    intros H'. injection H' as <-.
    destruct (find_reverse_sub_found n sub_size p' ltac:(lia)
                ltac:(unfold sub_size; lia) E) as (j & q & Hj & Hp & Hlast).
    exists n, j, q. split; [lia|]. split; [exact Hj|]. split; assumption. }
  destruct (blocks_manager.get_topblock (blockman_ bv) n);
    [apply Hrec, H|apply Hsub, H|apply Hsub, H].
Qed.

Lemma find_reverse_last (p : Z) :
  find_reverse bv = Some p ->
  exists nb q,
    (nb < Z.to_nat set_total_blocks)%nat
    /\ p = Z.of_nat nb * bits_in_block + q
    /\ last_set_in (block_bits (block_at bv nb)) q
    /\ forall m, (nb < m)%nat -> block_count bv m = 0.
Proof.
  intros H. pose proof (find_reverse_spec bv Hwf) as Hspec. rewrite H in Hspec.
  destruct Hspec as (nb & q & Hnb & Hq & Hp & _ & Hafter).
  unfold find_reverse in H.
  destruct (find_reverse_top_found _ p (wf_top_block_size bv Hwf) H)
    as (i & j & q' & Hi & Hj & Hp' & Hlast).
  pose proof Hlast as (Hq' & _).
  assert (nb = (i * Z.to_nat set_sub_array_size + j)%nat /\ q = q') as [-> ->].
  { rewrite Hp in Hp'.
    unfold nblock_of, set_sub_array_size, bits_in_block in *. nia. }
  exists (i * Z.to_nat set_sub_array_size + j)%nat, q'.
  split; [exact Hnb|]. split; [exact Hp|]. split; [|exact Hafter].
  rewrite block_at_slot by exact Hj. exact Hlast.
Qed.

End FindReverseLast.

(** *** [check_or_next] *)

Lemma get_bit_clear_block (bv : bvector.t) (nb : nat) (q : Z) :
  wf_bv bv = true -> 0 <= q < bits_in_block -> block_count bv nb = 0 ->
  bvector.get_bit bv (Z.of_nat nb * bits_in_block + q) = false.
Proof.
  intros Hwf Hq Hz. rewrite get_bit_linear by assumption.
  apply count_bits_zero_nth, Hz.
Qed.

Section CheckOrNext.
Import bvector bvector_ops.

Variable bv : t.
Hypothesis Hwf : wf_bv bv = true.

Lemma check_or_next_top_spec (n i j : nat) :
  (i + n <= Z.to_nat set_top_array_size)%nat ->
  (j <= Z.to_nat set_sub_array_size)%nat ->
  match check_or_next_top bv (seq i n) j with
  | None =>
      forall m, (i * Z.to_nat set_sub_array_size + j <= m
                 < (i + n) * Z.to_nat set_sub_array_size)%nat ->
        block_count bv m = 0
  | Some p =>
      exists m q,
        (i * Z.to_nat set_sub_array_size + j <= m
         < (i + n) * Z.to_nat set_sub_array_size)%nat
        /\ p = Z.of_nat m * bits_in_block + q
        /\ first_set_in (block_bits (block_at bv m)) q
        /\ forall m', (i * Z.to_nat set_sub_array_size + j <= m' < m)%nat ->
             block_count bv m' = 0
  end.
Proof.
  assert (0 < Z.to_nat set_sub_array_size)%nat as HS
    by (unfold set_sub_array_size; lia).
  revert i j. induction n as [|n IH]; intros i j Hin Hj0; cbn [seq check_or_next_top].
  - intros m Hm. nia.
  - cbv zeta.
    match goal with
    | |- match match match _ with SNull => _ | SFull => ?s | SArr _ => _ end
               with _ => _ end with _ => _ end => set (sub := s)
    end.
    (* the scan of sub-array [i] from slot [j] *)
    assert (match sub with
            | None =>
                forall j', (j <= j' < Z.to_nat set_sub_array_size)%nat ->
                  block_count bv (i * Z.to_nat set_sub_array_size + j') = 0
            | Some p =>
                exists j' q,
                  (j <= j' < Z.to_nat set_sub_array_size)%nat
                  /\ p = Z.of_nat (i * Z.to_nat set_sub_array_size + j') * bits_in_block + q
                  /\ first_set_in
                       (block_bits (block_at bv (i * Z.to_nat set_sub_array_size + j'))) q
                  /\ forall j'', (j <= j'' < j')%nat ->
                       block_count bv (i * Z.to_nat set_sub_array_size + j'') = 0
            end) as Hsub.
    { unfold sub.
      match goal with
      | |- match scan_until ?b _ with _ => _ end => set (inner := b)
      end.
      pose proof (scan_until_seq inner (sub_size - j) j) as Hscan.
      assert (forall j', (j' < Z.to_nat set_sub_array_size)%nat ->
                match inner j' with
                | None => block_count bv (i * Z.to_nat set_sub_array_size + j') = 0
                | Some p =>
                    exists q,
                      p = Z.of_nat (i * Z.to_nat set_sub_array_size + j')
                          * bits_in_block + q
                      /\ first_set_in
                           (block_bits
                              (block_at bv (i * Z.to_nat set_sub_array_size + j'))) q
                end) as Hinner.
      { intros j' Hj'. unfold inner. cbv zeta. unfold block_count.
        rewrite block_at_slot by exact Hj'.
        pose proof (find_first_in_block_spec
                      (blocks_manager.get_block_ptr (blockman_ bv) i j')
                      (wf_get_block_ptr _ _ _ Hwf)) as Hslot.
        destruct (find_first_in_block
                    (blocks_manager.get_block_ptr (blockman_ bv) i j')) as [q|];
          [|exact Hslot].
        exists q. split; [|exact Hslot]. destruct Hslot as (Hq & _).
        unfold u32, set_sub_array_size, gap_max_bits, bits_in_block, bits_in_array,
          set_top_array_size in *.
        rewrite (Z.mod_small (Z.of_nat i * (65536 * 256))) by lia.
        rewrite (Z.mod_small (Z.of_nat i * (65536 * 256) + Z.of_nat j' * 65536))
          by lia.
        rewrite Z.mod_small by lia. lia. }
      destruct (scan_until inner (seq j (sub_size - j))) as [p|].
      - destruct Hscan as (j' & Hj' & Hfound & Hbefore).
        assert (j <= j' < Z.to_nat set_sub_array_size)%nat as Hj''
          by (unfold sub_size in Hj'; lia).
        pose proof (Hinner j' ltac:(lia)) as Hij. rewrite Hfound in Hij.
        destruct Hij as (q & Hp & Hfirst). exists j', q.
        split; [exact Hj''|]. split; [exact Hp|]. split; [exact Hfirst|].
        intros j'' Hlt. pose proof (Hinner j'' ltac:(lia)) as Hij'.
        rewrite (Hbefore j'' ltac:(lia)) in Hij'. exact Hij'.
      - intros j' Hj'. pose proof (Hinner j' ltac:(lia)) as Hij.
        rewrite (Hscan j' ltac:(unfold sub_size; lia)) in Hij. exact Hij. }
    assert (match match blocks_manager.get_topblock (blockman_ bv) i with
                  | SNull => None
                  | _ => sub
                  end with
            | None =>
                forall j', (j <= j' < Z.to_nat set_sub_array_size)%nat ->
                  block_count bv (i * Z.to_nat set_sub_array_size + j') = 0
            | Some p =>
                exists j' q,
                  (j <= j' < Z.to_nat set_sub_array_size)%nat
                  /\ p = Z.of_nat (i * Z.to_nat set_sub_array_size + j') * bits_in_block + q
                  /\ first_set_in
                       (block_bits (block_at bv (i * Z.to_nat set_sub_array_size + j'))) q
                  /\ forall j'', (j <= j'' < j')%nat ->
                       block_count bv (i * Z.to_nat set_sub_array_size + j'') = 0
            end) as Hhere.
    { destruct (blocks_manager.get_topblock (blockman_ bv) i) eqn:Etop;
        [|exact Hsub|exact Hsub].
      intros j' Hj'. apply block_count_null. rewrite block_at_slot by lia.
      apply get_block_ptr_top_null, Etop. }
    clear Hsub.
    destruct (match blocks_manager.get_topblock (blockman_ bv) i with
              | SNull => None
              | _ => sub
              end) as [p|].
    + destruct Hhere as (j' & q & Hj' & Hp & Hfirst & Hbefore).
      exists (i * Z.to_nat set_sub_array_size + j')%nat, q.
      split; [nia|]. split; [exact Hp|]. split; [exact Hfirst|].
      intros m' Hm'.
      replace m' with (i * Z.to_nat set_sub_array_size
                       + (m' - i * Z.to_nat set_sub_array_size))%nat by lia.
      apply Hbefore. lia.
    + specialize (IH (S i) 0%nat ltac:(lia) ltac:(lia)).
      assert (forall m, (i * Z.to_nat set_sub_array_size + j <= m
                         < S i * Z.to_nat set_sub_array_size + 0)%nat ->
                block_count bv m = 0) as Hrow.
      { intros m Hm.
        replace m with (i * Z.to_nat set_sub_array_size
                        + (m - i * Z.to_nat set_sub_array_size))%nat by lia.
        apply Hhere. nia. }
      destruct (check_or_next_top bv (seq (S i) n) 0) as [p|].
      * destruct IH as (m & q & Hm & Hp & Hfirst & Hbefore).
        exists m, q. split; [nia|]. split; [exact Hp|]. split; [exact Hfirst|].
        intros m' Hm'.
        destruct (Nat.lt_ge_cases m' (S i * Z.to_nat set_sub_array_size + 0))
          as [Hlt|Hge]; [apply Hrow; lia|apply Hbefore; lia].
      * intros m Hm.
        destruct (Nat.lt_ge_cases m (S i * Z.to_nat set_sub_array_size + 0))
          as [Hlt|Hge]; [apply Hrow; lia|apply IH; nia].
Qed.

End CheckOrNext.

Section CheckOrNextBlocks.
Import bvector bvector_ops.

Variable bv : t.
Hypothesis Hwf : wf_bv bv = true.

(** The three ways [check_or_next] ends: nothing at or after [prev], a set
    bit in the block of [prev], the first set bit of a later block. *)
Lemma check_or_next_blocks (nb : nat) (q0 : Z) :
  (nb < Z.to_nat set_total_blocks)%nat -> 0 <= q0 < bits_in_block ->
  (check_or_next bv (Z.of_nat nb * bits_in_block + q0) = 0
   /\ (forall k, (Z.to_nat q0 <= k)%nat -> nth k (block_bits (block_at bv nb)) false = false)
   /\ forall m, (nb < m)%nat -> block_count bv m = 0)
  \/ (exists q,
        check_or_next bv (Z.of_nat nb * bits_in_block + q0)
        = Z.of_nat nb * bits_in_block + q
        /\ q0 <= q < bits_in_block
        /\ nth (Z.to_nat q) (block_bits (block_at bv nb)) false = true
        /\ forall k, (Z.to_nat q0 <= k < Z.to_nat q)%nat ->
             nth k (block_bits (block_at bv nb)) false = false)
  \/ (exists m q,
        (nb < m < Z.to_nat set_total_blocks)%nat
        /\ check_or_next bv (Z.of_nat nb * bits_in_block + q0)
           = Z.of_nat m * bits_in_block + q
        /\ first_set_in (block_bits (block_at bv m)) q
        /\ (forall k, (Z.to_nat q0 <= k)%nat ->
              nth k (block_bits (block_at bv nb)) false = false)
        /\ forall m', (nb < m' < m)%nat -> block_count bv m' = 0).
Proof.
  intros Hnb Hq0.
  assert (0 < Z.to_nat set_sub_array_size)%nat as HS
    by (unfold set_sub_array_size; lia).
  pose proof (wf_top_block_size bv Hwf) as Htop.
  unfold check_or_next. destruct (is_init bv) eqn:Einit; cbn [negb]; cbv iota zeta.
  2: { left. split; [reflexivity|].
       assert (forall m, block_at bv m = BNull) as Hnull.
       { intros m. apply block_at_beyond.
         unfold is_init, blocks_manager.is_init in Einit.
         unfold blocks_manager.top_block_size, blocks_manager.top_blocks_root.
         destruct (blocks_manager.top_blocks_ (blockman_ bv)); [discriminate|].
         cbn. lia. }
       split.
       - intros k Hk. rewrite Hnull. cbn [block_bits].
         apply count_bits_zero_nth, count_bits_replicate.
       - intros m Hm. apply block_count_null, Hnull. }
  destruct (shiftr_block (Z.of_nat nb) q0 ltac:(lia) Hq0) as [-> ->].
  rewrite block_at_coord. fold (block_at bv nb).
  pose proof (block_bits_length _ (wf_block_at bv nb Hwf)) as Hlen.
  (* the search inside the block of [prev] *)
  assert (forall l,
            l = block_bits (block_at bv nb) ->
            match find_first_of (drop (Z.to_nat q0) l) q0 with
            | Some block_pos =>
                exists q,
                  u32 (Z.of_nat nb * gap_max_bits + block_pos)
                  = Z.of_nat nb * bits_in_block + q
                  /\ q0 <= q < bits_in_block
                  /\ nth (Z.to_nat q) (block_bits (block_at bv nb)) false = true
                  /\ forall k, (Z.to_nat q0 <= k < Z.to_nat q)%nat ->
                       nth k (block_bits (block_at bv nb)) false = false
            | None =>
                forall k, (Z.to_nat q0 <= k)%nat ->
                  nth k (block_bits (block_at bv nb)) false = false
            end) as Hin.
  { intros l ->. pose proof (find_first_from (block_bits (block_at bv nb)) q0
                               ltac:(lia)) as H.
    destruct (find_first_of (drop (Z.to_nat q0) (block_bits (block_at bv nb))) q0)
      as [p|]; [|exact H].
    destruct H as (Hp & Hnth & Hbefore). rewrite Hlen in Hp.
    exists p. split; [|split; [lia|split; assumption]].
    unfold u32, gap_max_bits, bits_in_block, set_total_blocks in *.
    apply Z.mod_small. lia. }
  (* the loops over the following blocks *)
  assert ((forall k, (Z.to_nat q0 <= k)%nat ->
             nth k (block_bits (block_at bv nb)) false = false) ->
          let r := match check_or_next_top bv
                           (seq (nb / Z.to_nat set_sub_array_size)
                              (blocks_manager.top_block_size (blockman_ bv)
                               - nb / Z.to_nat set_sub_array_size))
                           (S (nb mod Z.to_nat set_sub_array_size)) with
                   | Some p => p
                   | None => 0
                   end in
          (r = 0 /\ forall m, (nb < m)%nat -> block_count bv m = 0)
          \/ exists m q,
               (nb < m < Z.to_nat set_total_blocks)%nat
               /\ r = Z.of_nat m * bits_in_block + q
               /\ first_set_in (block_bits (block_at bv m)) q
               /\ forall m', (nb < m' < m)%nat -> block_count bv m' = 0) as Hlater.
  { intros _. cbv zeta.
    pose proof (Nat.div_mod_eq nb (Z.to_nat set_sub_array_size)) as Hdm.
    pose proof (Nat.mod_upper_bound nb (Z.to_nat set_sub_array_size) ltac:(lia)) as Hr.
    remember (nb / Z.to_nat set_sub_array_size)%nat as i eqn:Ei.
    remember (nb mod Z.to_nat set_sub_array_size)%nat as j eqn:Ej.
    remember (blocks_manager.top_block_size (blockman_ bv)) as top eqn:Et.
    assert (i < Z.to_nat set_top_array_size)%nat as Hi
      by (unfold set_total_blocks, set_top_array_size, set_sub_array_size in *; nia).
    pose proof (check_or_next_top_spec bv Hwf (top - i) i (S j) ltac:(lia) ltac:(lia))
      as Hspec.
    assert (forall m, ((i + (top - i)) * Z.to_nat set_sub_array_size <= m)%nat ->
              (nb < m)%nat -> block_count bv m = 0) as Hbeyond.
    { intros m Hm Hgt. apply block_count_null, block_at_beyond. rewrite <- Et.
      apply Nat.div_le_lower_bound; [lia|]. nia. }
    destruct (check_or_next_top bv (seq i (top - i)) (S j)) as [p|].
    - right. destruct Hspec as (m & q & Hm & Hp & Hfirst & Hbefore).
      exists m, q. split; [|split; [exact Hp|split; [exact Hfirst|]]].
      + unfold set_total_blocks, set_top_array_size, set_sub_array_size in *. nia.
      + intros m' Hm'. apply Hbefore. lia.
    - left. split; [reflexivity|]. intros m Hm.
      destruct (Nat.lt_ge_cases m ((i + (top - i)) * Z.to_nat set_sub_array_size))
        as [Hlt|Hge]; [apply Hspec; lia|apply Hbeyond; lia]. }
  assert (forall o : option Z,
            match o with
            | Some block_pos =>
                exists q,
                  u32 (Z.of_nat nb * gap_max_bits + block_pos)
                  = Z.of_nat nb * bits_in_block + q
                  /\ q0 <= q < bits_in_block
                  /\ nth (Z.to_nat q) (block_bits (block_at bv nb)) false = true
                  /\ forall k, (Z.to_nat q0 <= k < Z.to_nat q)%nat ->
                       nth k (block_bits (block_at bv nb)) false = false
            | None =>
                forall k, (Z.to_nat q0 <= k)%nat ->
                  nth k (block_bits (block_at bv nb)) false = false
            end ->
            let r := match match o with
                           | Some block_pos =>
                               Some (u32 (Z.of_nat nb * gap_max_bits + block_pos))
                           | None => None
                           end with
                     | Some p => p
                     | None =>
                         match check_or_next_top bv
                                 (seq (nb / Z.to_nat set_sub_array_size)
                                    (blocks_manager.top_block_size (blockman_ bv)
                                     - nb / Z.to_nat set_sub_array_size))
                                 (S (nb mod Z.to_nat set_sub_array_size)) with
                         | Some p => p
                         | None => 0
                         end
                     end in
            (r = 0
             /\ (forall k, (Z.to_nat q0 <= k)%nat ->
                   nth k (block_bits (block_at bv nb)) false = false)
             /\ forall m, (nb < m)%nat -> block_count bv m = 0)
            \/ (exists q,
                  r = Z.of_nat nb * bits_in_block + q
                  /\ q0 <= q < bits_in_block
                  /\ nth (Z.to_nat q) (block_bits (block_at bv nb)) false = true
                  /\ forall k, (Z.to_nat q0 <= k < Z.to_nat q)%nat ->
                       nth k (block_bits (block_at bv nb)) false = false)
            \/ (exists m q,
                  (nb < m < Z.to_nat set_total_blocks)%nat
                  /\ r = Z.of_nat m * bits_in_block + q
                  /\ first_set_in (block_bits (block_at bv m)) q
                  /\ (forall k, (Z.to_nat q0 <= k)%nat ->
                        nth k (block_bits (block_at bv nb)) false = false)
                  /\ forall m', (nb < m' < m)%nat -> block_count bv m' = 0)) as Hcases.
  { intros [block_pos|] Ho; cbv zeta.
    - right. left. exact Ho.
    - destruct (Hlater Ho) as [[Hr Hz]|(m & q & Hm & Hr & Hfirst & Hbefore)].
      + left. split; [exact Hr|]. split; assumption.
      + right. right. exists m, q.
        split; [exact Hm|]. split; [exact Hr|]. split; [exact Hfirst|].
        split; assumption. }
  destruct (block_at bv nb) as [| |w|g] eqn:Hblk; cbn [block_bits] in *.
  - apply (Hcases None). intros k Hk. apply count_bits_zero_nth, count_bits_replicate.
  - right. left. exists q0. split; [reflexivity|]. split; [lia|].
    split; [|intros k Hk; lia]. apply nth_replicate. lia.
  - apply (Hcases (bit_block_find w q0)). apply (Hin (bits_of_words w)). reflexivity.
  - apply (Hcases (gap_block_find g q0)). apply (Hin (bits_of_gap g)). reflexivity.
Qed.

End CheckOrNextBlocks.

(** ** Stores into the block tree *)

Section Store.
Import blocks_manager.

Lemma wf_bm_split (bm : t) :
  wf_bm bm = true
  <-> (top_block_size bm <= Z.to_nat set_top_array_size)%nat
      /\ forall i, wf_sub (get_topblock bm i) = true.
Proof.
  unfold wf_bm. rewrite andb_true_iff, Nat.leb_le. split.
  - intros [Hs Hf]. split; [exact Hs|]. intros i. apply wf_get_topblock.
    unfold wf_bm. rewrite andb_true_iff, Nat.leb_le. split; assumption.
  - intros [Hs Hf]. split; [exact Hs|]. apply forallb_forall. intros s Hin.
    apply list_elem_of_In, list_elem_of_lookup_1 in Hin as [i Hi].
    specialize (Hf i). unfold get_topblock in Hf. rewrite Hi in Hf. exact Hf.
Qed.

Lemma get_topblock_reserve_top_blocks (bm : t) (n i : nat) :
  get_topblock (fst (reserve_top_blocks bm n)) i = get_topblock bm i.
Proof.
  unfold reserve_top_blocks, get_topblock, top_blocks_root, set_root.
  destruct (top_blocks_ bm) as [root|] eqn:E.
  - destruct (n <=? length root)%nat eqn:En; cbn [fst top_blocks_]; rewrite ?E;
      [reflexivity|].
    change (default [] (Some (root ++ replicate (n - length root)%nat SNull)))
      with (root ++ replicate (n - length root)%nat SNull).
    change (default [] (Some root)) with root.
    destruct (Nat.lt_ge_cases i (length root)) as [Hi|Hi].
    + rewrite lookup_app_l by exact Hi. reflexivity.
    + rewrite lookup_app_r by exact Hi. rewrite (lookup_ge_None_2 root i) by exact Hi.
      destruct (replicate (n - length root)%nat SNull !! (i - length root)%nat) eqn:El;
        [|reflexivity].
      apply lookup_replicate in El as [-> _]. reflexivity.
  - destruct (n =? 0)%nat; cbn [fst top_blocks_]; rewrite ?E; [reflexivity|].
    change (default [] (Some (replicate n SNull))) with (replicate n SNull).
    change (default [] None) with (@nil subarray). rewrite lookup_nil.
    destruct (replicate n SNull !! i) eqn:El; [|reflexivity].
    apply lookup_replicate in El as [-> _]. reflexivity.
Qed.

Lemma top_block_size_reserve_top_blocks (bm : t) (n : nat) :
  top_block_size (fst (reserve_top_blocks bm n)) = Nat.max (top_block_size bm) n.
Proof.
  unfold reserve_top_blocks, top_block_size, top_blocks_root, set_root.
  destruct (top_blocks_ bm) as [root|] eqn:E.
  - destruct (Nat.leb_spec n (length root)); cbn [fst top_blocks_]; rewrite ?E.
    + change (default [] (Some root)) with root. lia.
    + change (default [] (Some (root ++ replicate (n - length root)%nat SNull)))
        with (root ++ replicate (n - length root)%nat SNull).
      change (default [] (Some root)) with root.
      rewrite length_app, length_replicate. lia.
  - destruct (Nat.eqb_spec n 0); cbn [fst top_blocks_]; rewrite ?E.
    + subst n. reflexivity.
    + change (default [] (Some (replicate n SNull))) with (replicate n SNull).
      change (default [] None) with (@nil subarray).
      rewrite length_replicate. cbn [length]. lia.
Qed.

Lemma is_init_reserve_top_blocks (bm : t) (n : nat) :
  n <> 0%nat -> is_init (fst (reserve_top_blocks bm n)) = true.
Proof.
  intros Hn. unfold reserve_top_blocks, is_init, set_root.
  destruct (top_blocks_ bm) as [root|] eqn:E.
  - destruct (n <=? length root)%nat; cbn [fst top_blocks_]; rewrite ?E; reflexivity.
  - destruct (Nat.eqb_spec n 0); [contradiction|]. reflexivity.
Qed.

Lemma glen_reserve_top_blocks (bm : t) (n : nat) :
  glen (fst (reserve_top_blocks bm n)) = glen bm.
Proof.
  unfold reserve_top_blocks, glen, set_root.
  destruct (top_blocks_ bm) as [root|].
  - destruct (n <=? length root)%nat; reflexivity.
  - destruct (n =? 0)%nat; reflexivity.
Qed.

Lemma wf_reserve_top_blocks (bm : t) (n : nat) :
  wf_bm bm = true -> (n <= Z.to_nat set_top_array_size)%nat ->
  wf_bm (fst (reserve_top_blocks bm n)) = true.
Proof.
  rewrite !wf_bm_split. intros [Hs Hf] Hn. split.
  - rewrite top_block_size_reserve_top_blocks. lia.
  - intros i. rewrite get_topblock_reserve_top_blocks. apply Hf.
Qed.

Lemma top_block_size_set_topblock' (bm : t) (i : nat) (s : subarray) :
  top_block_size (set_topblock bm i s) = top_block_size bm.
Proof.
  unfold set_topblock, top_block_size, top_blocks_root, set_root.
  destruct (top_blocks_ bm) as [root|] eqn:E; cbn [top_blocks_]; rewrite ?E;
    [|reflexivity].
  change (default [] (Some (<[i:=s]> root))) with (<[i:=s]> root).
  change (default [] (Some root)) with root. apply length_insert.
Qed.

Lemma wf_set_topblock (bm : t) (i : nat) (s : subarray) :
  wf_bm bm = true -> wf_sub s = true -> wf_bm (set_topblock bm i s) = true.
Proof.
  rewrite !wf_bm_split. intros [Hs Hf] Hsub. split.
  - rewrite top_block_size_set_topblock'. exact Hs.
  - intros i'. destruct (Nat.eq_dec i i') as [<-|Hne].
    + destruct (Nat.lt_ge_cases i (top_block_size bm)) as [Hi|Hi].
      * destruct (is_init bm) eqn:Einit.
        -- rewrite get_topblock_set_topblock_eq by assumption. exact Hsub.
        -- unfold set_topblock. unfold is_init in Einit.
           destruct (top_blocks_ bm); [discriminate|]. apply Hf.
      * rewrite get_topblock_beyond; [reflexivity|].
        rewrite top_block_size_set_topblock'. exact Hi.
    + rewrite get_topblock_set_topblock_ne by exact Hne. apply Hf.
Qed.

Lemma wf_sub_full_real : wf_sub (SArr full_sub_block_real) = true.
Proof.
  cbn [wf_sub]. unfold full_sub_block_real. rewrite length_replicate, Nat.eqb_refl.
  apply forallb_forall. intros b Hb. apply list_elem_of_In in Hb.
  apply elem_of_replicate in Hb as [-> _]. reflexivity.
Qed.

Lemma wf_sub_null : wf_sub (SArr null_sub_block) = true.
Proof.
  cbn [wf_sub]. unfold null_sub_block. rewrite length_replicate, Nat.eqb_refl.
  apply forallb_forall. intros b Hb. apply list_elem_of_In in Hb.
  apply elem_of_replicate in Hb as [-> _]. reflexivity.
Qed.

Lemma wf_sub_insert (l : list block) (j : nat) (X : block) :
  wf_sub (SArr l) = true -> wf_block X = true -> wf_sub (SArr (<[j := X]> l)) = true.
Proof.
  cbn [wf_sub]. rewrite !andb_true_iff, length_insert. intros [Hl Hf] HX.
  split; [exact Hl|]. apply forallb_forall. intros b Hb.
  apply list_elem_of_In, list_elem_of_lookup_1 in Hb as [k Hk].
  destruct (Nat.eq_dec j k) as [<-|Hne].
  - destruct (Nat.lt_ge_cases j (length l)) as [Hj|Hj].
    + rewrite list_lookup_insert_eq in Hk by exact Hj. congruence.
    + rewrite list_insert_ge in Hk by exact Hj.
      rewrite forallb_forall in Hf. apply Hf, list_elem_of_In.
      eapply list_elem_of_lookup_2, Hk.
  - rewrite list_lookup_insert_ne in Hk by exact Hne.
    rewrite forallb_forall in Hf. apply Hf, list_elem_of_In.
    eapply list_elem_of_lookup_2, Hk.
Qed.

Lemma sub_block_full_real (j : nat) :
  (j < Z.to_nat set_sub_array_size)%nat -> sub_block (SArr full_sub_block_real) j = BFull.
Proof.
  intros Hj. cbn [sub_block]. unfold full_sub_block_real.
  rewrite lookup_replicate_2 by exact Hj. reflexivity.
Qed.

(** [check_alloc_top_subblock]: the slots read as before, and slot [i] of
    the top array holds a real sub-array. *)
Lemma check_alloc_top_subblock_spec (bm : t) (i : nat) :
  wf_bm bm = true -> is_init bm = true -> (i < top_block_size bm)%nat ->
  wf_bm (check_alloc_top_subblock bm i) = true
  /\ is_init (check_alloc_top_subblock bm i) = true
  /\ top_block_size (check_alloc_top_subblock bm i) = top_block_size bm
  /\ glen (check_alloc_top_subblock bm i) = glen bm
  /\ (exists l, get_topblock (check_alloc_top_subblock bm i) i = SArr l)
  /\ forall i' j', (j' < Z.to_nat set_sub_array_size)%nat ->
       get_block_ptr (check_alloc_top_subblock bm i) i' j' = get_block_ptr bm i' j'.
Proof.
  intros Hwf Hinit Hi. unfold check_alloc_top_subblock.
  assert (forall s, wf_sub s = true ->
            (forall j', (j' < Z.to_nat set_sub_array_size)%nat ->
               sub_block s j' = sub_block (get_topblock bm i) j') ->
            (exists l, s = SArr l) ->
            wf_bm (set_topblock bm i s) = true
            /\ is_init (set_topblock bm i s) = true
            /\ top_block_size (set_topblock bm i s) = top_block_size bm
            /\ glen (set_topblock bm i s) = glen bm
            /\ (exists l, get_topblock (set_topblock bm i s) i = SArr l)
            /\ forall i' j', (j' < Z.to_nat set_sub_array_size)%nat ->
                 get_block_ptr (set_topblock bm i s) i' j' = get_block_ptr bm i' j')
    as Hset.
  { intros s Hs Hsame Harr.
    split; [apply wf_set_topblock; assumption|].
    split; [rewrite is_init_set_topblock; exact Hinit|].
    split; [apply top_block_size_set_topblock'|].
    split; [apply glevel_len_set_topblock|].
    split.
    - rewrite get_topblock_set_topblock_eq by assumption. exact Harr.
    - intros i' j' Hj'. unfold get_block_ptr.
      destruct (Nat.eq_dec i i') as [<-|Hne].
      + rewrite get_topblock_set_topblock_eq by assumption. apply Hsame, Hj'.
      + rewrite get_topblock_set_topblock_ne by exact Hne. reflexivity. }
  destruct (get_topblock bm i) as [| |l] eqn:Etop.
  - apply Hset; [apply wf_sub_null| |eexists; reflexivity].
    intros j' Hj'. apply sub_block_null_sub_block.
  - apply Hset; [apply wf_sub_full_real| |eexists; reflexivity].
    intros j' Hj'. apply sub_block_full_real, Hj'.
  - split; [exact Hwf|]. split; [exact Hinit|]. split; [reflexivity|].
    split; [reflexivity|]. split; [exists l; exact Etop|]. reflexivity.
Qed.

(** The raw store into a real sub-array. *)
Lemma set_block_ptr_spec (bm : t) (i j : nat) (X : block) (l : list block) :
  wf_bm bm = true -> get_topblock bm i = SArr l ->
  (j < Z.to_nat set_sub_array_size)%nat ->
  slot_updated bm (set_block_ptr bm i j X) i j X
  /\ (wf_block X = true -> wf_bm (set_block_ptr bm i j X) = true)
  /\ is_init (set_block_ptr bm i j X) = true
  /\ top_block_size (set_block_ptr bm i j X) = top_block_size bm
  /\ glen (set_block_ptr bm i j X) = glen bm
  /\ exists l', get_topblock (set_block_ptr bm i j X) i = SArr l'.
Proof.
  intros Hwf Htop Hj.
  destruct (get_topblock_SArr_init _ _ _ Htop) as [Hinit Hi].
  pose proof (wf_get_topblock bm i Hwf) as Hsub. rewrite Htop in Hsub.
  pose proof (wf_sub_length l Hsub) as Hlen.
  rewrite (set_block_ptr_unfold bm i j X l Htop).
  split; [|split; [|split; [|split; [|split]]]].
  - intros i' j' Hj'. unfold get_block_ptr.
    destruct (Nat.eqb_spec i' i) as [->|Hne]; cbn [andb].
    + rewrite get_topblock_set_topblock_eq by assumption. rewrite Htop.
      destruct (Nat.eqb_spec j' j) as [->|Hnej].
      * apply sub_block_insert_eq. lia.
      * apply sub_block_insert_ne. congruence.
    + rewrite get_topblock_set_topblock_ne by congruence. reflexivity.
  - intros HX. apply wf_set_topblock; [exact Hwf|]. apply wf_sub_insert; assumption.
  - rewrite is_init_set_topblock. exact Hinit.
  - apply top_block_size_set_topblock'.
  - apply glevel_len_set_topblock.
  - eexists. apply get_topblock_set_topblock_eq; assumption.
Qed.

(** [set_block]: the store that first extends the tree. *)
Lemma set_block_spec (bm : t) (i j : nat) (X : block) :
  wf_bm bm = true ->
  (i < Z.to_nat set_top_array_size)%nat -> (j < Z.to_nat set_sub_array_size)%nat ->
  slot_updated bm (set_block bm i j X) i j X
  /\ (wf_block X = true -> wf_bm (set_block bm i j X) = true)
  /\ is_init (set_block bm i j X) = true
  /\ glen (set_block bm i j X) = glen bm
  /\ exists l', get_topblock (set_block bm i j X) i = SArr l'.
Proof.
  intros Hwf Hi Hj. unfold set_block.
  set (bm1 := fst (reserve_top_blocks bm (i + 1))).
  assert (wf_bm bm1 = true) as Hwf1 by (apply wf_reserve_top_blocks; [exact Hwf|lia]).
  assert (is_init bm1 = true) as Hinit1 by (apply is_init_reserve_top_blocks; lia).
  assert (i < top_block_size bm1)%nat as Hi1
    by (unfold bm1; rewrite top_block_size_reserve_top_blocks; lia).
  destruct (check_alloc_top_subblock_spec bm1 i Hwf1 Hinit1 Hi1)
    as (Hwf2 & Hinit2 & Hsz2 & Hglen2 & [l Htop2] & Hsame2).
  destruct (set_block_ptr_spec (check_alloc_top_subblock bm1 i) i j X l Hwf2 Htop2 Hj)
    as (Hupd & Hwf3 & Hinit3 & Hsz3 & Hglen3 & Htop3).
  split; [|split; [exact Hwf3|split; [exact Hinit3|split; [|exact Htop3]]]].
  - intros i' j' Hj'. rewrite (Hupd i' j' Hj').
    destruct ((i' =? i) && (j' =? j))%nat; [reflexivity|].
    rewrite (Hsame2 i' j' Hj'). unfold get_block_ptr, bm1.
    rewrite get_topblock_reserve_top_blocks. reflexivity.
  - rewrite Hglen3, Hglen2. apply glen_reserve_top_blocks.
Qed.

Lemma valid_slot_topblock (bm : t) (i j : nat) :
  IS_VALID_ADDR (get_block_ptr bm i j) = true ->
  exists l, get_topblock bm i = SArr l.
Proof.
  unfold get_block_ptr. destruct (get_topblock bm i) as [| |l];
    [discriminate|discriminate|]. intros _. exists l. reflexivity.
Qed.

Lemma slot_updated_refl (bm : t) (i j : nat) :
  slot_updated bm bm i j (get_block_ptr bm i j).
Proof.
  intros i' j' Hj'. destruct (Nat.eqb_spec i' i) as [->|]; cbn [andb]; [|reflexivity].
  destruct (Nat.eqb_spec j' j) as [->|]; reflexivity.
Qed.

Lemma slot_updated_trans (bm bm1 bm2 : t) (i j : nat) (X Y : block) :
  slot_updated bm bm1 i j X -> slot_updated bm1 bm2 i j Y ->
  slot_updated bm bm2 i j Y.
Proof.
  intros H1 H2 i' j' Hj'. rewrite (H2 i' j' Hj'), (H1 i' j' Hj').
  destruct ((i' =? i) && (j' =? j))%nat; reflexivity.
Qed.

Lemma slot_updated_here (bm bm' : t) (i j : nat) (X : block) :
  slot_updated bm bm' i j X -> (j < Z.to_nat set_sub_array_size)%nat ->
  get_block_ptr bm' i j = X.
Proof.
  intros H Hj. rewrite (H i j Hj), !Nat.eqb_refl. reflexivity.
Qed.

End Store.

(** ** Writing one bit of a block *)

Lemma nth_insert_list {A : Type} (l : list A) (k q : nat) (x d : A) :
  (q < length l)%nat ->
  nth k (<[q := x]> l) d = if (k =? q)%nat then x else nth k l d.
Proof.
  intros Hq. rewrite !nth_lookup.
  destruct (Nat.eqb_spec k q) as [->|Hne].
  - rewrite list_lookup_insert_eq by exact Hq. reflexivity.
  - rewrite list_lookup_insert_ne by congruence. reflexivity.
Qed.

Lemma testbit_lor_mask (w b i : Z) :
  0 <= b -> 0 <= i ->
  Z.testbit (Z.lor w (Z.shiftl 1 b)) i = if i =? b then true else Z.testbit w i.
Proof.
  intros Hb Hi. rewrite Z.lor_spec, Z.shiftl_spec by exact Hi.
  destruct (Z.eqb_spec i b) as [->|Hne].
  - rewrite Z.sub_diag. change (Z.testbit 1 0) with true. apply orb_true_r.
  - destruct (Z_lt_le_dec i b) as [Hlt|Hge].
    + rewrite (Z.testbit_neg_r 1) by lia. apply orb_false_r.
    + replace (Z.testbit 1 (i - b)) with false; [apply orb_false_r|].
      symmetry. apply (Z.bits_above_log2 1); cbn; lia.
Qed.

Lemma testbit_land_not_mask (w b i : Z) :
  0 <= b -> 0 <= i < 32 ->
  Z.testbit (Z.land w (Z.lxor all_bits_mask (Z.shiftl 1 b))) i
  = if i =? b then false else Z.testbit w i.
Proof.
  intros Hb Hi. rewrite Z.land_spec, Z.lxor_spec.
  assert (Z.testbit all_bits_mask i = true) as ->.
  { unfold all_bits_mask. change (2 ^ 32 - 1) with (Z.ones 32).
    apply Z.ones_spec_low. lia. }
  assert (Z.testbit (Z.shiftl 1 b) i = (i =? b)) as ->.
  { pose proof (testbit_lor_mask 0 b i Hb ltac:(lia)) as H.
    rewrite Z.lor_0_l, Z.testbit_0_l in H. rewrite H.
    destruct (i =? b); reflexivity. }
  destruct (i =? b); cbn [xorb]; [apply andb_false_r|apply andb_true_r].
Qed.

Lemma wf_word_bits_bound (w : Z) :
  0 <= w -> (forall i, 32 <= i -> Z.testbit w i = false) -> wf_word w = true.
Proof.
  intros H0 Hhigh. apply wf_word_range. split; [exact H0|].
  destruct (Z.eq_dec w 0) as [->|Hne]; [lia|].
  apply Z.log2_lt_pow2; [lia|].
  destruct (Z_lt_le_dec (Z.log2 w) 32) as [H|H]; [exact H|].
  specialize (Hhigh (Z.log2 w) H). rewrite (Z.bit_log2 w) in Hhigh by lia.
  discriminate.
Qed.

Lemma wf_word_high (w i : Z) : wf_word w = true -> 32 <= i -> Z.testbit w i = false.
Proof.
  intros Hw Hi. apply wf_word_range in Hw.
  destruct (Z.eq_dec w 0) as [->|Hne]; [apply Z.testbit_0_l|].
  apply Z.bits_above_log2; [lia|].
  assert (Z.log2 w < 32) by (apply Z.log2_lt_pow2; lia). lia.
Qed.

Lemma wf_word_lor_mask (w b : Z) :
  wf_word w = true -> 0 <= b < 32 -> wf_word (Z.lor w (Z.shiftl 1 b)) = true.
Proof.
  intros Hw Hb. pose proof (proj1 (wf_word_range w) Hw) as Hr.
  apply wf_word_bits_bound.
  - apply Z.lor_nonneg. split; [lia|]. apply Z.shiftl_nonneg. lia.
  - intros i Hi. rewrite testbit_lor_mask by lia.
    destruct (Z.eqb_spec i b); [lia|]. apply wf_word_high; assumption.
Qed.

Lemma wf_word_land (w m : Z) : wf_word w = true -> wf_word (Z.land w m) = true.
Proof.
  intros Hw. pose proof (proj1 (wf_word_range w) Hw) as Hr.
  apply wf_word_bits_bound.
  - apply Z.land_nonneg. left. lia.
  - intros i Hi. rewrite Z.land_spec, (wf_word_high w i Hw Hi). reflexivity.
Qed.

Lemma wf_bit_insert (w : list Z) (k : nat) (x : Z) :
  wf_bit w = true -> wf_word x = true -> wf_bit (<[k := x]> w) = true.
Proof.
  unfold wf_bit. rewrite !andb_true_iff, length_insert. intros [Hl Hf] Hx.
  split; [exact Hl|]. apply forallb_forall. intros y Hy.
  apply list_elem_of_In, list_elem_of_lookup_1 in Hy as [m Hm].
  rewrite forallb_forall in Hf.
  destruct (Nat.eq_dec k m) as [<-|Hne].
  - destruct (Nat.lt_ge_cases k (length w)) as [Hk|Hk].
    + rewrite list_lookup_insert_eq in Hm by exact Hk. congruence.
    + rewrite list_insert_ge in Hm by exact Hk.
      apply Hf, list_elem_of_In. eapply list_elem_of_lookup_2, Hm.
  - rewrite list_lookup_insert_ne in Hm by exact Hne.
    apply Hf, list_elem_of_In. eapply list_elem_of_lookup_2, Hm.
Qed.

Lemma wf_word_rd (w : list Z) (k : nat) : wf_bit w = true -> wf_word (rd w k) = true.
Proof.
  intros Hw. apply wf_bit_words in Hw. unfold rd.
  destruct (w !! k) as [x|] eqn:E; [|reflexivity].
  rewrite forallb_forall in Hw. apply Hw, list_elem_of_In.
  eapply list_elem_of_lookup_2, E.
Qed.

(** The word and the mask of a position in a bit-block. *)
Lemma word_of_position (q : Z) :
  0 <= q < bits_in_block ->
  Z.shiftr q set_word_shift = q / 32
  /\ Z.land q set_word_mask = q mod 32
  /\ 0 <= q / 32 < set_block_size /\ 0 <= q mod 32 < 32.
Proof.
  intros Hq. unfold set_word_shift, set_word_mask, set_block_size, bits_in_block in *.
  change 31 with (Z.ones 5). rewrite Z.land_ones, Z.shiftr_div_pow2 by lia.
  change (2 ^ 5) with 32. split; [reflexivity|]. split; [reflexivity|].
  split; [|apply Z.mod_pos_bound; lia].
  split; [apply Z.div_pos; lia|apply Z.div_lt_upper_bound; lia].
Qed.

(** Storing a word with one bit set or cleared. *)
Lemma bit_store_spec (w : list Z) (q : Z) (val : bool) :
  wf_bit w = true -> 0 <= q < bits_in_block ->
  let nword := Z.to_nat (Z.shiftr q set_word_shift) in
  let nbit := Z.land q set_word_mask in
  let word := rd w nword in
  let mask := Z.shiftl 1 nbit in
  let w' := <[nword := if val then Z.lor word mask
                       else Z.land word (Z.lxor all_bits_mask mask)]> w in
  wf_bit w' = true
  /\ forall k, nth k (bits_of_words w') false
               = if (k =? Z.to_nat q)%nat then val else nth k (bits_of_words w) false.
Proof.
  intros Hw Hq. cbv zeta.
  destruct (word_of_position q Hq) as (-> & -> & Hword & Hbit).
  pose proof (wf_bit_length w Hw) as Hlen.
  pose proof (wf_word_rd w (Z.to_nat (q / 32)) Hw) as Hrd.
  split.
  - apply wf_bit_insert; [exact Hw|]. destruct val.
    + apply wf_word_lor_mask; assumption.
    + apply wf_word_land, Hrd.
  - intros k.
    pose proof (Nat.div_mod_eq k 32) as Hk.
    pose proof (Nat.mod_upper_bound k 32 ltac:(lia)) as Hkm.
    rewrite Hk at 1 3. rewrite !nth_bits_of_words by exact Hkm.
    destruct (Nat.eq_dec (k / 32) (Z.to_nat (q / 32))) as [E|E].
    + rewrite E, rd_insert_eq by (unfold set_block_size in *; lia).
      assert ((k =? Z.to_nat q)%nat
              = (Z.of_nat (k mod 32) =? q mod 32)) as ->.
      { pose proof (Z.div_mod q 32 ltac:(lia)).
        assert (Z.of_nat (k / 32) = q / 32) as Ediv by lia.
        assert (Z.of_nat k = 32 * Z.of_nat (k / 32) + Z.of_nat (k mod 32)) as Hk' by lia.
        destruct (Nat.eqb_spec k (Z.to_nat q)) as [Hkq|Hne];
          destruct (Z.eqb_spec (Z.of_nat (k mod 32)) (q mod 32)) as [Hm|Hm];
          try reflexivity; exfalso; lia. }
      destruct val.
      * rewrite testbit_lor_mask by lia.
        destruct (Z.of_nat (k mod 32) =? q mod 32); reflexivity.
      * rewrite testbit_land_not_mask by lia.
        destruct (Z.of_nat (k mod 32) =? q mod 32); reflexivity.
    + rewrite rd_insert_ne by congruence.
      destruct (Nat.eqb_spec k (Z.to_nat q)) as [->|Hne]; [|reflexivity].
      exfalso. apply E. rewrite Z2Nat.inj_div by lia. reflexivity.
Qed.

(** [gap_set_value]: the bit is written, and the result tells whether it
    changed. *)
Lemma gap_set_value_spec (val : bool) (g : list Z) (q : Z) :
  wf_gap g = true -> 0 <= q < gap_max_bits ->
  let '(g', _, is_set) := gap_set_value val g q in
  wf_gap g' = true
  /\ (forall k, nth k (bits_of_gap g') false
                = if (k =? Z.to_nat q)%nat then val else nth k (bits_of_gap g) false)
  /\ is_set = xorb (nth (Z.to_nat q) (bits_of_gap g) false) val.
Proof.
  intros Hg Hq. unfold gap_set_value.
  pose proof (gap_test_nth g q Hg Hq) as Htest.
  pose proof (bits_of_gap_length g Hg) as Hlen.
  destruct (Bool.eqb (gap_test_unr g q) val) eqn:E.
  - apply eqb_prop in E. split; [exact Hg|]. split.
    + intros k. destruct (Nat.eqb_spec k (Z.to_nat q)) as [->|]; [|reflexivity].
      rewrite <- Htest. exact E.
    + rewrite <- Htest, E. destruct val; reflexivity.
  - apply eqb_false_iff in E.
    assert (length (<[Z.to_nat q := val]> (bits_of_gap g)) = Z.to_nat gap_max_bits)
      as Hlen' by (rewrite length_insert; exact Hlen).
    split; [apply gap_block_of_wf, Hlen'|]. split.
    + intros k. rewrite bits_of_gap_block_of.
      * apply nth_insert_list. rewrite Hlen. lia.
      * intros Hnil. rewrite Hnil in Hlen'. cbn in Hlen'. unfold gap_max_bits in *. lia.
    + rewrite <- Htest. destruct (gap_test_unr g q), val; try reflexivity; congruence.
Qed.

(** ** Writing one bit of a vector *)

Lemma bits_of_zero_block :
  bits_of_words (bit_block_set 0) = replicate (Z.to_nat bits_in_block) false.
Proof.
  unfold bit_block_set.
  rewrite (bits_of_words_replicate _ _ false) by reflexivity.
  f_equal.
Qed.

Lemma wf_bit_block_set (v : Z) : wf_word v = true -> wf_bit (bit_block_set v) = true.
Proof.
  intros Hv. unfold wf_bit, bit_block_set. rewrite length_replicate, Nat.eqb_refl.
  apply forallb_forall. intros x Hx. apply list_elem_of_In in Hx.
  apply elem_of_replicate in Hx as [-> _]. exact Hv.
Qed.

Lemma wf_gap_set_all (level : Z) (v : bool) : wf_gap (gap_set_all level v) = true.
Proof. reflexivity. Qed.

Lemma gap_set_all_bits (level : Z) (v : bool) :
  bits_of_gap (gap_set_all level v) = replicate (Z.to_nat gap_max_bits) v.
Proof.
  unfold bits_of_gap, gap_set_all. rewrite gap_first_bit_header.
  cbn [tail gap_expand]. rewrite app_nil_r.
  replace (gap_max_bits - 1 + 1 - 0) with gap_max_bits by lia. reflexivity.
Qed.

Section Written.
Import bvector.

Variable bv : t.
Hypothesis Hwf : wf_bv bv = true.
Hypothesis Hinit : is_init bv = true.
Variable nb : nat.
Hypothesis Hnb : (nb < Z.to_nat set_total_blocks)%nat.

Lemma slot_coord_range :
  (top_index nb < Z.to_nat set_top_array_size)%nat
  /\ (sub_index nb < Z.to_nat set_sub_array_size)%nat.
Proof.
  unfold top_index, sub_index. split.
  - apply Nat.Div0.div_lt_upper_bound.
    unfold set_total_blocks, set_sub_array_size, set_top_array_size in *.
    rewrite <- Z2Nat.inj_mul by lia. lia.
  - apply Nat.mod_upper_bound. unfold set_sub_array_size. lia.
Qed.

Lemma block_at_index :
  block_at bv nb
  = blocks_manager.get_block_ptr (blockman_ bv) (top_index nb) (sub_index nb).
Proof. reflexivity. Qed.

Lemma get_block_coord_index :
  get_block_coord (Z.of_nat nb) = (top_index nb, sub_index nb).
Proof. apply block_at_coord. Qed.

(** A manager that differs from that of [bv] in the slot of block [nb],
    which reads as before but for one position. *)
Lemma slot_written (bm2 : blocks_manager.t) (X : block) (q : Z) (val : bool) :
  0 <= q < bits_in_block ->
  slot_updated (blockman_ bv) bm2 (top_index nb) (sub_index nb) X ->
  wf_bm bm2 = true -> blocks_manager.is_init bm2 = true ->
  blocks_manager.glen bm2 = blocks_manager.glen (blockman_ bv) ->
  wf_block X = true ->
  (forall k, nth k (block_bits X) false
             = if (k =? Z.to_nat q)%nat then val
               else nth k (block_bits (block_at bv nb)) false) ->
  bit_written bv (with_blockman bv bm2) (Z.of_nat nb * bits_in_block + q) val.
Proof.
  intros Hq Hupd Hwf2 Hinit2 Hglen HX Hbits.
  destruct slot_coord_range as [Hi Hj].
  split; [exact Hwf2|]. split; [exact Hinit2|]. split; [reflexivity|].
  split; [reflexivity|]. split; [exact Hglen|].
  intros pos Hpos.
  destruct (position_block pos Hpos) as (nb' & q' & Hnb' & Hq' & ->).
  rewrite get_bit_block_test.
  destruct (shiftr_block (Z.of_nat nb') q' ltac:(lia) Hq') as [-> ->].
  rewrite block_at_coord. cbn [fst snd blockman_ with_blockman].
  assert (Z.to_nat set_sub_array_size <> 0)%nat as HS
    by (unfold set_sub_array_size; lia).
  rewrite (Hupd _ _ (Nat.mod_upper_bound nb' _ HS)).
  fold (block_at bv nb').
  destruct (Nat.eq_dec nb' nb) as [->|Hne].
  - fold (top_index nb) (sub_index nb). rewrite !Nat.eqb_refl. cbn [andb].
    rewrite block_test_nth by assumption. rewrite Hbits.
    rewrite get_bit_linear by assumption.
    destruct (Nat.eqb_spec (Z.to_nat q') (Z.to_nat q)) as [E|E];
      destruct (Z.eqb_spec (Z.of_nat nb * bits_in_block + q')
                  (Z.of_nat nb * bits_in_block + q)) as [E'|E'];
      try reflexivity; exfalso; lia.
  - assert (((nb' / Z.to_nat set_sub_array_size =? top_index nb)
             && (nb' mod Z.to_nat set_sub_array_size =? sub_index nb))%nat = false)
      as ->.
    { apply andb_false_iff.
      destruct (Nat.eqb_spec (nb' / Z.to_nat set_sub_array_size) (top_index nb))
        as [Ei|]; [|left; reflexivity].
      destruct (Nat.eqb_spec (nb' mod Z.to_nat set_sub_array_size) (sub_index nb))
        as [Ej|]; [|right; reflexivity].
      exfalso. apply Hne. unfold top_index, sub_index in *.
      rewrite (Nat.div_mod_eq nb' (Z.to_nat set_sub_array_size)).
      rewrite (Nat.div_mod_eq nb (Z.to_nat set_sub_array_size)).
      rewrite Ei, Ej. reflexivity. }
    rewrite block_test_nth by (apply wf_block_at, Hwf || exact Hq').
    rewrite get_bit_linear by assumption.
    destruct (Z.eqb_spec (Z.of_nat nb' * bits_in_block + q')
                (Z.of_nat nb * bits_in_block + q)) as [E'|E']; [|reflexivity].
    exfalso. apply Hne. unfold bits_in_block in *. nia.
Qed.

(** [check_allocate_block]: NULL for a clear bit in a NULL slot; otherwise
    a heap block in the slot that reads as the slot did. *)
Lemma check_allocate_block_spec (flag : bool) (strat : strategy) (allow : bool) :
  let '(bm1, blk, block_type) :=
    blocks_manager.check_allocate_block (blockman_ bv) (Z.of_nat nb) flag strat allow in
  (blk = BNull /\ bm1 = blockman_ bv /\ block_at bv nb = BNull
   /\ flag = false /\ allow = true)
  \/ (IS_VALID_ADDR blk = true
      /\ wf_bm bm1 = true /\ blocks_manager.is_init bm1 = true
      /\ blocks_manager.glen bm1 = blocks_manager.glen (blockman_ bv)
      /\ slot_updated (blockman_ bv) bm1 (top_index nb) (sub_index nb) blk
      /\ wf_block blk = true
      /\ block_bits blk = block_bits (block_at bv nb)
      /\ block_type = Z.b2z (BM_IS_GAP blk)).
Proof.
  destruct slot_coord_range as [Hi Hj].
  unfold blocks_manager.check_allocate_block. rewrite get_block_coord_index.
  rewrite block_at_index.
  set (i := top_index nb) in *. set (j := sub_index nb) in *.
  pose proof (wf_get_block_ptr (blockman_ bv) i j Hwf) as Hslot.
  destruct (blocks_manager.get_block_ptr (blockman_ bv) i j) as [| |w|g] eqn:Eb.
  - cbn [IS_VALID_ADDR IS_FULL_BLOCK negb andb].
    destruct flag; cbn [negb andb].
    + destruct (set_block_spec (blockman_ bv) i j
                  (match strat with
                   | BM_BIT => BBit (bit_block_set 0)
                   | BM_GAP => BGap (gap_set_all 0 false)
                   end) Hwf Hi Hj) as (Hupd & Hwf1 & Hinit1 & Hglen1 & _).
      right. destruct strat; cbn [IS_VALID_ADDR BM_IS_GAP Z.b2z block_bits] in *.
      * split; [reflexivity|]. split; [apply Hwf1, wf_bit_block_set; reflexivity|].
        split; [exact Hinit1|]. split; [exact Hglen1|]. split; [exact Hupd|].
        split; [apply wf_bit_block_set; reflexivity|].
        split; [apply bits_of_zero_block|reflexivity].
      * split; [reflexivity|]. split; [apply Hwf1; reflexivity|].
        split; [exact Hinit1|]. split; [exact Hglen1|]. split; [exact Hupd|].
        split; [reflexivity|]. split; [apply gap_set_all_bits|reflexivity].
    + destruct allow; cbn [andb].
      * left. repeat split; reflexivity.
      * destruct (set_block_spec (blockman_ bv) i j
                    (match strat with
                     | BM_BIT => BBit (bit_block_set 0)
                     | BM_GAP => BGap (gap_set_all 0 false)
                     end) Hwf Hi Hj) as (Hupd & Hwf1 & Hinit1 & Hglen1 & _).
        right. destruct strat; cbn [IS_VALID_ADDR BM_IS_GAP Z.b2z block_bits] in *.
        -- split; [reflexivity|]. split; [apply Hwf1, wf_bit_block_set; reflexivity|].
           split; [exact Hinit1|]. split; [exact Hglen1|]. split; [exact Hupd|].
           split; [apply wf_bit_block_set; reflexivity|].
           split; [apply bits_of_zero_block|reflexivity].
        -- split; [reflexivity|]. split; [apply Hwf1; reflexivity|].
           split; [exact Hinit1|]. split; [exact Hglen1|]. split; [exact Hupd|].
           split; [reflexivity|]. split; [apply gap_set_all_bits|reflexivity].
  - cbn [IS_VALID_ADDR IS_FULL_BLOCK negb andb].
    destruct (set_block_spec (blockman_ bv) i j
                (match strat with
                 | BM_BIT => BBit (bit_block_set all_bits_mask)
                 | BM_GAP => BGap (gap_set_all 0 true)
                 end) Hwf Hi Hj) as (Hupd & Hwf1 & Hinit1 & Hglen1 & _).
    right. destruct strat; cbn [IS_VALID_ADDR BM_IS_GAP Z.b2z block_bits] in *.
    + split; [reflexivity|]. split; [apply Hwf1, wf_bit_block_set; reflexivity|].
      split; [exact Hinit1|]. split; [exact Hglen1|]. split; [exact Hupd|].
      split; [apply wf_bit_block_set; reflexivity|].
      split; [apply bits_of_full_block_real|reflexivity].
    + split; [reflexivity|]. split; [apply Hwf1; reflexivity|].
      split; [exact Hinit1|]. split; [exact Hglen1|]. split; [exact Hupd|].
      split; [reflexivity|]. split; [apply gap_set_all_bits|reflexivity].
  - cbn [IS_VALID_ADDR BM_IS_GAP Z.b2z]. right.
    split; [reflexivity|]. split; [exact Hwf|]. split; [exact Hinit|].
    split; [reflexivity|]. split; [rewrite <- Eb; apply slot_updated_refl|].
    split; [exact Hslot|]. split; reflexivity.
  - cbn [IS_VALID_ADDR BM_IS_GAP Z.b2z]. right.
    split; [reflexivity|]. split; [exact Hwf|]. split; [exact Hinit|].
    split; [reflexivity|]. split; [rewrite <- Eb; apply slot_updated_refl|].
    split; [exact Hslot|]. split; reflexivity.
Qed.

End Written.

(** ** The single-bit operations *)

Section BitOps.
Import bvector bvector_ops.

Variable bv : t.
Hypothesis Hwf : wf_bv bv = true.
Hypothesis Hinit : is_init bv = true.
Variable nb : nat.
Hypothesis Hnb : (nb < Z.to_nat set_total_blocks)%nat.
Variable q : Z.
Hypothesis Hq : 0 <= q < bits_in_block.

(** A vector whose slot of block [nb] was replaced by a block that reads
    the same. *)
Lemma slot_kept (bm1 : blocks_manager.t) (blk : block) :
  wf_bm bm1 = true -> blocks_manager.is_init bm1 = true ->
  blocks_manager.glen bm1 = blocks_manager.glen (blockman_ bv) ->
  slot_updated (blockman_ bv) bm1 (top_index nb) (sub_index nb) blk ->
  wf_block blk = true ->
  block_bits blk = block_bits (block_at bv nb) ->
  bit_written bv (with_blockman bv bm1) (Z.of_nat nb * bits_in_block + q)
    (get_bit bv (Z.of_nat nb * bits_in_block + q)).
Proof.
  intros Hwf1 Hinit1 Hglen Hupd Hblk Hbits.
  apply (slot_written bv Hwf nb Hnb bm1 blk q); try assumption.
  intros k. rewrite Hbits, get_bit_linear by assumption.
  destruct (Nat.eqb_spec k (Z.to_nat q)) as [->|]; reflexivity.
Qed.

(** The store of a word with the bit set or cleared. *)
Lemma word_stored (bm1 : blocks_manager.t) (w : list Z) (val : bool) :
  wf_bm bm1 = true -> blocks_manager.is_init bm1 = true ->
  blocks_manager.glen bm1 = blocks_manager.glen (blockman_ bv) ->
  slot_updated (blockman_ bv) bm1 (top_index nb) (sub_index nb) (BBit w) ->
  wf_bit w = true ->
  bits_of_words w = block_bits (block_at bv nb) ->
  let nword := Z.to_nat (Z.shiftr q set_word_shift) in
  let nbit := Z.land q set_word_mask in
  let word := rd w nword in
  let mask := Z.shiftl 1 nbit in
  bit_written bv
    (with_blockman bv
       (blocks_manager.set_block_ptr bm1 (top_index nb) (sub_index nb)
          (BBit (<[nword := if val then Z.lor word mask
                            else Z.land word (Z.lxor all_bits_mask mask)]> w))))
    (Z.of_nat nb * bits_in_block + q) val.
Proof.
  intros Hwf1 Hinit1 Hglen Hupd Hw Hbits. cbv zeta.
  destruct (slot_coord_range nb Hnb) as [Hi Hj].
  pose proof (slot_updated_here _ _ _ _ _ Hupd Hj) as Hhere.
  destruct (valid_slot_topblock bm1 (top_index nb) (sub_index nb)) as [l Htop];
    [rewrite Hhere; reflexivity|].
  destruct (bit_store_spec w q val Hw Hq) as [Hw' Hnth]. cbv zeta in Hw', Hnth.
  match goal with
  | |- bit_written _ (with_blockman _ (blocks_manager.set_block_ptr _ _ _ ?X)) _ _ =>
      destruct (set_block_ptr_spec bm1 (top_index nb) (sub_index nb) X l Hwf1 Htop Hj)
        as (Hupd2 & Hwf2 & Hinit2 & _ & Hglen2 & _)
  end.
  eapply (slot_written bv Hwf nb Hnb); try eassumption.
  - eapply slot_updated_trans; eassumption.
  - apply Hwf2. exact Hw'.
  - congruence.
  - exact Hw'.
  - intros k. cbn [block_bits]. rewrite Hnth, Hbits. reflexivity.
Qed.

(** [gap_block_set] *)
Lemma gap_block_set_written (bm1 : blocks_manager.t) (g : list Z) (val : bool) :
  wf_bm bm1 = true -> blocks_manager.is_init bm1 = true ->
  blocks_manager.glen bm1 = blocks_manager.glen (blockman_ bv) ->
  slot_updated (blockman_ bv) bm1 (top_index nb) (sub_index nb) (BGap g) ->
  wf_gap g = true ->
  bits_of_gap g = block_bits (block_at bv nb) ->
  bit_written bv
    (fst (gap_block_set (with_blockman bv bm1) g val (Z.of_nat nb) q))
    (Z.of_nat nb * bits_in_block + q) val
  /\ snd (gap_block_set (with_blockman bv bm1) g val (Z.of_nat nb) q)
     = xorb (get_bit bv (Z.of_nat nb * bits_in_block + q)) val.
Proof.
  intros Hwf1 Hinit1 Hglen Hupd Hg Hbits.
  destruct (slot_coord_range nb Hnb) as [Hi Hj].
  pose proof (slot_updated_here _ _ _ _ _ Hupd Hj) as Hhere.
  destruct (valid_slot_topblock bm1 (top_index nb) (sub_index nb)) as [l Htop];
    [rewrite Hhere; reflexivity|].
  unfold gap_block_set.
  pose proof (gap_set_value_spec val g q Hg ltac:(unfold gap_max_bits, bits_in_block in *; lia))
    as Hset.
  destruct (gap_set_value val g q) as [[new_blk new_len] is_set].
  destruct Hset as (Hnew & Hnth & His).
  rewrite (get_block_coord_index nb). cbn [blockman_ with_blockman].
  destruct (set_block_ptr_spec bm1 (top_index nb) (sub_index nb) (BGap new_blk) l
              Hwf1 Htop Hj) as (Hupd2 & Hwf2 & Hinit2 & _ & Hglen2 & [l2 Htop2]).
  specialize (Hwf2 Hnew).
  set (bm2 := blocks_manager.set_block_ptr bm1 (top_index nb) (sub_index nb)
                (BGap new_blk)) in *.
  assert (bit_written bv (with_blockman bv bm2) (Z.of_nat nb * bits_in_block + q) val)
    as Hplain.
  { eapply (slot_written bv Hwf nb Hnb); try eassumption.
    - eapply slot_updated_trans; eassumption.
    - congruence.
    - exact Hnew.
    - intros k. cbn [block_bits]. rewrite Hnth, Hbits. reflexivity. }
  assert (is_set = xorb (get_bit bv (Z.of_nat nb * bits_in_block + q)) val) as His'.
  { rewrite His, Hbits, get_bit_linear by assumption. reflexivity. }
  destruct is_set; [|split; [exact Hplain|exact His']].
  destruct (new_len >? gap_limit new_blk (blocks_manager.glen bm2));
    [|split; [exact Hplain|exact His']].
  cbn [fst snd]. split; [|exact His'].
  unfold blocks_manager.extend_gap_block. rewrite (get_block_coord_index nb).
  assert (forall X, wf_block X = true ->
            (forall k, nth k (block_bits X) false = nth k (bits_of_gap new_blk) false) ->
            bit_written bv
              (with_blockman bv
                 (blocks_manager.set_block_ptr bm2 (top_index nb) (sub_index nb) X))
              (Z.of_nat nb * bits_in_block + q) val) as Hext.
  { intros X HX HXbits.
    destruct (set_block_ptr_spec bm2 (top_index nb) (sub_index nb) X l2
                Hwf2 Htop2 Hj) as (Hupd3 & Hwf3 & Hinit3 & _ & Hglen3 & _).
    eapply (slot_written bv Hwf nb Hnb); try eassumption.
    - eapply slot_updated_trans; [|exact Hupd3].
      eapply slot_updated_trans; eassumption.
    - apply Hwf3, HX.
    - congruence.
    - intros k. rewrite HXbits, Hnth, Hbits. reflexivity. }
  destruct (gap_level new_blk =? gap_levels - 1).
  - apply Hext; [apply bit_block_of_wf|]. intros k. cbn [block_bits].
    unfold gap_convert_to_bitset. rewrite bits_of_bit_block_of; [reflexivity|].
    apply bits_of_gap_length, Hnew.
  - apply Hext; [apply wf_gap_set_level, Hnew|]. intros k. cbn [block_bits].
    rewrite bits_of_gap_set_level. reflexivity.
Qed.

(** The test of the bit in its word. *)
Lemma word_test (w : list Z) :
  bits_of_words w = block_bits (block_at bv nb) ->
  negb (Z.land (rd w (Z.to_nat (Z.shiftr q set_word_shift)))
               (Z.shiftl 1 (Z.land q set_word_mask)) =? 0)
  = get_bit bv (Z.of_nat nb * bits_in_block + q).
Proof.
  intros Hbits. rewrite get_bit_linear by assumption. rewrite <- Hbits.
  rewrite <- bit_test_nth by lia. reflexivity.
Qed.

Lemma gap_test (g : list Z) :
  wf_gap g = true ->
  bits_of_gap g = block_bits (block_at bv nb) ->
  gap_test_unr g q = get_bit bv (Z.of_nat nb * bits_in_block + q).
Proof.
  intros Hg Hbits. rewrite get_bit_linear by assumption. rewrite <- Hbits.
  apply gap_test_nth; [exact Hg|]. unfold gap_max_bits, bits_in_block in *. lia.
Qed.

(** [set_bit_no_check(n, val)] *)
Lemma set_bit_no_check_written (val : bool) :
  bit_written bv (fst (set_bit_no_check bv (Z.of_nat nb * bits_in_block + q) val))
    (Z.of_nat nb * bits_in_block + q) val
  /\ snd (set_bit_no_check bv (Z.of_nat nb * bits_in_block + q) val)
     = xorb (get_bit bv (Z.of_nat nb * bits_in_block + q)) val.
Proof.
  unfold set_bit_no_check.
  destruct (shiftr_block (Z.of_nat nb) q ltac:(lia) Hq) as [-> ->].
  pose proof (check_allocate_block_spec bv Hwf Hinit nb Hnb val
                (get_new_blocks_strat bv) true) as Halloc.
  destruct (blocks_manager.check_allocate_block (blockman_ bv) (Z.of_nat nb) val
              (get_new_blocks_strat bv) true) as [[bm1 blk] block_type].
  destruct Halloc as [(-> & -> & Hnull & -> & _)
                     |(Hvalid & Hwf1 & Hinit1 & Hglen & Hupd & Hblk & Hbits & ->)].
  - cbn [IS_VALID_ADDR negb fst snd].
    assert (get_bit bv (Z.of_nat nb * bits_in_block + q) = false) as Hold.
    { rewrite get_bit_linear, Hnull by assumption. cbn [block_bits].
      apply nth_replicate. lia. }
    assert (bit_written bv (with_blockman bv (blockman_ bv))
              (Z.of_nat nb * bits_in_block + q)
              (get_bit bv (Z.of_nat nb * bits_in_block + q))) as Hkeep.
    { apply (slot_kept (blockman_ bv) (block_at bv nb)); try assumption;
        try reflexivity.
      - apply slot_updated_refl.
      - apply wf_block_at, Hwf. }
    rewrite Hold in Hkeep |- *. split; [exact Hkeep|reflexivity].
  - rewrite Hvalid. cbn [negb]. cbv iota.
    destruct blk as [| |w|g]; try discriminate;
      cbn [BM_IS_GAP Z.b2z BMGAP_PTR bit_words block_bits wf_block] in *.
    + change (negb (0 =? 0)) with false. cbv iota zeta.
      rewrite (get_block_coord_index nb). cbn [blockman_ with_blockman].
      pose proof (word_test w Hbits) as Htest.
      pose proof (word_stored bm1 w val Hwf1 Hinit1 Hglen Hupd Hblk Hbits) as Hstore.
      cbv zeta in Hstore.
      pose proof (slot_kept bm1 (BBit w) Hwf1 Hinit1 Hglen Hupd Hblk Hbits) as Hkeep.
      destruct (Z.land (rd w (Z.to_nat (Z.shiftr q set_word_shift)))
                  (Z.shiftl 1 (Z.land q set_word_mask)) =? 0);
        cbn [negb] in Htest; rewrite <- Htest in *;
        destruct val; cbn [negb fst snd xorb];
        (split; [assumption|reflexivity]).
    + change (negb (1 =? 0)) with true. cbv iota.
      apply gap_block_set_written; assumption.
Qed.

(** [inc(n)] *)
Lemma inc_written :
  bit_written bv (fst (inc bv (Z.of_nat nb * bits_in_block + q)))
    (Z.of_nat nb * bits_in_block + q)
    (negb (get_bit bv (Z.of_nat nb * bits_in_block + q)))
  /\ snd (inc bv (Z.of_nat nb * bits_in_block + q))
     = get_bit bv (Z.of_nat nb * bits_in_block + q).
Proof.
  unfold inc, blocks_manager.check_allocate_block2.
  destruct (shiftr_block (Z.of_nat nb) q ltac:(lia) Hq) as [-> ->].
  pose proof (check_allocate_block_spec bv Hwf Hinit nb Hnb true
                (get_new_blocks_strat bv) false) as Halloc.
  destruct (blocks_manager.check_allocate_block (blockman_ bv) (Z.of_nat nb) true
              (get_new_blocks_strat bv) false) as [[bm1 blk] block_type].
  destruct Halloc as [(_ & _ & _ & Hflag & _)
                     |(Hvalid & Hwf1 & Hinit1 & Hglen & Hupd & Hblk & Hbits & ->)];
    [discriminate|].
  destruct blk as [| |w|g]; try discriminate;
    cbn [BM_IS_GAP Z.b2z BMGAP_PTR bit_words block_bits wf_block] in *; cbv iota zeta.
  - rewrite (get_block_coord_index nb). cbn [blockman_ with_blockman fst snd].
    pose proof (word_test w Hbits) as Htest. rewrite Htest.
    split; [|reflexivity].
    pose proof (word_stored bm1 w
                  (negb (get_bit bv (Z.of_nat nb * bits_in_block + q)))
                  Hwf1 Hinit1 Hglen Hupd Hblk Hbits) as Hstore.
    cbv zeta in Hstore.
    destruct (get_bit bv (Z.of_nat nb * bits_in_block + q)); exact Hstore.
  - cbn [fst snd]. pose proof (gap_test g Hblk Hbits) as Htest. rewrite Htest.
    split; [|reflexivity].
    apply gap_block_set_written; assumption.
Qed.

(** [set_bit_conditional_impl(n, val, condition)] *)
Lemma set_bit_conditional_impl_written (val condition : bool) :
  let old := get_bit bv (Z.of_nat nb * bits_in_block + q) in
  bit_written bv
    (fst (set_bit_conditional_impl bv (Z.of_nat nb * bits_in_block + q) val condition))
    (Z.of_nat nb * bits_in_block + q)
    (if Bool.eqb old condition then val else old)
  /\ snd (set_bit_conditional_impl bv (Z.of_nat nb * bits_in_block + q) val condition)
     = Bool.eqb old condition && xorb old val.
Proof.
  cbv zeta. unfold set_bit_conditional_impl.
  destruct (shiftr_block (Z.of_nat nb) q ltac:(lia) Hq) as [-> ->].
  pose proof (check_allocate_block_spec bv Hwf Hinit nb Hnb val
                (get_new_blocks_strat bv) true) as Halloc.
  destruct (blocks_manager.check_allocate_block (blockman_ bv) (Z.of_nat nb) val
              (get_new_blocks_strat bv) true) as [[bm1 blk] block_type].
  destruct Halloc as [(-> & -> & Hnull & -> & _)
                     |(Hvalid & Hwf1 & Hinit1 & Hglen & Hupd & Hblk & Hbits & ->)].
  - cbn [IS_VALID_ADDR negb fst snd].
    assert (get_bit bv (Z.of_nat nb * bits_in_block + q) = false) as Hold.
    { rewrite get_bit_linear, Hnull by assumption. cbn [block_bits].
      apply nth_replicate. lia. }
    assert (bit_written bv (with_blockman bv (blockman_ bv))
              (Z.of_nat nb * bits_in_block + q)
              (get_bit bv (Z.of_nat nb * bits_in_block + q))) as Hkeep.
    { apply (slot_kept (blockman_ bv) (block_at bv nb)); try assumption;
        try reflexivity.
      - apply slot_updated_refl.
      - apply wf_block_at, Hwf. }
    rewrite Hold in Hkeep |- *. cbn [xorb]. rewrite andb_false_r.
    split; [|reflexivity].
    replace (if Bool.eqb false condition then false else false) with false
      by (destruct condition; reflexivity).
    exact Hkeep.
  - rewrite Hvalid. cbn [negb]. cbv iota.
    destruct blk as [| |w|g]; try discriminate;
      cbn [BM_IS_GAP Z.b2z BMGAP_PTR bit_words block_bits wf_block] in *.
    + change (0 =? 1) with false. cbv iota zeta.
      rewrite (get_block_coord_index nb). cbn [blockman_ with_blockman].
      pose proof (word_test w Hbits) as Htest. rewrite Htest.
      pose proof (word_stored bm1 w val Hwf1 Hinit1 Hglen Hupd Hblk Hbits) as Hstore.
      cbv zeta in Hstore.
      pose proof (slot_kept bm1 (BBit w) Hwf1 Hinit1 Hglen Hupd Hblk Hbits) as Hkeep.
      destruct (get_bit bv (Z.of_nat nb * bits_in_block + q)), condition, val;
        cbn [Bool.eqb negb fst snd xorb andb];
        (split; [assumption|reflexivity]).
    + change (1 =? 1) with true. cbv iota zeta.
      pose proof (gap_test g Hblk Hbits) as Htest. rewrite Htest.
      pose proof (gap_block_set_written bm1 g val Hwf1 Hinit1 Hglen Hupd Hblk Hbits)
        as [Hset Hres].
      pose proof (slot_kept bm1 (BGap g) Hwf1 Hinit1 Hglen Hupd Hblk Hbits) as Hkeep.
      destruct (get_bit bv (Z.of_nat nb * bits_in_block + q)), condition, val;
        cbn [Bool.eqb negb fst snd xorb andb] in *;
        (split; [assumption|assumption || reflexivity]).
Qed.

(** The kind of the block that [check_allocate_block] hands out. *)
Lemma check_allocate_block_kind (flag allow : bool) :
  let '(_, blk, _) :=
    blocks_manager.check_allocate_block (blockman_ bv) (Z.of_nat nb) flag
      (get_new_blocks_strat bv) allow in
  IS_VALID_ADDR blk = true -> BM_IS_GAP blk = gap_coded bv nb.
Proof.
  unfold blocks_manager.check_allocate_block, gap_coded.
  rewrite (get_block_coord_index nb), (block_at_index bv nb).
  destruct (blocks_manager.get_block_ptr (blockman_ bv) (top_index nb) (sub_index nb));
    cbn [IS_VALID_ADDR IS_FULL_BLOCK negb andb BM_IS_GAP];
    try (intros _; reflexivity);
    destruct flag, allow, (get_new_blocks_strat bv);
    cbn [IS_VALID_ADDR negb andb BM_IS_GAP]; intros H;
    reflexivity || discriminate H.
Qed.

(** [and_bit_no_check(n, val)] *)
Lemma and_bit_no_check_written (val : bool) :
  let old := get_bit bv (Z.of_nat nb * bits_in_block + q) in
  bit_written bv
    (fst (and_bit_no_check bv (Z.of_nat nb * bits_in_block + q) val))
    (Z.of_nat nb * bits_in_block + q)
    (if gap_coded bv nb then val && old else old)
  /\ snd (and_bit_no_check bv (Z.of_nat nb * bits_in_block + q) val)
     = if gap_coded bv nb then old && negb val else val && negb old.
Proof.
  cbv zeta. unfold and_bit_no_check.
  destruct (shiftr_block (Z.of_nat nb) q ltac:(lia) Hq) as [-> ->].
  pose proof (check_allocate_block_spec bv Hwf Hinit nb Hnb val
                (get_new_blocks_strat bv) true) as Halloc.
  pose proof (check_allocate_block_kind val true) as Hkind.
  destruct (blocks_manager.check_allocate_block (blockman_ bv) (Z.of_nat nb) val
              (get_new_blocks_strat bv) true) as [[bm1 blk] block_type].
  destruct Halloc as [(-> & -> & Hnull & -> & _)
                     |(Hvalid & Hwf1 & Hinit1 & Hglen & Hupd & Hblk & Hbits & ->)].
  - cbn [IS_VALID_ADDR negb fst snd].
    assert (get_bit bv (Z.of_nat nb * bits_in_block + q) = false) as Hold.
    { rewrite get_bit_linear, Hnull by assumption. cbn [block_bits].
      apply nth_replicate. lia. }
    assert (bit_written bv (with_blockman bv (blockman_ bv))
              (Z.of_nat nb * bits_in_block + q)
              (get_bit bv (Z.of_nat nb * bits_in_block + q))) as Hkeep.
    { apply (slot_kept (blockman_ bv) (block_at bv nb)); try assumption;
        try reflexivity.
      - apply slot_updated_refl.
      - apply wf_block_at, Hwf. }
    rewrite Hold in Hkeep |- *. cbn [andb negb].
    destruct (gap_coded bv nb); (split; [exact Hkeep|reflexivity]).
  - rewrite Hvalid. cbn [negb]. cbv iota. rewrite <- (Hkind Hvalid).
    destruct blk as [| |w|g]; try discriminate;
      cbn [BM_IS_GAP Z.b2z BMGAP_PTR bit_words block_bits wf_block] in *.
    + change (0 =? 1) with false. cbv iota zeta.
      rewrite (get_block_coord_index nb). cbn [blockman_ with_blockman].
      pose proof (word_test w Hbits) as Htest. rewrite Htest.
      pose proof (word_stored bm1 w false Hwf1 Hinit1 Hglen Hupd Hblk Hbits) as Hstore.
      cbv zeta in Hstore.
      pose proof (slot_kept bm1 (BBit w) Hwf1 Hinit1 Hglen Hupd Hblk Hbits) as Hkeep.
      destruct (get_bit bv (Z.of_nat nb * bits_in_block + q)), val;
        cbn [Bool.eqb negb fst snd xorb andb];
        (split; [assumption|reflexivity]).
    + change (1 =? 1) with true. cbv iota zeta.
      pose proof (gap_test g Hblk Hbits) as Htest. rewrite Htest.
      pose proof (gap_block_set_written bm1 g val Hwf1 Hinit1 Hglen Hupd Hblk Hbits)
        as [Hset Hres].
      pose proof (slot_kept bm1 (BGap g) Hwf1 Hinit1 Hglen Hupd Hblk Hbits) as Hkeep.
      destruct (get_bit bv (Z.of_nat nb * bits_in_block + q)), val;
        cbn [Bool.eqb negb fst snd xorb andb] in *;
        (split; [assumption|assumption || reflexivity]).
Qed.

End BitOps.

(** ** Growing the tree: [init], [reserve], [resize] *)

Lemma get_bit_same_tree (bv bv' : bvector.t) :
  (forall i, blocks_manager.get_topblock (bvector.blockman_ bv') i
             = blocks_manager.get_topblock (bvector.blockman_ bv) i) ->
  forall n, bvector.get_bit bv' n = bvector.get_bit bv n.
Proof.
  intros H n. rewrite !get_bit_block_test. unfold blocks_manager.get_block_ptr.
  rewrite H. reflexivity.
Qed.

Lemma get_topblock_init_tree (bm : blocks_manager.t) (i : nat) :
  blocks_manager.get_topblock (blocks_manager.init_tree bm) i
  = blocks_manager.get_topblock bm i.
Proof.
  unfold blocks_manager.init_tree, blocks_manager.get_topblock,
    blocks_manager.top_blocks_root, blocks_manager.set_root.
  destruct (blocks_manager.top_blocks_ bm) as [root|] eqn:E;
    [rewrite E; reflexivity|].
  cbn [blocks_manager.top_blocks_].
  change (default [] (Some [SNull])) with [SNull].
  change (default [] None) with (@nil subarray).
  destruct i as [|i]; reflexivity.
Qed.

Lemma wf_init_tree (bm : blocks_manager.t) :
  wf_bm bm = true -> wf_bm (blocks_manager.init_tree bm) = true.
Proof.
  intros H. unfold blocks_manager.init_tree.
  destruct (blocks_manager.top_blocks_ bm); [exact H|]. reflexivity.
Qed.

Lemma is_init_init_tree (bm : blocks_manager.t) :
  blocks_manager.is_init (blocks_manager.init_tree bm) = true.
Proof.
  unfold blocks_manager.init_tree, blocks_manager.is_init.
  destruct (blocks_manager.top_blocks_ bm) eqn:E; [rewrite E|]; reflexivity.
Qed.

Lemma glen_init_tree (bm : blocks_manager.t) :
  blocks_manager.glen (blocks_manager.init_tree bm) = blocks_manager.glen bm.
Proof.
  unfold blocks_manager.init_tree. destruct (blocks_manager.top_blocks_ bm); reflexivity.
Qed.

(** A vector with the same content and settings, ready for a write. *)
Lemma init_kept (bv : bvector.t) :
  wf_bv bv = true ->
  wf_bv (bvector.init bv) = true
  /\ bvector.is_init (bvector.init bv) = true
  /\ bvector.size_ (bvector.init bv) = bvector.size_ bv
  /\ bvector.new_blocks_strat_ (bvector.init bv) = bvector.new_blocks_strat_ bv
  /\ blocks_manager.glen (bvector.blockman_ (bvector.init bv))
     = blocks_manager.glen (bvector.blockman_ bv)
  /\ forall i, blocks_manager.get_topblock (bvector.blockman_ (bvector.init bv)) i
               = blocks_manager.get_topblock (bvector.blockman_ bv) i.
Proof.
  intros Hwf. unfold bvector.init.
  destruct (bvector.is_init bv) eqn:E; cbn [negb].
  - repeat split; assumption || reflexivity.
  - unfold wf_bv, bvector.is_init. cbn [bvector.blockman_ bvector.with_blockman
      bvector.size_ bvector.new_blocks_strat_].
    split; [apply wf_init_tree, Hwf|]. split; [apply is_init_init_tree|].
    split; [reflexivity|]. split; [reflexivity|]. split; [apply glen_init_tree|].
    apply get_topblock_init_tree.
Qed.

Lemma compute_top_block_size_le (bits : Z) :
  0 <= bits <= id_max ->
  (blocks_manager.compute_top_block_size bits <= Z.to_nat set_top_array_size)%nat.
Proof.
  intros Hb. unfold blocks_manager.compute_top_block_size.
  destruct (bits =? id_max); [lia|]. cbv zeta.
  assert (0 <= bits / bits_in_array < set_sub_array_size) as Hq.
  { unfold id_max, bits_in_array, bits_in_block, set_sub_array_size in *.
    split; [apply Z.div_pos; lia|apply Z.div_lt_upper_bound; lia]. }
  destruct (Z.ltb_spec (bits / bits_in_array) set_sub_array_size);
    unfold set_sub_array_size, set_top_array_size in *; lia.
Qed.

Lemma reserve_kept (bm : blocks_manager.t) (bits : Z) :
  wf_bm bm = true -> blocks_manager.is_init bm = true -> 0 <= bits <= id_max ->
  wf_bm (blocks_manager.reserve bm bits) = true
  /\ blocks_manager.is_init (blocks_manager.reserve bm bits) = true
  /\ blocks_manager.glen (blocks_manager.reserve bm bits) = blocks_manager.glen bm
  /\ forall i, blocks_manager.get_topblock (blocks_manager.reserve bm bits) i
               = blocks_manager.get_topblock bm i.
Proof.
  intros Hwf Hinit Hb. unfold blocks_manager.reserve.
  destruct (bits =? 0); [repeat split; assumption || reflexivity|].
  split; [apply wf_reserve_top_blocks; [exact Hwf|apply compute_top_block_size_le, Hb]|].
  split; [apply reserve_top_blocks_init, Hinit|].
  split; [apply glen_reserve_top_blocks|].
  intros i. apply get_topblock_reserve_top_blocks.
Qed.

(** [resize] to a larger size. *)
Lemma resize_grow (assert_throw : bool) (bv : bvector.t) (new_size : Z) :
  wf_bv bv = true -> bvector.size_ bv < new_size -> 0 <= new_size <= id_max ->
  exists bv',
    bvector.resize assert_throw bv new_size = Done bv'
    /\ wf_bv bv' = true /\ bvector.is_init bv' = true
    /\ bvector.size_ bv' = new_size
    /\ bvector.new_blocks_strat_ bv' = bvector.new_blocks_strat_ bv
    /\ blocks_manager.glen (bvector.blockman_ bv')
       = blocks_manager.glen (bvector.blockman_ bv)
    /\ forall i, blocks_manager.get_topblock (bvector.blockman_ bv') i
                 = blocks_manager.get_topblock (bvector.blockman_ bv) i.
Proof.
  intros Hwf Hlt Hb. unfold bvector.resize, bvector.call_depth.
  cbn [bvector.resize_rec].
  destruct (Z.eqb_spec (bvector.size_ bv) new_size) as [|_]; [lia|].
  destruct (Z.ltb_spec (bvector.size_ bv) new_size) as [_|]; [|lia].
  destruct (init_kept bv Hwf) as (Hwf1 & Hinit1 & Hsz1 & Hst1 & Hgl1 & Htb1).
  destruct (reserve_kept (bvector.blockman_ (bvector.init bv)) new_size Hwf1 Hinit1 Hb)
    as (Hwf2 & Hinit2 & Hgl2 & Htb2).
  eexists. split; [reflexivity|].
  unfold wf_bv, bvector.is_init.
  cbn [bvector.blockman_ bvector.with_blockman bvector.with_size bvector.size_
       bvector.new_blocks_strat_].
  split; [exact Hwf2|]. split; [exact Hinit2|]. split; [reflexivity|].
  split; [exact Hst1|]. split; [congruence|].
  intros i. rewrite Htb2. apply Htb1.
Qed.

(** *** One position by block number and offset *)

Lemma bit_written_same_tree (bv0 bv bv' : bvector.t) (n : Z) (v : bool) :
  (forall i, blocks_manager.get_topblock (bvector.blockman_ bv) i
             = blocks_manager.get_topblock (bvector.blockman_ bv0) i) ->
  bit_written bv bv' n v ->
  forall pos, 0 <= pos < 2 ^ 32 ->
    bvector.get_bit bv' pos = if pos =? n then v else bvector.get_bit bv0 pos.
Proof.
  intros Hsame (_ & _ & _ & _ & _ & Hbits) pos Hpos.
  rewrite (Hbits pos Hpos), (get_bit_same_tree bv0 bv Hsame). reflexivity.
Qed.

(** One write changes the population by the difference of the values. *)
Lemma set_bits_from_written (bv bv' : bvector.t) (n : Z) (v : bool)
    (s : Z) (len : nat) :
  0 <= s -> s + Z.of_nat len <= 2 ^ 32 ->
  (forall pos, 0 <= pos < 2 ^ 32 ->
     bvector.get_bit bv' pos = if pos =? n then v else bvector.get_bit bv pos) ->
  set_bits_from bv' s len
  = set_bits_from bv s len
    + (if (s <=? n) && (n <? s + Z.of_nat len)
       then Z.b2z v - Z.b2z (bvector.get_bit bv n) else 0).
Proof.
  intros Hs Hlen Hbits. revert s Hs Hlen.
  induction len as [|len IH]; intros s Hs Hlen.
  - cbn [set_bits_from]. destruct (Z.leb_spec s n), (Z.ltb_spec n (s + Z.of_nat 0));
      cbn [andb]; lia.
  - cbn [set_bits_from]. rewrite (IH (s + 1)) by lia.
    rewrite (Hbits s) by lia.
    destruct (Z.eqb_spec s n) as [->|Hne].
    + destruct (Z.leb_spec n n); [|lia].
      destruct (Z.ltb_spec n (n + Z.of_nat (S len))); [|lia].
      destruct (Z.leb_spec (n + 1) n); [lia|]. cbn [andb]. lia.
    + destruct (Z.leb_spec s n), (Z.leb_spec (s + 1) n),
        (Z.ltb_spec n (s + Z.of_nat (S len))),
        (Z.ltb_spec n (s + 1 + Z.of_nat len)); cbn [andb]; lia.
Qed.

(** *** The checked write *)

Section SetBit.
Import bvector bvector_ops.

Lemma set_bit_done
    (assert_throw : bool) (bv : t) (n : Z) (val : bool) :
  wf_bv bv = true -> 0 <= n < id_max ->
  exists bv',
    set_bit assert_throw bv n val = Done (bv', xorb (get_bit bv n) val)
    /\ wf_bv bv' = true
    /\ size_ bv' = Z.max (size_ bv) (n + 1)
    /\ forall pos, 0 <= pos < 2 ^ 32 ->
         get_bit bv' pos = if pos =? n then val else get_bit bv pos.
Proof.
  intros Hwf Hn. unfold set_bit, BM_ASSERT_THROW.
  destruct (Z.ltb_spec n id_max) as [_|]; [|lia]. cbn [negb]. rewrite andb_false_r.
  cbv zeta.
  destruct (init_kept bv Hwf) as (Hwf1 & Hinit1 & Hsz1 & Hst1 & Hgl1 & Htb1).
  assert (exists bv2,
            (if n >=? size_ (init bv)
             then resize assert_throw (init bv) (if n =? id_max then id_max else n + 1)
             else Done (init bv)) = Done bv2
            /\ wf_bv bv2 = true /\ is_init bv2 = true
            /\ size_ bv2 = Z.max (size_ bv) (n + 1)
            /\ forall i, blocks_manager.get_topblock (blockman_ bv2) i
                         = blocks_manager.get_topblock (blockman_ bv) i)
    as (bv2 & -> & Hwf2 & Hinit2 & Hsz2 & Htb2).
  { destruct (Z.geb_spec n (size_ (init bv))) as [Hge|Hlt].
    - destruct (Z.eqb_spec n id_max) as [|_]; [lia|].
      destruct (resize_grow assert_throw (init bv) (n + 1) Hwf1 ltac:(lia) ltac:(lia))
        as (bv2 & Hres & Hwf2 & Hinit2 & Hsz2 & _ & _ & Htb2).
      exists bv2. split; [exact Hres|]. split; [exact Hwf2|]. split; [exact Hinit2|].
      split; [lia|]. intros i. rewrite Htb2. apply Htb1.
    - exists (init bv). split; [reflexivity|]. split; [exact Hwf1|].
      split; [exact Hinit1|]. split; [lia|]. exact Htb1. }
  cbn [obind].
  assert (0 <= n < 2 ^ 32) as Hn' by (unfold id_max in Hn; lia).
  destruct (position_block n Hn') as (nb & q & Hnb & Hq & ->).
  destruct (set_bit_no_check_written bv2 Hwf2 Hinit2 nb Hnb q Hq val)
    as [Hw Hchg].
  rewrite (get_bit_same_tree bv bv2 Htb2) in Hchg.
  destruct (set_bit_no_check bv2 (Z.of_nat nb * bits_in_block + q) val)
    as [bv' changed]. cbn [fst snd] in *. subst changed.
  exists bv'. split; [reflexivity|].
  split; [apply Hw|]. split; [destruct Hw as (_ & _ & -> & _); exact Hsz2|].
  apply (bit_written_same_tree bv bv2 bv' _ val Htb2 Hw).
Qed.

End SetBit.

(** ** The last set bit of a vector *)

Lemma find_reverse_bits (bv : bvector.t) :
  wf_bv bv = true ->
  match bvector.find_reverse bv with
  | None => forall i, 0 <= i < 2 ^ 32 -> bvector.get_bit bv i = false
  | Some p =>
      0 <= p < 2 ^ 32 /\ bvector.get_bit bv p = true
      /\ forall i, p < i < 2 ^ 32 -> bvector.get_bit bv i = false
  end.
Proof.
  intros Hwf. pose proof (find_reverse_spec bv Hwf) as H.
  destruct (bvector.find_reverse bv) as [p|] eqn:E.
  - clear H.
    destruct (find_reverse_last bv Hwf p E)
      as (nb & q & Hnb & -> & (Hq & Hnth & Hlast) & Hafter).
    split; [unfold bits_in_block, set_total_blocks in *; lia|]. split.
    + rewrite get_bit_linear by assumption. exact Hnth.
    + intros i Hi.
      destruct (position_block i ltac:(unfold bits_in_block in *; lia))
        as (nb' & q' & Hnb' & Hq' & ->).
      destruct (Nat.lt_trichotomy nb' nb) as [Hlt|[->|Hgt]].
      * exfalso. unfold bits_in_block in *. nia.
      * rewrite get_bit_linear by assumption. apply Hlast. lia.
      * apply get_bit_clear_block; [exact Hwf|exact Hq'|apply Hafter, Hgt].
  - intros i Hi. destruct (position_block i Hi) as (nb & q & Hnb & Hq & ->).
    apply get_bit_clear_block; [exact Hwf|exact Hq|apply H].
Qed.

(** ** The bits that the searches return *)

Section SearchBits.
Import bvector bvector_ops.

Lemma find_bits (bv : t) :
  wf_bv bv = true ->
  match find bv with
  | None => forall i, 0 <= i < 2 ^ 32 -> get_bit bv i = false
  | Some p =>
      0 <= p < 2 ^ 32 /\ get_bit bv p = true
      /\ forall i, 0 <= i < p -> get_bit bv i = false
  end.
Proof.
  intros Hwf. pose proof (find_first_spec bv Hwf) as H.
  destruct (find bv) as [p|].
  - destruct H as (nb & q & Hnb & -> & (Hq & Hnth & Hfirst) & Hbefore).
    split; [unfold bits_in_block, set_total_blocks in *; lia|]. split.
    + rewrite get_bit_linear by assumption. exact Hnth.
    + intros i Hi.
      destruct (position_block i ltac:(unfold bits_in_block, set_total_blocks in *; lia))
        as (nb' & q' & Hnb' & Hq' & ->).
      destruct (Nat.lt_trichotomy nb' nb) as [Hlt|[->|Hgt]].
      * apply get_bit_clear_block; [exact Hwf|exact Hq'|apply Hbefore, Hlt].
      * rewrite get_bit_linear by assumption. apply Hfirst. lia.
      * exfalso. unfold bits_in_block in *. nia.
  - intros i Hi. destruct (position_block i Hi) as (nb & q & Hnb & Hq & ->).
    apply get_bit_clear_block; [exact Hwf|exact Hq|apply H].
Qed.

Lemma check_or_next_bits (bv : t) (prev : Z) :
  wf_bv bv = true -> 0 <= prev < 2 ^ 32 ->
  (check_or_next bv prev = 0
   /\ forall i, prev <= i < 2 ^ 32 -> get_bit bv i = false)
  \/ (prev <= check_or_next bv prev < 2 ^ 32
      /\ get_bit bv (check_or_next bv prev) = true
      /\ forall i, prev <= i < check_or_next bv prev -> get_bit bv i = false).
Proof.
  intros Hwf Hprev.
  destruct (position_block prev Hprev) as (nb & q0 & Hnb & Hq0 & ->).
  destruct (check_or_next_blocks bv Hwf nb q0 Hnb Hq0)
    as [(Hr & Hrest & Hafter)
       |[(q & Hr & Hq & Hnth & Hbetween)
        |(m & q & Hm & Hr & (Hq & Hnth & Hfirst) & Hrest & Hbetween)]];
    rewrite Hr.
  - left. split; [reflexivity|]. intros i Hi.
    destruct (position_block i ltac:(lia)) as (nb' & q' & Hnb' & Hq' & ->).
    destruct (Nat.lt_trichotomy nb' nb) as [Hlt|[->|Hgt]].
    + exfalso. unfold bits_in_block in *. nia.
    + rewrite get_bit_linear by assumption. apply Hrest. lia.
    + apply get_bit_clear_block; [exact Hwf|exact Hq'|apply Hafter, Hgt].
  - right. split; [unfold bits_in_block, set_total_blocks in *; lia|]. split.
    + rewrite get_bit_linear by (assumption || lia). exact Hnth.
    + intros i Hi.
      destruct (position_block i ltac:(unfold bits_in_block, set_total_blocks in *; lia))
        as (nb' & q' & Hnb' & Hq' & ->).
      assert (nb' = nb) as -> by (unfold bits_in_block in *; nia).
      rewrite get_bit_linear by assumption. apply Hbetween. lia.
  - right. split; [unfold bits_in_block, set_total_blocks in *; nia|]. split.
    + rewrite get_bit_linear by assumption. exact Hnth.
    + intros i Hi.
      destruct (position_block i ltac:(unfold bits_in_block, set_total_blocks in *; nia))
        as (nb' & q' & Hnb' & Hq' & ->).
      destruct (Nat.lt_trichotomy nb' nb) as [Hlt|[->|Hgt]].
      * exfalso. unfold bits_in_block in *. nia.
      * rewrite get_bit_linear by assumption. apply Hrest. lia.
      * destruct (Nat.lt_trichotomy nb' m) as [Hlt'|[->|Hgt']].
        -- apply get_bit_clear_block; [exact Hwf|exact Hq'|apply Hbetween; lia].
        -- rewrite get_bit_linear by assumption. apply Hfirst. lia.
        -- exfalso. unfold bits_in_block in *. nia.
Qed.

End SearchBits.

(** ** The rank of a position *)

Section RankBits.
Import bvector bvector_ops.

Lemma count_to_set_bits (bv : t) (i : Z) :
  wf_bv bv = true -> 0 <= i < id_max ->
  count_to bv i (build_rs_index bv) = set_bits_from bv 0 (S (Z.to_nat i)).
Proof.
  intros Hwf Hi. rewrite (count_to_bits_upto bv Hwf i Hi).
  apply bits_upto_set_bits; [exact Hwf|]. unfold id_max in Hi. lia.
Qed.

End RankBits.

(** ** The partial XOR product of two blocks *)

Lemma for_range_fill (f : nat -> Z) (off m : nat) (t : list Z) :
  length (for_range m (fun t k => <[(off + k)%nat := f (off + k)%nat]> t) t)
  = length t
  /\ forall n, (n < length t)%nat ->
       rd (for_range m (fun t k => <[(off + k)%nat := f (off + k)%nat]> t) t) n
       = if ((off <=? n) && (n <? off + m))%nat then f n else rd t n.
Proof.
  apply (for_range_ind
           (fun k s => length s = length t
                       /\ forall n, (n < length t)%nat ->
                            rd s n = if ((off <=? n) && (n <? off + k))%nat
                                     then f n else rd t n)).
  - split; [reflexivity|]. intros n Hn.
    destruct (Nat.leb_spec off n), (Nat.ltb_spec n (off + 0)); cbn [andb];
      reflexivity || lia.
  - intros k s Hk [Hlen Hrd]. split; [rewrite length_insert; exact Hlen|].
    intros n Hn. destruct (Nat.eq_dec (off + k) n) as [<-|Hne].
    + rewrite rd_insert_eq by lia.
      destruct (Nat.leb_spec off (off + k)), (Nat.ltb_spec (off + k) (off + S k));
        cbn [andb]; reflexivity || lia.
    + rewrite rd_insert_ne by exact Hne. rewrite (Hrd n Hn).
      destruct (Nat.leb_spec off n), (Nat.ltb_spec n (off + k)),
        (Nat.ltb_spec n (off + S k)); cbn [andb]; reflexivity || lia.
Qed.

Lemma bit_block_xor_words (target block xor_block : list Z) (digest : Z) :
  length (xor_filter.bit_block_xor target block xor_block digest) = length target
  /\ forall n, (n < length target)%nat ->
       rd (xor_filter.bit_block_xor target block xor_block digest) n
       = if (n <? block_waves * set_block_digest_wave_size)%nat
         then (if Z.testbit digest (Z.of_nat (n / set_block_digest_wave_size))
               then Z.lxor (rd block n) (rd xor_block n)
               else rd block n)
         else rd target n.
Proof.
  unfold xor_filter.bit_block_xor.
  apply (for_range_ind
           (fun i s =>
              length s = length target
              /\ forall n, (n < length target)%nat ->
                   rd s n
                   = if (n <? i * set_block_digest_wave_size)%nat
                     then (if Z.testbit digest (Z.of_nat (n / set_block_digest_wave_size))
                           then Z.lxor (rd block n) (rd xor_block n)
                           else rd block n)
                     else rd target n)).
  - split; [reflexivity|]. intros n Hn. reflexivity.
  - intros i s Hi [Hlen Hrd]. cbv zeta.
    rewrite testbit_as_mask by lia.
    assert (forall n, (i * set_block_digest_wave_size <= n)%nat ->
              (n < i * set_block_digest_wave_size + set_block_digest_wave_size)%nat ->
              (n / set_block_digest_wave_size)%nat = i) as Hdiv.
    { intros n H1 H2. symmetry.
      apply (Nat.div_unique n set_block_digest_wave_size i
               (n - i * set_block_digest_wave_size));
        unfold set_block_digest_wave_size in *; lia. }
    destruct (Z.testbit digest (Z.of_nat i)) eqn:Eb; cbn [negb].
    + destruct (for_range_fill (fun n => Z.lxor (rd block n) (rd xor_block n))
                  (i * set_block_digest_wave_size) set_block_digest_wave_size s)
        as [Hlen' Hrd'].
      split; [congruence|]. intros n Hn. rewrite Hrd' by lia.
      destruct (Nat.leb_spec (i * set_block_digest_wave_size) n),
        (Nat.ltb_spec n (i * set_block_digest_wave_size + set_block_digest_wave_size)),
        (Nat.ltb_spec n (S i * set_block_digest_wave_size));
        cbn [andb]; try (unfold set_block_digest_wave_size in *; lia).
      * rewrite (Hdiv n) by assumption. rewrite Eb. reflexivity.
      * rewrite (Hrd n Hn).
        destruct (Nat.ltb_spec n (i * set_block_digest_wave_size));
          [lia|reflexivity].
      * rewrite (Hrd n Hn).
        destruct (Nat.ltb_spec n (i * set_block_digest_wave_size));
          [reflexivity|lia].
    + destruct (for_range_fill (fun n => rd block n)
                  (i * set_block_digest_wave_size) set_block_digest_wave_size s)
        as [Hlen' Hrd'].
      split; [congruence|]. intros n Hn. rewrite Hrd' by lia.
      destruct (Nat.leb_spec (i * set_block_digest_wave_size) n),
        (Nat.ltb_spec n (i * set_block_digest_wave_size + set_block_digest_wave_size)),
        (Nat.ltb_spec n (S i * set_block_digest_wave_size));
        cbn [andb]; try (unfold set_block_digest_wave_size in *; lia).
      * rewrite (Hdiv n) by assumption. rewrite Eb. reflexivity.
      * rewrite (Hrd n Hn).
        destruct (Nat.ltb_spec n (i * set_block_digest_wave_size));
          [lia|reflexivity].
      * rewrite (Hrd n Hn).
        destruct (Nat.ltb_spec n (i * set_block_digest_wave_size));
          [reflexivity|lia].
Qed.

Lemma list_eq_rd (a b : list Z) :
  length a = length b ->
  (forall n, (n < length a)%nat -> rd a n = rd b n) -> a = b.
Proof.
  intros Hlen Hrd. apply list_eq. intros n.
  destruct (Nat.lt_ge_cases n (length a)) as [Hn|Hn].
  - specialize (Hrd n Hn). unfold rd in Hrd.
    destruct (lookup_lt_is_Some_2 a n Hn) as [x Hx].
    destruct (lookup_lt_is_Some_2 b n ltac:(lia)) as [y Hy].
    rewrite Hx, Hy in *. cbn in Hrd. congruence.
  - rewrite (lookup_ge_None_2 a n) by lia. rewrite (lookup_ge_None_2 b n) by lia.
    reflexivity.
Qed.

(** ** Counting the changes of an XOR product *)

Lemma changes_nonneg (l : list bool) : 0 <= changes l.
Proof.
  induction l as [|a [|b l] IH]; cbn [changes]; try lia.
  cbn [changes] in IH. destruct (xorb a b); cbn [Z.b2z]; lia.
Qed.

Lemma changes_le_length (l : list bool) : changes l <= Z.of_nat (length l).
Proof.
  induction l as [|a [|b l] IH]; cbn [changes length]; try lia.
  cbn [changes length] in IH. destruct (xorb a b); cbn [Z.b2z]; lia.
Qed.

Lemma changes_app_last (l1 l2 : list bool) (a b : bool) :
  last l1 = Some a -> head l2 = Some b ->
  changes (l1 ++ l2) = changes l1 + Z.b2z (xorb a b) + changes l2.
Proof.
  intros Hlast Hhead. destruct l2 as [|b' l2]; [discriminate|].
  cbn [head] in Hhead. injection Hhead as ->.
  induction l1 as [|c [|d l1] IH].
  - discriminate.
  - cbn [last] in Hlast. injection Hlast as ->. cbn [app changes]. lia.
  - change (changes ((c :: d :: l1) ++ b :: l2))
      with (Z.b2z (xorb c d) + changes ((d :: l1) ++ b :: l2)).
    change (changes (c :: d :: l1)) with (Z.b2z (xorb c d) + changes (d :: l1)).
    rewrite IH by exact Hlast. lia.
Qed.

Lemma count_bits_steps (f : nat -> bool) (n a : nat) :
  count_bits (map (fun i => xorb (f i) (f (S i))) (seq a n))
  = changes (map f (seq a (S n))).
Proof.
  revert a. induction n as [|n IH]; intros a; [reflexivity|].
  change (seq a (S n)) with (a :: seq (S a) n).
  change (seq a (S (S n))) with (a :: S a :: seq (S (S a)) n).
  cbn [map count_bits]. rewrite IH.
  change (seq (S a) (S n)) with (S a :: seq (S (S a)) n).
  cbn [map changes]. reflexivity.
Qed.

Lemma word_bits_snoc (w : Z) :
  word_bits w
  = map (fun b => Z.testbit w (Z.of_nat b)) (seq 0 31) ++ [Z.testbit w 31].
Proof. reflexivity. Qed.

Lemma last_word_bits (l : list bool) (w : Z) :
  last (l ++ word_bits w) = Some (Z.testbit w 31).
Proof. rewrite word_bits_snoc, app_assoc. apply last_snoc. Qed.

Lemma head_word_bits (w : Z) : head (word_bits w) = Some (Z.testbit w 0).
Proof. reflexivity. Qed.

(** The population count of [w ^ (w >> 1)] is the number of changes inside
    the word, plus one when its top bit is set. *)
Lemma word_changes (w : Z) :
  wf_word w = true ->
  word_bitcount (Z.lxor w (Z.shiftr w 1))
  = changes (word_bits w) + Z.b2z (Z.testbit w 31).
Proof.
  intros Hw. pose proof (proj1 (wf_word_range w) Hw) as Hr.
  assert (wf_word (Z.lxor w (Z.shiftr w 1)) = true) as Hw'.
  { apply wf_word_range.
    assert (0 <= Z.shiftr w 1 < 2 ^ 32) as Hs.
    { rewrite Z.shiftr_div_pow2 by lia. split; [apply Z.div_pos; lia|].
      apply Z.div_lt_upper_bound; lia. }
    split; [apply Z.lxor_nonneg; lia|].
    destruct (Z.eq_dec (Z.lxor w (Z.shiftr w 1)) 0) as [->|Hne]; [lia|].
    apply Z.log2_lt_cancel.
    apply Z.le_lt_trans with (Z.max (Z.log2 w) (Z.log2 (Z.shiftr w 1)));
      [apply Z.log2_lxor; lia|].
    change (Z.log2 (2 ^ 32)) with 32.
    assert (forall x, 0 <= x < 2 ^ 32 -> Z.log2 x < 32) as Hlog.
    { intros x Hx. destruct (Z.eq_dec x 0) as [->|]; [cbn; lia|].
      apply Z.log2_lt_pow2; lia. }
    pose proof (Hlog w Hr). pose proof (Hlog _ Hs). lia. }
  rewrite (word_bitcount_bits _ Hw').
  assert (word_bits (Z.lxor w (Z.shiftr w 1))
          = map (fun i => xorb (Z.testbit w (Z.of_nat i)) (Z.testbit w (Z.of_nat (S i))))
                (seq 0 32)) as ->.
  { unfold word_bits. apply map_ext. intros i.
    rewrite Z.lxor_spec, Z.shiftr_spec by lia.
    replace (Z.of_nat i + 1) with (Z.of_nat (S i)) by lia. reflexivity. }
  rewrite (count_bits_steps (fun i => Z.testbit w (Z.of_nat i)) 32 0).
  change (seq 0 33) with (seq 0 32 ++ [32%nat]). rewrite map_app.
  change (map (fun i => Z.testbit w (Z.of_nat i)) (seq 0 32)) with (word_bits w).
  cbn [map].
  rewrite (changes_app_last (word_bits w) [Z.testbit w (Z.of_nat 32)]
             (Z.testbit w 31) (Z.testbit w (Z.of_nat 32))
             (last_word_bits [] w) eq_refl).
  assert (Z.testbit w (Z.of_nat 32) = false) as ->.
  { destruct (Z.eq_dec w 0) as [->|Hne]; [apply Z.testbit_0_l|].
    apply Z.bits_above_log2; [lia|].
    assert (Z.log2 w < 32) by (apply Z.log2_lt_pow2; lia). lia. }
  rewrite xorb_false_r. cbn [changes]. lia.
Qed.

Lemma xor_bits_S (block xor_block : list Z) (off k : nat) :
  xor_bits block xor_block off (S k)
  = xor_bits block xor_block off k
    ++ word_bits (Z.lxor (rd block (off + k)) (rd xor_block (off + k))).
Proof.
  unfold xor_bits. rewrite seq_S, map_app, concat_app. cbn [map concat Nat.add].
  rewrite app_nil_r. reflexivity.
Qed.

Lemma xor_bits_length (block xor_block : list Z) (off k : nat) :
  length (xor_bits block xor_block off k) = (32 * k)%nat.
Proof.
  induction k as [|k IH]; [reflexivity|].
  rewrite xor_bits_S, length_app, word_bits_length, IH. lia.
Qed.

Lemma wf_word_lxor (a b : Z) :
  wf_word a = true -> wf_word b = true -> wf_word (Z.lxor a b) = true.
Proof.
  rewrite !wf_word_range. intros Ha Hb. split; [apply Z.lxor_nonneg; lia|].
  destruct (Z.eq_dec (Z.lxor a b) 0) as [->|Hne]; [lia|].
  apply Z.log2_lt_cancel.
  apply Z.le_lt_trans with (Z.max (Z.log2 a) (Z.log2 b)); [apply Z.log2_lxor; lia|].
  change (Z.log2 (2 ^ 32)) with 32.
  assert (forall x, 0 <= x < 2 ^ 32 -> Z.log2 x < 32) as Hlog.
  { intros x Hx. destruct (Z.eq_dec x 0) as [->|]; [cbn; lia|].
    apply Z.log2_lt_pow2; lia. }
  pose proof (Hlog a Ha). pose proof (Hlog b Hb). lia.
Qed.

Lemma wf_word_rd_all (w : list Z) (k : nat) :
  forallb wf_word w = true -> wf_word (rd w k) = true.
Proof.
  intros Hw. unfold rd. destruct (w !! k) as [x|] eqn:E; [|reflexivity].
  rewrite forallb_forall in Hw. apply Hw, list_elem_of_In.
  eapply list_elem_of_lookup_2, E.
Qed.

Section XorChange.
Import bmxor.

Variables block xor_block : list Z.
Variable off : nat.
Hypothesis Hblock : forallb wf_word block = true.
Hypothesis Hxor : forallb wf_word xor_block = true.

Lemma wf_xor_word (k : nat) :
  wf_word (Z.lxor (rd block (off + k)) (rd xor_block (off + k))) = true.
Proof. apply wf_word_lxor; apply wf_word_rd_all; assumption. Qed.

Lemma counted_first :
  counted block xor_block off 1 (xor_change_first (rd block off) (rd xor_block off)).
Proof.
  unfold counted, xor_change_first. cbv zeta.
  cbn [gap_count bit_count w_prev].
  rewrite xor_bits_S. change (xor_bits block xor_block off 0) with (@nil bool).
  rewrite app_nil_l, Nat.add_0_r.
  pose proof (wf_xor_word 0) as Hw. rewrite Nat.add_0_r in Hw.
  set (w0 := Z.lxor (rd block off) (rd xor_block off)) in *.
  unfold w_shift.
  rewrite (word_changes w0 Hw), (word_bitcount_bits w0 Hw), (shiftr31_bit w0 Hw).
  pose proof (changes_nonneg (word_bits w0)) as H1.
  pose proof (changes_le_length (word_bits w0)) as H2.
  pose proof (count_bits_nonneg (word_bits w0)) as H3.
  pose proof (count_bits_le_length (word_bits w0)) as H4.
  rewrite word_bits_length in H2, H4.
  assert (0 <= Z.b2z (Z.testbit w0 31) <= 1) as Hb
    by (destruct (Z.testbit w0 31); cbn; lia).
  unfold u32. rewrite !Z.mod_small by (rewrite ?Z.mod_small; lia).
  split; [lia|]. split; [lia|].
  exists (Z.testbit w0 31). split; [apply (last_word_bits [] w0)|reflexivity].
Qed.

Lemma lognot_bool (a : bool) : lognot (Z.b2z a) = Z.b2z (negb a).
Proof. destruct a; reflexivity. Qed.

Lemma lxor_bools (a b : bool) : Z.lxor (Z.b2z a) (Z.b2z b) = Z.b2z (xorb a b).
Proof. destruct a, b; reflexivity. Qed.

Lemma land_1_bit (w : Z) : Z.land w 1 = Z.b2z (Z.testbit w 0).
Proof.
  change 1 with (Z.ones 1). rewrite Z.land_ones by lia. change (2 ^ 1) with 2.
  rewrite Z.bit0_mod. reflexivity.
Qed.

Lemma counted_step (k : nat) (s : change_state) :
  (0 < k)%nat -> 32 * Z.of_nat (S k) < 2 ^ 32 ->
  counted block xor_block off k s ->
  counted block xor_block off (S k)
    (xor_change_step s (rd block (off + k)) (rd xor_block (off + k))).
Proof.
  intros Hk Hbound (Hgc & Hbc & a & Hlast & Hprev).
  pose proof (wf_xor_word k) as Hw.
  unfold counted. rewrite xor_bits_S.
  set (d := xor_bits block xor_block off k) in *.
  set (w0 := Z.lxor (rd block (off + k)) (rd xor_block (off + k))) in *.
  rewrite (changes_app_last d (word_bits w0) a (Z.testbit w0 0) Hlast
             (head_word_bits w0)).
  rewrite count_bits_app.
  pose proof (changes_nonneg d) as Hd1.
  pose proof (changes_le_length d) as Hd2.
  pose proof (count_bits_nonneg d) as Hd3.
  pose proof (count_bits_le_length d) as Hd4.
  unfold d in Hd2, Hd4. rewrite xor_bits_length in Hd2, Hd4. fold d in Hd2, Hd4.
  pose proof (changes_nonneg (word_bits w0)) as H1.
  pose proof (changes_le_length (word_bits w0)) as H2.
  pose proof (count_bits_nonneg (word_bits w0)) as H3.
  pose proof (count_bits_le_length (word_bits w0)) as H4.
  rewrite word_bits_length in H2, H4.
  pose proof (word_changes w0 Hw) as Hwc.
  pose proof (word_bitcount_bits w0 Hw) as Hwb.
  assert (0 <= Z.b2z (Z.testbit w0 31) <= 1) as Hb31
    by (destruct (Z.testbit w0 31); cbn; lia).
  assert (0 <= Z.b2z (xorb a (Z.testbit w0 0)) <= 1) as Hbx
    by (destruct (xorb a (Z.testbit w0 0)); cbn; lia).
  unfold xor_change_step. cbv zeta. fold w0.
  destruct (Z.eqb_spec w0 0) as [Hz|Hnz].
  - cbn [gap_count bit_count w_prev].
    assert (Z.testbit w0 0 = false) as Hb0 by (rewrite Hz; apply Z.testbit_0_l).
    assert (Z.testbit w0 31 = false) as Hb31' by (rewrite Hz; apply Z.testbit_0_l).
    assert (changes (word_bits w0) = 0) as Hc0 by (rewrite Hz; reflexivity).
    rewrite Hb0, xorb_false_r in *. rewrite Hprev, lognot_bool, Hgc, Hbc, Hwb.
    assert (Z.b2z (negb a) = 1 - Z.b2z a) as -> by (destruct a; reflexivity).
    assert (0 <= Z.b2z a <= 1) as Ha by (destruct a; cbn; lia).
    unfold u32. rewrite !Z.mod_small by (rewrite ?Z.mod_small; lia).
    split; [lia|]. split; [lia|].
    exists false. split; [rewrite <- Hb31'; apply last_word_bits|reflexivity].
  - cbn [gap_count bit_count w_prev].
    rewrite Hprev, land_1_bit, lxor_bools, lognot_bool, Hgc, Hbc, Hwb, Hwc.
    unfold w_shift. rewrite (shiftr31_bit w0 Hw).
    assert (Z.b2z (negb (xorb a (Z.testbit w0 0)))
            = 1 - Z.b2z (xorb a (Z.testbit w0 0))) as ->
      by (destruct (xorb a (Z.testbit w0 0)); reflexivity).
    unfold u32.
    rewrite (Z.mod_small (1 + changes d + 1)) by lia.
    rewrite (Z.mod_small (1 + changes d + 1 + _)) by lia.
    rewrite (Z.mod_small (1 + changes d + 1 + _ - _)) by lia.
    rewrite (Z.mod_small (1 + changes d + 1 + _ - _ - _)) by lia.
    rewrite (Z.mod_small (count_bits d + _)) by lia.
    split; [lia|]. split; [lia|].
    exists (Z.testbit w0 31). split; [apply last_word_bits|reflexivity].
Qed.

Lemma counted_loop (m : nat) :
  32 * Z.of_nat (S m) < 2 ^ 32 ->
  counted block xor_block off (S m)
    (fold_left
       (fun s k => xor_change_step s (rd block (off + k)) (rd xor_block (off + k)))
       (seq 1 m) (xor_change_first (rd block off) (rd xor_block off))).
Proof.
  induction m as [|m IH]; intros Hb.
  - apply counted_first.
  - rewrite seq_S, fold_left_app. cbn [fold_left]. change (1 + m)%nat with (S m).
    apply counted_step; [lia|lia|]. apply IH. lia.
Qed.

End XorChange.

(** ** The list of reference vectors *)

Section RefVector.
Import bv_ref_vector.

Lemma scan_rows (rows : list Z) (ref_idx : Z) (n : nat) :
  match scan_until
          (fun i => if ref_idx =? rd rows i then Some (Z.of_nat i) else None)
          (seq 0 n) with
  | None => forall k, (k < n)%nat -> rd rows k <> ref_idx
  | Some x =>
      exists k, x = Z.of_nat k /\ (k < n)%nat /\ rd rows k = ref_idx
                /\ forall k', (k' < k)%nat -> rd rows k' <> ref_idx
  end.
Proof.
  pose proof (scan_until_seq
                (fun i => if ref_idx =? rd rows i then Some (Z.of_nat i) else None)
                n 0) as H.
  destruct (scan_until _ (seq 0 n)) as [x|].
  - destruct H as (k & Hk & Hbody & Hbefore). exists k.
    destruct (Z.eqb_spec ref_idx (rd rows k)) as [Heq|]; [|discriminate].
    injection Hbody as <-. split; [reflexivity|]. split; [lia|].
    split; [congruence|]. intros k' Hk'. specialize (Hbefore k' ltac:(lia)).
    destruct (Z.eqb_spec ref_idx (rd rows k')); [discriminate|congruence].
  - intros k Hk. specialize (H k ltac:(lia)).
    destruct (Z.eqb_spec ref_idx (rd rows k)); [discriminate|congruence].
Qed.

Lemma size_length (rv : t) :
  Z.of_nat (length (ref_bvects_ rv)) < 2 ^ 32 ->
  size rv = Z.of_nat (length (ref_bvects_ rv)).
Proof. intros H. unfold size, u32. apply Z.mod_small. lia. Qed.

(** [find] by cases. *)
Lemma find_cases (rv : t) (ref_idx : Z) :
  Z.of_nat (length (ref_bvects_ rv)) < 2 ^ 32 ->
  (find rv ref_idx = not_found
   /\ forall k, (k < length (ref_bvects_ rv))%nat ->
        rd (ref_bvects_rows_ rv) k <> ref_idx)
  \/ (exists k, find rv ref_idx = Z.of_nat k
                /\ (k < length (ref_bvects_ rv))%nat
                /\ rd (ref_bvects_rows_ rv) k = ref_idx
                /\ forall k', (k' < k)%nat ->
                     rd (ref_bvects_rows_ rv) k' <> ref_idx).
Proof.
  intros Hlen. unfold find. cbv zeta. rewrite (size_length rv Hlen), Nat2Z.id.
  pose proof (scan_rows (ref_bvects_rows_ rv) ref_idx (length (ref_bvects_ rv))) as H.
  destruct (scan_until _ _) as [x|].
  - right. destruct H as (k & -> & Hk & Hrow & Hbefore). exists k.
    repeat split; assumption.
  - left. split; [reflexivity|exact H].
Qed.



(** The rows listed by [live_rows]. *)
Lemma live_rows_lookup (m : list (option bvector.addr)) (r0 k : nat)
    (bv : bvector.addr) (row : Z) :
  live_rows m r0 !! k = Some (bv, row) ->
  exists r, row = Z.of_nat (r0 + r) /\ m !! r = Some (Some bv)
            /\ (k <= r)%nat
            /\ forall k' bv' row', (k' < k)%nat ->
                 live_rows m r0 !! k' = Some (bv', row') -> row' < row.
Proof.
  revert r0 k. induction m as [|[b|] m IH]; intros r0 k H; cbn [live_rows] in *.
  - rewrite lookup_nil in H. discriminate.
  - destruct k as [|k].
    + cbn in H. injection H as <- <-. exists 0%nat.
      split; [rewrite Nat.add_0_r; reflexivity|]. split; [reflexivity|]. split; [lia|].
      intros k' bv' row' Hk'. lia.
    + cbn in H. destruct (IH (S r0) k H) as (r & -> & Hr & Hkr & Hless).
      exists (S r). split; [f_equal; lia|]. split; [exact Hr|]. split; [lia|].
      intros k' bv' row' Hk' Hlk. destruct k' as [|k'].
      * cbn in Hlk. injection Hlk as <- <-. lia.
      * cbn in Hlk. apply (Hless k' bv' row'); [lia|exact Hlk].
  - destruct (IH (S r0) k H) as (r & -> & Hr & Hkr & Hless).
    exists (S r). split; [f_equal; lia|]. split; [exact Hr|]. split; [lia|].
    exact Hless.
Qed.

Lemma live_rows_found (m : list (option bvector.addr)) (r0 r : nat)
    (bv : bvector.addr) :
  m !! r = Some (Some bv) ->
  exists k, live_rows m r0 !! k = Some (bv, Z.of_nat (r0 + r)).
Proof.
  revert r0 r. induction m as [|[b|] m IH]; intros r0 r H; cbn [live_rows].
  - rewrite lookup_nil in H. discriminate.
  - destruct r as [|r].
    + cbn in H. injection H as ->. exists 0%nat. rewrite Nat.add_0_r. reflexivity.
    + cbn in H. destruct (IH (S r0) r H) as [k Hk]. exists (S k).
      change (live_rows m (S r0) !! k = Some (bv, Z.of_nat (r0 + S r))).
      replace (r0 + S r)%nat with (S r0 + r)%nat by lia. exact Hk.
  - destruct r as [|r]; [discriminate|].
    cbn in H. destruct (IH (S r0) r H) as [k Hk]. exists k.
    replace (r0 + S r)%nat with (S r0 + r)%nat by lia. exact Hk.
Qed.

Lemma live_rows_length (m : list (option bvector.addr)) (r0 : nat) :
  (length (live_rows m r0) <= length m)%nat.
Proof.
  revert r0. induction m as [|[b|] m IH]; intros r0; cbn [live_rows length].
  - lia.
  - specialize (IH (S r0)). lia.
  - specialize (IH (S r0)). lia.
Qed.

Lemma live_rows_snoc (m : list (option bvector.addr)) (o : option bvector.addr)
    (r0 : nat) :
  live_rows (m ++ [o]) r0
  = live_rows m r0
    ++ match o with
       | Some bv => [(bv, Z.of_nat (r0 + length m))]
       | None => []
       end.
Proof.
  revert r0. induction m as [|[b|] m IH]; intros r0; cbn [app live_rows length].
  - rewrite Nat.add_0_r. destruct o; reflexivity.
  - rewrite IH. replace (S r0 + length m)%nat with (r0 + S (length m))%nat by lia.
    reflexivity.
  - rewrite IH. replace (S r0 + length m)%nat with (r0 + S (length m))%nat by lia.
    reflexivity.
Qed.

(** [add_vectors] appends the non-NULL rows in order, numbered after the
    rows accumulated so far. *)
Lemma add_vectors_rows (rv : t) (m : list (option bvector.addr)) :
  Z.of_nat (length m) < 2 ^ 32 ->
  ref_bvects_ (add_vectors rv m) = ref_bvects_ rv ++ map fst (live_rows m 0)
  /\ ref_bvects_rows_ (add_vectors rv m)
     = ref_bvects_rows_ rv
       ++ map (fun x => u32 (rows_acc_ rv + snd x)) (live_rows m 0)
  /\ rows_acc_ (add_vectors rv m) = u32 (rows_acc_ rv + Z.of_nat (length m)).
Proof.
  intros Hlen. unfold add_vectors. cbv zeta.
  assert (u32 (Z.of_nat (length m)) = Z.of_nat (length m)) as ->
    by (apply Z.mod_small; lia).
  rewrite Nat2Z.id.
  assert (forall n, (n <= length m)%nat ->
            let rv' := for_range n
                         (fun rv r =>
                            match m !! r with
                            | Some (Some bv) => add rv bv (u32 (rows_acc_ rv + Z.of_nat r))
                            | _ => rv
                            end) rv in
            rows_acc_ rv' = rows_acc_ rv
            /\ ref_bvects_ rv' = ref_bvects_ rv ++ map fst (live_rows (take n m) 0)
            /\ ref_bvects_rows_ rv'
               = ref_bvects_rows_ rv
                 ++ map (fun x => u32 (rows_acc_ rv + snd x)) (live_rows (take n m) 0))
    as Hloop.
  { induction n as [|n IH]; intros Hn; cbv zeta.
    - cbn [take live_rows map]. rewrite !app_nil_r. repeat split; reflexivity.
    - rewrite for_range_S. specialize (IH ltac:(lia)). cbv zeta in IH.
      destruct IH as (Hacc & Hbv & Hrows).
      destruct (lookup_lt_is_Some_2 m n ltac:(lia)) as [o Ho].
      rewrite (take_S_r m n o Ho), live_rows_snoc, Ho.
      rewrite length_take, Nat.min_l by lia.
      destruct o as [bv|].
      + cbn [add rows_acc_ ref_bvects_ ref_bvects_rows_].
        rewrite Hacc, Hbv, Hrows, !map_app, !app_assoc. cbn [map fst snd Nat.add].
        assert (forall z, u32 (u32 z) = u32 z) as Hidem
          by (intros z; unfold u32; apply Z.mod_mod; lia).
        rewrite Hidem. repeat split; reflexivity.
      + rewrite !app_nil_r. repeat split; assumption. }
  specialize (Hloop (length m) ltac:(lia)). cbv zeta in Hloop.
  rewrite firstn_all in Hloop. destruct Hloop as (Hacc & Hbv & Hrows).
  cbn [ref_bvects_ ref_bvects_rows_ rows_acc_]. rewrite Hacc.
  repeat split; assumption.
Qed.

End RefVector.

(** ** The XOR scanner *)

Section XorScanner.
Import bmxor xor_ref.

Lemma lor3_eq_0 (a b c : Z) :
  Z.lor (Z.lor a b) c = 0 <-> a = 0 /\ b = 0 /\ c = 0.
Proof.
  rewrite !Z.lor_eq_0_iff. tauto.
Qed.

Lemma gains_test_zero (g : gains) :
  (Z.lor (Z.lor (block_gc_gain g) (block_bc_gain g)) (block_ibc_gain g) =? 0) = true
  <-> no_gain g.
Proof.
  rewrite Z.eqb_eq. apply lor3_eq_0.
Qed.

Lemma gains_test_nonzero (g : gains) :
  some_gain g ->
  (Z.lor (Z.lor (block_gc_gain g) (block_bc_gain g)) (block_ibc_gain g) =? 0) = false.
Proof.
  intros Hg. apply not_true_is_false. rewrite gains_test_zero.
  unfold some_gain, no_gain in *. lia.
Qed.

(** C7, amended.  When at least one gain accumulator is non-zero,
    [compute_xor_complexity_descr] reports the largest of the three gains
    together with the digest of the chosen metric; a tie between equal
    largest gains goes to iBC before BC before GC: GC is chosen only when
    its gain is strictly larger than both others, BC only when its gain is
    at least GC's and strictly larger than iBC's. *)
Theorem xor_descr_selects_largest_gain
    (block xor_block : list Z) (x_descr : block_waves_xor_descr) :
  let g := xor_descr_pass2 block xor_block x_descr in
  let r := compute_xor_complexity_descr block xor_block x_descr in
  some_gain g ->
  block_gain r = Z.max (block_gc_gain g) (Z.max (block_bc_gain g) (block_ibc_gain g))
  /\ match_type r
     = select_iBC_BC_GC (block_gc_gain g) (block_bc_gain g) (block_ibc_gain g)
  /\ digest r = digest_of g (match_type r).
Proof.
  cbv beta zeta delta [compute_xor_complexity_descr].
  generalize (xor_descr_pass2 block xor_block x_descr) as g.
  generalize (xor_descr_pass1 block xor_block x_descr) as d1.
  generalize (zero_wave_mask block) (zero_wave_mask xor_block).
  intros m1 m2 d1 g Hg.
  rewrite (gains_test_nonzero g Hg).
  unfold select_iBC_BC_GC.
  destruct (Z.gtb_spec (block_gc_gain g) (block_bc_gain g)) as [H1|H1];
    destruct (Z.gtb_spec (block_gc_gain g) (block_ibc_gain g)) as [H2|H2];
    destruct (Z.gtb_spec (block_bc_gain g) (block_ibc_gain g)) as [H3|H3];
    destruct (Z.ltb_spec (block_bc_gain g) (block_gc_gain g));
    destruct (Z.ltb_spec (block_ibc_gain g) (block_gc_gain g));
    destruct (Z.ltb_spec (block_ibc_gain g) (block_bc_gain g));
    cbn [andb match_type block_gain digest digest_of];
    try lia; repeat split; try reflexivity; lia.
Qed.

Lemma xor_descr_selects_largest_gain_witness :
  let T := block_w0 3 in
  let d := compute_complexity_descr T in
  some_gain (xor_descr_pass2 T T d)
  /\ block_gain (compute_xor_complexity_descr T T d) = 2
  /\ match_type (compute_xor_complexity_descr T T d) = e_xor_match_BC.
Proof.
  intros T d.
  assert (Hg : some_gain (xor_descr_pass2 T T d)).
  { left. vm_compute. discriminate. }
  split; [exact Hg|].
  destruct (xor_descr_selects_largest_gain T T d Hg) as (H1 & H2 & _).
  split.
  - rewrite H1. vm_compute. reflexivity.
  - rewrite H2. vm_compute. reflexivity.
Defined.

(** C7, as stated, fails: for the target block whose first word is 3 and a
    reference block equal to it, the GC gain and the BC gain are both 2 and
    the iBC gain is 0; the code reports BC where the order GC > BC > iBC
    asks for GC. *)
Lemma xor_tie_break_GC_first_fails :
  ~ (forall block xor_block x_descr,
       let g := xor_descr_pass2 block xor_block x_descr in
       some_gain g ->
       match_type (compute_xor_complexity_descr block xor_block x_descr)
       = select_GC_BC_iBC (block_gc_gain g) (block_bc_gain g) (block_ibc_gain g)).
Proof.
  intros H.
  specialize (H (block_w0 3) (block_w0 3) (compute_complexity_descr (block_w0 3))).
  cbv zeta in H.
  assert (Hg : some_gain (xor_descr_pass2 (block_w0 3) (block_w0 3)
                            (compute_complexity_descr (block_w0 3)))).
  { left. vm_compute. discriminate. }
  specialize (H Hg). vm_compute in H. discriminate H.
Qed.

(** C8, amended.  When the three gain accumulators are all zero,
    [compute_xor_complexity_descr] compares the zero-wave masks of the two
    blocks: if they are equal it reports a GC match with gain
    [block_waves] = 64 and the target's zero-wave mask as digest, otherwise
    no-match with gain 0 and digest 0.  It never reports an equality
    match. *)
Theorem xor_descr_zero_gain
    (block xor_block : list Z) (x_descr : block_waves_xor_descr) :
  let g := xor_descr_pass2 block xor_block x_descr in
  let r := compute_xor_complexity_descr block xor_block x_descr in
  no_gain g ->
  (zero_wave_mask block = zero_wave_mask xor_block ->
     match_type r = e_xor_match_GC /\ block_gain r = 64
     /\ digest r = zero_wave_mask block)
  /\ (zero_wave_mask block <> zero_wave_mask xor_block ->
     match_type r = e_no_xor_match /\ block_gain r = 0 /\ digest r = 0)
  /\ match_type r <> e_xor_match_EQ.
Proof.
  cbv beta zeta delta [compute_xor_complexity_descr].
  generalize (xor_descr_pass2 block xor_block x_descr) as g.
  generalize (xor_descr_pass1 block xor_block x_descr) as d1.
  generalize (zero_wave_mask block) (zero_wave_mask xor_block).
  intros m1 m2 d1 g Hg.
  apply gains_test_zero in Hg. rewrite Hg.
  destruct (Z.eqb_spec m1 m2) as [E|E];
    cbn [match_type block_gain digest]; repeat split; intros;
    try congruence; try discriminate.
Qed.

Lemma xor_descr_zero_gain_witness :
  let d := compute_complexity_descr block0 in
  no_gain (xor_descr_pass2 block0 block0 d)
  /\ match_type (compute_xor_complexity_descr block0 block0 d) = e_xor_match_GC.
Proof.
  intros d.
  assert (Hg : no_gain (xor_descr_pass2 block0 block0 d)).
  { vm_compute. repeat split. }
  split; [exact Hg|].
  destruct (xor_descr_zero_gain block0 block0 d Hg) as (H1 & _ & _).
  apply H1. reflexivity.
Defined.

(** The scanner never reports an equality match, whatever the gains. *)
Lemma xor_descr_never_EQ
    (block xor_block : list Z) (x_descr : block_waves_xor_descr) :
  match_type (compute_xor_complexity_descr block xor_block x_descr)
  <> e_xor_match_EQ.
Proof.
  cbv beta zeta delta [compute_xor_complexity_descr].
  generalize (xor_descr_pass2 block xor_block x_descr) as g.
  generalize (xor_descr_pass1 block xor_block x_descr) as d1.
  generalize (zero_wave_mask block) (zero_wave_mask xor_block).
  intros m1 m2 d1 g.
  repeat match goal with |- context [if ?c then _ else _] => destruct c end;
    cbn [match_type]; discriminate.
Qed.

(** C8, as stated, fails: with target and reference both all zero the gains
    are zero and T xor R is all zero, yet the match reported is GC, not EQ;
    and with target word 1 and reference word 33 the gains are zero and the
    blocks differ, yet a match with gain 64 is reported. *)
Lemma xor_zero_gain_equality_match_fails :
  ~ (forall block xor_block x_descr,
       let g := xor_descr_pass2 block xor_block x_descr in
       let r := compute_xor_complexity_descr block xor_block x_descr in
       no_gain g ->
       (match_type r = e_xor_match_EQ <-> xor_all_zero block xor_block = true)
       /\ (match_type r <> e_xor_match_EQ ->
           match_type r = e_no_xor_match /\ block_gain r = 0 /\ digest r = 0)).
Proof.
  intros H.
  specialize (H block0 block0 (compute_complexity_descr block0)).
  cbv zeta in H.
  assert (Hg : no_gain (xor_descr_pass2 block0 block0 (compute_complexity_descr block0))).
  { vm_compute. repeat split. }
  destruct (H Hg) as [[_ H2] _].
  assert (E : xor_all_zero block0 block0 = true) by (vm_compute; reflexivity).
  specialize (H2 E). vm_compute in H2. discriminate H2.
Qed.

Lemma xor_zero_gain_unequal_blocks_match :
  let T := block_w0 1 in
  let R := block_w0 33 in
  let d := compute_complexity_descr T in
  no_gain (xor_descr_pass2 T R d)
  /\ xor_all_zero T R = false
  /\ match_type (compute_xor_complexity_descr T R d) = e_xor_match_GC
  /\ block_gain (compute_xor_complexity_descr T R d) = 64.
Proof.
  vm_compute. repeat split.
Qed.

End XorScanner.

(** ** The enumerator *)

Section Enumerator.
Import samples.

(** C9, amended.  Advancing is guarded by the validity of the enumerator:
    in a build where [BM_ASSERT_THROW] throws, [go_up()], [advance()] and
    [operator++] on an enumerator whose [valid()] is false raise
    [BM_ERR_RANGE] and produce no state.  Nothing is promised for a build
    where the guard is compiled out. *)
Theorem go_up_invalid_is_range_error (e : enumerator.t) :
  enumerator.valid e = false ->
  enumerator.go_up true e = Throw BM_ERR_RANGE
  /\ enumerator.advance true e = Throw BM_ERR_RANGE
  /\ enumerator.incr true e = Throw BM_ERR_RANGE.
Proof.
  intros Hv. unfold enumerator.advance, enumerator.incr, enumerator.go_up,
    bvector.BM_ASSERT_THROW.
  rewrite Hv. simpl. auto.
Qed.

Lemma go_up_invalid_is_range_error_witness :
  enumerator.valid (enumerator.create fresh) = false
  /\ enumerator.go_up true (enumerator.create fresh) = Throw BM_ERR_RANGE.
Proof.
  split; [reflexivity|].
  apply (go_up_invalid_is_range_error (enumerator.create fresh)). reflexivity.
Defined.

(** C9, as stated, fails in either build.  The enumerator that has run off
    the end of the GAP vector {5} is not valid; advancing it throws where
    the guard is active, and where it is not the position wraps from
    [id_max] to 0 and the enumerator is valid again. *)
Lemma advance_invalid_is_not_a_noop :
  ~ (forall assert_throw e,
       enumerator.valid e = false ->
       exists e', enumerator.go_up assert_throw e = Done e'
                  /\ e' = e /\ enumerator.valid e' = false).
Proof.
  intros H.
  destruct (H false exhausted_gap_enumerator eq_refl) as (e' & He & _ & Hv).
  vm_compute in He. injection He as <-. vm_compute in Hv. discriminate Hv.
Qed.

Lemma advance_invalid_sample :
  enumerator.valid exhausted_gap_enumerator = false
  /\ enumerator.go_up true exhausted_gap_enumerator = Throw BM_ERR_RANGE
  /\ (exists e', enumerator.go_up false exhausted_gap_enumerator = Done e'
                 /\ enumerator.valid e' = true /\ enumerator.position_ e' = 0).
Proof.
  split; [reflexivity|]. split; [reflexivity|].
  eexists. split; [vm_compute; reflexivity|]. split; reflexivity.
Qed.

End Enumerator.

(** ** Range operations *)

Section Ranges.
Import bvector samples.

Lemma xor_swap_swaps (x y : Z) : xor_swap x y = (y, x).
Proof.
  unfold xor_swap.
  assert (E : Z.lxor y (Z.lxor x y) = x).
  { rewrite (Z.lxor_comm x y), <- Z.lxor_assoc, Z.lxor_nilpotent, Z.lxor_0_l.
    reflexivity. }
  rewrite E. f_equal.
  rewrite (Z.lxor_comm x y), Z.lxor_assoc, Z.lxor_nilpotent, Z.lxor_0_r.
  reflexivity.
Qed.

(** For bounds in ascending order [set_range] does not depend on the depth
    left for nested calls, as soon as its own call and one [resize] fit. *)
Lemma set_range_rec_ascending (at_ : bool) (d : nat) (bv : t) (left right : Z)
    (value : bool) :
  left <= right ->
  set_range_rec at_ (S (S d)) bv left right value
  = set_range_rec at_ 2 bv left right value.
Proof.
  intros Hle. cbn [set_range_rec].
  destruct (negb (is_init bv) && negb value); [reflexivity|].
  destruct (Z.ltb_spec right left) as [H|H]; [lia|].
  unfold BM_ASSERT_THROW.
  destruct (at_ && negb (right <? id_max)) eqn:Hat; [reflexivity|].
  destruct (Z.geb_spec right (size_ bv)) as [Hs|Hs]; [|reflexivity].
  assert (Hne : (size_ bv =? (if right =? id_max then id_max else right + 1)) = true
                \/ (size_ bv <? (if right =? id_max then id_max else right + 1)) = true).
  { destruct (Z.eqb_spec right id_max) as [E|E].
    - destruct (Z.eqb_spec (size_ bv) id_max); [left; reflexivity|].
      right. apply Z.ltb_lt. lia.
    - right. apply Z.ltb_lt. lia. }
  destruct d as [|d]; cbn [resize_rec];
    destruct Hne as [Hne|Hne]; rewrite Hne; try reflexivity;
    destruct (size_ bv =? _); reflexivity.
Qed.

Lemma set_range_rec_swap (at_ : bool) (d : nat) (bv : t) (left right : Z)
    (value : bool) :
  right < left ->
  set_range_rec at_ (S d) bv left right value
  = if negb (is_init bv) && negb value then Done bv
    else set_range_rec at_ d bv right left value.
Proof.
  intros Hlt.
  change (set_range_rec at_ (S d) bv left right value)
    with (if negb (is_init bv) && negb value then Done bv
          else if right <? left then set_range_rec at_ d bv right left value
          else BM_ASSERT_THROW at_ (right <? id_max)
                 (do bv0 <- (if right >=? size_ bv then
                               resize_rec at_ d bv
                                 (if right =? id_max then id_max else right + 1)
                             else Done bv);
                  if value then Done (set_range_no_check bv0 left right)
                  else Done (clear_range_no_check bv0 left right))).
  destruct (Z.ltb_spec right left); [reflexivity|lia].
Qed.

Lemma set_range_rec_ascending_done (at_ : bool) (bv : t) (left right : Z)
    (value : bool) :
  left <= right -> right < id_max \/ at_ = false ->
  exists bv', set_range_rec at_ 2 bv left right value = Done bv'.
Proof.
  intros Hle Hok. cbn [set_range_rec].
  destruct (negb (is_init bv) && negb value); [eexists; reflexivity|].
  destruct (Z.ltb_spec right left) as [H|H]; [lia|].
  unfold BM_ASSERT_THROW.
  assert (at_ && negb (right <? id_max) = false) as ->.
  { destruct Hok as [Hr| ->]; [|reflexivity].
    destruct (Z.ltb_spec right id_max); [apply andb_false_r|lia]. }
  destruct (Z.geb_spec right (size_ bv)) as [Hs|Hs].
  - cbn [resize_rec].
    assert (Hne : (size_ bv =? (if right =? id_max then id_max else right + 1)) = true
                  \/ (size_ bv <? (if right =? id_max then id_max else right + 1)) = true).
    { destruct (Z.eqb_spec right id_max) as [E|E].
      - destruct (Z.eqb_spec (size_ bv) id_max); [left; reflexivity|].
        right. apply Z.ltb_lt. lia.
      - right. apply Z.ltb_lt. lia. }
    destruct Hne as [Hne|Hne]; rewrite Hne.
    + cbn [obind]. destruct value; eexists; reflexivity.
    + destruct (size_ bv =? _); cbn [obind]; destruct value; eexists; reflexivity.
  - cbn [obind]. destruct value; eexists; reflexivity.
Qed.

(** C10.  With [right < left], [set_range(left, right, value)] and
    [copy_range(src, left, right)] swap the two bounds: each gives exactly
    the result of the same call with the bounds in ascending order.  The
    swapped call is not an error: for positions below [id_max] (and, in the
    build without throwing assertions, for all positions) both calls return
    normally. *)
Theorem range_bounds_are_swapped
    (assert_throw : bool) (bv : t) (h : store) (this src : addr)
    (left right : Z) (value : bool) :
  right < left ->
  set_range assert_throw bv left right value
  = set_range assert_throw bv right left value
  /\ copy_range assert_throw h this src left right
     = copy_range assert_throw h this src right left
  /\ (left < id_max \/ assert_throw = false ->
      (exists bv', set_range assert_throw bv left right value = Done bv')
      /\ (exists h', copy_range assert_throw h this src left right = Done h')).
Proof.
  intros Hlt.
  assert (E : set_range assert_throw bv left right value
              = set_range assert_throw bv right left value).
  { unfold set_range, call_depth.
    rewrite (set_range_rec_swap assert_throw 3 bv left right value) by lia.
    rewrite (set_range_rec_ascending assert_throw 2 bv right left value) by lia.
    rewrite (set_range_rec_ascending assert_throw 1 bv right left value) by lia.
    destruct (negb (is_init bv) && negb value) eqn:Hi; [|reflexivity].
    cbn [set_range_rec]. rewrite Hi. reflexivity. }
  split; [exact E|]. split.
  - unfold copy_range.
    destruct (negb (is_init (h src))); [reflexivity|].
    destruct (Z.gtb_spec left right) as [H|H]; [|lia].
    destruct (Z.gtb_spec right left) as [H'|H']; [lia|].
    rewrite xor_swap_swaps. reflexivity.
  - intros Hok. split.
    + rewrite E. unfold set_range, call_depth.
      rewrite (set_range_rec_ascending assert_throw 2 bv right left value) by lia.
      apply set_range_rec_ascending_done; [lia|exact Hok].
    + unfold copy_range.
      destruct (negb (is_init (h src))); [eexists; reflexivity|].
      destruct (Z.gtb_spec left right) as [H|H]; [|lia].
      rewrite xor_swap_swaps. cbn [fst snd].
      unfold copy_range_no_check, BM_ASSERT_THROW.
      assert (assert_throw && negb (left <? id_max) = false) as ->.
      { destruct Hok as [Hr| ->]; [|reflexivity].
        destruct (Z.ltb_spec left id_max); [apply andb_false_r|lia]. }
      cbn [obind]. eexists. reflexivity.
Qed.

Lemma range_bounds_are_swapped_witness :
  10 < 20 /\ 20 < id_max
  /\ set_range true fresh_gap 20 10 true = set_range true fresh_gap 10 20 true
  /\ copy_range true store_5_3 0%nat 1%nat 20 10
     = copy_range true store_5_3 0%nat 1%nat 10 20
  /\ (exists bv', set_range true fresh_gap 20 10 true = Done bv')
  /\ (exists h', copy_range true store_5_3 0%nat 1%nat 20 10 = Done h').
Proof.
  assert (H : 20 < id_max) by (unfold id_max; lia).
  split; [lia|]. split; [exact H|].
  destruct (range_bounds_are_swapped true fresh_gap store_5_3 0%nat 1%nat 20 10 true
              ltac:(lia)) as (E1 & E2 & Hdone).
  destruct (Hdone (or_introl H)) as [D1 D2].
  split; [exact E1|]. split; [exact E2|]. split; [exact D1|exact D2].
Defined.

(** C2, at the failing input.  Position 20 lies beyond the size of the empty
    vector of size 10, yet [set_bit(20, true)] is not rejected in either
    build: it returns normally, bit 20 is set afterwards and the size is 21.
    The comments of [bm.h] say that [set_bit] does not resize the vector. *)
Theorem set_bit_beyond_size_is_not_rejected (assert_throw : bool) :
  size fresh10 = 10 /\ get_bit fresh10 20 = false
  /\ exists bv',
       set_bit assert_throw fresh10 20 true = Done (bv', true)
       /\ size bv' = 21 /\ get_bit bv' 20 = true.
Proof.
  split; [reflexivity|]. split; [reflexivity|].
  destruct assert_throw; eexists; (split; [vm_compute; reflexivity|]);
    split; vm_compute; reflexivity.
Qed.

(** The statement that a write at or beyond the size leaves the size and
    the bit alone is false of the code. *)
Lemma set_bit_beyond_size_modifies :
  ~ (forall assert_throw bv n val,
       size bv <= n ->
       forall bv' changed,
         set_bit assert_throw bv n val = Done (bv', changed) ->
         size bv' = size bv /\ get_bit bv' n = get_bit bv n).
Proof.
  intros H.
  assert (Hs : size fresh10 <= 20) by (vm_compute; discriminate).
  destruct (H false fresh10 20 true Hs _ _ eq_refl) as [H1 _].
  vm_compute in H1. discriminate H1.
Qed.

End Ranges.

(** ** Set algebra on aliased operands *)

Section AlgebraAliased.
Import bvector samples.

(** C1, at the failing input.  With the destination {5} at address 0 and
    both source operands the vector {3} at address 1, the three-operand AND
    takes its same-operand shortcut before the destination is
    re-initialised: the result is {3, 5}, so it depends on the
    destination's prior contents.  The three-operand OR, which
    re-initialises first, gives {3} on the same input. *)
Theorem bit_and3_same_operand_keeps_destination :
  let r := bit_and3 store_5_3 0%nat 1%nat 1%nat opt_none 0%nat in
  get_bit r 3 = true /\ get_bit r 5 = true
  /\ get_bit (store_5_3 1%nat) 5 = false
  /\ get_bit (bit_or3 store_5_3 0%nat 1%nat 1%nat opt_none 0%nat) 5 = false
  /\ get_bit (bit_or3 store_5_3 0%nat 1%nat 1%nat opt_none 0%nat) 3 = true.
Proof.
  vm_compute. repeat split.
Qed.

(** C4, at the failing inputs.  The two-operand XOR of the vector {3} with
    itself finds its own sub-array pointer equal to the argument's and
    skips it: bit 3 stays set, the result is not empty.  The three-operand
    AND of {3} with itself into the destination {5} keeps bit 5, so the
    result is not {3}.  The other self-combinations behave as stated on
    this input. *)
Theorem self_combination_on_sample :
  (exists h, bit_xor false store_5_3 1%nat 1%nat = Done h
             /\ get_bit (h 1%nat) 3 = true)
  /\ get_bit (bit_and3 store_5_3 0%nat 1%nat 1%nat opt_none 0%nat) 5 = true
  /\ get_bit (bit_or store_5_3 1%nat 1%nat 1%nat) 3 = true
  /\ get_bit (bit_and store_5_3 1%nat 1%nat 1%nat) 3 = true
  /\ get_bit (bit_sub store_5_3 1%nat 1%nat 1%nat) 3 = false
  /\ (exists h, bit_xor3 false store_5_3 0%nat 1%nat 1%nat opt_none = Done h
                /\ get_bit (h 0%nat) 3 = false /\ get_bit (h 0%nat) 5 = false)
  /\ get_bit (bit_sub3 store_5_3 0%nat 1%nat 1%nat opt_none 0%nat) 3 = false.
Proof.
  split.
  { eexists. split; [vm_compute; reflexivity|]. vm_compute. reflexivity. }
  split; [vm_compute; reflexivity|].
  split; [vm_compute; reflexivity|].
  split; [vm_compute; reflexivity|].
  split; [vm_compute; reflexivity|].
  split.
  { eexists. split; [vm_compute; reflexivity|]. vm_compute. split; reflexivity. }
  vm_compute. reflexivity.
Qed.

End AlgebraAliased.

(** ** Empty operands of the three-operand set algebra *)

Section Degenerate.
Import bvector.

(** C3, at the failing input.  The vector [x] = {3} is at address 1 and an
    empty (uninitialised) vector at address 2.  Written into [x] itself, the
    three-operand "empty OR x" and "x SUB empty" both leave [x] empty: the
    destination is cleared before the branches for a destination that is
    one of the operands are reached, so bit 3 is lost where the claim says
    the result is [x].  The two-operand [x.bit_or(empty)] keeps [x]. *)
Theorem empty_operand_into_operand_is_emptied :
  let h := samples.store_5_3 in
  is_init (h 2%nat) = false /\ get_bit (h 1%nat) 3 = true
  /\ get_bit (bit_or3 h 1%nat 2%nat 1%nat opt_none 1%nat) 3 = false
  /\ get_bit (bit_sub3 h 1%nat 1%nat 2%nat opt_none 1%nat) 3 = false
  /\ get_bit (bit_or h 1%nat 2%nat 1%nat) 3 = true.
Proof.
  vm_compute. repeat split.
Qed.

End Degenerate.

(** ** [shift_right] *)

Section ShiftRight.
Import bvector.



(** On the vector of full size that holds only the last position the carry
    is reported and nothing is left. *)
Lemma shift_right_last_position :
  exists bv',
    shift_right false samples.last_position = Done (bv', true)
    /\ get_bit bv' (id_max - 1) = false
    /\ size bv' = id_max.
Proof.
  eexists. split; [vm_compute; reflexivity|]. split; vm_compute; reflexivity.
Qed.


Lemma shift_right_nine_of_ten :
  exists bv',
    shift_right false samples.nine_of_ten = Done (bv', false)
    /\ get_bit bv' 9 = false /\ get_bit bv' 10 = true /\ size bv' = 11.
Proof.
  eexists. split; [vm_compute; reflexivity|]. repeat split; vm_compute; reflexivity.
Qed.

End ShiftRight.

(** ** Rank and select *)

Section RankSelect.
Import bvector.

(** C5.  For every well-formed bit-vector and the rank-select index that
    [build_rs_index] builds for it: at every position [i] whose bit is set,
    [select] of [rank(i)] is [i]; and for every [r] from 1 to [count()],
    [select(r)] finds a position whose [rank] is [r].  [rank(n)] is
    [count_to(n, rs)], and [select] reads the same index. *)
Theorem rank_select_inverse (bv : t) :
  wf_bv bv = true ->
  (forall i, 0 <= i < id_max -> get_bit bv i = true ->
     select bv (rank bv i (build_rs_index bv)) (build_rs_index bv) = Some i)
  /\ (forall r, 1 <= r <= count bv ->
        exists p, select bv r (build_rs_index bv) = Some p
                  /\ rank bv p (build_rs_index bv) = r).
Proof.
  intros Hwf.
  destruct (build_rs_index_spec bv Hwf)
    as [[Hrs Hzero]|(Hinit & n & Hn & Hidx & Hpos & Hafter)].
  - split.
    + intros i Hi Hbit. exfalso.
      destruct (position_block i ltac:(unfold id_max in Hi; lia))
        as (nb & q & Hnb & Hq & ->).
      rewrite get_bit_linear in Hbit by assumption.
      pose proof (set_bit_in_counted_block bv nb q 0 (fun m _ => Hzero m) Hbit). lia.
    + intros r Hr. exfalso.
      rewrite (count_total bv Hwf 0 (fun m _ => Hzero m)) in Hr.
      rewrite count_before_0 in Hr. change (u32 0) with 0 in Hr. lia.
  - set (rs := build_rs_index bv) in *. split.
    + intros i Hi Hbit.
      destruct (position_block i ltac:(unfold id_max in Hi; lia))
        as (nb & q & Hnb & Hq & ->).
      rewrite get_bit_linear in Hbit by assumption.
      pose proof (set_bit_in_counted_block bv nb q n Hafter Hbit) as Hlt.
      unfold rank. rewrite (count_to_spec bv rs n Hwf Hinit Hidx nb q Hlt Hq).
      * apply (select_at bv rs n Hinit Hidx); assumption.
      * pose proof (count_before_le bv nb Hwf).
        pose proof (rank_in_range (block_bits (block_at bv nb)) q ltac:(lia)).
        unfold id_max in Hi. lia.
    + intros r Hr.
      rewrite (count_total bv Hwf n Hafter) in Hr.
      pose proof (count_before_nonneg bv n) as Hnn.
      assert (u32 (count_before bv n) <= count_before bv n) as Hle
        by (unfold u32; apply Z.mod_le; lia).
      assert (r < 2 ^ 32) as Hsmall.
      { pose proof (Z.mod_pos_bound (count_before bv n) (2 ^ 32) ltac:(lia)).
        unfold u32 in Hr. lia. }
      destruct (block_of_rank bv n r ltac:(lia)) as (nb & Hnb & Hlo & Hhi).
      destruct (rank_exists (block_bits (block_at bv nb)) (r - count_before bv nb))
        as (k & Hk & Hnth & Hrank); [unfold block_count in Hhi; lia|].
      rewrite block_bits_length in Hk by (apply wf_block_at, Hwf).
      assert (0 <= Z.of_nat k < bits_in_block) as Hq by lia.
      assert (count_before bv nb
              + rank_in (block_bits (block_at bv nb)) (Z.to_nat (Z.of_nat k)) = r)
        as Hr' by (rewrite Nat2Z.id; lia).
      exists (Z.of_nat nb * bits_in_block + Z.of_nat k). split.
      * rewrite <- Hr' at 1.
        apply (select_at bv rs n Hinit Hidx);
          [exact Hnb|lia|exact Hq|rewrite Nat2Z.id; exact Hnth].
      * unfold rank.
        rewrite (count_to_spec bv rs n Hwf Hinit Hidx nb (Z.of_nat k) Hnb Hq)
          by (rewrite Hr'; exact Hsmall).
        exact Hr'.
Qed.

Lemma rank_select_inverse_witness :
  wf_bv samples.scattered = true
  /\ select samples.scattered
       (rank samples.scattered 70000 (build_rs_index samples.scattered))
       (build_rs_index samples.scattered) = Some 70000
  /\ exists p,
       select samples.scattered 2 (build_rs_index samples.scattered) = Some p
       /\ rank samples.scattered p (build_rs_index samples.scattered) = 2.
Proof.
  split; [vm_compute; reflexivity|].
  destruct (rank_select_inverse samples.scattered) as [Hsel Hrank].
  - vm_compute; reflexivity.
  - split.
    + apply Hsel; [unfold id_max; lia|vm_compute; reflexivity].
    + apply Hrank.
      assert (count samples.scattered = 3) as -> by (vm_compute; reflexivity). lia.
Defined.

(** On the sample vector {3, 21900, 70000}: the ranks of the three
    positions, the positions of the three ranks, and no position for a rank
    beyond the count. *)
Lemma rank_select_on_scattered :
  let bv := samples.scattered in
  let rs := build_rs_index bv in
  count bv = 3
  /\ map (fun i => rank bv i rs) [3; 21900; 70000] = [1; 2; 3]
  /\ map (fun r => select bv r rs) [1; 2; 3; 4]
     = [Some 3; Some 21900; Some 70000; None].
Proof.
  vm_compute. repeat split; reflexivity.
Qed.

End RankSelect.

(** ** Counting, rank and select in terms of the bits *)

Section PopulationSpecs.
Import bvector bvector_ops.

Lemma no_blocks_past_the_end (bv : t) (m : nat) :
  wf_bv bv = true -> (Z.to_nat set_total_blocks <= m)%nat -> block_count bv m = 0.
Proof.
  intros Hwf Hm. apply block_count_null, block_at_beyond.
  pose proof (wf_top_block_size bv Hwf) as Htop.
  apply Nat.le_trans with (Z.to_nat set_top_array_size); [exact Htop|].
  apply Nat.div_le_lower_bound; [unfold set_sub_array_size; lia|].
  unfold set_total_blocks, set_sub_array_size, set_top_array_size in *. lia.
Qed.

(** X1.  [count()] is the number of set bits of the 2^32 positions, in the
    arithmetic of the 32-bit result type. *)
Theorem count_is_population (bv : t) :
  wf_bv bv = true ->
  count bv = u32 (set_bits_from bv 0 (Z.to_nat (2 ^ 32))).
Proof.
  intros Hwf. rewrite <- (count_before_all bv Hwf).
  apply (count_total bv Hwf). intros m Hm. apply no_blocks_past_the_end; assumption.
Qed.

Lemma count_is_population_witness :
  wf_bv samples.scattered = true
  /\ count samples.scattered
     = u32 (set_bits_from samples.scattered 0 (Z.to_nat (2 ^ 32))).
Proof.
  split; [vm_compute; reflexivity|].
  apply (count_is_population samples.scattered). vm_compute; reflexivity.
Defined.

(** X2.  [count_to(i, rs)] with the index built for the vector is the number of
    set bits among the positions 0..i. *)
Theorem count_to_counts_set_bits (bv : t) (i : Z) :
  wf_bv bv = true -> 0 <= i < id_max ->
  count_to bv i (build_rs_index bv) = set_bits_from bv 0 (S (Z.to_nat i)).
Proof. apply count_to_set_bits. Qed.

Lemma count_to_counts_set_bits_witness :
  wf_bv samples.scattered = true /\ 0 <= 30000 < id_max
  /\ count_to samples.scattered 30000 (build_rs_index samples.scattered)
     = set_bits_from samples.scattered 0 (S (Z.to_nat 30000)).
Proof.
  split; [vm_compute; reflexivity|]. split; [unfold id_max; lia|].
  apply (count_to_counts_set_bits samples.scattered 30000);
    [vm_compute; reflexivity|unfold id_max; lia].
Defined.

(** X3.  [count_to_test(i, rs)] is [count_to(i, rs)] when bit [i] is set and 0
    when it is clear. *)
Theorem count_to_test_is_guarded_rank (bv : t) (i : Z) :
  wf_bv bv = true -> 0 <= i < id_max ->
  count_to_test bv i (build_rs_index bv)
  = if get_bit bv i then count_to bv i (build_rs_index bv) else 0.
Proof.
  intros Hwf Hi. unfold id_max in Hi.
  destruct (position_block i ltac:(lia)) as (nb & q & Hnb & Hq & ->).
  pose proof (get_bit_linear bv nb q Hwf Hq) as Hget.
  pose proof (get_bit_block_test bv (Z.of_nat nb * bits_in_block + q)) as Htest.
  unfold count_to_test, count_to.
  destruct (is_init bv) eqn:Einit; cbn [negb]; cbv iota zeta;
    [|destruct (get_bit bv _); reflexivity].
  destruct (shiftr_block (Z.of_nat nb) q ltac:(lia) Hq) as [Hs Hm].
  rewrite Hs, Hm in *. rewrite block_at_coord in *. cbn [fst snd] in Htest.
  fold (block_at bv nb) in *.
  assert (u16 q = q) as Hu16
    by (apply Z.mod_small; unfold bits_in_block in *; lia).
  rewrite Hu16.
  destruct (get_bit bv (Z.of_nat nb * bits_in_block + q)) eqn:Ebit.
  - assert ((Z.of_nat nb >=? rs_index.get_total (build_rs_index bv)) = false) as ->.
    { destruct (build_rs_index_spec bv Hwf)
        as [[Hrs Hzero]|(Hinit & n & Hn & Hidx & Hpos & Hafter)].
      - pose proof (set_bit_in_counted_block bv nb q 0 (fun m _ => Hzero m)
                      (eq_sym Hget)). lia.
      - pose proof (set_bit_in_counted_block bv nb q n Hafter (eq_sym Hget)) as Hlt.
        destruct Hidx as (Ht & _). unfold rs_index.get_total. rewrite Ht.
        destruct (Z.geb_spec (Z.of_nat nb) (Z.of_nat n)); [lia|reflexivity]. }
    unfold block_test in Htest.
    destruct (block_at bv nb) as [| |w|g];
      cbn [is_null negb BM_IS_GAP IS_FULL_BLOCK BMGAP_PTR bit_words] in *.
    + discriminate.
    + f_equal. lia.
    + unfold bit_test in Htest. cbv zeta in Htest. rewrite <- Htest. cbn [negb].
      f_equal. lia.
    + rewrite <- Htest. f_equal. lia.
  - unfold block_test in Htest.
    destruct (block_at bv nb) as [| |w|g];
      cbn [is_null negb BM_IS_GAP IS_FULL_BLOCK BMGAP_PTR bit_words] in *.
    + reflexivity.
    + discriminate.
    + unfold bit_test in Htest. cbv zeta in Htest. rewrite <- Htest. reflexivity.
    + rewrite <- Htest. reflexivity.
Qed.

Lemma count_to_test_is_guarded_rank_witness :
  wf_bv samples.scattered = true /\ 0 <= 21900 < id_max
  /\ count_to_test samples.scattered 21900 (build_rs_index samples.scattered)
     = if get_bit samples.scattered 21900
       then count_to samples.scattered 21900 (build_rs_index samples.scattered)
       else 0.
Proof.
  split; [vm_compute; reflexivity|]. split; [unfold id_max; lia|].
  apply (count_to_test_is_guarded_rank samples.scattered 21900);
    [vm_compute; reflexivity|unfold id_max; lia].
Defined.

(** X4.  [count_range(left, right, rs)] on a proper range is the number of set
    bits among the positions left..right.  The one exception is the single
    position [left = right] at or beyond the size: there the call is
    [test(left)], whose range check throws in the throwing build. *)
Theorem count_range_rs_counts_set_bits
    (assert_throw : bool) (bv : t) (left right : Z) :
  wf_bv bv = true -> 0 <= left -> left <= right -> right < id_max ->
  count_range_rs assert_throw bv left right (build_rs_index bv)
  = if assert_throw && (left =? right) && negb (left <? size_ bv)
    then Throw BM_ERR_RANGE
    else Done (set_bits_from bv left (Z.to_nat (right - left + 1))).
Proof.
  intros Hwf Hl Hlr Hr. unfold count_range_rs, BM_ASSERT_THROW.
  rewrite (proj2 (Z.ltb_lt _ _)) by exact Hr.
  rewrite (proj2 (Z.leb_le _ _)) by exact Hlr.
  cbn [negb]. rewrite !andb_false_r.
  destruct (Z.eqb_spec left right) as [->|Hne].
  - replace (right - right + 1) with 1 by lia. change (Z.to_nat 1) with 1%nat.
    cbn [set_bits_from]. rewrite andb_true_r.
    unfold bvector_checked.test, bvector_checked.get_bit, BM_ASSERT_THROW, omap.
    destruct (assert_throw && negb (right <? size_ bv)); [reflexivity|].
    cbn [obind]. f_equal. lia.
  - rewrite andb_false_r. cbn [andb].
    f_equal. rewrite (count_to_set_bits bv right Hwf) by lia.
    pose proof (set_bits_from_range bv (Z.to_nat (right - left + 1)) left) as Hrange.
    assert (set_bits_from bv 0 (S (Z.to_nat right))
            = set_bits_from bv 0 (Z.to_nat left)
              + set_bits_from bv left (Z.to_nat (right - left + 1))) as Hsplit.
    { replace (S (Z.to_nat right))
        with (Z.to_nat left + Z.to_nat (right - left + 1))%nat by lia.
      rewrite set_bits_from_add. rewrite Z2Nat.id by lia. reflexivity. }
    unfold id_max in Hr.
    destruct (Z.eqb_spec left 0) as [->|Hl0]; cbn [negb].
    + clear Hsplit.
      replace (Z.to_nat (right - 0 + 1)) with (S (Z.to_nat right)) in * by lia.
      rewrite Z.sub_0_r. apply Z.mod_small. lia.
    + rewrite (count_to_set_bits bv (left - 1) Hwf) by (unfold id_max; lia).
      replace (S (Z.to_nat (left - 1))) with (Z.to_nat left) by lia.
      rewrite Hsplit.
      replace (set_bits_from bv 0 (Z.to_nat left)
               + set_bits_from bv left (Z.to_nat (right - left + 1))
               - set_bits_from bv 0 (Z.to_nat left))
        with (set_bits_from bv left (Z.to_nat (right - left + 1))) by lia.
      apply Z.mod_small. lia.
Qed.

Lemma count_range_rs_counts_set_bits_witness :
  wf_bv samples.nine_of_ten = true /\ 0 <= 4 /\ 4 <= 9 /\ 9 < id_max
  /\ count_range_rs true samples.nine_of_ten 4 9
       (build_rs_index samples.nine_of_ten)
     = (if true && (4 =? 9) && negb (4 <? size_ samples.nine_of_ten)
        then Throw BM_ERR_RANGE
        else Done (set_bits_from samples.nine_of_ten 4 (Z.to_nat (9 - 4 + 1))))
  /\ count_range_rs true samples.nine_of_ten 12 12
       (build_rs_index samples.nine_of_ten)
     = (if true && (12 =? 12) && negb (12 <? size_ samples.nine_of_ten)
        then Throw BM_ERR_RANGE
        else Done (set_bits_from samples.nine_of_ten 12 (Z.to_nat (12 - 12 + 1)))).
Proof.
  split; [vm_compute; reflexivity|]. split; [lia|]. split; [lia|].
  split; [unfold id_max; lia|]. split.
  - apply (count_range_rs_counts_set_bits true samples.nine_of_ten 4 9);
      [vm_compute; reflexivity|lia|lia|unfold id_max; lia].
  - apply (count_range_rs_counts_set_bits true samples.nine_of_ten 12 12);
      [vm_compute; reflexivity|lia|lia|unfold id_max; lia].
Defined.

(** X5.  [select(r, rs)] with the index built for the vector: for every [r] from
    1 to the number of set bits it returns the position of the [r]-th set
    bit, the set position with exactly [r] set bits at or before it; for
    [r = 0] and for [r] beyond the number of set bits it finds nothing. *)
Theorem select_is_rth_set_bit (bv : t) (r : Z) :
  wf_bv bv = true ->
  (1 <= r <= set_bits_from bv 0 (Z.to_nat (2 ^ 32)) ->
   exists p, select bv r (build_rs_index bv) = Some p
             /\ 0 <= p < 2 ^ 32
             /\ get_bit bv p = true
             /\ set_bits_from bv 0 (S (Z.to_nat p)) = r)
  /\ (r = 0 \/ set_bits_from bv 0 (Z.to_nat (2 ^ 32)) < r ->
      select bv r (build_rs_index bv) = None).
Proof.
  intros Hwf. rewrite <- (count_before_all bv Hwf).
  destruct (build_rs_index_spec bv Hwf)
    as [[Hrs Hzero]|(Hinit & n & Hn & Hidx & Hpos & Hafter)].
  - rewrite (count_before_all_zero bv _ Hzero). split; [lia|].
    intros Hr. rewrite Hrs. unfold select.
    destruct (Z.eqb_spec r 0) as [E|E]; [reflexivity|].
    destruct (negb (is_init bv)); [reflexivity|].
    cbn [orb]. unfold rs_index.count. cbn [rs_index.init rs_index.total_].
    change (0 =? 0) with true. cbv iota.
    rewrite (proj2 (Z.ltb_lt 0 r)) by lia. reflexivity.
  - rewrite (count_before_stable bv n (Z.to_nat set_total_blocks) Hafter) by lia.
    split.
    + intros Hr.
      destruct (block_of_rank bv n r Hr) as (nb & Hnb & Hlo & Hhi).
      destruct (rank_exists (block_bits (block_at bv nb)) (r - count_before bv nb))
        as (k & Hk & Hnth & Hrank); [unfold block_count in Hhi; lia|].
      rewrite block_bits_length in Hk by (apply wf_block_at, Hwf).
      assert (0 <= Z.of_nat k < bits_in_block) as Hq by lia.
      assert (count_before bv nb
              + rank_in (block_bits (block_at bv nb)) (Z.to_nat (Z.of_nat k)) = r)
        as Hr' by (rewrite Nat2Z.id; lia).
      exists (Z.of_nat nb * bits_in_block + Z.of_nat k).
      split; [|split; [|split]].
      * rewrite <- Hr' at 1.
        apply (select_at bv _ n Hinit Hidx);
          [exact Hnb|lia|exact Hq|rewrite Nat2Z.id; exact Hnth].
      * unfold bits_in_block, set_total_blocks in *. lia.
      * rewrite get_bit_linear by assumption. rewrite Nat2Z.id. exact Hnth.
      * rewrite <- bits_upto_set_bits
          by (assumption || unfold bits_in_block, set_total_blocks in *; lia).
        rewrite bits_upto_linear by exact Hq. exact Hr'.
    + intros Hr. unfold select.
      destruct (Z.eqb_spec r 0) as [E|E]; [reflexivity|].
      rewrite Hinit. cbn [negb orb].
      rewrite (count_indexed bv _ n Hidx) by lia.
      rewrite (proj2 (Z.ltb_lt _ _)) by lia. reflexivity.
Qed.

Lemma select_is_rth_set_bit_witness :
  wf_bv samples.scattered = true
  /\ (1 <= 2 <= set_bits_from samples.scattered 0 (Z.to_nat (2 ^ 32)) ->
      exists p, select samples.scattered 2 (build_rs_index samples.scattered) = Some p
                /\ 0 <= p < 2 ^ 32
                /\ get_bit samples.scattered p = true
                /\ set_bits_from samples.scattered 0 (S (Z.to_nat p)) = 2)
  /\ select samples.scattered 0 (build_rs_index samples.scattered) = None.
Proof.
  split; [vm_compute; reflexivity|].
  destruct (select_is_rth_set_bit samples.scattered 2) as [Hsome _];
    [vm_compute; reflexivity|].
  destruct (select_is_rth_set_bit samples.scattered 0) as [_ Hnone];
    [vm_compute; reflexivity|].
  split; [exact Hsome|]. apply Hnone. left. reflexivity.
Defined.

End PopulationSpecs.

(** ** Searching for set bits *)

Section SearchSpecs.
Import bvector bvector_ops.

(** X6.  [find(pos)]: on a vector with no set bit it finds nothing; otherwise it
    returns the first set position. *)
Theorem find_is_first_set_bit (bv : t) :
  wf_bv bv = true ->
  match find bv with
  | None => forall i, 0 <= i < 2 ^ 32 -> get_bit bv i = false
  | Some p =>
      0 <= p < 2 ^ 32 /\ get_bit bv p = true
      /\ forall i, 0 <= i < p -> get_bit bv i = false
  end.
Proof. apply find_bits. Qed.

Lemma find_is_first_set_bit_witness :
  wf_bv samples.scattered = true
  /\ match find samples.scattered with
     | None => forall i, 0 <= i < 2 ^ 32 -> get_bit samples.scattered i = false
     | Some p =>
         0 <= p < 2 ^ 32 /\ get_bit samples.scattered p = true
         /\ forall i, 0 <= i < p -> get_bit samples.scattered i = false
     end.
Proof.
  split; [vm_compute; reflexivity|].
  apply (find_is_first_set_bit samples.scattered). vm_compute; reflexivity.
Defined.

(** X7.  [find_reverse(pos)]: on a vector with no set bit it finds nothing;
    otherwise it returns the last set position. *)
Theorem find_reverse_is_last_set_bit (bv : t) :
  wf_bv bv = true ->
  match find_reverse bv with
  | None => forall i, 0 <= i < 2 ^ 32 -> get_bit bv i = false
  | Some p =>
      0 <= p < 2 ^ 32 /\ get_bit bv p = true
      /\ forall i, p < i < 2 ^ 32 -> get_bit bv i = false
  end.
Proof. apply find_reverse_bits. Qed.

Lemma find_reverse_is_last_set_bit_witness :
  wf_bv samples.scattered = true
  /\ match find_reverse samples.scattered with
     | None => forall i, 0 <= i < 2 ^ 32 -> get_bit samples.scattered i = false
     | Some p =>
         0 <= p < 2 ^ 32 /\ get_bit samples.scattered p = true
         /\ forall i, p < i < 2 ^ 32 -> get_bit samples.scattered i = false
     end.
Proof.
  split; [vm_compute; reflexivity|].
  apply (find_reverse_is_last_set_bit samples.scattered). vm_compute; reflexivity.
Defined.

(** X8.  [check_or_next(prev)] returns the first set position at or after
    [prev]; when no position from [prev] on is set it returns 0. *)
Theorem check_or_next_is_next_set_bit (bv : t) (prev : Z) :
  wf_bv bv = true -> 0 <= prev < 2 ^ 32 ->
  (check_or_next bv prev = 0
   /\ forall i, prev <= i < 2 ^ 32 -> get_bit bv i = false)
  \/ (prev <= check_or_next bv prev < 2 ^ 32
      /\ get_bit bv (check_or_next bv prev) = true
      /\ forall i, prev <= i < check_or_next bv prev -> get_bit bv i = false).
Proof. apply check_or_next_bits. Qed.

Lemma check_or_next_is_next_set_bit_witness :
  wf_bv samples.scattered = true /\ 0 <= 4 < 2 ^ 32
  /\ ((check_or_next samples.scattered 4 = 0
       /\ forall i, 4 <= i < 2 ^ 32 -> get_bit samples.scattered i = false)
      \/ (4 <= check_or_next samples.scattered 4 < 2 ^ 32
          /\ get_bit samples.scattered (check_or_next samples.scattered 4) = true
          /\ forall i, 4 <= i < check_or_next samples.scattered 4 ->
               get_bit samples.scattered i = false)).
Proof.
  split; [vm_compute; reflexivity|]. split; [lia|].
  apply (check_or_next_is_next_set_bit samples.scattered 4);
    [vm_compute; reflexivity|lia].
Defined.

(** X9.  [get_next(prev)] returns the first set position after [prev], and 0
    exactly when no position after [prev] is set. *)
Theorem get_next_is_following_set_bit (bv : t) (prev : Z) :
  wf_bv bv = true -> 0 <= prev -> prev + 1 < id_max ->
  (get_next bv prev = 0
   /\ forall i, prev < i < 2 ^ 32 -> get_bit bv i = false)
  \/ (prev < get_next bv prev < 2 ^ 32
      /\ get_bit bv (get_next bv prev) = true
      /\ forall i, prev < i < get_next bv prev -> get_bit bv i = false).
Proof.
  intros Hwf Hp Hp1. unfold get_next. cbv zeta. unfold id_max in *.
  assert (u32 (prev + 1) = prev + 1) as -> by (apply Z.mod_small; lia).
  destruct (Z.eqb_spec (prev + 1) (2 ^ 32 - 1)) as [E|_]; [lia|].
  destruct (check_or_next_bits bv (prev + 1) Hwf ltac:(lia))
    as [[Hr Hclear]|(Hr & Hbit & Hclear)].
  - left. split; [exact Hr|]. intros i Hi. apply Hclear. lia.
  - right. split; [lia|]. split; [exact Hbit|]. intros i Hi. apply Hclear. lia.
Qed.

Lemma get_next_is_following_set_bit_witness :
  wf_bv samples.scattered = true /\ 0 <= 3 /\ 3 + 1 < id_max
  /\ ((get_next samples.scattered 3 = 0
       /\ forall i, 3 < i < 2 ^ 32 -> get_bit samples.scattered i = false)
      \/ (3 < get_next samples.scattered 3 < 2 ^ 32
          /\ get_bit samples.scattered (get_next samples.scattered 3) = true
          /\ forall i, 3 < i < get_next samples.scattered 3 ->
               get_bit samples.scattered i = false)).
Proof.
  split; [vm_compute; reflexivity|]. split; [lia|]. split; [unfold id_max; lia|].
  apply (get_next_is_following_set_bit samples.scattered 3);
    [vm_compute; reflexivity|lia|unfold id_max; lia].
Defined.

(** X10.  [find(from, pos)] on a position below [id_max]: it finds the first set
    position at or after [from], and reports nothing exactly when there is
    none. *)
Theorem find_from_is_next_set_bit (assert_throw : bool) (bv : t) (from : Z) :
  wf_bv bv = true -> 0 <= from < id_max ->
  exists o,
    find_from assert_throw bv from = Done o
    /\ match o with
       | None => forall i, from <= i < 2 ^ 32 -> get_bit bv i = false
       | Some p =>
           from <= p < 2 ^ 32 /\ get_bit bv p = true
           /\ forall i, from <= i < p -> get_bit bv i = false
       end.
Proof.
  intros Hwf Hfrom. unfold find_from, BM_ASSERT_THROW.
  rewrite (proj2 (Z.ltb_lt _ _)) by lia. cbn [negb]. rewrite andb_false_r.
  unfold id_max in Hfrom.
  destruct (Z.eqb_spec from 0) as [->|Hne].
  - eexists. split; [reflexivity|].
    pose proof (find_bits bv Hwf) as H.
    destruct (find bv) as [p|]; [|exact H].
    destruct H as (Hp & Hbit & Hclear). split; [lia|]. split; assumption.
  - eexists. split; [reflexivity|].
    destruct (check_or_next_bits bv from Hwf ltac:(lia))
      as [[Hr Hclear]|(Hr & Hbit & Hclear)].
    + rewrite Hr. cbn. exact Hclear.
    + destruct (Z.eqb_spec (check_or_next bv from) 0) as [E|_]; [lia|]. cbn [negb].
      split; [exact Hr|]. split; assumption.
Qed.

Lemma find_from_is_next_set_bit_witness :
  wf_bv samples.scattered = true /\ 0 <= 22000 < id_max
  /\ exists o,
       find_from true samples.scattered 22000 = Done o
       /\ match o with
          | None => forall i, 22000 <= i < 2 ^ 32 -> get_bit samples.scattered i = false
          | Some p =>
              22000 <= p < 2 ^ 32 /\ get_bit samples.scattered p = true
              /\ forall i, 22000 <= i < p -> get_bit samples.scattered i = false
          end.
Proof.
  split; [vm_compute; reflexivity|]. split; [unfold id_max; lia|].
  apply (find_from_is_next_set_bit true samples.scattered 22000);
    [vm_compute; reflexivity|unfold id_max; lia].
Defined.

(** X11.  [find_range(first, last)]: nothing on a vector with no set bit;
    otherwise the first and the last set position, so that every set
    position lies between them. *)
Theorem find_range_bounds_set_bits (bv : t) :
  wf_bv bv = true ->
  match find_range bv with
  | None => forall i, 0 <= i < 2 ^ 32 -> get_bit bv i = false
  | Some (first, last) =>
      0 <= first <= last /\ last < 2 ^ 32
      /\ get_bit bv first = true /\ get_bit bv last = true
      /\ forall i, 0 <= i < 2 ^ 32 -> get_bit bv i = true -> first <= i <= last
  end.
Proof.
  intros Hwf. unfold find_range.
  pose proof (find_bits bv Hwf) as Hf.
  pose proof (find_reverse_bits bv Hwf) as Hl.
  destruct (find bv) as [a|]; [|exact Hf].
  destruct Hf as (Ha & Hbita & Hbefore).
  destruct (find_reverse bv) as [b|].
  - destruct Hl as (Hb & Hbitb & Hafter).
    assert (a <= b) as Hab.
    { destruct (Z_le_gt_dec a b) as [H|H]; [exact H|].
      rewrite (Hafter a ltac:(lia)) in Hbita. discriminate. }
    split; [lia|]. split; [lia|]. split; [exact Hbita|]. split; [exact Hbitb|].
    intros i Hi Hbit. split.
    + destruct (Z_le_gt_dec a i) as [H|H]; [exact H|].
      rewrite (Hbefore i ltac:(lia)) in Hbit. discriminate.
    + destruct (Z_le_gt_dec i b) as [H|H]; [exact H|].
      rewrite (Hafter i ltac:(lia)) in Hbit. discriminate.
  - exact Hl.
Qed.

Lemma find_range_bounds_set_bits_witness :
  wf_bv samples.scattered = true
  /\ match find_range samples.scattered with
     | None => forall i, 0 <= i < 2 ^ 32 -> get_bit samples.scattered i = false
     | Some (first, last) =>
         0 <= first <= last /\ last < 2 ^ 32
         /\ get_bit samples.scattered first = true
         /\ get_bit samples.scattered last = true
         /\ forall i, 0 <= i < 2 ^ 32 -> get_bit samples.scattered i = true ->
              first <= i <= last
     end.
Proof.
  split; [vm_compute; reflexivity|].
  apply (find_range_bounds_set_bits samples.scattered). vm_compute; reflexivity.
Defined.

End SearchSpecs.

(** ** Writing one bit *)

Section WriteSpecs.
Import bvector bvector_ops.

Lemma block_number_of_position (nb : nat) (q : Z) :
  0 <= q < bits_in_block ->
  Z.to_nat ((Z.of_nat nb * bits_in_block + q) / bits_in_block) = nb.
Proof.
  intros Hq.
  replace ((Z.of_nat nb * bits_in_block + q) / bits_in_block) with (Z.of_nat nb).
  - apply Nat2Z.id.
  - apply Z.div_unique with (r := q); unfold bits_in_block in *; lia.
Qed.

Lemma gap_coded_same_tree (bv bv' : t) (nb : nat) :
  (forall i, blocks_manager.get_topblock (blockman_ bv') i
             = blocks_manager.get_topblock (blockman_ bv) i) ->
  new_blocks_strat_ bv' = new_blocks_strat_ bv ->
  gap_coded bv' nb = gap_coded bv nb.
Proof.
  intros Htree Hstrat.
  unfold gap_coded, block_at, blocks_manager.get_block_ptr, get_new_blocks_strat.
  rewrite Htree, Hstrat. reflexivity.
Qed.

(** X12.  [set_bit_no_check(n, val)] leaves the vector with [val] at position [n]
    and every other position, the size and the settings as they were; it
    returns whether the bit changed. *)
Theorem set_bit_no_check_writes (bv : t) (n : Z) (val : bool) :
  wf_bv bv = true -> is_init bv = true -> 0 <= n < 2 ^ 32 ->
  bit_written bv (fst (set_bit_no_check bv n val)) n val
  /\ snd (set_bit_no_check bv n val) = xorb (get_bit bv n) val.
Proof.
  intros Hwf Hinit Hn.
  destruct (position_block n Hn) as (nb & q & Hnb & Hq & ->).
  apply set_bit_no_check_written; assumption.
Qed.

Lemma set_bit_no_check_writes_witness :
  wf_bv samples.scattered = true /\ is_init samples.scattered = true
  /\ 0 <= 21900 < 2 ^ 32
  /\ bit_written samples.scattered
       (fst (set_bit_no_check samples.scattered 21900 false)) 21900 false
  /\ snd (set_bit_no_check samples.scattered 21900 false)
     = xorb (get_bit samples.scattered 21900) false.
Proof.
  split; [vm_compute; reflexivity|]. split; [vm_compute; reflexivity|].
  split; [lia|].
  apply (set_bit_no_check_writes samples.scattered 21900 false);
    [vm_compute; reflexivity|vm_compute; reflexivity|lia].
Defined.

(** X13.  [set_bit(n, val)] for [n < id_max] succeeds: bit [n] becomes [val], no
    other bit changes, the size grows to [n + 1] when [n] was beyond it, and
    the result tells whether bit [n] changed. *)
Theorem set_bit_grows_and_writes
    (assert_throw : bool) (bv : t) (n : Z) (val : bool) :
  wf_bv bv = true -> 0 <= n < id_max ->
  exists bv',
    set_bit assert_throw bv n val = Done (bv', xorb (get_bit bv n) val)
    /\ wf_bv bv' = true
    /\ size_ bv' = Z.max (size_ bv) (n + 1)
    /\ forall pos, 0 <= pos < 2 ^ 32 ->
         get_bit bv' pos = if pos =? n then val else get_bit bv pos.
Proof. apply set_bit_done. Qed.

Lemma set_bit_grows_and_writes_witness :
  wf_bv samples.nine_of_ten = true /\ 0 <= 40 < id_max
  /\ exists bv',
       set_bit true samples.nine_of_ten 40 true
       = Done (bv', xorb (get_bit samples.nine_of_ten 40) true)
       /\ wf_bv bv' = true
       /\ size_ bv' = Z.max (size_ samples.nine_of_ten) (40 + 1)
       /\ forall pos, 0 <= pos < 2 ^ 32 ->
            get_bit bv' pos
            = if pos =? 40 then true else get_bit samples.nine_of_ten pos.
Proof.
  split; [vm_compute; reflexivity|]. split; [unfold id_max; lia|].
  apply (set_bit_grows_and_writes true samples.nine_of_ten 40 true);
    [vm_compute; reflexivity|unfold id_max; lia].
Defined.

(** X14.  [clear_bit(n)] for [n < id_max] leaves bit [n] clear and returns whether
    it was set; a position beyond the size still makes the vector grow to
    [n + 1]. *)
Theorem clear_bit_clears_and_reports (assert_throw : bool) (bv : t) (n : Z) :
  wf_bv bv = true -> 0 <= n < id_max ->
  exists bv',
    clear_bit assert_throw bv n = Done (bv', get_bit bv n)
    /\ get_bit bv' n = false
    /\ size_ bv' = Z.max (size_ bv) (n + 1)
    /\ forall pos, 0 <= pos < 2 ^ 32 -> pos <> n -> get_bit bv' pos = get_bit bv pos.
Proof.
  intros Hwf Hn. unfold clear_bit.
  destruct (set_bit_done assert_throw bv n false Hwf Hn)
    as (bv' & Hres & _ & Hsz & Hbits).
  rewrite xorb_false_r in Hres.
  exists bv'. split; [exact Hres|].
  assert (0 <= n < 2 ^ 32) as Hn' by (unfold id_max in Hn; lia).
  split; [rewrite (Hbits n Hn'), Z.eqb_refl; reflexivity|].
  split; [exact Hsz|].
  intros pos Hpos Hne. rewrite (Hbits pos Hpos).
  destruct (Z.eqb_spec pos n); [contradiction|reflexivity].
Qed.

Lemma clear_bit_clears_and_reports_witness :
  wf_bv samples.scattered = true /\ 0 <= 70000 < id_max
  /\ exists bv',
       clear_bit true samples.scattered 70000
       = Done (bv', get_bit samples.scattered 70000)
       /\ get_bit bv' 70000 = false
       /\ size_ bv' = Z.max (size_ samples.scattered) (70000 + 1)
       /\ forall pos, 0 <= pos < 2 ^ 32 -> pos <> 70000 ->
            get_bit bv' pos = get_bit samples.scattered pos.
Proof.
  split; [vm_compute; reflexivity|]. split; [unfold id_max; lia|].
  apply (clear_bit_clears_and_reports true samples.scattered 70000);
    [vm_compute; reflexivity|unfold id_max; lia].
Defined.

(** X15.  [inc(n)] flips bit [n], leaves every other bit as it was, and returns
    the value the bit had: the carry of the increment. *)
Theorem inc_flips_and_carries (bv : t) (n : Z) :
  wf_bv bv = true -> is_init bv = true -> 0 <= n < 2 ^ 32 ->
  bit_written bv (fst (inc bv n)) n (negb (get_bit bv n))
  /\ snd (inc bv n) = get_bit bv n.
Proof.
  intros Hwf Hinit Hn.
  destruct (position_block n Hn) as (nb & q & Hnb & Hq & ->).
  apply inc_written; assumption.
Qed.

Lemma inc_flips_and_carries_witness :
  wf_bv samples.scattered = true /\ is_init samples.scattered = true
  /\ 0 <= 3 < 2 ^ 32
  /\ bit_written samples.scattered (fst (inc samples.scattered 3)) 3
       (negb (get_bit samples.scattered 3))
  /\ snd (inc samples.scattered 3) = get_bit samples.scattered 3.
Proof.
  split; [vm_compute; reflexivity|]. split; [vm_compute; reflexivity|].
  split; [lia|].
  apply (inc_flips_and_carries samples.scattered 3);
    [vm_compute; reflexivity|vm_compute; reflexivity|lia].
Defined.

(** X16.  Two [flip(n)] in a row give back the bits of the vector. *)
Theorem flip_twice_restores (bv : t) (n : Z) :
  wf_bv bv = true -> is_init bv = true -> 0 <= n < 2 ^ 32 ->
  forall pos, 0 <= pos < 2 ^ 32 -> get_bit (flip (flip bv n) n) pos = get_bit bv pos.
Proof.
  intros Hwf Hinit Hn pos Hpos. unfold flip.
  destruct (position_block n Hn) as (nb & q & Hnb & Hq & ->).
  destruct (inc_written bv Hwf Hinit nb Hnb q Hq)
    as [(Hwf1 & Hinit1 & _ & _ & _ & Hbits1) _].
  destruct (inc_written _ Hwf1 Hinit1 nb Hnb q Hq)
    as [(_ & _ & _ & _ & _ & Hbits2) _].
  rewrite (Hbits2 pos Hpos), (Hbits1 pos Hpos).
  destruct (Z.eqb_spec pos (Z.of_nat nb * bits_in_block + q)) as [->|_];
    [|reflexivity].
  rewrite (Hbits1 _ Hn), Z.eqb_refl. apply negb_involutive.
Qed.

Lemma flip_twice_restores_witness :
  wf_bv samples.scattered = true /\ is_init samples.scattered = true
  /\ 0 <= 21900 < 2 ^ 32
  /\ forall pos, 0 <= pos < 2 ^ 32 ->
       get_bit (flip (flip samples.scattered 21900) 21900) pos
       = get_bit samples.scattered pos.
Proof.
  split; [vm_compute; reflexivity|]. split; [vm_compute; reflexivity|].
  split; [lia|].
  apply (flip_twice_restores samples.scattered 21900);
    [vm_compute; reflexivity|vm_compute; reflexivity|lia].
Defined.

(** X17.  [set_bit_conditional(n, val, condition)] is a compare-and-set: bit [n]
    becomes [val] exactly when it held [condition], nothing else changes,
    and the result is true exactly when the bit changed.  With
    [val == condition] the call returns at once and does not even grow the
    vector. *)
Theorem set_bit_conditional_compares_and_sets
    (assert_throw : bool) (bv : t) (n : Z) (val condition : bool) :
  wf_bv bv = true -> is_init bv = true -> 0 <= n < id_max ->
  exists bv',
    set_bit_conditional assert_throw bv n val condition
    = Done (bv', negb (Bool.eqb val condition) && Bool.eqb (get_bit bv n) condition)
    /\ size_ bv' = (if Bool.eqb val condition then size_ bv
                    else Z.max (size_ bv) (n + 1))
    /\ forall pos, 0 <= pos < 2 ^ 32 ->
         get_bit bv' pos
         = if (pos =? n) && Bool.eqb (get_bit bv n) condition then val
           else get_bit bv pos.
Proof.
  intros Hwf Hinit Hn. unfold set_bit_conditional.
  destruct (Bool.eqb val condition) eqn:Evc; cbn [negb andb].
  - exists bv. split; [reflexivity|]. split; [reflexivity|].
    intros pos Hpos. apply eqb_prop in Evc. subst condition.
    destruct (Z.eqb_spec pos n) as [->|_]; [|reflexivity].
    destruct (Bool.eqb (get_bit bv n) val) eqn:E; cbn [andb]; [|reflexivity].
    apply eqb_prop in E. congruence.
  - assert (exists bv2,
              (if n >=? size_ bv
               then resize assert_throw bv (if n =? id_max then id_max else n + 1)
               else Done bv) = Done bv2
              /\ wf_bv bv2 = true /\ is_init bv2 = true
              /\ size_ bv2 = Z.max (size_ bv) (n + 1)
              /\ forall i, blocks_manager.get_topblock (blockman_ bv2) i
                           = blocks_manager.get_topblock (blockman_ bv) i)
      as (bv2 & -> & Hwf2 & Hinit2 & Hsz2 & Htb2).
    { destruct (Z.geb_spec n (size_ bv)) as [Hge|Hlt].
      - destruct (Z.eqb_spec n id_max) as [|_]; [lia|].
        destruct (resize_grow assert_throw bv (n + 1) Hwf ltac:(lia) ltac:(lia))
          as (bv2 & Hres & Hwf2 & Hinit2 & Hsz2 & _ & _ & Htb2).
        exists bv2. split; [exact Hres|]. split; [exact Hwf2|].
        split; [exact Hinit2|]. split; [lia|]. exact Htb2.
      - exists bv. split; [reflexivity|]. split; [exact Hwf|].
        split; [exact Hinit|]. split; [lia|]. reflexivity. }
    cbn [obind].
    assert (0 <= n < 2 ^ 32) as Hn' by (unfold id_max in Hn; lia).
    destruct (position_block n Hn') as (nb & q & Hnb & Hq & ->).
    destruct (set_bit_conditional_impl_written bv2 Hwf2 Hinit2 nb Hnb q Hq
                val condition) as [Hw Hchg].
    cbv zeta in Hw, Hchg.
    rewrite (get_bit_same_tree bv bv2 Htb2) in Hw, Hchg.
    destruct (set_bit_conditional_impl bv2 (Z.of_nat nb * bits_in_block + q)
                val condition) as [bv' changed].
    cbn [fst snd] in *. subst changed.
    exists bv'. split.
    + f_equal. f_equal.
      destruct (get_bit bv (Z.of_nat nb * bits_in_block + q)), val, condition;
        try reflexivity; discriminate Evc.
    + split; [destruct Hw as (_ & _ & -> & _); exact Hsz2|].
      intros pos Hpos.
      rewrite (bit_written_same_tree bv bv2 bv' _ _ Htb2 Hw pos Hpos).
      destruct (pos =? Z.of_nat nb * bits_in_block + q) eqn:Epos; cbn [andb];
        [|reflexivity].
      apply Z.eqb_eq in Epos. subst pos.
      destruct (Bool.eqb (get_bit bv (Z.of_nat nb * bits_in_block + q)) condition);
        reflexivity.
Qed.

Lemma set_bit_conditional_compares_and_sets_witness :
  wf_bv samples.scattered = true /\ is_init samples.scattered = true
  /\ 0 <= 3 < id_max
  /\ exists bv',
       set_bit_conditional true samples.scattered 3 false true
       = Done (bv', negb (Bool.eqb false true)
                    && Bool.eqb (get_bit samples.scattered 3) true)
       /\ size_ bv' = (if Bool.eqb false true then size_ samples.scattered
                       else Z.max (size_ samples.scattered) (3 + 1))
       /\ forall pos, 0 <= pos < 2 ^ 32 ->
            get_bit bv' pos
            = if (pos =? 3) && Bool.eqb (get_bit samples.scattered 3) true then false
              else get_bit samples.scattered pos.
Proof.
  split; [vm_compute; reflexivity|]. split; [vm_compute; reflexivity|].
  split; [unfold id_max; lia|].
  apply (set_bit_conditional_compares_and_sets true samples.scattered 3 false true);
    [vm_compute; reflexivity|vm_compute; reflexivity|unfold id_max; lia].
Defined.

(** X18.  [set_bit_and(n, val)] depends on how the block of [n] is kept.  In a
    GAP-block bit [n] becomes its conjunction with [val] and the result
    tells whether it was cleared.  In a bit-block the bit keeps its value
    whatever [val] is, and the result is true exactly when [val] is set and
    the bit is clear. *)
Theorem set_bit_and_by_block_kind
    (assert_throw : bool) (bv : t) (n : Z) (val : bool) :
  wf_bv bv = true -> 0 <= n < size_ bv -> size_ bv <= 2 ^ 32 ->
  let gap := gap_coded bv (Z.to_nat (n / bits_in_block)) in
  let old := get_bit bv n in
  exists bv',
    set_bit_and assert_throw bv n val
    = Done (bv', if gap then old && negb val else val && negb old)
    /\ wf_bv bv' = true /\ size_ bv' = size_ bv
    /\ forall pos, 0 <= pos < 2 ^ 32 ->
         get_bit bv' pos
         = if pos =? n then (if gap then val && old else old) else get_bit bv pos.
Proof.
  intros Hwf Hn Hsz. cbv zeta. unfold set_bit_and, BM_ASSERT_THROW.
  destruct (Z.ltb_spec n (size_ bv)) as [_|]; [|lia]. cbn [negb].
  rewrite andb_false_r. cbv zeta.
  destruct (init_kept bv Hwf) as (Hwf1 & Hinit1 & Hsz1 & Hst1 & Hgl1 & Htb1).
  destruct (position_block n ltac:(lia)) as (nb & q & Hnb & Hq & ->).
  rewrite (block_number_of_position nb q Hq).
  destruct (and_bit_no_check_written (init bv) Hwf1 Hinit1 nb Hnb q Hq val)
    as [Hw Hres].
  cbv zeta in Hw, Hres.
  rewrite (get_bit_same_tree bv (init bv) Htb1),
    (gap_coded_same_tree bv (init bv) nb Htb1 Hst1) in Hw, Hres.
  destruct (and_bit_no_check (init bv) (Z.of_nat nb * bits_in_block + q) val)
    as [bv' res].
  cbn [fst snd] in *. subst res.
  exists bv'. split; [reflexivity|]. split; [apply Hw|].
  split; [destruct Hw as (_ & _ & -> & _); exact Hsz1|].
  apply (bit_written_same_tree bv (init bv) bv' _ _ Htb1 Hw).
Qed.

Lemma set_bit_and_by_block_kind_witness :
  wf_bv samples.scattered = true /\ 0 <= 3 < size_ samples.scattered
  /\ size_ samples.scattered <= 2 ^ 32
  /\ exists bv',
       set_bit_and true samples.scattered 3 false
       = Done (bv', if gap_coded samples.scattered (Z.to_nat (3 / bits_in_block))
                    then get_bit samples.scattered 3 && negb false
                    else false && negb (get_bit samples.scattered 3))
       /\ wf_bv bv' = true /\ size_ bv' = size_ samples.scattered
       /\ forall pos, 0 <= pos < 2 ^ 32 ->
            get_bit bv' pos
            = if pos =? 3
              then (if gap_coded samples.scattered (Z.to_nat (3 / bits_in_block))
                    then false && get_bit samples.scattered 3
                    else get_bit samples.scattered 3)
              else get_bit samples.scattered pos.
Proof.
  split; [vm_compute; reflexivity|].
  split; [split; [lia|vm_compute; reflexivity]|].
  split; [vm_compute; discriminate|].
  apply (set_bit_and_by_block_kind true samples.scattered 3 false);
    [vm_compute; reflexivity|split; [lia|vm_compute; reflexivity]
    |vm_compute; discriminate].
Defined.

(** X19.  A write that changes bit [n] moves [count()] by one, in the arithmetic
    of the 32-bit result. *)
Theorem count_after_set_bit_no_check (bv : t) (n : Z) (val : bool) :
  wf_bv bv = true -> is_init bv = true -> 0 <= n < 2 ^ 32 ->
  count (fst (set_bit_no_check bv n val))
  = u32 (count bv + Z.b2z val - Z.b2z (get_bit bv n)).
Proof.
  intros Hwf Hinit Hn.
  destruct (position_block n Hn) as (nb & q & Hnb & Hq & ->).
  destruct (set_bit_no_check_written bv Hwf Hinit nb Hnb q Hq val)
    as [(Hwf' & _ & _ & _ & _ & Hbits) _].
  assert (forall v, wf_bv v = true ->
            count v = u32 (set_bits_from v 0 (Z.to_nat (2 ^ 32)))) as Hcount.
  { intros v Hv. rewrite <- (count_before_all v Hv).
    apply (count_total v Hv). intros m Hm. apply no_blocks_past_the_end; assumption. }
  rewrite (Hcount _ Hwf'), (Hcount _ Hwf).
  rewrite (set_bits_from_written bv _ _ val 0 (Z.to_nat (2 ^ 32)) ltac:(lia)
             ltac:(lia) Hbits).
  destruct (Z.leb_spec 0 (Z.of_nat nb * bits_in_block + q)); [|lia].
  destruct (Z.ltb_spec (Z.of_nat nb * bits_in_block + q)
              (0 + Z.of_nat (Z.to_nat (2 ^ 32)))); [|lia].
  cbn [andb]. unfold u32.
  rewrite <- Z.add_sub_assoc, (Z.add_mod_idemp_l _ _ (2 ^ 32)) by lia.
  f_equal; lia.
Qed.

Lemma count_after_set_bit_no_check_witness :
  wf_bv samples.scattered = true /\ is_init samples.scattered = true
  /\ 0 <= 500 < 2 ^ 32
  /\ count (fst (set_bit_no_check samples.scattered 500 true))
     = u32 (count samples.scattered + Z.b2z true
            - Z.b2z (get_bit samples.scattered 500)).
Proof.
  split; [vm_compute; reflexivity|]. split; [vm_compute; reflexivity|].
  split; [lia|].
  apply (count_after_set_bit_no_check samples.scattered 500 true);
    [vm_compute; reflexivity|vm_compute; reflexivity|lia].
Defined.

End WriteSpecs.

(** ** The size of a vector *)

Section SizeSpecs.
Import bvector bvector_ops.

(** X20.  [resize(new_size)] to a larger size succeeds, records the new size and
    leaves every bit as it was. *)
Theorem resize_grow_keeps_bits (assert_throw : bool) (bv : t) (new_size : Z) :
  wf_bv bv = true -> size_ bv < new_size -> 0 <= new_size <= id_max ->
  exists bv',
    resize assert_throw bv new_size = Done bv'
    /\ wf_bv bv' = true /\ size_ bv' = new_size
    /\ forall pos, get_bit bv' pos = get_bit bv pos.
Proof.
  intros Hwf Hlt Hb.
  destruct (resize_grow assert_throw bv new_size Hwf Hlt Hb)
    as (bv' & Hres & Hwf' & _ & Hsz & _ & _ & Htb).
  exists bv'. split; [exact Hres|]. split; [exact Hwf'|]. split; [exact Hsz|].
  apply get_bit_same_tree, Htb.
Qed.

Lemma resize_grow_keeps_bits_witness :
  wf_bv samples.nine_of_ten = true /\ size_ samples.nine_of_ten < 100000
  /\ 0 <= 100000 <= id_max
  /\ exists bv',
       resize true samples.nine_of_ten 100000 = Done bv'
       /\ wf_bv bv' = true /\ size_ bv' = 100000
       /\ forall pos, get_bit bv' pos = get_bit samples.nine_of_ten pos.
Proof.
  split; [vm_compute; reflexivity|]. split; [vm_compute; reflexivity|].
  split; [unfold id_max; lia|].
  apply (resize_grow_keeps_bits true samples.nine_of_ten 100000);
    [vm_compute; reflexivity|vm_compute; reflexivity|unfold id_max; lia].
Defined.

(** X21.  [sync_size()] on a vector whose position [id_max] is clear changes no
    bit and never shrinks; afterwards every set bit lies below the size, and
    a size that moved is the last set position plus one. *)
Theorem sync_size_covers_set_bits (assert_throw : bool) (bv : t) :
  wf_bv bv = true -> get_bit bv id_max = false ->
  exists bv',
    sync_size assert_throw bv = Done bv'
    /\ (forall pos, get_bit bv' pos = get_bit bv pos)
    /\ size_ bv <= size_ bv'
    /\ (forall p, 0 <= p < 2 ^ 32 -> get_bit bv p = true -> p < size_ bv')
    /\ (size_ bv' = size_ bv
        \/ (0 < size_ bv' /\ get_bit bv (size_ bv' - 1) = true)).
Proof.
  intros Hwf Hmax. unfold sync_size.
  assert (forall p, 0 <= p < 2 ^ 32 -> get_bit bv p = true -> p < id_max) as Hbelow.
  { intros p Hp Hset. destruct (Z.eq_dec p id_max) as [->|Hne]; [congruence|].
    unfold id_max in *. lia. }
  destruct (Z.geb_spec (size_ bv) id_max) as [Hbig|Hsmall].
  { exists bv. split; [reflexivity|]. split; [reflexivity|]. split; [lia|].
    split; [|left; reflexivity].
    intros p Hp Hset. specialize (Hbelow p Hp Hset). lia. }
  pose proof (find_reverse_bits bv Hwf) as Hlast.
  destruct (find_reverse bv) as [last|].
  - destruct Hlast as (Hrange & Hset & Hafter).
    pose proof (Hbelow last Hrange Hset) as Hlt.
    destruct (Z.geb_spec last (size_ bv)) as [Hge|Hin].
    + assert (u32 (last + 1) = last + 1) as ->
        by (apply Z.mod_small; unfold id_max in *; lia).
      destruct (resize_grow assert_throw bv (last + 1) Hwf ltac:(lia) ltac:(lia))
        as (bv' & Hres & _ & _ & Hsz & _ & _ & Htb).
      exists bv'. split; [exact Hres|].
      split; [apply get_bit_same_tree, Htb|]. rewrite Hsz. split; [lia|]. split.
      * intros p Hp Hp1. destruct (Z_lt_le_dec last p) as [Hgt|Hle]; [|lia].
        rewrite (Hafter p ltac:(lia)) in Hp1. discriminate.
      * right. split; [lia|]. replace (last + 1 - 1) with last by lia. exact Hset.
    + exists bv. split; [reflexivity|]. split; [reflexivity|]. split; [lia|].
      split; [|left; reflexivity].
      intros p Hp Hp1. destruct (Z_lt_le_dec last p) as [Hgt|Hle]; [|lia].
      rewrite (Hafter p ltac:(lia)) in Hp1. discriminate.
  - exists bv. split; [reflexivity|]. split; [reflexivity|]. split; [lia|].
    split; [|left; reflexivity].
    intros p Hp Hp1. rewrite (Hlast p Hp) in Hp1. discriminate.
Qed.

Lemma sync_size_covers_set_bits_witness :
  wf_bv (with_size samples.scattered 100) = true
  /\ get_bit (with_size samples.scattered 100) id_max = false
  /\ exists bv',
       sync_size true (with_size samples.scattered 100) = Done bv'
       /\ (forall pos, get_bit bv' pos = get_bit (with_size samples.scattered 100) pos)
       /\ size_ (with_size samples.scattered 100) <= size_ bv'
       /\ (forall p, 0 <= p < 2 ^ 32 ->
             get_bit (with_size samples.scattered 100) p = true -> p < size_ bv')
       /\ (size_ bv' = size_ (with_size samples.scattered 100)
           \/ (0 < size_ bv'
               /\ get_bit (with_size samples.scattered 100) (size_ bv' - 1) = true)).
Proof.
  split; [vm_compute; reflexivity|]. split; [vm_compute; reflexivity|].
  apply (sync_size_covers_set_bits true (with_size samples.scattered 100));
    vm_compute; reflexivity.
Defined.

End SizeSpecs.

(** ** The XOR filter *)

Section XorFilterSpecs.
Import bmxor.

(** X22.  [bit_block_xor] with a digest writes every word of the target: the XOR
    of the two source words in the waves selected by the digest, the word of
    [block] in the others. *)
Theorem bit_block_xor_by_digest (target block xor_block : list Z) (digest : Z) :
  length target = Z.to_nat set_block_size ->
  length (xor_filter.bit_block_xor target block xor_block digest)
  = Z.to_nat set_block_size
  /\ forall n, (n < Z.to_nat set_block_size)%nat ->
       rd (xor_filter.bit_block_xor target block xor_block digest) n
       = if Z.testbit digest (Z.of_nat (n / set_block_digest_wave_size))
         then Z.lxor (rd block n) (rd xor_block n)
         else rd block n.
Proof.
  intros Hlen.
  destruct (bit_block_xor_words target block xor_block digest) as [Hl Hrd].
  split; [congruence|]. intros n Hn. rewrite Hrd by (rewrite Hlen; exact Hn).
  destruct (Nat.ltb_spec n (block_waves * set_block_digest_wave_size)) as [_|H];
    [reflexivity|].
  exfalso. revert Hn H. unfold set_block_size, block_waves, set_block_digest_wave_size.
  lia.
Qed.

Lemma bit_block_xor_by_digest_witness :
  length xor_ref.block0 = Z.to_nat set_block_size
  /\ length (xor_filter.bit_block_xor xor_ref.block0 (xor_ref.block_w0 5)
               (xor_ref.block_w0 3) 1)
     = Z.to_nat set_block_size
  /\ forall n, (n < Z.to_nat set_block_size)%nat ->
       rd (xor_filter.bit_block_xor xor_ref.block0 (xor_ref.block_w0 5)
             (xor_ref.block_w0 3) 1) n
       = if Z.testbit 1 (Z.of_nat (n / set_block_digest_wave_size))
         then Z.lxor (rd (xor_ref.block_w0 5) n) (rd (xor_ref.block_w0 3) n)
         else rd (xor_ref.block_w0 5) n.
Proof.
  split; [vm_compute; reflexivity|].
  apply (bit_block_xor_by_digest xor_ref.block0 (xor_ref.block_w0 5)
           (xor_ref.block_w0 3) 1).
  vm_compute; reflexivity.
Defined.

(** X23.  The product is undone by a second [bit_block_xor] with the same
    reference block and digest: the block comes back word for word. *)
Theorem bit_block_xor_round_trip
    (target target' block xor_block : list Z) (digest : Z) :
  length block = Z.to_nat set_block_size ->
  length target = Z.to_nat set_block_size ->
  length target' = Z.to_nat set_block_size ->
  xor_filter.bit_block_xor target'
    (xor_filter.bit_block_xor target block xor_block digest) xor_block digest
  = block.
Proof.
  intros Hb Ht Ht'.
  destruct (bit_block_xor_words target block xor_block digest) as [Hl1 Hrd1].
  destruct (bit_block_xor_words target'
              (xor_filter.bit_block_xor target block xor_block digest)
              xor_block digest) as [Hl2 Hrd2].
  apply list_eq_rd; [congruence|]. intros n Hn.
  rewrite Hl2, Ht' in Hn.
  rewrite Hrd2 by (rewrite Ht'; exact Hn). rewrite Hrd1 by (rewrite Ht; exact Hn).
  destruct (Nat.ltb_spec n (block_waves * set_block_digest_wave_size)) as [_|H].
  - destruct (Z.testbit digest (Z.of_nat (n / set_block_digest_wave_size)));
      [|reflexivity].
    rewrite Z.lxor_assoc, Z.lxor_nilpotent, Z.lxor_0_r. reflexivity.
  - exfalso. revert Hn H.
    unfold set_block_size, block_waves, set_block_digest_wave_size. lia.
Qed.

Lemma bit_block_xor_round_trip_witness :
  length (xor_ref.block_w0 5) = Z.to_nat set_block_size
  /\ length xor_ref.block0 = Z.to_nat set_block_size
  /\ xor_filter.bit_block_xor xor_ref.block0
       (xor_filter.bit_block_xor xor_ref.block0 (xor_ref.block_w0 5)
          (xor_ref.block_w0 3) 1)
       (xor_ref.block_w0 3) 1
     = xor_ref.block_w0 5.
Proof.
  split; [vm_compute; reflexivity|]. split; [vm_compute; reflexivity|].
  apply (bit_block_xor_round_trip xor_ref.block0 xor_ref.block0
           (xor_ref.block_w0 5) (xor_ref.block_w0 3) 1);
    vm_compute; reflexivity.
Defined.

(** X24.  [bit_block_xor_change32] over [size] words returns, for the bits of the
    XOR of the two ranges taken from the lowest bit of the first word on,
    the number of runs of equal bits (one more than the number of changes)
    and the number of set bits. *)
Theorem bit_block_xor_change32_counts
    (block xor_block : list Z) (off size : nat) :
  forallb wf_word block = true -> forallb wf_word xor_block = true ->
  (0 < size)%nat -> 32 * Z.of_nat size < 2 ^ 32 ->
  bit_block_xor_change32 block xor_block off size
  = (1 + changes (xor_bits block xor_block off size),
     count_bits (xor_bits block xor_block off size)).
Proof.
  intros Hb Hx Hpos Hsize. destruct size as [|m]; [lia|].
  unfold bit_block_xor_change32. cbv zeta.
  replace (S m - 1)%nat with m by lia.
  destruct (counted_loop block xor_block off Hb Hx m Hsize) as (Hgc & Hbc & _).
  rewrite Hgc, Hbc. reflexivity.
Qed.

Lemma bit_block_xor_change32_counts_witness :
  forallb wf_word [5; 0; 4294967295] = true
  /\ forallb wf_word [3; 0; 1] = true
  /\ (0 < 3)%nat /\ 32 * Z.of_nat 3 < 2 ^ 32
  /\ bit_block_xor_change32 [5; 0; 4294967295] [3; 0; 1] 0 3
     = (1 + changes (xor_bits [5; 0; 4294967295] [3; 0; 1] 0 3),
        count_bits (xor_bits [5; 0; 4294967295] [3; 0; 1] 0 3)).
Proof.
  split; [reflexivity|]. split; [reflexivity|]. split; [lia|]. split; [lia|].
  apply (bit_block_xor_change32_counts [5; 0; 4294967295] [3; 0; 1] 0 3);
    [reflexivity|reflexivity|lia|lia].
Defined.

(** X25.  [best_metric(bc, gc)] of a block that is not all ones returns the least
    of [gc], [bc] and the number of clear bits; it names GC only when [gc]
    is strictly the least, and the clear-bit count whenever that is among
    the least.  For a block of all ones it returns [gc] as GC. *)
Theorem best_metric_is_least (bc gc : Z) :
  0 <= gc -> 0 <= bc <= gap_max_bits ->
  let ibc := gap_max_bits - bc in
  (bc = gap_max_bits -> xor_scanner.best_metric bc gc = (e_xor_match_GC, gc))
  /\ (bc < gap_max_bits ->
      snd (xor_scanner.best_metric bc gc) = Z.min gc (Z.min bc ibc)
      /\ (fst (xor_scanner.best_metric bc gc) = e_xor_match_GC
          <-> gc < bc /\ gc < ibc)
      /\ (fst (xor_scanner.best_metric bc gc) = e_xor_match_BC
          <-> bc <= gc /\ bc < ibc)
      /\ (fst (xor_scanner.best_metric bc gc) = e_xor_match_iBC
          <-> ibc <= gc /\ ibc <= bc)).
Proof.
  intros Hgc Hbc. cbv zeta. unfold xor_scanner.best_metric. cbv zeta.
  assert (u32 (gap_max_bits - bc) = gap_max_bits - bc) as ->
    by (apply Z.mod_small; unfold gap_max_bits in *; lia).
  split.
  - intros ->. rewrite Z.sub_diag. reflexivity.
  - intros Hlt.
    destruct (Z.eqb_spec (gap_max_bits - bc) 0) as [|_]; [lia|].
    destruct (Z.ltb_spec gc bc), (Z.ltb_spec gc (gap_max_bits - bc)),
      (Z.ltb_spec bc (gap_max_bits - bc)); cbn [fst snd];
      (split; [lia|]);
      repeat split; intros; try discriminate; try lia; try reflexivity.
Qed.

Lemma best_metric_is_least_witness :
  0 <= 40 /\ 0 <= 70 <= gap_max_bits
  /\ (70 = gap_max_bits -> xor_scanner.best_metric 70 40 = (e_xor_match_GC, 40))
  /\ (70 < gap_max_bits ->
      snd (xor_scanner.best_metric 70 40) = Z.min 40 (Z.min 70 (gap_max_bits - 70))
      /\ (fst (xor_scanner.best_metric 70 40) = e_xor_match_GC
          <-> 40 < 70 /\ 40 < gap_max_bits - 70)
      /\ (fst (xor_scanner.best_metric 70 40) = e_xor_match_BC
          <-> 70 <= 40 /\ 70 < gap_max_bits - 70)
      /\ (fst (xor_scanner.best_metric 70 40) = e_xor_match_iBC
          <-> gap_max_bits - 70 <= 40 /\ gap_max_bits - 70 <= 70)).
Proof.
  split; [lia|]. split; [unfold gap_max_bits; lia|].
  apply (best_metric_is_least 70 40); [lia|unfold gap_max_bits; lia].
Defined.

End XorFilterSpecs.

(** ** Looking up reference vectors *)

Section RefVectorSpecs.
Import bv_ref_vector.

(** X26.  [find(ref_idx)] returns the position of the first entry whose row index
    is [ref_idx], and [not_found()] when no entry has it. *)
Theorem find_is_first_row_match (rv : t) (ref_idx : Z) :
  Z.of_nat (length (ref_bvects_ rv)) < 2 ^ 32 ->
  (find rv ref_idx = not_found
   /\ forall k, (k < length (ref_bvects_ rv))%nat ->
        rd (ref_bvects_rows_ rv) k <> ref_idx)
  \/ (exists k, find rv ref_idx = Z.of_nat k
                /\ (k < length (ref_bvects_ rv))%nat
                /\ rd (ref_bvects_rows_ rv) k = ref_idx
                /\ forall k', (k' < k)%nat ->
                     rd (ref_bvects_rows_ rv) k' <> ref_idx).
Proof. apply find_cases. Qed.

Lemma find_is_first_row_match_witness :
  Z.of_nat (length (ref_bvects_ (add (add (add empty 7%nat 3) 9%nat 5) 8%nat 3))) < 2 ^ 32
  /\ ((find (add (add (add empty 7%nat 3) 9%nat 5) 8%nat 3) 3 = not_found
       /\ forall k, (k < length (ref_bvects_ (add (add (add empty 7%nat 3) 9%nat 5) 8%nat 3)))%nat ->
            rd (ref_bvects_rows_ (add (add (add empty 7%nat 3) 9%nat 5) 8%nat 3)) k <> 3)
      \/ (exists k, find (add (add (add empty 7%nat 3) 9%nat 5) 8%nat 3) 3 = Z.of_nat k
                    /\ (k < length (ref_bvects_ (add (add (add empty 7%nat 3) 9%nat 5) 8%nat 3)))%nat
                    /\ rd (ref_bvects_rows_ (add (add (add empty 7%nat 3) 9%nat 5) 8%nat 3)) k = 3
                    /\ forall k', (k' < k)%nat ->
                         rd (ref_bvects_rows_ (add (add (add empty 7%nat 3) 9%nat 5) 8%nat 3)) k'
                         <> 3)).
Proof.
  split; [vm_compute; reflexivity|].
  apply (find_is_first_row_match (add (add (add empty 7%nat 3) 9%nat 5) 8%nat 3) 3).
  vm_compute; reflexivity.
Defined.



(** X28.  After [build(bmatr)] every non-NULL row of the matrix is found by its
    row number, and the entry found holds the vector of that row and the
    row number; the number of a NULL row, or of no row, is not found. *)
Theorem build_finds_rows (rv : t) (bmatr : list (option bvector.addr)) (r : nat) :
  Z.of_nat (length bmatr) < 2 ^ 32 ->
  match bmatr !! r with
  | Some (Some bv) =>
      find (build rv bmatr) (Z.of_nat r) <> not_found
      /\ get_bv (build rv bmatr) (find (build rv bmatr) (Z.of_nat r)) = bv
      /\ get_row_idx (build rv bmatr) (find (build rv bmatr) (Z.of_nat r))
         = Z.of_nat r
  | _ => find (build rv bmatr) (Z.of_nat r) = not_found
  end.
Proof.
  intros Hlen. unfold build.
  destruct (add_vectors_rows (reset rv) bmatr Hlen) as (Hbv & Hrows & _).
  cbn [reset ref_bvects_ ref_bvects_rows_ rows_acc_ app] in Hbv, Hrows.
  set (rv' := add_vectors (reset rv) bmatr) in *.
  pose proof (live_rows_length bmatr 0) as Hlive.
  assert (length (ref_bvects_ rv') = length (live_rows bmatr 0)) as Hlen'
    by (rewrite Hbv; apply length_map).
  assert (not_found = 2 ^ 32 - 1) as Hnf by reflexivity.
  assert (forall k bv row, live_rows bmatr 0 !! k = Some (bv, row) ->
            rd (ref_bvects_rows_ rv') k = row
            /\ nth k (ref_bvects_ rv') 0%nat = bv
            /\ exists r', row = Z.of_nat r' /\ bmatr !! r' = Some (Some bv)) as Hentry.
  { intros k bv row Hk.
    destruct (live_rows_lookup bmatr 0 k bv row Hk) as (r' & -> & Hr' & _ & _).
    pose proof (lookup_lt_Some _ _ _ Hr') as Hr'len.
    split; [|split].
    - unfold rd. rewrite Hrows, list_lookup_fmap, Hk. cbn.
      unfold u32. apply Z.mod_small. lia.
    - rewrite Hbv. apply nth_lookup_Some with (d := 0%nat).
      rewrite list_lookup_fmap, Hk. reflexivity.
    - exists r'. split; [f_equal; lia|exact Hr']. }
  destruct (find_cases rv' (Z.of_nat r) ltac:(lia))
    as [[Hf Hnone]|(k & Hf & Hk & Hrow & _)].
  - destruct (bmatr !! r) as [[bv|]|] eqn:Er; try exact Hf.
    exfalso. destruct (live_rows_found bmatr 0 r bv Er) as [k Hk].
    destruct (Hentry k bv _ Hk) as (Hrd & _ & _).
    apply (Hnone k); [rewrite Hlen'; eapply lookup_lt_Some, Hk|].
    rewrite Hrd. reflexivity.
  - destruct (lookup_lt_is_Some_2 (live_rows bmatr 0) k ltac:(lia)) as [[bv' row] Hlk].
    destruct (Hentry k bv' row Hlk) as (Hrd & Hnth & r' & -> & Hr').
    rewrite Hrd in Hrow. apply Nat2Z.inj in Hrow. subst r'. rewrite Hr', Hf.
    split; [rewrite Hnf; lia|]. split.
    + unfold get_bv. rewrite Nat2Z.id. exact Hnth.
    + unfold get_row_idx. rewrite Nat2Z.id, Hrd. unfold u32. apply Z.mod_small.
      pose proof (lookup_lt_Some _ _ _ Hr'). lia.
Qed.

Lemma build_finds_rows_witness :
  Z.of_nat (length [Some 7%nat; None; Some 9%nat]) < 2 ^ 32
  /\ match [Some 7%nat; None; Some 9%nat] !! 2%nat with
     | Some (Some bv) =>
         find (build empty [Some 7%nat; None; Some 9%nat]) (Z.of_nat 2) <> not_found
         /\ get_bv (build empty [Some 7%nat; None; Some 9%nat])
              (find (build empty [Some 7%nat; None; Some 9%nat]) (Z.of_nat 2)) = bv
         /\ get_row_idx (build empty [Some 7%nat; None; Some 9%nat])
              (find (build empty [Some 7%nat; None; Some 9%nat]) (Z.of_nat 2))
            = Z.of_nat 2
     | _ => find (build empty [Some 7%nat; None; Some 9%nat]) (Z.of_nat 2) = not_found
     end.
Proof.
  split; [vm_compute; reflexivity|].
  apply (build_finds_rows empty [Some 7%nat; None; Some 9%nat] 2).
  vm_compute; reflexivity.
Defined.

End RefVectorSpecs.
